(* ===== verification/_CoqProject ===== *)
-Q . S2P
Prelude.v
CppString.v
Address.v
Uri.v
Validation.v
StringUtil.v
Bytes.v
SockAddr.v
DnsTypes.v
Config.v
Json.v
ConfigReader.v
DnsBuilder.v
DnsParser.v
DnsRoundtrip.v
DnsWire.v
DnsValidator.v
Io.v
SystemParser.v
Posix.v
Socket.v
Fd.v
Retry.v
Http.v
HttpExchange.v
HttpClient.v
NetDevices.v
DotResolver.v
DohResolver.v
Delivery.v
ClassicResolver.v
TlsConnection.v
DotTls.v
Dispatcher.v
DnsText.v
Batch.v
SystemDispatcher.v
SystemResolver.v
Cache.v
Registry.v
Scheduler.v
SchedulerWait.v
Updater.v
Mdns.v
UpdateCycle.v
Drivers.v
DriverLifetime.v
Manager.v
ManagerPool.v
Cli.v
Timestamp.v
Signing.v
Plugins.v
NamedFormat.v
SignedPlugins.v
DriverJson.v
Bundled.v
SignalWatcher.v
