(* ===== verification/Prelude.v ===== *)
(** * yaddnsc, a dynamic DNS client: a verification library

    yaddnsc keeps DNS records in step with the addresses of the host it runs
    on.  [src/main.cpp] reads a configuration, loads driver plugins, validates,
    and runs a loop: a scheduler says which subdomains are due, and for each of
    them a task on a thread pool finds the host's address, asks the DNS what it
    has, and calls the driver of the subdomain's provider when they differ.  The
    DNS is asked over UDP and TCP, TLS or HTTPS, with packets that the program
    builds, validates and parses itself.

    The library models that program by its components, one file each, on the
    definitions of this file.  A definition follows one function of the source,
    its guards in order; a theorem about it follows in the same file.

    ** Conventions

    Bytes, characters and strings are lists of integers; an integer of the
    source is a [Z], reduced where the source's type wraps ([u8], [u16], [u32]).
    A computation ends in an [outcome]: a value, an exception (or the error of a
    [std::expected]), undefined behaviour, or a loop's exhausted fuel.  [wp m Q
    T] says that [m] does neither of the last two, that its value is in [Q] and
    its exception in [T].  Code with effects runs in the state monad of Io.v
    over a world, which the interfaces of the network classes ([TlsConnectionBase],
    [SocketBase], [Stream], [Httplib], clock, random numbers) read and change; below
    those, the sockets and the TLS connections run over classes of system calls
    (Posix.v) and of OpenSSL's calls, whose worlds hold descriptors and objects.
    Code with threads is a step relation between states, of which every
    interleaving is an execution.  Code that is not the program's (libc's
    address conversion, OpenSSL, picohttpparser, cpp-httplib, glaze, libxml2, the
    dynamic loader) is a parameter; what is relied on is a class of laws whose
    names end in [Ok], with an instance in the examples.

    ** Files

    - Prelude.v: outcomes and their rules, lists, bits, tactics.  CppString.v:
      what is used of [std::string] and [std::from_chars].  Io.v: effects.
    - StringUtil.v ([include/string_util.hpp]), Bytes.v ([src/util/bytes.hpp]),
      Retry.v ([retry_util.hpp], [algorithm.hpp]), Signing.v and Timestamp.v
      ([signing.cpp]).
      Theorems: substitution equals its reference, retries are bounded, the text
      forms of digests decode, and those of times name the clock's second.
    - Address.v ([inet_address.cpp], [socket_addr.cpp]), SockAddr.v (socket addresses
      as the octets of a [sockaddr_storage], of which Address.v has the fields),
      Uri.v ([uri.cpp]), Validation.v ([validation.hpp]).  Theorems: addresses are
      well-typed however they were made, and survive the system's octets; the URI
      parser and the accessors of what it returns stay inside the string, but for the
      port of a text that has none, and invert writing; query parameters survive a
      round trip; the domain check is the label grammar, with a final label that the
      documented limit does not bind.
    - DnsTypes.v, DnsBuilder.v ([wire/builder.cpp]), DnsParser.v
      ([parser_native.cpp]), DnsRoundtrip.v, DnsWire.v, DnsValidator.v ([validator.cpp]).
      Theorems: the parser is total and in bounds on every packet; it decides the
      wire format, a grammar that DnsWire.v states without fuel or bit operations,
      compressed names included; it inverts the builder; a validated response echoes its query; where formatting
      a short record is undefined.
    - Http.v and HttpExchange.v ([src/http]), DotResolver.v, DohResolver.v,
      ClassicResolver.v ([src/dns/resolver]), Registry.v ([factory.cpp],
      [resolver_registry.cpp]), Delivery.v.  Theorems: requests cannot be split,
      exchanges take a bounded head and no more than the announced body (chunks are
      bounded when decoded) and deliver the peer's response however the transport
      cuts it, a DoH query sends its one packet at most twice, every resolver returns only validated responses and otherwise a
      documented error, and the factory builds the resolver that an address asks
      for.  Delivery.v: a query gets the answer of a server that answers, unless an
      earlier query has left its own on the connection.  DnsText.v: a lookup returns
      the texts that the octets of the response say, by the wire format, or the error
      of the code that they say.
    - Posix.v (a class of system calls), Fd.v ([fd.hpp], [cancellation_token.hpp]),
      Socket.v ([socket.cpp]), TlsConnection.v ([tls_connection.cpp],
      [cert_util.cpp]), NetDevices.v ([net_devices.cpp]), Mdns.v ([ip_source/mdns.cpp]).
      Theorems: what is sent and received is a stream of octets without loss or
      gap (for flags under which receiving consumes), a timed connect restores the
      descriptor's flags, a TLS connection verifies its peer and the peer's name (ghost
      state records the verification modes of contexts and SSL objects), and classic
      and mDNS queries leave no descriptor or membership behind.  Every descriptor has one owner, and a
      cancellation cancels one waiter.  DotTls.v puts DotResolver.v on TlsConnection.v:
      whatever happens in a query, the connection's peer is verified and no BIO lost.
    - Dispatcher.v and Batch.v ([dispatcher.cpp]): the sequential strategies, and
      the concurrent one as a step relation.  Theorems: batches end, what they
      return was answered by a resolver, and how a success can be lost.
    - SystemDispatcher.v ([dispatcher_system.cpp]), SystemResolver.v
      ([classic_system.cpp]), SystemParser.v ([parser_system.cpp]): the build over
      libresolv.  Theorems: its batches end and lose no success, it invents no
      records and agrees with the native dispatcher where that one is sequential,
      and its growing buffer makes a query end.
    - Cache.v ([src/util/cache.hpp]): the cache with a time to live, as a step
      relation.  Theorems: one computation per key, no lost waiter, values come
      from where they should.
    - Config.v ([config.h], [validator.hpp]): validation accepts exactly the
      valid configurations.  Json.v, ConfigReader.v ([parser.hpp], [config.cpp]) and
      DriverJson.v ([driver/*/config.hpp], [response.hpp]): the tables from which
      glaze reads and writes JSON, over a class for what it does with a table: texts
      are read back when they are plain, as glaze leaves control characters as they
      are, and a generic value that was read is one that is read back as itself.
      Theorems: what config show prints for a configuration of plain texts is
      read as the same configuration, and which keys each driver requires and allows.
    - Scheduler.v and SchedulerWait.v ([scheduler.cpp]): the timer queue over the
      interface of [std::priority_queue]; the wait with its stop request as a
      step relation.  Theorems: every due entry once, in order, or no return when
      an interval is not positive; what a lost notification costs.
    - HttpClient.v ([http_client.cpp]), Updater.v ([updater.cpp], [src/ip_source]):
      the driver is called exactly when an acceptable address must be published.
    - Drivers.v ([driver_manager.cpp], [driver_loader.cpp]): what is loaded.
      DriverLifetime.v: the same with libraries that are open or closed and drivers
      that are alive or not.  Theorems: it implements Drivers.v, no code of a closed
      library runs, and nothing stays open.
    - Manager.v ([manager.cpp], [main.cpp]): the composition.  The contract of
      the program is a set of independent timers, defined without a queue; the
      refinement theorem says that the program, once it has started, hands out
      exactly what the timers fire, each task with its driver.  ManagerPool.v: the
      threads that run the tasks, the wait for them and the destruction of the
      manager, as a step relation over a class for BS::thread_pool: no thread uses a
      destroyed member, every task runs once, and the shutdown ends.
    - Cli.v ([src/cli], [main.cpp]): the commands and the entry point.  The
      process always ends with an exit code, and a run starts exactly when the
      configuration passes [config test] and its resolvers can be made.
    - SignalWatcher.v ([signal_watcher.cpp]): signals and the thread that takes
      them, as a step relation: what each signal leads to, and that the destructor
      joins the thread.
    - UpdateCycle.v: one update over one kernel, with Updater.v, the sequential
      strategies of Dispatcher.v, ClassicResolver.v, Mdns.v and Socket.v put together:
      it ends without an exception and closes every descriptor that it opened.
    - Plugins.v and SignedPlugins.v ([driver/]): the bundled drivers, and that
      their requests lead to their service's host.  Bundled.v ([driver/factory.h],
      [build_id.hpp.in]): the same as the libraries that Drivers.v loads, with the
      readers of DriverJson.v and the client of HttpClient.v: auto-discovery finds
      all twelve, and each makes HTTPS clients for the hosts of its service and no
      other (where a redirect leads such a client is the library's affair).
    - NamedFormat.v ([fmt.hpp], [http_fmt.hpp]): the format of their URLs in the build
      over [std::format], which fills the placeholders in any order.

    ** Fuel

    Loops that the source bounds by data run on structural recursion or on fuel
    that a theorem shows to be enough: the length of the packet or string
    (parser, substitution), the retry limit, the two attempts of a connection,
    the octets that a peer still sends (HTTP and TCP reading), the number of
    entries (queue), the growth of libresolv's buffer (eight calls pass the size of
    any message).  The reading loops are proved for peers that send finitely
    many octets, [FinitePeer]; the queue's theorem also says when it diverges.

    ** Not modelled

    The text of JSON, which glaze parses and prints: the tables of Json.v are about
    values.  CLI11's reading of the command line is the
    list of commands whose callbacks it runs.  UpdateCycle.v leaves out the HTTP
    address source and takes the driver as a parameter that keeps its descriptors:
    both run cpp-httplib, of which nothing about descriptors is assumed, nor about
    where its redirects lead.
    Random numbers ([random.hpp]) are arguments; the logging ([core_logger.cpp]) has
    no behaviour that the modelled parts depend on, and log calls are
    left out everywhere.  The memory order of atomics is sequential consistency;
    allocation does not fail (ManagerPool.v says what an
    exception in the main loop would lead to); time points do not overflow.  The pool's threads
    run the tasks they are given, in any order. *)
From Stdlib Require Export ZArith Lia Bool.
From Stdlib Require Import Ascii String.
From stdpp Require Export base option list list_numbers strings gmap fin_maps sorting.

(** * Machine integers and bytes *)

(** A [std::uint8_t] or a [char] is an integer in [0, 256); a byte vector, a
    [std::span<const std::uint8_t>], a [std::string] and a [std::string_view]
    are all the list of those integers. *)
Abbreviation bytes := (list Z) (only parsing).

Definition is_byte (b : Z) : Prop := (0 ≤ b < 256)%Z.
Definition is_u16 (v : Z) : Prop := (0 ≤ v < 65536)%Z.
Definition is_u32 (v : Z) : Prop := (0 ≤ v < 4294967296)%Z.

(** [static_cast<std::uint8_t>] and its wider siblings. *)
Definition u8 (z : Z) : Z := (z mod 256)%Z.
Definition u16 (z : Z) : Z := (z mod 65536)%Z.
Definition u32 (z : Z) : Z := (z mod 4294967296)%Z.

#[global] Instance is_byte_dec b : Decision (is_byte b).
Proof. unfold is_byte. apply _. Defined.
#[global] Instance is_u16_dec b : Decision (is_u16 b).
Proof. unfold is_u16. apply _. Defined.
#[global] Instance is_u32_dec b : Decision (is_u32 b).
Proof. unfold is_u32. apply _. Defined.

(** ASCII literals as byte lists. *)
Export Ascii.AsciiSyntax String.StringSyntax.
Definition ch (a : ascii) : Z := Z.of_N (N_of_ascii a).
Fixpoint str (s : string) : bytes :=
  match s with
  | EmptyString => []
  | String a s' => ch a :: str s'
  end.
Arguments ch _%_char.
Arguments str _%_string.

(** * Outcomes of C++ code

    [Ret] is a normal return, [Throw] an exception (or the error side of a
    [std::expected]), [Undef] undefined behaviour (a read outside a buffer, a
    dereferenced empty [std::optional]), and [OutOfFuel] marks a modelled loop
    whose fuel ran out: no execution of the program, only of a bounded model. *)
Inductive outcome (E A : Type) : Type :=
| Ret (a : A)
| Throw (e : E)
| Undef
| OutOfFuel.
Arguments Ret {E A} a.
Arguments Throw {E A} e.
Arguments Undef {E A}.
Arguments OutOfFuel {E A}.

#[global] Instance outcome_eq_dec `{EqDecision E, EqDecision A} :
  EqDecision (outcome E A).
Proof. solve_decision. Defined.

#[global] Instance outcome_ret {E} : MRet (outcome E) := λ A a, Ret a.
#[global] Instance outcome_bind {E} : MBind (outcome E) := λ A B f m,
  match m with
  | Ret a => f a
  | Throw e => Throw e
  | Undef => Undef
  | OutOfFuel => OutOfFuel
  end.

(** [if (b) throw e;] *)
Definition throw_if {E} (b : bool) (e : E) : outcome E unit :=
  if b then Throw e else Ret tt.

(** The value of an [std::optional] dereferenced with [*o]. *)
Definition deref {E A} (o : option A) : outcome E A :=
  match o with Some a => Ret a | None => Undef end.

(** [buf[i]] on a span or a raw pointer: undefined outside the buffer. *)
Definition rd {E} (buf : bytes) (i : nat) : outcome E Z := deref (buf !! i).

(** ** Total-correctness assertions on outcomes

    [wp m Q T]: [m] neither is undefined nor runs out of fuel, a value it
    returns satisfies [Q] and an exception it throws satisfies [T]. *)
Definition wp {E A} (m : outcome E A) (Q : A → Prop) (T : E → Prop) : Prop :=
  match m with
  | Ret a => Q a
  | Throw e => T e
  | Undef | OutOfFuel => False
  end.

(** [m] is defined behaviour and terminates. *)
Definition defined {E A} (m : outcome E A) : Prop :=
  wp m (λ _, True) (λ _, True).

Create HintDb outcome.
Create Rewrite HintDb outcome.

Section outcome.
Context {E : Type}.

Lemma bind_Ret_inv {A B} (m : outcome E A) (f : A → outcome E B) b :
  m ≫= f = Ret b → ∃ a, m = Ret a ∧ f a = Ret b.
Proof. destruct m; simpl; naive_solver. Qed.

Lemma wp_bind {A B} (m : outcome E A) (f : A → outcome E B) Q T :
  wp m (λ a, wp (f a) Q T) T → wp (m ≫= f) Q T.
Proof. by destruct m. Qed.

Lemma wp_mono {A} (m : outcome E A) (Q Q' : A → Prop) (T T' : E → Prop) :
  wp m Q T → (∀ a, Q a → Q' a) → (∀ e, T e → T' e) → wp m Q' T'.
Proof. destruct m; simpl; auto. Qed.

Lemma wp_Ret_inv {A} (m : outcome E A) Q T a : wp m Q T → m = Ret a → Q a.
Proof. intros H ->. exact H. Qed.

Lemma wp_Throw_inv {A} (m : outcome E A) Q T e : wp m Q T → m = Throw e → T e.
Proof. intros H ->. exact H. Qed.

Lemma wp_defined {A} (m : outcome E A) Q T : wp m Q T → defined m.
Proof. intros H. by eapply wp_mono. Qed.

Lemma wp_with_eq {A} (m : outcome E A) Q T :
  wp m Q T → wp m (λ a, m = Ret a ∧ Q a) T.
Proof. destruct m; simpl; auto. Qed.

Lemma wp_throw_if b (e : E) (Q : unit → Prop) T :
  (b = true → T e) → (b = false → Q tt) → wp (throw_if b e) Q T.
Proof. destruct b; simpl; auto. Qed.

Lemma wp_rd (buf : bytes) i (Q : Z → Prop) T :
  (i < length buf) → (∀ b, buf !! i = Some b → Q b) → wp (rd (E:=E) buf i) Q T.
Proof.
  intros Hi HQ. unfold rd. destruct (lookup_lt_is_Some_2 buf i Hi) as [b Hb].
  rewrite Hb. simpl. auto.
Qed.

Lemma wp_throw_if_bind {A} b (e : E) (f : unit → outcome E A) Q T :
  (b = true → T e) → (b = false → wp (f tt) Q T) → wp (throw_if b e ≫= f) Q T.
Proof. destruct b; simpl; auto. Qed.

Lemma wp_cases {A} (m : outcome E A) Q T :
  wp m Q T → (∃ a, m = Ret a ∧ Q a) ∨ (∃ e, m = Throw e ∧ T e).
Proof. destruct m; simpl; naive_solver. Qed.

Lemma wp_rd_bind {A} (buf : bytes) i (f : Z → outcome E A) Q T :
  i < length buf → (∀ b, buf !! i = Some b → wp (f b) Q T) → wp (rd buf i ≫= f) Q T.
Proof. intros Hi HQ. by apply wp_bind, wp_rd. Qed.

(** A call whose own assertion is [P]. *)
Lemma wp_call {A B} (m : outcome E A) (f : A → outcome E B) P Q T :
  wp m P T → (∀ a, m = Ret a → P a → wp (f a) Q T) → wp (m ≫= f) Q T.
Proof.
  intros Hm Hf. apply wp_bind. destruct m; simpl in *; auto.
Qed.

Lemma throw_if_false {A} b (e : E) (f : unit → outcome E A) :
  b = false → throw_if b e ≫= f = f tt.
Proof. by intros ->. Qed.

Lemma rd_Some (buf : bytes) i b : buf !! i = Some b → rd (E:=E) buf i = Ret b.
Proof. unfold rd. by intros ->. Qed.

Lemma defined_Ret {A} (a : A) : defined (E:=E) (Ret a).
Proof. done. Qed.
Lemma defined_Throw {A} (e : E) : defined (A:=A) (Throw e).
Proof. done. Qed.
End outcome.

#[export] Hint Resolve wp_defined defined_Ret defined_Throw : outcome.

(** Step through the [x ← m; k] equations of a hypothesis. *)
Ltac inv_bind H :=
  repeat match type of H with
  | _ ≫= _ = Ret _ =>
      let a := fresh "a" in let Ha := fresh "Ha" in
      apply bind_Ret_inv in H as (a & Ha & H)
  end.

(** Turn boolean comparisons of the context into propositions. *)
Ltac prop_of_bool :=
  repeat match goal with
  | H : (_ <? _) = true |- _ => apply Nat.ltb_lt in H
  | H : (_ <? _) = false |- _ => apply Nat.ltb_ge in H
  | H : (_ <=? _) = true |- _ => apply Nat.leb_le in H
  | H : (_ <=? _) = false |- _ => apply Nat.leb_gt in H
  | H : (_ =? _) = true |- _ => apply Nat.eqb_eq in H
  | H : (_ =? _) = false |- _ => apply Nat.eqb_neq in H
  | H : (_ <? _)%Z = true |- _ => apply Z.ltb_lt in H
  | H : (_ <? _)%Z = false |- _ => apply Z.ltb_ge in H
  | H : (_ <=? _)%Z = true |- _ => apply Z.leb_le in H
  | H : (_ <=? _)%Z = false |- _ => apply Z.leb_gt in H
  | H : (_ =? _)%Z = true |- _ => apply Z.eqb_eq in H
  | H : (_ =? _)%Z = false |- _ => apply Z.eqb_neq in H
  | H : negb _ = true |- _ => apply negb_true_iff in H
  | H : negb _ = false |- _ => apply negb_false_iff in H
  | H : bool_decide _ = true |- _ => apply bool_decide_eq_true_1 in H
  | H : bool_decide _ = false |- _ => apply bool_decide_eq_false_1 in H
  | H : _ && _ = true |- _ => apply andb_true_iff in H as [? ?]
  | H : _ || _ = false |- _ => apply orb_false_iff in H as [? ?]
  end.

(** Evaluates the closed left side of an equation, and only that. *)
Ltac evaluate_left H :=
  match type of H with
  | ?l = _ => let v := eval vm_compute in l in
              let Hv := fresh in
              assert (l = v) as Hv by (vm_compute; reflexivity); rewrite Hv in H; clear Hv
  end.

(** Pass a [throw_if] whose exception meets the exceptional assertion. *)
Ltac wp_guard :=
  apply wp_throw_if_bind; [intros _; done|intros ?; prop_of_bool].

(** * Lists *)

(** [span.subspan(off, n)] and [sv.substr(off, n)] for [off] in range. *)
Definition sub (l : bytes) (off n : nat) : bytes := take n (drop off l).

Section lists.
Context {A : Type}.
Implicit Types l k : list A.

Lemma drop_app_exact l k n : n = length l → drop n (l ++ k) = k.
Proof. intros ->. by rewrite drop_app_length. Qed.

Lemma take_app_exact l k n : n = length l → take n (l ++ k) = l.
Proof. intros ->. by rewrite take_app_length. Qed.

Lemma lookup_app_exact l k x n : n = length l → (l ++ x :: k) !! n = Some x.
Proof. intros ->. by rewrite list_lookup_middle. Qed.

Lemma take_drop_lookup l i x : l !! i = Some x → drop i l = x :: drop (S i) l.
Proof. intros H. by rewrite (drop_S _ _ _ H). Qed.

Lemma filter_all (P : A → Prop) `{∀ x, Decision (P x)} l : Forall P l → filter P l = l.
Proof.
  induction 1 as [|x l Hx Hl IH]; [done|].
  by rewrite filter_cons_True, IH.
Qed.

Lemma forallb_Forall' (f : A → bool) l : forallb f l = true ↔ Forall (λ x, f x = true) l.
Proof. rewrite forallb_forall, List.Forall_forall. done. Qed.
End lists.

Lemma sub_length l off n : off + n ≤ length l → length (sub l off n) = n.
Proof. intros H. unfold sub. rewrite length_take, length_drop. lia. Qed.

Lemma sub_app_exact l k m off n :
  off = length l → n = length k → sub (l ++ k ++ m) off n = k.
Proof. intros -> ->. unfold sub. by rewrite drop_app_length, take_app_length. Qed.

(** * Bit arithmetic *)

Lemma testbit_above b n i :
  (0 ≤ b < 2 ^ n)%Z → (0 ≤ n ≤ i)%Z → Z.testbit b i = false.
Proof.
  intros Hb Hi. rewrite <- (Z.mod_small b (2 ^ n)) by done.
  apply Z.mod_pow2_bits_high. lia.
Qed.

Lemma lor_shiftl_add a b n :
  (0 ≤ n)%Z → (0 ≤ b < 2 ^ n)%Z → Z.lor (Z.shiftl a n) b = (a * 2 ^ n + b)%Z.
Proof.
  intros Hn Hb. rewrite <- Z.shiftl_mul_pow2 by done.
  assert (Z.land (Z.shiftl a n) b = 0)%Z as Hz.
  { apply Z.bits_inj'. intros i Hi. rewrite Z.land_spec, Z.bits_0.
    destruct (decide (i < n)%Z).
    - by rewrite Z.shiftl_spec_low by lia.
    - rewrite (testbit_above b n i) by lia. apply andb_false_r. }
  rewrite <- Z.lxor_lor by done. symmetry. by apply Z.add_nocarry_lxor.
Qed.

Lemma land_mod_pow2 a n : (0 ≤ n)%Z → Z.land a (2 ^ n - 1) = (a mod 2 ^ n)%Z.
Proof. intros Hn. rewrite <- Z.land_ones by done. f_equal. rewrite Z.ones_equiv. lia. Qed.

Lemma u8_is_byte z : is_byte (u8 z).
Proof. unfold is_byte, u8. apply Z.mod_pos_bound. lia. Qed.
Lemma u16_is_u16 z : is_u16 (u16 z).
Proof. unfold is_u16, u16. apply Z.mod_pos_bound. lia. Qed.
Lemma u32_is_u32 z : is_u32 (u32 z).
Proof. unfold is_u32, u32. apply Z.mod_pos_bound. lia. Qed.
Lemma u8_small z : is_byte z → u8 z = z.
Proof. unfold is_byte, u8. intros. apply Z.mod_small. lia. Qed.
Lemma u16_small z : is_u16 z → u16 z = z.
Proof. unfold is_u16, u16. intros. apply Z.mod_small. lia. Qed.
Lemma u32_small z : is_u32 z → u32 z = z.
Proof. unfold is_u32, u32. intros. apply Z.mod_small. lia. Qed.

Lemma ch_is_byte a : is_byte (ch a).
Proof.
  unfold is_byte, ch. by destruct a as [[] [] [] [] [] [] [] []].
Qed.
Lemma str_is_bytes s : Forall is_byte (str s).
Proof. induction s as [|a s IH]; simpl; constructor; auto using ch_is_byte. Qed.

Create HintDb bytes.
#[export] Hint Resolve u8_is_byte u16_is_u16 u32_is_u32 ch_is_byte str_is_bytes : bytes.
#[export] Hint Resolve Forall_nil_2 Forall_cons_2 Forall_app_2 : bytes.

(** A check over all 256 byte values, for facts decided by computation. *)
Definition all_bytes : bytes := seqZ 0 256.

Lemma all_bytes_spec (P : Z → Prop) `{∀ b, Decision (P b)} :
  forallb (λ b, bool_decide (P b)) all_bytes = true → ∀ b, is_byte b → P b.
Proof.
  intros Hall b Hb. rewrite forallb_forall in Hall.
  apply (bool_decide_eq_true_1 (P b)), Hall.
  apply list_elem_of_In. unfold all_bytes. apply elem_of_seqZ. unfold is_byte in Hb. lia.
Qed.

(** Close a goal about one byte by evaluating it on all of them. *)
Ltac by_all_bytes b Hb :=
  revert b Hb;
  match goal with |- ∀ b, is_byte b → @?P b => apply (all_bytes_spec P) end;
  vm_compute; reflexivity.

(** * Sums over lists *)

Definition sum_with {A} (f : A → nat) (l : list A) : nat := sum_list (map f l).

Lemma sum_with_insert {A} (f : A → nat) ts i t t' :
  ts !! i = Some t → sum_with f (<[i:=t']> ts) + f t = sum_with f ts + f t'.
Proof.
  unfold sum_with. revert i. induction ts as [|u ts IH]; intros [|i] Hi; try done.
  - injection Hi as ->. simpl. lia.
  - simpl. specialize (IH i Hi). lia.
Qed.

Lemma sum_with_le {A} (f g : A → nat) ts :
  (∀ i t, ts !! i = Some t → f t ≤ g t) → sum_with f ts ≤ sum_with g ts.
Proof.
  unfold sum_with. induction ts as [|u ts IH]; intros H; [done|]. simpl.
  pose proof (H 0 u eq_refl). specialize (IH (λ i t Hi, H (S i) t Hi)). lia.
Qed.

Lemma sum_with_length {A} (ts : list A) : sum_with (λ _, 1) ts = length ts.
Proof. unfold sum_with. induction ts as [|u ts IH]; simpl; [done|lia]. Qed.
