(* ===== verification/CppString.v ===== *)
(** The operations of [std::string], [std::string_view] and [<cctype>] that the
    program uses, on byte lists: substring search, prefix and suffix tests and
    the character classes of the C locale.  They are the standard library's,
    not the program's; the lemmas are what its components rely on. *)
From stdpp Require Import pretty.
From S2P Require Import Prelude.

(** Decimal rendering: [fmt::format("{}", n)] and [std::to_string(n)]. *)
Definition dec (n : Z) : bytes := str (pretty n).

(** A string in double quotes. *)
Definition quoted (s : bytes) : bytes := 34%Z :: s ++ [34%Z].

(** * Character classes (C locale) *)

Definition isspace (c : Z) : bool := ((9 <=? c) && (c <=? 13) || (c =? 32))%Z.
Definition isdigit (c : Z) : bool := ((48 <=? c) && (c <=? 57))%Z.
Definition isupper (c : Z) : bool := ((65 <=? c) && (c <=? 90))%Z.
Definition islower (c : Z) : bool := ((97 <=? c) && (c <=? 122))%Z.
Definition isalpha (c : Z) : bool := isupper c || islower c.
Definition isalnum (c : Z) : bool := isalpha c || isdigit c.
Definition tolower (c : Z) : Z := if isupper c then (c + 32)%Z else c.

(** * Searching *)

(** [s.starts_with(t)]. *)
Fixpoint starts_with (s t : bytes) {struct t} : bool :=
  match t, s with
  | [], _ => true
  | y :: t', x :: s' => (x =? y)%Z && starts_with s' t'
  | _ :: _, [] => false
  end.

(** [s.ends_with(t)]. *)
Definition ends_with (s t : bytes) : bool := starts_with (rev s) (rev t).

(** [s.find(t, pos)]; [None] is [npos]. *)
Fixpoint find_at (s t : bytes) (i : nat) : option nat :=
  if starts_with s t then Some i else
  match s with
  | [] => None
  | _ :: s' => find_at s' t (S i)
  end.
Definition find (s t : bytes) (pos : nat) : option nat :=
  if pos <=? length s then find_at (drop pos s) t pos else None.

(** [s.rfind(c)]. *)
Fixpoint rfind_char (s : bytes) (c : Z) : option nat :=
  match s with
  | [] => None
  | x :: s' =>
      match rfind_char s' c with
      | Some i => Some (S i)
      | None => if (x =? c)%Z then Some 0 else None
      end
  end.

(** [s.contains(t)]. *)
Definition contains (s t : bytes) : bool :=
  match find s t 0 with Some _ => true | None => false end.

(** ** Numbers *)

(** The value of a digit in a base up to 36. *)
Definition digit_value (base c : Z) : option Z :=
  let v := (if isdigit c then c - 48 else if islower c then c - 87
            else if isupper c then c - 55 else 36)%Z in
  if (v <? base)%Z then Some v else None.

(** The longest prefix of digits. *)
Fixpoint digits (base : Z) (s : bytes) : list Z :=
  match s with
  | [] => []
  | c :: s' =>
      match digit_value base c with Some d => d :: digits base s' | None => [] end
  end.
Definition digits_to_Z (base : Z) (ds : list Z) : Z := fold_left (λ acc d, acc * base + d)%Z ds 0%Z.

(** [std::from_chars] for an unsigned type with the given maximum: the value and
    how many characters were read, or [None] for either error code. *)
Definition from_chars_unsigned (base max : Z) (s : bytes) : option (Z * nat) :=
  match digits base s with
  | [] => None
  | ds => let v := digits_to_Z base ds in if (v <=? max)%Z then Some (v, length ds) else None
  end.

(** [std::from_chars] for [int], base 10: also a leading minus sign. *)
Definition from_chars_int (s : bytes) : option (Z * nat) :=
  match s with
  | c :: s' =>
      if (c =? ch "-")%Z then
        match from_chars_unsigned 10 2147483648 s' with
        | Some (v, n) => Some (- v, S n)%Z
        | None => None
        end
      else from_chars_unsigned 10 2147483647 s
  | [] => None
  end.

(** The largest values of [unsigned long] and [size_t]. *)
Definition SIZE_MAX : Z := 18446744073709551615%Z.

(** The C string a [std::string] passes on: up to its first NUL. *)
Fixpoint c_str (s : bytes) : bytes :=
  match s with
  | [] => []
  | c :: s' => if (c =? 0)%Z then [] else c :: c_str s'
  end.

(** [t] occurs in [s] at offset [i]. *)
Definition occurs_at (s t : bytes) (i : nat) : Prop :=
  i + length t ≤ length s ∧ sub s i (length t) = t.

(** * Lemmas *)

Lemma starts_with_spec s t : starts_with s t = true ↔ ∃ k, s = t ++ k.
Proof.
  revert s. induction t as [|y t IH]; intros s; simpl.
  - split; [intros _; by exists s|done].
  - destruct s as [|x s]; [naive_solver|].
    rewrite andb_true_iff, Z.eqb_eq, IH. naive_solver.
Qed.

Lemma starts_with_occurs s t : starts_with s t = true ↔ occurs_at s t 0.
Proof.
  rewrite starts_with_spec. unfold occurs_at, sub. rewrite drop_0. split.
  - intros [k ->]. rewrite length_app, take_app_length. split; [lia|done].
  - intros [Hl Ht]. exists (drop (length t) s). rewrite <- Ht at 1.
    by rewrite take_drop.
Qed.

Lemma occurs_at_drop s t p i : occurs_at (drop p s) t i ↔ p ≤ length s ∧ occurs_at s t (p + i)
  ∨ length s < p ∧ i = 0 ∧ t = [].
Proof.
  unfold occurs_at, sub. rewrite drop_drop, length_drop.
  destruct (decide (p ≤ length s)) as [Hp|Hp].
  - split; [intros [H ?]; left; repeat split; auto; lia|].
    intros [(? & ? & ?)|?]; [|lia]. split; auto; lia.
  - split.
    + intros [H1 H2]. right. assert (length t = 0) by lia.
      destruct t; simpl in *; [repeat split; lia|lia].
    + intros [?|(? & -> & ->)]; [lia|]. simpl. split; [lia|done].
Qed.

Lemma find_at_spec s t i :
  match find_at s t i with
  | Some p => ∃ k, p = i + k ∧ occurs_at s t k ∧ ∀ j, j < k → ¬ occurs_at s t j
  | None => ∀ j, ¬ occurs_at s t j
  end.
Proof.
  revert i. induction s as [|x s IH]; intros i; cbn [find_at].
  - destruct (starts_with [] t) eqn:E.
    + exists 0. split; [lia|]. split; [by apply starts_with_occurs|lia].
    + intros j [Hj Hs]. destruct t; [done|]. simpl in Hj. lia.
  - destruct (starts_with (x :: s) t) eqn:E.
    + exists 0. split; [lia|]. split; [by apply starts_with_occurs|lia].
    + assert (¬ occurs_at (x :: s) t 0) as H0.
      { rewrite <- starts_with_occurs. by rewrite E. }
      assert (∀ j, occurs_at (x :: s) t (S j) ↔ occurs_at s t j) as HS.
      { intros j. unfold occurs_at, sub. simpl. split; intros [? ?]; split; auto; lia. }
      specialize (IH (S i)). destruct (find_at s t (S i)) as [p|].
      * destruct IH as (k & -> & Hk & Hmin). exists (S k). split; [lia|].
        split; [by apply HS|]. intros [|j] Hj; [done|]. rewrite HS. apply Hmin. lia.
      * intros [|j]; [done|]. by rewrite HS.
Qed.

Lemma find_Some s t p i :
  find s t p = Some i →
  p ≤ i ∧ occurs_at s t i ∧ ∀ j, p ≤ j < i → ¬ occurs_at s t j.
Proof.
  unfold find. destruct (p <=? length s) eqn:Hp; [|done]. apply Nat.leb_le in Hp.
  intros Hf. pose proof (find_at_spec (drop p s) t p) as H. rewrite Hf in H.
  destruct H as (k & -> & Hk & Hmin). split; [lia|].
  apply occurs_at_drop in Hk as [[_ Hk]|?]; [|lia]. split; [done|].
  intros j Hj Ho. apply (Hmin (j - p)); [lia|]. apply occurs_at_drop. left.
  by replace (p + (j - p)) with j by lia.
Qed.

Lemma find_None s t p i : find s t p = None → p ≤ i → ¬ occurs_at s t i.
Proof.
  unfold find. destruct (p <=? length s) eqn:Hp.
  - apply Nat.leb_le in Hp. intros Hf Hi Ho.
    pose proof (find_at_spec (drop p s) t p) as H. rewrite Hf in H.
    apply (H (i - p)), occurs_at_drop. left. by replace (p + (i - p)) with i by lia.
  - apply Nat.leb_gt in Hp. intros _ Hi [? _]. lia.
Qed.

Lemma find_Some_bound s t p i : find s t p = Some i → p ≤ i ∧ i + length t ≤ length s.
Proof. intros (? & [? _] & _)%find_Some. lia. Qed.

(** Searching from [pos] only looks at the text from [pos] on. *)
Lemma find_drop s s' t p :
  p ≤ length s → p ≤ length s' → drop p s = drop p s' → find s t p = find s' t p.
Proof.
  intros H1 H2 Hd. unfold find. by rewrite (proj2 (Nat.leb_le _ _) H1),
    (proj2 (Nat.leb_le _ _) H2), Hd.
Qed.

Lemma find_char_None s c p : find s [c] p = None → c ∉ drop p s.
Proof.
  intros Hf Hin. apply list_elem_of_lookup_1 in Hin as [i Hi].
  rewrite lookup_drop in Hi. pose proof (lookup_lt_Some _ _ _ Hi).
  apply (find_None _ _ _ (p + i) Hf); [lia|]. split; [simpl; lia|].
  unfold sub. rewrite (take_drop_lookup _ _ _ Hi). done.
Qed.

Lemma find_char_Some s c p i :
  find s [c] p = Some i → p ≤ i ∧ s !! i = Some c ∧ c ∉ sub s p (i - p).
Proof.
  intros (Hp & [Hl Hs] & Hmin)%find_Some. simpl in Hl.
  split; [done|]. split.
  - unfold sub in Hs. destruct (lookup_lt_is_Some_2 s i) as [x Hx]; [lia|].
    rewrite (take_drop_lookup _ _ _ Hx) in Hs. simpl in Hs. congruence.
  - intros Hin. unfold sub in Hin. apply list_elem_of_lookup_1 in Hin as [k Hk].
    apply lookup_take_Some in Hk as [Hk ?]. rewrite lookup_drop in Hk.
    apply (Hmin (p + k)); [lia|]. split; [simpl; apply lookup_lt_Some in Hk; lia|].
    unfold sub. rewrite (take_drop_lookup _ _ _ Hk). done.
Qed.

(** The first separator of [k ++ c :: l], when [k] has none. *)
Lemma find_char_app k c l p :
  p ≤ length k → c ∉ drop p k → find (k ++ c :: l) [c] p = Some (length k).
Proof.
  intros Hp Hk. destruct (find (k ++ c :: l) [c] p) as [i|] eqn:Hf.
  - apply find_char_Some in Hf as (Hi & Hc & Hno). f_equal.
    destruct (decide (i < length k)) as [Hlt|].
    + rewrite lookup_app_l in Hc by done. exfalso. apply Hk.
      apply list_elem_of_lookup. exists (i - p). rewrite lookup_drop.
      by replace (p + (i - p)) with i by lia.
    + destruct (decide (i = length k)) as [|Hne]; [done|]. exfalso. apply Hno.
      apply list_elem_of_lookup. exists (length k - p). unfold sub.
      rewrite lookup_take_lt, lookup_drop by lia.
      replace (p + (length k - p)) with (length k) by lia. by apply lookup_app_exact.
  - apply find_char_None in Hf. exfalso. apply Hf. rewrite drop_app_le by done.
    apply elem_of_app. right. by left.
Qed.

Lemma find_char_notin s c p : c ∉ drop p s → find s [c] p = None.
Proof.
  intros Hn. destruct (find s [c] p) as [i|] eqn:Hf; [|done].
  apply find_char_Some in Hf as (Hi & Hc & _). exfalso. apply Hn.
  apply list_elem_of_lookup. exists (i - p). rewrite lookup_drop.
  by replace (p + (i - p)) with i by lia.
Qed.

Lemma rfind_char_Some s c i :
  rfind_char s c = Some i → s !! i = Some c ∧ c ∉ drop (S i) s.
Proof.
  revert i. induction s as [|x s IH]; intros i; cbn [rfind_char]; [done|].
  destruct (rfind_char s c) as [j|] eqn:Hr.
  - intros [= <-]. by apply IH.
  - destruct (Z.eqb_spec x c) as [->|]; [|done]. intros [= <-].
    split; [done|]. simpl. rewrite drop_0. intros Hin.
    clear IH. induction s as [|y s IH]; [by apply elem_of_nil in Hin|].
    cbn [rfind_char] in Hr. destruct (rfind_char s c); [done|].
    destruct (Z.eqb_spec y c); [done|].
    apply elem_of_cons in Hin as [?|?]; [congruence|]. by apply IH.
Qed.

Lemma rfind_char_None s c : rfind_char s c = None ↔ c ∉ s.
Proof.
  induction s as [|x s IH]; cbn [rfind_char].
  - split; [intros _; apply not_elem_of_nil|done].
  - rewrite not_elem_of_cons, <- IH. destruct (rfind_char s c).
    + split; [done|intros [_ ?]; done].
    + destruct (Z.eqb_spec x c); naive_solver.
Qed.

Lemma tolower_is_byte c : is_byte c → is_byte (tolower c).
Proof.
  unfold is_byte, tolower, isupper.
  destruct (65 <=? c)%Z eqn:?, (c <=? 90)%Z eqn:?; simpl; lia.
Qed.

Lemma tolower_idem c : tolower (tolower c) = tolower c.
Proof.
  unfold tolower at 2 3. destruct (isupper c) eqn:Hc; [|unfold tolower; by rewrite Hc].
  unfold tolower, isupper in *. apply andb_true_iff in Hc as [H1%Z.leb_le H2%Z.leb_le].
  by rewrite (proj2 (Z.leb_gt (c + 32) 90)), andb_false_r by lia.
Qed.

#[export] Hint Resolve tolower_is_byte : bytes.

(** ** [from_chars] reads back what [dec] prints *)

Lemma digits_app base s k : length (digits base s) = length s → digits base (s ++ k) = digits base s ++ digits base k.
Proof.
  induction s as [|c s IH]; simpl; [done|].
  destruct (digit_value base c); simpl; [|done]. intros [= Hl]. by rewrite IH.
Qed.

Lemma digit_value_pretty x : (x < 10)%N → digit_value 10 (ch (pretty_N_char x)) = Some (Z.of_N x).
Proof.
  intros Hx.
  assert (x = 0 ∨ x = 1 ∨ x = 2 ∨ x = 3 ∨ x = 4 ∨ x = 5 ∨ x = 6 ∨ x = 7 ∨ x = 8 ∨ x = 9)%N
    as Hc by lia.
  repeat (destruct Hc as [->|Hc]; [reflexivity|]). by subst.
Qed.

Lemma digits_pretty_N_go x s :
  length (digits 10 (str s)) = length (str s) →
  length (digits 10 (str (pretty_N_go x s))) = length (str (pretty_N_go x s))
  ∧ ∃ ds, digits 10 (str (pretty_N_go x s)) = ds ++ digits 10 (str s)
     ∧ digits_to_Z 10 ds = Z.of_N x ∧ (x ≠ 0%N → ds ≠ []).
Proof.
  revert s. induction (N.lt_wf_0 x) as [x _ IH]; intros s Hs.
  destruct (decide (x = 0)%N) as [->|Hx].
  - rewrite pretty_N_go_0. split; [done|]. by exists [].
  - rewrite pretty_N_go_step by lia.
    pose proof (N.mod_lt x 10 ltac:(lia)) as Hm.
    assert (x `div` 10 < x)%N as Hlt by (apply N.div_lt; lia).
    destruct (IH (x `div` 10)%N Hlt
      (String (pretty_N_char (x `mod` 10)) s)) as (Hl & ds & Hds & Hv & _).
    { simpl. rewrite digit_value_pretty by done. simpl. congruence. }
    split; [done|]. exists (ds ++ [Z.of_N (x `mod` 10)]). rewrite Hds. simpl.
    rewrite digit_value_pretty by done. rewrite <- app_assoc. split; [done|]. split; [|by destruct ds].
    unfold digits_to_Z in *. rewrite fold_left_app. simpl. rewrite Hv.
    pose proof (N.div_mod x 10 ltac:(lia)). lia.
Qed.

Lemma digits_dec n :
  (0 ≤ n)%Z → length (digits 10 (dec n)) = length (dec n) ∧ digits_to_Z 10 (digits 10 (dec n)) = n
    ∧ digits 10 (dec n) ≠ [].
Proof.
  intros Hn. unfold dec. destruct n as [|p|p]; [| |lia].
  - split; [|split]; [reflexivity..|done].
  - change (pretty (Z.pos p)) with (pretty_N_go (N.pos p) EmptyString).
    destruct (digits_pretty_N_go (N.pos p) EmptyString eq_refl) as (Hl & ds & Hds & Hv & Hne).
    split; [done|]. rewrite Hds. simpl. rewrite app_nil_r. split; [done|]. by apply Hne.
Qed.

Lemma from_chars_unsigned_dec n max k :
  (0 ≤ n ≤ max)%Z → digits 10 k = [] → from_chars_unsigned 10 max (dec n ++ k) = Some (n, length (dec n)).
Proof.
  intros Hn Hk. destruct (digits_dec n) as (Hl & Hv & Hne); [lia|].
  unfold from_chars_unsigned. rewrite digits_app, Hk, app_nil_r by done.
  destruct (digits 10 (dec n)) as [|d ds] eqn:Hd; [done|]. rewrite Hv, (proj2 (Z.leb_le n max)) by lia.
  by rewrite Hl.
Qed.

Lemma digits_isdigit s : length (digits 10 s) = length s → Forall (λ c, isdigit c = true) s.
Proof.
  induction s as [|c s IH]; simpl; [constructor|]. unfold digit_value.
  destruct (isdigit c) eqn:Hc.
  - destruct (_ <? _)%Z; simpl; [|done]. intros [= ?]. constructor; auto.
  - destruct (islower c) eqn:Hl; [|destruct (isupper c) eqn:Hu; [|done]];
      unfold islower, isupper in *; prop_of_bool;
      rewrite (proj2 (Z.ltb_ge _ 10)) by lia; done.
Qed.

Lemma dec_isdigit n : (0 ≤ n)%Z → Forall (λ c, isdigit c = true) (dec n).
Proof. intros Hn. by apply digits_isdigit, digits_dec. Qed.

Lemma from_chars_int_dec n k :
  (0 ≤ n ≤ 2147483647)%Z → digits 10 k = [] → from_chars_int (dec n ++ k) = Some (n, length (dec n)).
Proof.
  intros Hn Hk. pose proof (from_chars_unsigned_dec n 2147483647 k ltac:(lia) Hk) as Hf.
  pose proof (dec_isdigit n ltac:(lia)) as Hd.
  destruct (digits_dec n ltac:(lia)) as (_ & _ & Hne).
  destruct (dec n) as [|c s]; [done|]. inversion Hd as [|? ? Hc _]. subst.
  cbn [app from_chars_int]. destruct (c =? ch "-")%Z eqn:He; [|exact Hf].
  apply Z.eqb_eq in He. subst. discriminate.
Qed.

Lemma digits_nonneg base s : (0 < base)%Z → Forall (λ d, (0 ≤ d)%Z) (digits base s).
Proof.
  intros Hb. induction s as [|c s IH]; simpl; [constructor|].
  destruct (digit_value base c) as [d|] eqn:Hd; [|constructor]. constructor; [|done].
  unfold digit_value, isdigit, islower, isupper in Hd.
  repeat (case_match; prop_of_bool; try done); simplify_eq; lia.
Qed.

Lemma digits_to_Z_nonneg base ds :
  (0 < base)%Z → Forall (λ d, (0 ≤ d)%Z) ds → (0 ≤ digits_to_Z base ds)%Z.
Proof.
  intros Hb Hds. unfold digits_to_Z.
  enough (∀ acc, (0 ≤ acc)%Z → (0 ≤ fold_left (λ acc d, acc * base + d)%Z ds acc)%Z) as Hacc
    by (apply Hacc; lia).
  induction Hds as [|d ds Hd Hds IH]; intros acc Hacc; simpl; [done|]. apply IH. nia.
Qed.

Lemma from_chars_unsigned_range base max s v n :
  (0 < base)%Z → from_chars_unsigned base max s = Some (v, n) → (0 ≤ v ≤ max)%Z.
Proof.
  intros Hb. unfold from_chars_unsigned. pose proof (digits_nonneg base s Hb) as Hd.
  destruct (digits base s) as [|d ds]; [done|]. destruct (_ <=? max)%Z eqn:Hm; [|done].
  intros [= <- _]. prop_of_bool. split; [by apply digits_to_Z_nonneg|done].
Qed.
