(* ===== verification/Address.v ===== *)
(** [src/network/inet_address.{h,cpp}]: IPv4 and IPv6 addresses, their text and
    their classification.  [inet_pton] and [inet_ntop] are the C library's. *)
From S2P Require Import Prelude CppString.

(* @src src/src/network/inet_address.h 81 81 Inet4Address (members) *)
Record Inet4Address := { v4_addr : bytes }.

(* @src src/src/network/inet_address.h 171 172 Inet6Address (members) *)
Record Inet6Address := { v6_addr : bytes; v6_scope_id : Z }.

(* @src src/src/network/inet_address.h 183 183 InetAddress::variant_type *)
Inductive InetAddress :=
| V4 (a : Inet4Address)
| V6 (a : Inet6Address).

#[global] Instance Inet4Address_eq_dec : EqDecision Inet4Address.
Proof. solve_decision. Defined.
#[global] Instance Inet6Address_eq_dec : EqDecision Inet6Address.
Proof. solve_decision. Defined.
#[global] Instance InetAddress_eq_dec : EqDecision InetAddress.
Proof. solve_decision. Defined.

(* @fn src/include/address_family.h | enum class AddressFamily { | AddressFamily *)
Inductive AddressFamily := UNSPECIFIED | IPV4 | IPV6.

(** * Text *)

(** The C library: the address bytes of a text, the text of an address. *)
Class InetText := {
  inet_pton4 : bytes → option bytes;
  inet_pton6 : bytes → option bytes;
  inet_ntop4 : bytes → bytes;
  inet_ntop6 : bytes → bytes
}.

(** What the documentation of [inet_pton] states and the URI parser relies on:
    the text of an IPv6 address has at least two colons. *)
Class InetTextOk `{InetText} :=
  inet_pton6_colons s b : inet_pton6 s = Some b → ∃ x y z, s = x ++ ch ":" :: y ++ ch ":" :: z.

Section text.
Context `{InetText}.

(* @fn src/src/network/inet_address.cpp | std::optional<Inet4Address> Inet4Address::parse | Inet4Address::parse *)
Definition parse4 (addr : bytes) : option Inet4Address :=
  if bool_decide (addr = []) then None else
  match inet_pton4 (c_str addr) with
  | Some b => Some {| v4_addr := b |}
  | None => None
  end.

(* @fn src/src/network/inet_address.cpp | std::string Inet4Address::to_string() | Inet4Address::to_string *)
Definition to_string4 (a : Inet4Address) : bytes := inet_ntop4 (v4_addr a).

(** The scope identifier of "fe80::1%2": a number that fills the suffix, else 0. *)
(* @src src/src/network/inet_address.cpp 75 80 Inet6Address::parse (scope) *)
Definition parse_scope (scope_str : bytes) : Z :=
  match from_chars_unsigned 10 SIZE_MAX scope_str with
  | Some (val, n) => if n =? length scope_str then u32 val else 0
  | None => 0
  end.

(* @fn src/src/network/inet_address.cpp | std::optional<Inet6Address> Inet6Address::parse | Inet6Address::parse *)
Definition parse6 (addr : bytes) : option Inet6Address :=
  if bool_decide (addr = []) then None else
  let '(s, scope_id) :=
    match find addr [ch "%"] 0 with
    | Some pct => (take pct addr, parse_scope (drop (S pct) addr))
    | None => (addr, 0%Z)
    end in
  match inet_pton6 (c_str s) with
  | Some b => Some {| v6_addr := b; v6_scope_id := scope_id |}
  | None => None
  end.

(* @fn src/src/network/inet_address.cpp | std::string Inet6Address::to_string() | Inet6Address::to_string *)
Definition to_string6 (a : Inet6Address) : bytes :=
  if (0 <? v6_scope_id a)%Z
  then inet_ntop6 (v6_addr a) ++ str "%" ++ dec (v6_scope_id a)
  else inet_ntop6 (v6_addr a).

(* @fn src/src/network/inet_address.cpp | std::optional<InetAddress> InetAddress::parse | InetAddress::parse *)
Definition parse (addr : bytes) : option InetAddress :=
  if bool_decide (addr = []) then None else
  match parse4 addr with
  | Some v4 => Some (V4 v4)
  | None => match parse6 addr with Some v6 => Some (V6 v6) | None => None end
  end.

(* @fn src/src/network/inet_address.cpp | std::string InetAddress::to_string() | InetAddress::to_string *)
Definition to_string (a : InetAddress) : bytes :=
  match a with V4 a => to_string4 a | V6 a => to_string6 a end.
End text.

(** The number of colons in a text. *)
Definition colons (s : bytes) : nat := length (filter (λ c, c = ch ":") s).

Lemma c_str_prefix s : ∃ k, s = c_str s ++ k.
Proof.
  induction s as [|c s [k IH]]; [by exists []|]. simpl. destruct (c =? 0)%Z; [by exists (c :: s)|].
  exists k. simpl. by rewrite <- IH.
Qed.

Lemma colons_app s k : colons (s ++ k) = colons s + colons k.
Proof. unfold colons. by rewrite filter_app, length_app. Qed.

Lemma colons_colon s : colons (ch ":" :: s) = S (colons s).
Proof. unfold colons. by rewrite filter_cons_True. Qed.

Lemma colons_c_str s : colons (c_str s) ≤ colons s.
Proof.
  destruct (c_str_prefix s) as [k Hk]. rewrite Hk at 2. rewrite colons_app. lia.
Qed.

Lemma colons_take n s : colons (take n s) ≤ colons s.
Proof.
  rewrite <- (take_drop n s) at 2. rewrite colons_app. lia.
Qed.

(** A text with fewer than two colons is no IPv6 address. *)
Lemma parse6_colons `{InetTextOk} s : colons s < 2 → parse6 s = None.
Proof.
  intros Hs. unfold parse6. case_bool_decide; [done|].
  assert (∀ t, colons t ≤ colons s → inet_pton6 (c_str t) = None) as Hnone.
  { intros t Ht. destruct (inet_pton6 (c_str t)) as [b|] eqn:Hb; [|done].
    apply inet_pton6_colons in Hb as (x & y & z & Hx). pose proof (colons_c_str t) as Hc.
    rewrite Hx, colons_app, colons_colon, colons_app, colons_colon in Hc. lia. }
  destruct (find s [ch "%"] 0) as [pct|].
  - by rewrite (Hnone _ (colons_take pct s)).
  - by rewrite (Hnone s).
Qed.

(** * Construction and classification *)

(* @fn src/src/network/inet_address.cpp | std::optional<InetAddress> InetAddress::from_bytes | InetAddress::from_bytes *)
Definition from_bytes (b : bytes) : option InetAddress :=
  match length b with
  | 4 => Some (V4 {| v4_addr := b |})
  | 16 => Some (V6 {| v6_addr := b; v6_scope_id := 0 |})
  | _ => None
  end.

(* @fn src/src/network/inet_address.cpp | AddressFamily InetAddress::get_family | InetAddress::get_family *)
Definition get_family (a : InetAddress) : AddressFamily :=
  match a with V4 _ => IPV4 | V6 _ => IPV6 end.

(** 16 bytes, an IPv4 address padded with zeros. *)
(* @fn src/src/network/inet_address.cpp | std::array<std::uint8_t, 16> InetAddress::get_address | InetAddress::get_address *)
Definition get_address (a : InetAddress) : bytes :=
  let b := match a with V4 a => v4_addr a | V6 a => v6_addr a end in
  b ++ replicate (16 - length b) 0%Z.

(** [addr_[i]] on the fixed-size array. *)
Definition octet (b : bytes) (i : nat) : Z := nth i b 0%Z.

(* @fn src/src/network/inet_address.h | [[nodiscard]] constexpr bool is_loopback() const noexcept { ^0 | Inet4Address::is_loopback *)
Definition v4_is_loopback (a : Inet4Address) : bool := (octet (v4_addr a) 0 =? 127)%Z.
(* @fn src/src/network/inet_address.h | [[nodiscard]] constexpr bool is_multicast() const noexcept { ^0 | Inet4Address::is_multicast *)
Definition v4_is_multicast (a : Inet4Address) : bool := (Z.land (octet (v4_addr a) 0) 0xf0 =? 0xe0)%Z.
(* @fn src/src/network/inet_address.h | [[nodiscard]] constexpr bool is_unspecified() const noexcept { ^0 | Inet4Address::is_unspecified *)
Definition v4_is_unspecified (a : Inet4Address) : bool := bool_decide (v4_addr a = replicate 4 0%Z).

(* @src src/src/network/inet_address.h 120 123 Inet6Address::is_loopback *)
Definition v6_is_loopback (a : Inet6Address) : bool := bool_decide (v6_addr a = replicate 15 0%Z ++ [1%Z]).
(* @src src/src/network/inet_address.h 125 127 Inet6Address::is_multicast *)
Definition v6_is_multicast (a : Inet6Address) : bool := (octet (v6_addr a) 0 =? 0xff)%Z.
(* @src src/src/network/inet_address.h 129 132 Inet6Address::is_unspecified *)
Definition v6_is_unspecified (a : Inet6Address) : bool := bool_decide (v6_addr a = replicate 16 0%Z).

(* @fn src/src/network/inet_address.h | [[nodiscard]] const Inet6Address *as_v6() const noexcept { | InetAddress::as_v6 *)
Definition as_v6 (a : InetAddress) : option Inet6Address := match a with V6 a => Some a | V4 _ => None end.

(* @fn src/src/network/inet_address.cpp | bool InetAddress::is_loopback() | InetAddress::is_loopback *)
Definition is_loopback (a : InetAddress) : bool :=
  match a with V4 a => v4_is_loopback a | V6 a => v6_is_loopback a end.

(* @fn src/src/network/inet_address.cpp | bool InetAddress::is_multicast() | InetAddress::is_multicast *)
Definition is_multicast (a : InetAddress) : bool :=
  match a with V4 a => v4_is_multicast a | V6 a => v6_is_multicast a end.

(* @fn src/src/network/inet_address.cpp | bool InetAddress::is_unspecified() | InetAddress::is_unspecified *)
Definition is_unspecified (a : InetAddress) : bool :=
  match a with V4 a => v4_is_unspecified a | V6 a => v6_is_unspecified a end.

(* @fn src/src/network/inet_address.h | bool is_link_local() const noexcept { ^0 | Inet6Address::is_link_local *)
Definition v6_is_link_local (a : Inet6Address) : bool :=
  (octet (v6_addr a) 0 =? 0xfe)%Z && (Z.land (octet (v6_addr a) 1) 0xc0 =? 0x80)%Z.

(* @fn src/src/network/inet_address.h | bool is_site_local() const noexcept { ^0 | Inet6Address::is_site_local *)
Definition v6_is_site_local (a : Inet6Address) : bool :=
  (octet (v6_addr a) 0 =? 0xfe)%Z && (Z.land (octet (v6_addr a) 1) 0xc0 =? 0xc0)%Z.

(* @fn src/src/network/inet_address.h | bool is_ula() const noexcept { ^0 | Inet6Address::is_ula *)
Definition v6_is_ula (a : Inet6Address) : bool := (Z.land (octet (v6_addr a) 0) 0xfe =? 0xfc)%Z.

(* @fn src/src/network/inet_address.cpp | bool InetAddress::is_link_local() | InetAddress::is_link_local *)
Definition is_link_local (a : InetAddress) : bool :=
  match as_v6 a with Some v6 => v6_is_link_local v6 | None => false end.

(* @fn src/src/network/inet_address.cpp | bool InetAddress::is_site_local() | InetAddress::is_site_local *)
Definition is_site_local (a : InetAddress) : bool :=
  match as_v6 a with Some v6 => v6_is_site_local v6 | None => false end.

(* @fn src/src/network/inet_address.cpp | bool InetAddress::is_ula() | InetAddress::is_ula *)
Definition is_ula (a : InetAddress) : bool :=
  match as_v6 a with Some v6 => v6_is_ula v6 | None => false end.

(* @fn src/src/network/inet_address.cpp | std::uint32_t InetAddress::get_scope_id() | InetAddress::get_scope_id *)
Definition get_scope_id (a : InetAddress) : Z :=
  match as_v6 a with Some v6 => v6_scope_id v6 | None => 0 end.

(** * Classification as prefixes

    The first 32 bits of an address, as a number in network order, against the
    prefix of the range of RFC 4291 and RFC 4193. *)

Definition wf_address (a : InetAddress) : Prop :=
  match a with
  | V4 a => length (v4_addr a) = 4 ∧ Forall is_byte (v4_addr a)
  | V6 a => length (v6_addr a) = 16 ∧ Forall is_byte (v6_addr a) ∧ is_u32 (v6_scope_id a)
  end.

(** The first sixteen bits. *)
Definition head16 (b : bytes) : Z := (octet b 0 * 256 + octet b 1)%Z.

Lemma octet_is_byte b i : Forall is_byte b → is_byte (octet b i).
Proof.
  intros Hb. unfold octet. destruct (nth_in_or_default i b 0%Z) as [Hin|Hd].
  - rewrite Forall_forall in Hb. apply Hb. by apply list_elem_of_In.
  - rewrite Hd. unfold is_byte. lia.
Qed.

Lemma top2_bits b : is_byte b → Z.land b 0xc0 = (b / 64 * 64)%Z.
Proof. intros Hb. by_all_bytes b Hb. Qed.
Lemma top7_bits b : is_byte b → Z.land b 0xfe = (b / 2 * 2)%Z.
Proof. intros Hb. by_all_bytes b Hb. Qed.

(** [fe80::/10] and [fec0::/10]. *)
Lemma fe_prefix b0 b1 n :
  is_byte b0 → is_byte b1 → (0 ≤ n < 4)%Z →
  ((b0 =? 0xfe) && (Z.land b1 0xc0 =? n * 64))%Z = true ↔ ((b0 * 256 + b1) / 64 = 0xfe * 4 + n)%Z.
Proof.
  intros H0 H1 Hn. rewrite top2_bits by done. unfold is_byte in *.
  replace (b0 * 256 + b1)%Z with (b1 + b0 * 4 * 64)%Z by lia.
  rewrite Z.div_add by lia. rewrite andb_true_iff, !Z.eqb_eq.
  pose proof (Z.div_pos b1 64). pose proof (Z.div_lt_upper_bound b1 64 4). lia.
Qed.

Lemma link_local_prefix a :
  wf_address (V6 a) → v6_is_link_local a = true ↔ (head16 (v6_addr a) / 64 = 0xfe80 / 64)%Z.
Proof.
  intros (_ & Hb & _). apply (fe_prefix _ _ 2); [by apply octet_is_byte..|lia].
Qed.

Lemma site_local_prefix a :
  wf_address (V6 a) → v6_is_site_local a = true ↔ (head16 (v6_addr a) / 64 = 0xfec0 / 64)%Z.
Proof.
  intros (_ & Hb & _). apply (fe_prefix _ _ 3); [by apply octet_is_byte..|lia].
Qed.

(** [fc00::/7]. *)
Lemma ula_prefix a :
  wf_address (V6 a) → v6_is_ula a = true ↔ (head16 (v6_addr a) / 512 = 0xfc00 / 512)%Z.
Proof.
  intros (_ & Hb & _). unfold v6_is_ula, head16.
  pose proof (octet_is_byte (v6_addr a) 0 Hb) as H0. pose proof (octet_is_byte (v6_addr a) 1 Hb) as H1.
  rewrite top7_bits by done. unfold is_byte in *. set (x := octet (v6_addr a) 0) in *.
  set (y := octet (v6_addr a) 1) in *. rewrite Z.eqb_eq.
  replace 512%Z with (256 * 2)%Z by lia. rewrite <- !Z.div_div by lia.
  rewrite (Z.add_comm (x * 256)), Z.div_add, (Z.div_small y) by lia. simpl.
  change (64512 `div` 256 `div` 2)%Z with 126%Z. rewrite Z.add_0_l. lia.
Qed.

(** The three ranges are disjoint. *)
Lemma classes_disjoint a :
  (v6_is_link_local a = true → v6_is_ula a = false ∧ v6_is_site_local a = false)
  ∧ (v6_is_ula a = true → v6_is_site_local a = false).
Proof.
  unfold v6_is_link_local, v6_is_ula, v6_is_site_local. split.
  - intros [H0%Z.eqb_eq H1%Z.eqb_eq]%andb_true_iff. rewrite H0, H1. done.
  - intros Hu. destruct (octet (v6_addr a) 0 =? 0xfe)%Z eqn:He; [|done].
    apply Z.eqb_eq in He. rewrite He in Hu. done.
Qed.

Lemma from_bytes_wf b a : Forall is_byte b → from_bytes b = Some a → wf_address a.
Proof.
  intros Hb. unfold from_bytes. destruct (length b) as [|[|[|[|[|n]]]]] eqn:Hl; try done.
  - intros [= <-]. done.
  - do 12 (destruct n as [|n]; [try done|]); [|destruct n; done].
    intros [= <-]. simpl. split; [done|]. split; [done|]. unfold is_u32. lia.
Qed.

Lemma get_address_length a : wf_address a → length (get_address a) = 16.
Proof. destruct a; intros [Hl _]; unfold get_address; simpl; rewrite length_app, length_replicate; lia. Qed.

(** * Socket addresses

    The fields of [sockaddr_in] and [sockaddr_in6] that the program sets and
    reads; the port is kept in host order. *)

(* @fn src/src/network/socket_addr.cpp | std::optional<SocketAddr> SocketAddr::from_inet | SocketAddr::from_inet (storage) *)
Inductive SocketAddr :=
| AF_UNSPEC
| AF_INET (sin_port : Z) (sin_addr : bytes)
| AF_INET6 (sin6_port : Z) (sin6_addr : bytes) (sin6_scope_id : Z).

(* @fn src/src/network/socket_addr.cpp | std::optional<SocketAddr> SocketAddr::from_inet | SocketAddr::from_inet *)
Definition from_inet (addr : InetAddress) (port : Z) : option SocketAddr :=
  let result :=
    match addr with
    | V4 a => AF_INET port (v4_addr a)
    | V6 a => AF_INET6 port (v6_addr a) (v6_scope_id a)
    end in
  match result with AF_UNSPEC => None | _ => Some result end.

(* @fn src/src/network/socket_addr.cpp | std::uint16_t SocketAddr::port() | SocketAddr::port *)
Definition sa_port (s : SocketAddr) : Z :=
  match s with AF_INET p _ => p | AF_INET6 p _ _ => p | AF_UNSPEC => 0 end.

(* @fn src/src/network/socket_addr.cpp | std::optional<InetAddress> SocketAddr::address() | SocketAddr::address *)
Definition sa_address (s : SocketAddr) : option InetAddress :=
  match s with
  | AF_INET _ a => Some (V4 {| v4_addr := a |})
  | AF_INET6 _ a scope => Some (V6 {| v6_addr := a; v6_scope_id := if (scope =? 0)%Z then 0 else scope |})
  | AF_UNSPEC => None
  end.

(* @fn src/src/network/socket_addr.cpp | std::string SocketAddr::to_string() | SocketAddr::to_string *)
Definition sa_to_string `{InetText} (s : SocketAddr) : bytes :=
  match sa_address s with
  | None => str "<unspec>"
  | Some inet =>
      let addr_str := to_string inet in
      match s with
      | AF_INET6 _ _ _ => str "[" ++ addr_str ++ str "]:" ++ dec (sa_port s)
      | _ => addr_str ++ str ":" ++ dec (sa_port s)
      end
  end.

(** Address and port survive the conversion. *)
Lemma from_inet_address a port :
  ∃ s, from_inet a port = Some s ∧ sa_address s = Some a ∧ sa_port s = port.
Proof.
  destruct a as [[a]|[a scope]]; eexists; split; try reflexivity; (split; [|done]); [done|].
  simpl. do 3 f_equal. by destruct (Z.eqb_spec scope 0).
Qed.
