(* ===== verification/Uri.v ===== *)
(** [src/network/uri.cpp], [include/uri.h]: the URI parser.  A [Uri] owns one
    string; its components are slices of it, so the accessors are only defined
    because [parse] keeps every slice inside the string.  Percent-encoding and
    query parameters are inverted by their decoders, with the code's exception:
    a plus sign that was encoded comes back as a space. *)
From S2P Require Import Prelude CppString Address.

(** * Types *)

(** What [parse] may throw, and the [std::out_of_range] of [substr]. *)
Inductive UriError := RuntimeError (what : bytes) | OutOfRange.

#[global] Instance UriError_eq_dec : EqDecision UriError.
Proof. solve_decision. Defined.

(* @fn src/include/uri.h | struct Slice { | Uri::Slice *)
Record Slice := { pos : nat; len : nat }.

Definition no_slice : Slice := {| pos := 0; len := 0 |}.

(* @fn src/include/uri.h | bool empty() const noexcept | Uri::Slice::empty *)
Definition slice_empty (s : Slice) : bool := len s =? 0.

(* @src src/include/uri.h 135 143 Uri (members) *)
Record Uri := {
  raw_uri_ : bytes;
  schema_ : Slice;
  host_ : Slice;
  is_ipv6_ : bool;
  port_ : option Z;
  path_ : Slice;
  query_string_ : Slice;
  body_ : Slice
}.

(** [Uri result{}]. *)
Definition empty_uri : Uri :=
  {| raw_uri_ := []; schema_ := no_slice; host_ := no_slice; is_ipv6_ := false; port_ := None;
     path_ := no_slice; query_string_ := no_slice; body_ := no_slice |}.

(** [sv.substr(pos, n)]: throws when [pos] is behind the end, else clamps [n]. *)
Definition substr (s : bytes) (p n : nat) : outcome UriError bytes :=
  if p <=? length s then Ret (sub s p n) else Throw OutOfRange.

(** [Slice::view] is [noexcept]: out of range, the program terminates. *)
(* @fn src/include/uri.h | std::string_view view(const std::string &s) const noexcept { | Uri::Slice::view *)
Definition slice_view {E} (sl : Slice) (s : bytes) : outcome E bytes :=
  if pos sl <=? length s then Ret (sub s (pos sl) (len sl)) else Undef.

(* @fn src/include/uri.h | std::string_view view(const Slice &s) const noexcept { | Uri::view *)
Definition view {E} (u : Uri) (sl : Slice) : outcome E bytes := slice_view sl (raw_uri_ u).

(** * Schemes and ports *)

(* @fn src/src/network/uri.cpp | KNOWN_PORTS = { | KNOWN_PORTS *)
Definition KNOWN_PORTS : list (bytes * Z) :=
  [(str "http", 80%Z); (str "https", 443%Z); (str "tls", 853%Z)].

Definition known_port (scheme : bytes) : option Z :=
  '(_, (_, port)) ← list_find (λ e, e.1 = scheme) KNOWN_PORTS; Some port.

(* @fn src/src/network/uri.cpp | int lookup_default_port( | lookup_default_port *)
Definition lookup_default_port (scheme : bytes) : Z := default 0%Z (known_port scheme).

(* @fn src/src/network/uri.cpp | bool is_default_port( | is_default_port *)
Definition is_default_port (scheme : bytes) (port : Z) : bool :=
  match known_port scheme with Some p => (p =? port)%Z | None => false end.

(* @fn src/src/network/uri.cpp | int Uri::default_port_for( | Uri::default_port_for *)
Definition default_port_for (scheme : bytes) : Z := lookup_default_port scheme.

(** In place; writing behind the end of the string is undefined. *)
(* @fn src/src/network/uri.cpp | void lowercase_range( | lowercase_range *)
Definition lowercase_range {E} (s : bytes) (p n : nat) : outcome E bytes :=
  if n =? 0 then Ret s
  else if p + n <=? length s
  then Ret (take p s ++ map tolower (sub s p n) ++ drop (p + n) s)
  else Undef.

(** * Parsing *)

Section parse.
Context `{InetText}.

(** [std::from_chars] into [int]: a sign, and characters behind the number,
    are accepted; an error leaves the port unset. *)
(* @src src/src/network/uri.cpp 179 186 Uri::parse_authority (port) *)
Definition parse_port (port_str : bytes) : option Z :=
  if bool_decide (port_str = []) then None else
  match from_chars_int port_str with Some (v, _) => Some v | None => None end.

(* @fn src/src/network/uri.cpp | void Uri::parse_authority( | Uri::parse_authority *)
Definition parse_authority (auth : bytes) (auth_raw_offset : nat) (raw_uri_hint : bytes)
    : outcome UriError (Slice * option Z * bool) :=
  if bool_decide (auth = []) then Ret (no_slice, None, false) else
  if starts_with auth (str "[") then
    match find auth (str "]") 0 with
    | None => Throw (RuntimeError (str "Unclosed IPv6 literal bracket: " ++ raw_uri_hint))
    | Some closing =>
        let host := {| pos := auth_raw_offset + 1; len := closing - 1 |} in
        if (closing + 1 <? length auth) && bool_decide (auth !! (closing + 1) = Some (ch ":")) then
          port_str ← substr auth (closing + 2) (length auth);
          Ret (host, parse_port port_str, true)
        else Ret (host, None, true)
    end
  else if CppString.contains auth (str ":") && bool_decide (is_Some (Address.parse6 auth)) then
    Ret ({| pos := auth_raw_offset; len := length auth |}, None, true)
  else
    match rfind_char auth (ch ":") with
    | Some colon =>
        port_str ← substr auth (colon + 1) (length auth);
        Ret ({| pos := auth_raw_offset; len := colon |}, parse_port port_str, false)
    | None => Ret ({| pos := auth_raw_offset; len := length auth |}, None, false)
    end.

(* @src src/src/network/uri.cpp 69 74 Uri::parse (fragment) *)
Definition strip_fragment (uri : bytes) : bytes :=
  match find uri (str "#") 0 with Some p => take p uri | None => uri end.

(** The length of the scheme: the text before the first "://", if any and not empty. *)
(* @src src/src/network/uri.cpp 82 84 Uri::parse (scheme) *)
Definition scheme_length (u : bytes) : option nat :=
  match find u (str "://") 0 with
  | Some (S n) => Some (S n)
  | _ => None
  end.

(* @src src/src/network/uri.cpp 112 118 Uri::parse (authority end) *)
Definition authority_end (u : bytes) (path_pos query_pos : option nat) : nat :=
  let e := length u in
  let e := match path_pos with Some p => Nat.min e p | None => e end in
  match query_pos with Some q => Nat.min e q | None => e end.

(* @src src/src/network/uri.cpp 137 142 Uri::parse (path) *)
Definition path_slice (u : bytes) (path_pos query_pos : option nat) : Slice :=
  match path_pos with
  | Some p =>
      match query_pos with
      | Some q => if p <? q then {| pos := p; len := q - p |} else no_slice
      | None => {| pos := p; len := length u - p |}
      end
  | None => no_slice
  end.

(* @src src/src/network/uri.cpp 145 147 Uri::parse (query) *)
Definition query_slice (u : bytes) (query_pos : option nat) : Slice :=
  match query_pos with
  | Some q => {| pos := q + 1; len := length u - q - 1 |}
  | None => no_slice
  end.

(** Everything after the scheme has been recognised. *)
(* @src src/src/network/uri.cpp 99 154 Uri::parse (components) *)
Definition parse_components (u raw_uri : bytes) (schema : Slice) (has_scheme : bool)
    (authority_start : nat) (body : Slice) : outcome UriError Uri :=
  let query_pos := find u (str "?") authority_start in
  let path_pos := find u (str "/") authority_start in
  if negb has_scheme && (starts_with u (str "/") || starts_with u (str ".")) then
    Ret {| raw_uri_ := raw_uri; schema_ := schema; host_ := no_slice; is_ipv6_ := false;
           port_ := None; path_ := {| pos := 0; len := length u |};
           query_string_ := no_slice; body_ := body |}
  else
    auth_view ← substr u authority_start (authority_end u path_pos query_pos - authority_start);
    '(host, port, is_ipv6) ← parse_authority auth_view authority_start raw_uri;
    raw_uri ← (if slice_empty host then Ret raw_uri
               else lowercase_range raw_uri (pos host) (len host));
    port ← match port with
           | Some p => Ret p
           | None =>
               if has_scheme then scheme ← slice_view schema raw_uri; Ret (default_port_for scheme)
               else Ret 0%Z
           end;
    Ret {| raw_uri_ := raw_uri; schema_ := schema; host_ := host; is_ipv6_ := is_ipv6;
           port_ := Some port; path_ := path_slice u path_pos query_pos;
           query_string_ := query_slice u query_pos; body_ := body |}.

(* @fn src/src/network/uri.cpp | Uri Uri::parse( | Uri::parse *)
Definition parse (uri : bytes) : outcome UriError Uri :=
  if bool_decide (uri = []) then Ret empty_uri else
  let u := strip_fragment uri in
  match scheme_length u with
  | Some hier_delim =>
      raw_uri ← lowercase_range uri 0 hier_delim;
      let authority_start := hier_delim + 3 in
      parse_components u raw_uri {| pos := 0; len := hier_delim |} true authority_start
        {| pos := authority_start; len := length u - authority_start |}
  | None => parse_components u uri no_slice false 0 {| pos := 0; len := length u |}
  end.
End parse.

(** * Accessors *)

Section accessors.
Context {E : Type}.

(* @fn src/src/network/uri.cpp | std::string_view Uri::get_schema() | Uri::get_schema *)
Definition get_schema (u : Uri) : outcome E bytes := view u (schema_ u).

(* @fn src/src/network/uri.cpp | std::string_view Uri::get_host() | Uri::get_host *)
Definition get_host (u : Uri) : outcome E bytes := view u (host_ u).

(** The cached bracketed form depends on nothing that changes after [parse]. *)
(* @fn src/src/network/uri.cpp | std::string_view Uri::get_host_literal() | Uri::get_host_literal *)
Definition get_host_literal (u : Uri) : outcome E bytes :=
  if negb (is_ipv6_ u) then view u (host_ u)
  else h ← view u (host_ u); Ret (str "[" ++ h ++ str "]").

(* @fn src/src/network/uri.cpp | int Uri::get_port() | Uri::get_port *)
Definition get_port (u : Uri) : outcome E Z := deref (port_ u).

(* @fn src/src/network/uri.cpp | std::string_view Uri::get_path() | Uri::get_path *)
Definition get_path (u : Uri) : outcome E bytes :=
  if slice_empty (path_ u)
  then Ret (if slice_empty (schema_ u) then [] else str "/")
  else view u (path_ u).

(* @fn src/src/network/uri.cpp | std::string_view Uri::get_query_string() | Uri::get_query_string *)
Definition get_query_string (u : Uri) : outcome E bytes := view u (query_string_ u).

(* @fn src/src/network/uri.cpp | std::string_view Uri::get_body() | Uri::get_body *)
Definition get_body (u : Uri) : outcome E bytes := view u (body_ u).

(* @fn src/src/network/uri.cpp | std::string_view Uri::get_raw_uri() | Uri::get_raw_uri *)
Definition get_raw_uri (u : Uri) : bytes := raw_uri_ u.

(* @fn src/src/network/uri.cpp | std::string Uri::get_origin() | Uri::get_origin *)
Definition get_origin (u : Uri) : outcome E bytes :=
  schema_view ← view u (schema_ u);
  host_view ← get_host_literal u;
  port ← deref (port_ u);
  Ret (if bool_decide (schema_view = []) then
         if negb (port =? 0)%Z then host_view ++ str ":" ++ dec port else host_view
       else if is_default_port schema_view port then schema_view ++ str "://" ++ host_view
       else schema_view ++ str "://" ++ host_view ++ str ":" ++ dec port).
End accessors.

(** * Percent encoding *)

(* @fn src/src/network/uri.cpp | HEX_CHARS = | HEX_CHARS *)
Definition HEX_CHARS : bytes := str "0123456789ABCDEF".

Definition hex_char (v : Z) : Z := nth (Z.to_nat v) HEX_CHARS 0%Z.

(* @src src/src/network/uri.cpp 353 353 Uri::url_encode (unreserved) *)
Definition unreserved (uc : Z) : bool :=
  isalnum uc || (uc =? ch "-")%Z || (uc =? ch ".")%Z || (uc =? ch "_")%Z || (uc =? ch "~")%Z.

(* @src src/src/network/uri.cpp 352 362 Uri::url_encode (one character) *)
Definition encode_char (encode_slash : bool) (c : Z) : bytes :=
  if unreserved c then [c]
  else if (c =? ch "/")%Z && negb encode_slash then [c]
  else [ch "%"; hex_char (Z.shiftr c 4); hex_char (Z.land c 0xf)].

(* @fn src/src/network/uri.cpp | std::string Uri::url_encode( | Uri::url_encode *)
Definition url_encode (input : bytes) (encode_slash : bool) : bytes :=
  flat_map (encode_char encode_slash) input.

(** [i + 2 < size] leaves two characters to decode; [from_chars] may read only
    the first of them and both are skipped. *)
(* @fn src/src/network/uri.cpp | std::string Uri::url_decode( | Uri::url_decode *)
Fixpoint url_decode (input : bytes) : bytes :=
  match input with
  | [] => []
  | c :: rest =>
      match rest with
      | h :: l :: rest' =>
          if (c =? ch "%")%Z then
            match from_chars_unsigned 16 4294967295 [h; l] with
            | Some (val, _) => u8 val :: url_decode rest'
            | None => c :: url_decode rest
            end
          else c :: url_decode rest
      | _ => c :: url_decode rest
      end
  end.

(* @src src/src/network/uri.cpp 321 329 Uri::get_query_params (decode_query) *)
Definition decode_query (plus_to_space : bool) (s : bytes) : bytes :=
  let decoded := url_decode s in
  if plus_to_space
  then map (λ ch_, if (ch_ =? ch "+")%Z then ch " " else ch_) decoded
  else decoded.

(** One '&'-separated segment. *)
(* @src src/src/network/uri.cpp 308 332 Uri::get_query_params (segment) *)
Definition query_param (plus_to_space : bool) (segment : bytes) : bytes * bytes :=
  let '(key_view, value_view) :=
    match find segment (str "=") 0 with
    | None => (segment, [])
    | Some eq_pos => (take eq_pos segment, drop (eq_pos + 1) segment)
    end in
  (decode_query plus_to_space key_view, decode_query plus_to_space value_view).

(** The loop; each iteration moves [start] forward. *)
(* @src src/src/network/uri.cpp 301 338 Uri::get_query_params (loop) *)
Fixpoint query_params_loop {E} (fuel : nat) (plus_to_space : bool) (qs : bytes) (start : nat)
    : outcome E (list (bytes * bytes)) :=
  if start <? length qs then
    match fuel with
    | O => OutOfFuel
    | S fuel =>
        let end_ := find qs (str "&") start in
        let segment := match end_ with
                       | None => drop start qs
                       | Some e => sub qs start (e - start)
                       end in
        let params := if bool_decide (segment = []) then []
                      else [query_param plus_to_space segment] in
        match end_ with
        | None => Ret params
        | Some e => rest ← query_params_loop fuel plus_to_space qs (e + 1); Ret (params ++ rest)
        end
    end
  else Ret [].

(* @fn src/src/network/uri.cpp | Uri::get_query_params(bool | Uri::get_query_params *)
Definition get_query_params {E} (u : Uri) (plus_to_space : bool) : outcome E (list (bytes * bytes)) :=
  if slice_empty (query_string_ u) then Ret [] else
  qs ← view u (query_string_ u);
  query_params_loop (length qs) plus_to_space qs 0.

(** * The slices stay inside the string *)

Definition slice_ok (raw : bytes) (sl : Slice) : Prop := pos sl + len sl ≤ length raw.

(** Inputs without a scheme that start with a slash or a dot: paths, for which
    no authority is looked for. *)
Definition path_only (uri : bytes) : bool :=
  let u := strip_fragment uri in
  match scheme_length u with
  | Some _ => false
  | None => starts_with u (str "/") || starts_with u (str ".")
  end.

Record wf_uri (uri : bytes) (r : Uri) : Prop := {
  wf_raw : length (raw_uri_ r) = length uri;
  wf_schema : slice_ok (raw_uri_ r) (schema_ r);
  wf_host : slice_ok (raw_uri_ r) (host_ r);
  wf_path : slice_ok (raw_uri_ r) (path_ r);
  wf_query : slice_ok (raw_uri_ r) (query_string_ r);
  wf_body : slice_ok (raw_uri_ r) (body_ r);
  wf_port : port_ r = None ↔ uri = [] ∨ path_only uri = true;
  wf_no_port : port_ r = None → schema_ r = no_slice ∧ host_ r = no_slice
}.

Lemma strip_fragment_prefix uri : ∃ k, uri = strip_fragment uri ++ k.
Proof.
  unfold strip_fragment. destruct (find uri (str "#") 0) as [p|].
  - exists (drop p uri). by rewrite take_drop.
  - exists []. by rewrite app_nil_r.
Qed.

Lemma strip_fragment_length uri : length (strip_fragment uri) ≤ length uri.
Proof. destruct (strip_fragment_prefix uri) as [k Hk]. rewrite Hk at 2. rewrite length_app. lia. Qed.

Lemma scheme_length_bound u n : scheme_length u = Some n → 0 < n ∧ n + 3 ≤ length u.
Proof.
  unfold scheme_length. destruct (find u (str "://") 0) as [[|m]|] eqn:Hf; [done| |done].
  intros [= <-]. apply find_Some_bound in Hf as [_ Hl]. change (length (str "://")) with 3 in Hl. lia.
Qed.

Lemma wp_lowercase_range {E} s p n (T : E → Prop) :
  p + n ≤ length s → wp (lowercase_range (E:=E) s p n) (λ r, length r = length s) T.
Proof.
  intros Hp. unfold lowercase_range. destruct (n =? 0); [done|].
  rewrite (proj2 (Nat.leb_le _ _) Hp). simpl. unfold sub.
  rewrite !length_app, length_map, !length_take, !length_drop. lia.
Qed.

Section in_bounds.
Context `{InetText}.

Definition unclosed (auth : bytes) (e : UriError) : Prop :=
  (∃ hint, e = RuntimeError (str "Unclosed IPv6 literal bracket: " ++ hint))
  ∧ starts_with auth (str "[") = true ∧ find auth (str "]") 0 = None.

Lemma wp_parse_authority auth off hint :
  wp (parse_authority auth off hint)
    (λ '(host, _, _), pos host + len host ≤ off + length auth) (unclosed auth).
Proof.
  unfold parse_authority. case_bool_decide as He; [simpl; lia|].
  destruct (starts_with auth (str "[")) eqn:Hs.
  - destruct (find auth (str "]") 0) as [closing|] eqn:Hf; [|by split; [eexists|]].
    apply find_Some_bound in Hf as [_ Hl]. change (length (str "]")) with 1 in Hl.
    destruct (_ && _) eqn:Hc; simpl; [|lia].
    apply andb_true_iff in Hc as [Hc _]. apply Nat.ltb_lt in Hc. unfold substr.
    rewrite (proj2 (Nat.leb_le _ _)) by lia. simpl. lia.
  - destruct (_ && _); [simpl; lia|].
    destruct (rfind_char auth (ch ":")) as [colon|] eqn:Hr; [|simpl; lia].
    apply rfind_char_Some in Hr as [Hr _]. apply lookup_lt_Some in Hr. unfold substr.
    rewrite (proj2 (Nat.leb_le _ _)) by lia. simpl. lia.
Qed.

Lemma authority_end_bounds u start :
  start ≤ length u →
  start ≤ authority_end u (find u (str "/") start) (find u (str "?") start) ≤ length u.
Proof.
  intros Hs. unfold authority_end.
  destruct (find u (str "/") start) as [p|] eqn:Hp, (find u (str "?") start) as [q|] eqn:Hq;
    try apply find_Some_bound in Hp; try apply find_Some_bound in Hq; lia.
Qed.

Lemma path_slice_bound u start :
  pos (path_slice u (find u (str "/") start) (find u (str "?") start))
    + len (path_slice u (find u (str "/") start) (find u (str "?") start)) ≤ length u.
Proof.
  unfold path_slice.
  destruct (find u (str "/") start) as [p|] eqn:Hp; [|simpl; lia].
  apply find_Some_bound in Hp. destruct (find u (str "?") start) as [q|] eqn:Hq; [|simpl; lia].
  apply find_Some_bound in Hq. destruct (p <? q) eqn:Hlt; simpl; [|lia]. apply Nat.ltb_lt in Hlt. lia.
Qed.

Lemma query_slice_bound u start :
  pos (query_slice u (find u (str "?") start)) + len (query_slice u (find u (str "?") start)) ≤ length u.
Proof.
  unfold query_slice. destruct (find u (str "?") start) as [q|] eqn:Hq; simpl; [|lia].
  apply find_Some_bound in Hq as [_ Hq]. change (length (str "?")) with 1 in Hq. lia.
Qed.

Lemma wp_parse_components u raw schema has_scheme start body :
  length u ≤ length raw → start ≤ length u → slice_ok raw schema → slice_ok raw body →
  wp (parse_components u raw schema has_scheme start body)
    (λ r, length (raw_uri_ r) = length raw ∧ schema_ r = schema ∧ body_ r = body
      ∧ slice_ok raw (host_ r) ∧ slice_ok raw (path_ r) ∧ slice_ok raw (query_string_ r)
      ∧ (port_ r = None ↔
           negb has_scheme && (starts_with u (str "/") || starts_with u (str ".")) = true)
      ∧ (port_ r = None → host_ r = no_slice))
    (λ e, ∃ n, unclosed (sub u start n) e).
Proof.
  intros Hu Hstart Hsch Hbody. unfold parse_components.
  destruct (negb has_scheme && _) eqn:Hpath.
  { simpl. unfold slice_ok in *. simpl. repeat split; auto; lia. }
  pose proof (authority_end_bounds u start Hstart) as Hae.
  pose proof (path_slice_bound u start) as Hps. pose proof (query_slice_bound u start) as Hqs.
  set (qp := find u (str "?") start) in *. set (pp := find u (str "/") start) in *.
  set (n := authority_end u pp qp - start). unfold substr at 1.
  rewrite (proj2 (Nat.leb_le _ _) Hstart). cbn [mbind outcome_bind].
  apply wp_bind. eapply wp_mono; [apply wp_parse_authority| |]; cycle 1.
  { intros e He. by exists n. }
  intros [[host port] is6] Hhost. rewrite sub_length in Hhost by lia.
  apply wp_bind. eapply wp_mono with (Q := λ r, length r = length raw) (T := λ _, False); [|..|done].
  { destruct (slice_empty host); [done|]. apply wp_lowercase_range. lia. }
  intros raw' Hraw'. apply wp_bind.
  eapply wp_mono with (Q := λ _, True) (T := λ _, False); [|..|done].
  { destruct port; [done|]. destruct has_scheme; [|done]. unfold slice_view.
    unfold slice_ok in Hsch. rewrite (proj2 (Nat.leb_le _ _)) by lia. done. }
  intros port' _. cbn -[path_slice query_slice]. unfold slice_ok in *.
  do 6 (split; [first [done|lia]|]). done.
Qed.
End in_bounds.

Lemma wp_parse `{InetText} (uri : bytes) :
  wp (parse uri) (wf_uri uri)
    (λ e, ∃ p n, unclosed (sub (strip_fragment uri) p n) e).
Proof.
  unfold parse. case_bool_decide as He.
  { subst. split; try done; unfold slice_ok; simpl; try lia. split; auto. }
  pose proof (strip_fragment_length uri) as Hu. set (u := strip_fragment uri) in *.
  destruct (scheme_length u) as [n|] eqn:Hs.
  - pose proof (scheme_length_bound u n Hs) as [Hn Hn3].
    apply wp_bind. eapply wp_mono with (T := λ _, False); [apply wp_lowercase_range; lia| |done].
    intros raw Hraw. cbv beta in Hraw. eapply wp_mono; [apply wp_parse_components|..];
      try (unfold slice_ok; simpl; lia); [|by intros e [m Hm]; eexists _, m].
    intros r (Hr1 & Hr2 & Hr3 & Hr4 & Hr5 & Hr6 & Hr7 & Hr8). unfold slice_ok in *.
    split; unfold slice_ok; rewrite ?Hr1, ?Hr2, ?Hr3; simpl; try lia.
    + rewrite Hr7. simpl. unfold path_only. fold u. rewrite Hs. naive_solver.
    + intros Hnone. split; [|by apply Hr8]. by apply Hr7 in Hnone.
  - eapply wp_mono; [apply wp_parse_components|..];
      try (unfold slice_ok; simpl; lia); [|by intros e [m Hm]; eexists _, m].
    intros r (Hr1 & Hr2 & Hr3 & Hr4 & Hr5 & Hr6 & Hr7 & Hr8). unfold slice_ok in *.
    split; unfold slice_ok; rewrite ?Hr1, ?Hr2, ?Hr3; simpl; try lia.
    + rewrite Hr7. simpl. unfold path_only. fold u. rewrite Hs. naive_solver.
    + intros Hnone. split; [|by apply Hr8]. by apply Hr7 in Hnone.
Qed.


(** ** What the accessors return *)

(** The text of a slice, all of which lies inside the string. *)
Definition text_of (r : Uri) (sl : Slice) (t : bytes) : Prop :=
  slice_ok (raw_uri_ r) sl ∧ t = sub (raw_uri_ r) (pos sl) (len sl) ∧ length t = len sl.

Lemma view_text {E} r sl : slice_ok (raw_uri_ r) sl → ∃ t, view (E:=E) r sl = Ret t ∧ text_of r sl t.
Proof.
  intros Hs. exists (sub (raw_uri_ r) (pos sl) (len sl)). unfold slice_ok in Hs. split.
  - unfold view, slice_view. by rewrite (proj2 (Nat.leb_le _ _)) by lia.
  - split_and!; [done|done|]. apply sub_length. lia.
Qed.

Lemma query_params_loop_ends {E} fuel plus qs start :
  length qs - start ≤ fuel → ∃ l, query_params_loop (E:=E) fuel plus qs start = Ret l.
Proof.
  revert start. induction fuel as [|fuel IH]; intros start Hf; cbn [query_params_loop];
    destruct (start <? length qs) eqn:Hlt; prop_of_bool; try (by eexists); [lia|].
  destruct (find qs (str "&") start) as [e|] eqn:He; [|by eexists]. apply find_Some_bound in He as [He _].
  destruct (IH (e + 1) ltac:(lia)) as [l ->]. by eexists.
Qed.

(** No port is set for an empty text or a bare path. *)
Definition portless (uri : bytes) : bool := bool_decide (uri = []) || path_only uri.

(** What each accessor returns of the result [r] of parsing [uri]: the text of its
    slice; dereferencing an absent port is undefined. *)
Record readable (uri : bytes) (r : Uri) : Prop := {
  rd_raw : length (get_raw_uri r) = length uri;
  rd_schema : ∃ t, get_schema (E:=UriError) r = Ret t ∧ text_of r (schema_ r) t;
  rd_host : ∃ t, get_host (E:=UriError) r = Ret t ∧ text_of r (host_ r) t
    ∧ get_host_literal (E:=UriError) r = Ret (if is_ipv6_ r then str "[" ++ t ++ str "]" else t);
  rd_path : ∃ t, text_of r (path_ r) t
    ∧ get_path (E:=UriError) r = Ret (if len (path_ r) =? 0 then (if len (schema_ r) =? 0 then [] else str "/") else t);
  rd_query : ∃ t, get_query_string (E:=UriError) r = Ret t ∧ text_of r (query_string_ r) t;
  rd_params plus : ∃ l, get_query_params (E:=UriError) r plus = Ret l;
  rd_body : ∃ t, get_body (E:=UriError) r = Ret t ∧ text_of r (body_ r) t;
  rd_port : if portless uri then get_port (E:=UriError) r = Undef else ∃ p, get_port (E:=UriError) r = Ret p;
  rd_origin : if portless uri then get_origin (E:=UriError) r = Undef else ∃ t, get_origin (E:=UriError) r = Ret t
}.

Lemma portless_spec uri r : wf_uri uri r → (if portless uri then port_ r = None else ∃ p, port_ r = Some p).
Proof.
  intros Hw. pose proof (wf_port _ _ Hw) as Hp. destruct (portless uri) eqn:Hb.
  - apply Hp. unfold portless in Hb. apply orb_true_iff in Hb as [Hb|Hb]; [left; by apply bool_decide_eq_true in Hb|by right].
  - destruct (port_ r) as [p|] eqn:Hport; [by exists p|]. exfalso. unfold portless in Hb.
    apply orb_false_iff in Hb as [He Hb]. apply bool_decide_eq_false in He. by destruct (proj1 Hp eq_refl) as [|Hc]; [|congruence].
Qed.

Lemma wf_readable uri r : wf_uri uri r → readable uri r.
Proof.
  intros Hw. pose proof (portless_spec _ _ Hw) as Hport. destruct Hw as [Hraw Hs Hh Hp Hq Hb _ _].
  destruct (view_text (E:=UriError) r _ Hs) as (ts & Es & Ts), (view_text (E:=UriError) r _ Hh) as (th & Eh & Th),
    (view_text (E:=UriError) r _ Hp) as (tp & Ep & Tp), (view_text (E:=UriError) r _ Hq) as (tq & Eq & Tq).
  assert (get_host_literal (E:=UriError) r = Ret (if is_ipv6_ r then str "[" ++ th ++ str "]" else th)) as Hlit.
  { unfold get_host_literal. rewrite Eh. by destruct (is_ipv6_ r). }
  split; [exact Hraw|by exists ts|by exists th| |by exists tq| |by apply view_text|..].
  - exists tp. split; [exact Tp|]. unfold get_path, slice_empty. destruct (len (path_ r) =? 0); [done|exact Ep].
  - intros plus. unfold get_query_params. destruct (slice_empty _); [by eexists|]. rewrite Eq. cbn [mbind outcome_bind].
    apply query_params_loop_ends. lia.
  - unfold get_port. destruct (portless uri); [by rewrite Hport|]. destruct Hport as [p ->]. by exists p.
  - unfold get_origin. rewrite Es, Hlit. cbn [mbind outcome_bind].
    destruct (portless uri); [by rewrite Hport|]. destruct Hport as [p ->]. by eexists.
Qed.

(** C30: [parse] never reads or writes outside its string and never throws
    [std::out_of_range]: it returns a URI, or throws because an IPv6 literal's bracket
    is not closed.  Of the URI every accessor is defined and reads inside the
    string: the scheme, the host, the path, the query and the body are the texts
    of their slices, of the slices' full lengths.  The exceptions are [get_port] and
    [get_origin], which are undefined for an empty text and for a bare path, and
    only for these: then there is no port. *)
Theorem parse_in_bounds `{InetText} (uri : bytes) :
  wp (parse uri) (readable uri)
    (λ e, ∃ p n, unclosed (sub (strip_fragment uri) p n) e).
Proof. eapply wp_mono; [apply wp_parse|apply wf_readable|done]. Qed.

Lemma parse_in_bounds_ok `{InetText} uri r : parse uri = Ret r → wf_uri uri r.
Proof. intros Hr. exact (wp_Ret_inv _ _ _ _ (wp_parse uri) Hr). Qed.

(** * Percent encoding and its inverse *)

Lemma encode_char_hex c :
  is_byte c → from_chars_unsigned 16 4294967295 [hex_char (Z.shiftr c 4); hex_char (Z.land c 0xf)] = Some (c, 2).
Proof. intros Hc. by_all_bytes c Hc. Qed.

Lemma unreserved_not_percent c : unreserved c = true → c ≠ ch "%".
Proof. by intros Hc ->. Qed.

Lemma url_decode_literal c k : c ≠ ch "%" → url_decode (c :: k) = c :: url_decode k.
Proof.
  intros Hc. destruct k as [|h [|l k]]; [done..|].
  cbn [url_decode]. by rewrite (proj2 (Z.eqb_neq c (ch "%")) Hc).
Qed.

Lemma decode_encode_char b c k : is_byte c → url_decode (encode_char b c ++ k) = c :: url_decode k.
Proof.
  intros Hc. unfold encode_char. destruct (unreserved c) eqn:Hu.
  { by apply url_decode_literal, unreserved_not_percent. }
  destruct ((c =? ch "/")%Z && negb b) eqn:Hs.
  { apply andb_true_iff in Hs as [->%Z.eqb_eq _]. by apply url_decode_literal. }
  cbn [app url_decode]. rewrite Z.eqb_refl, (encode_char_hex c Hc). by rewrite u8_small.
Qed.

(** Decoding inverts encoding, with either treatment of the slash. *)
Lemma url_decode_encode s b : Forall is_byte s → url_decode (url_encode s b) = s.
Proof.
  unfold url_encode. induction 1 as [|c s Hc Hs IH]; simpl; [done|].
  by rewrite decode_encode_char, IH.
Qed.

Lemma url_encode_app s k b : url_encode (s ++ k) b = url_encode s b ++ url_encode k b.
Proof. apply flat_map_app. Qed.

Lemma hex_unreserved c :
  is_byte c →
  unreserved (hex_char (Z.shiftr c 4)) = true ∧ unreserved (hex_char (Z.land c 0xf)) = true.
Proof. intros Hc. by_all_bytes c Hc. Qed.

(** What an encoded string consists of. *)
Lemma url_encode_chars s :
  Forall is_byte s → Forall (λ c, unreserved c = true ∨ c = ch "%") (url_encode s true).
Proof.
  unfold url_encode. induction 1 as [|c s Hc Hs IH]; simpl; [constructor|].
  apply Forall_app_2; [|done]. unfold encode_char. destruct (unreserved c) eqn:Hu; [by auto|].
  rewrite andb_false_r. destruct (hex_unreserved c Hc). auto 6.
Qed.

Lemma url_encode_notin s c :
  Forall is_byte s → unreserved c = false → c ≠ ch "%" → c ∉ url_encode s true.
Proof.
  intros Hs Hu Hp Hin. pose proof (url_encode_chars s Hs) as Hf. rewrite Forall_forall in Hf.
  destruct (Hf c Hin); congruence.
Qed.

(** "%4G": the second digit is no digit, [from_chars] accepts the first alone
    and the "G" is lost. *)
Lemma url_decode_partial :
  url_decode (str "%4G") = [4%Z] ∧ url_decode (str "%GG") = str "%GG" ∧ url_decode (str "%4") = str "%4".
Proof. done. Qed.

(** * Query parameters *)

Definition format_param (p : bytes * bytes) : bytes :=
  url_encode p.1 true ++ str "=" ++ url_encode p.2 true.

Fixpoint format_query (params : list (bytes * bytes)) : bytes :=
  match params with
  | [] => []
  | [p] => format_param p
  | p :: rest => format_param p ++ str "&" ++ format_query rest
  end.

(** What is left of a string that went through [decode_query]. *)
Definition plus_lost (plus_to_space : bool) (s : bytes) : bytes :=
  if plus_to_space then map (λ c, if (c =? ch "+")%Z then ch " " else c) s else s.

Lemma decode_query_encode plus s :
  Forall is_byte s → decode_query plus (url_encode s true) = plus_lost plus s.
Proof. intros Hs. unfold decode_query, plus_lost. by rewrite url_decode_encode. Qed.

Definition param_ok (p : bytes * bytes) : Prop := Forall is_byte p.1 ∧ Forall is_byte p.2.

Lemma query_param_format plus p :
  param_ok p → query_param plus (format_param p) = (plus_lost plus p.1, plus_lost plus p.2).
Proof.
  intros [H1 H2]. unfold query_param, format_param.
  change (str "=" ++ ?k) with (ch "=" :: k). change (str "=") with [ch "="].
  rewrite find_char_app; [|lia|by apply url_encode_notin].
  rewrite take_app_length, drop_app. rewrite drop_ge by lia.
  replace (length (url_encode p.1 true) + 1 - length (url_encode p.1 true)) with 1 by lia.
  cbn [app drop]. rewrite drop_0. by rewrite !decode_query_encode.
Qed.

Lemma format_param_no_amp p : param_ok p → ch "&" ∉ format_param p.
Proof.
  intros [H1 H2]. unfold format_param. rewrite !not_elem_of_app.
  repeat split; [by apply url_encode_notin| |by apply url_encode_notin].
  apply not_elem_of_cons. split; [done|]. apply not_elem_of_nil.
Qed.

Lemma format_param_ne p : format_param p ≠ [].
Proof. unfold format_param. by destruct (url_encode p.1 true). Qed.

Lemma query_params_loop_format {E} plus params fuel pre :
  Forall param_ok params → length (format_query params) ≤ fuel →
  query_params_loop (E:=E) fuel plus (pre ++ format_query params) (length pre)
  = Ret (map (λ p, (plus_lost plus p.1, plus_lost plus p.2)) params).
Proof.
  intros Hok. revert fuel pre. induction Hok as [|p params Hp Hok IH]; intros fuel pre Hfuel.
  { destruct fuel; simpl; by rewrite app_nil_r, Nat.ltb_irrefl. }
  pose proof (format_param_ne p) as Hne. pose proof (format_param_no_amp p Hp) as Hamp.
  assert (0 < length (format_param p)) as Hpos by (destruct (format_param p); simpl; [done|lia]).
  destruct params as [|q params].
  - cbn [format_query] in *. destruct fuel as [|fuel]; [lia|]. cbn [query_params_loop].
    rewrite length_app, (proj2 (Nat.ltb_lt _ _)) by lia.
    rewrite (find_char_notin _ (ch "&")) by (by rewrite drop_app_length).
    rewrite drop_app_length, bool_decide_eq_false_2 by done. simpl.
    by rewrite query_param_format.
  - change (format_query (p :: q :: params))
      with (format_param p ++ ch "&" :: format_query (q :: params)) in *.
    rewrite length_app in Hfuel. cbn [length] in Hfuel.
    destruct fuel as [|fuel]; [lia|]. cbn [query_params_loop].
    rewrite !length_app, (proj2 (Nat.ltb_lt _ _)) by lia.
    rewrite (app_assoc pre). change (str "&") with [ch "&"].
    rewrite find_char_app; [|rewrite length_app; lia|by rewrite drop_app_length].
    rewrite length_app. replace (length pre + _ - length pre) with (length (format_param p)) by lia.
    rewrite <- app_assoc, (sub_app_exact pre (format_param p)) by done.
    rewrite bool_decide_eq_false_2 by done.
    rewrite (cons_middle (ch "&")), 2!app_assoc.
    replace (length pre + length (format_param p) + 1)
      with (length ((pre ++ format_param p) ++ [ch "&"])) by (rewrite !length_app; simpl; lia).
    rewrite IH by lia. cbn [mbind outcome_bind]. by rewrite query_param_format.
Qed.

(** A query string built by encoding keys and values and joining them with
    "=" and "&" is decoded to the same pairs in the same order, whatever bytes
    they hold, except that with [plus_to_space] every plus sign of a key or a
    value, although it was encoded, comes back as a space. *)
Theorem query_params_roundtrip (u : Uri) (params : list (bytes * bytes)) (plus_to_space : bool) :
  Forall param_ok params → get_query_string (E:=UriError) u = Ret (format_query params) →
  get_query_params (E:=UriError) u plus_to_space
  = Ret (map (λ p, (plus_lost plus_to_space p.1, plus_lost plus_to_space p.2)) params).
Proof.
  intros Hok Hq. unfold get_query_params. unfold get_query_string in Hq.
  destruct (slice_empty (query_string_ u)) eqn:He.
  - unfold slice_empty in He. apply Nat.eqb_eq in He. unfold view, slice_view in Hq.
    rewrite He in Hq. destruct (_ <=? _); [|done]. injection Hq as Hq.
    destruct params as [|p [|q params]]; [done|..];
      exfalso; apply (format_param_ne p); simpl in Hq; by destruct (format_param p).
  - rewrite Hq. cbn [mbind outcome_bind].
    apply (query_params_loop_format plus_to_space params _ []); [done|lia].
Qed.

Lemma query_params_roundtrip_witness :
  ∃ u, get_query_params (E:=UriError) u true = Ret [(str "a b", str "1 2"); (str "k", [0%Z; 255%Z])].
Proof.
  eexists {| raw_uri_ := str "a%20b=1%2B2&k=%00%FF"; schema_ := no_slice; host_ := no_slice;
     is_ipv6_ := false; port_ := None; path_ := no_slice;
     query_string_ := {| pos := 0; len := 20 |}; body_ := no_slice |}.
  apply (query_params_roundtrip _ [(str "a b", str "1+2"); (str "k", [0%Z; 255%Z])] true).
  - apply (bool_decide_unpack _). vm_compute. exact I.
  - reflexivity.
Defined.

(** * Parsing inverts writing *)

(** The parts of a URI with a scheme and a registered-name or IPv4 host. *)
Record parts := {
  p_scheme : bytes;
  p_host : bytes;
  p_port : option Z;
  p_path : bytes;
  p_query : option bytes;
  p_fragment : option bytes
}.

(** A delimiter and the text behind it, when there is one. *)
Definition opt_text (delim : bytes) (o : option bytes) : bytes :=
  match o with Some t => delim ++ t | None => [] end.

Definition authority_text (c : parts) : bytes := p_host c ++ opt_text (str ":") (dec <$> p_port c).

Definition hier_text (c : parts) : bytes :=
  p_scheme c ++ str "://" ++ authority_text c ++ p_path c ++ opt_text (str "?") (p_query c).

Definition uri_text (c : parts) : bytes := hier_text c ++ opt_text (str "#") (p_fragment c).

(** No character of [s] is one of [chars]. *)
Definition free_of (chars s : bytes) : Prop := Forall (λ c, c ∉ s) chars.

Record parts_ok (c : parts) : Prop := {
  po_scheme : p_scheme c ≠ [];
  po_scheme_chars : free_of (str ":#") (p_scheme c);
  po_host_chars : free_of (str ":/?#[") (p_host c);
  po_port p : p_port c = Some p → (0 ≤ p ≤ 2147483647)%Z;
  po_path : p_path c = [] ∨ ∃ k, p_path c = ch "/" :: k;
  po_path_chars : free_of (str "?#") (p_path c);
  po_query_chars q : p_query c = Some q → free_of (str "#") q
}.

#[export] Instance free_of_dec chars s : Decision (free_of chars s).
Proof. unfold free_of. apply _. Defined.

Lemma free_of_notin chars s c : free_of chars s → c ∈ chars → c ∉ s.
Proof. unfold free_of. rewrite Forall_forall. auto. Qed.

Lemma find_first s t p i :
  p ≤ i → occurs_at s t i → (∀ j, p ≤ j < i → ¬ occurs_at s t j) → find s t p = Some i.
Proof.
  intros Hp Ho Hmin. destruct (find s t p) as [j|] eqn:Hf.
  - apply find_Some in Hf as (Hpj & Hoj & Hminj). f_equal.
    destruct (decide (j < i)); [exfalso; by apply (Hmin j)|].
    destruct (decide (i < j)); [exfalso; by apply (Hminj i)|lia].
  - exfalso. by apply (find_None _ _ _ i Hf).
Qed.

Lemma scheme_length_app s k :
  s ≠ [] → ch ":" ∉ s → scheme_length (s ++ str "://" ++ k) = Some (length s).
Proof.
  intros Hs Hc. unfold scheme_length. rewrite (find_first _ _ 0 (length s)); [|lia|..].
  - by destruct s.
  - split; [rewrite !length_app; lia|]. by apply sub_app_exact.
  - intros j Hj [_ Ho]. apply Hc. unfold sub in Ho. rewrite drop_app_le in Ho by lia.
    destruct (drop j s) as [|x l] eqn:Hd; [apply (f_equal length) in Hd; rewrite length_drop in Hd; simpl in Hd; lia|].
    injection Ho as -> _. apply list_elem_of_lookup. exists j.
    by rewrite <- (Nat.add_0_r j), <- lookup_drop, Hd.
Qed.

Lemma strip_fragment_app u f : ch "#" ∉ u → strip_fragment (u ++ opt_text (str "#") f) = u.
Proof.
  intros Hu. unfold strip_fragment. change (str "#") with [ch "#"]. destruct f as [f|]; simpl.
  - rewrite find_char_app by (simpl; auto with lia). by rewrite take_app_length.
  - rewrite app_nil_r. by rewrite find_char_notin.
Qed.

Lemma lowercase_range_app {E} a b k :
  lowercase_range (E:=E) (a ++ b ++ k) (length a) (length b) = Ret (a ++ map tolower b ++ k).
Proof.
  unfold lowercase_range. destruct (length b =? 0) eqn:Hb.
  - apply Nat.eqb_eq in Hb. by destruct b.
  - rewrite !length_app, (proj2 (Nat.leb_le _ _)) by lia.
    rewrite take_app_length, sub_app_exact by done.
    by rewrite drop_app_add, drop_app_length.
Qed.

Lemma slice_view_app {E} a b k p n :
  p = length a → n = length b → slice_view (E:=E) {| pos := p; len := n |} (a ++ b ++ k) = Ret b.
Proof.
  intros -> ->. unfold slice_view. cbn [pos len]. rewrite length_app, (proj2 (Nat.leb_le _ _)) by lia.
  by rewrite sub_app_exact.
Qed.

Lemma slice_view_head {E} b k n :
  n = length b → slice_view (E:=E) {| pos := 0; len := n |} (b ++ k) = Ret b.
Proof. intros Hn. exact (slice_view_app [] b k 0 n eq_refl Hn). Qed.

Lemma substr_app a b k : substr (a ++ b ++ k) (length a) (length a + length b - length a) = Ret b.
Proof.
  unfold substr. rewrite length_app, (proj2 (Nat.leb_le _ _)) by lia.
  f_equal. apply sub_app_exact; lia.
Qed.

(** ** Delimiters behind the authority *)

Section delimiters.
Context (pre auth path : bytes) (query : option bytes).
Context (Hauth : free_of (str "/?") auth) (Hpath : free_of (str "?") path)
  (Hslash : path = [] ∨ ∃ k, path = ch "/" :: k).

#[local] Abbreviation u := (pre ++ auth ++ path ++ opt_text (str "?") query).
#[local] Abbreviation start := (length pre).
#[local] Abbreviation q_at := (length pre + length auth + length path).

Lemma find_query :
  find u (str "?") start = match query with Some _ => Some q_at | None => None end.
Proof using Hauth Hpath Hslash.
  assert (ch "?" ∉ auth ++ path) as Hn.
  { rewrite not_elem_of_app. split; eapply free_of_notin; [exact Hauth|set_solver|exact Hpath|set_solver]. }
  destruct query as [q|].
  - change (opt_text (str "?") (Some q)) with (ch "?" :: q). change (str "?") with [ch "?"].
    rewrite 2!app_assoc. rewrite find_char_app.
    + by rewrite !length_app.
    + rewrite !length_app. lia.
    + by rewrite <- app_assoc, drop_app_length.
  - change (str "?") with [ch "?"]. apply find_char_notin. simpl.
    rewrite app_nil_r, drop_app_length. done.
Qed.

Lemma find_slash_path k :
  path = ch "/" :: k → find u (str "/") start = Some (length pre + length auth).
Proof using Hauth Hpath Hslash.
  intros ->. change (str "/") with [ch "/"]. rewrite app_assoc. cbn [app]. rewrite find_char_app.
  - by rewrite length_app.
  - rewrite length_app. lia.
  - rewrite drop_app_length. eapply free_of_notin; [exact Hauth|set_solver].
Qed.

(** Without a path the first slash, if any, belongs to the query. *)
Lemma find_slash_query i :
  path = [] → find u (str "/") start = Some i → is_Some query ∧ q_at < i.
Proof using Hauth Hpath Hslash.
  intros ->. cbn [app length]. rewrite Nat.add_0_r. intros Hf. pose proof Hf as Hb.
  change (str "/") with [ch "/"] in Hf. apply find_char_Some in Hf as (Hi & Hc & _).
  apply find_Some_bound in Hb as [_ Hb]. change (length (str "/")) with 1 in Hb.
  assert (length pre + length auth ≤ i) as Hge.
  { destruct (decide (length pre + length auth ≤ i)); [done|]. exfalso.
    rewrite lookup_app_r, lookup_app_l in Hc by lia.
    apply (free_of_notin _ _ (ch "/") Hauth); [set_solver|]. apply list_elem_of_lookup. eauto. }
  rewrite 2!lookup_app_r in Hc by lia. destruct query as [q|]; [|done]. split; [done|].
  simpl in Hc. destruct (i - length pre - length auth) eqn:He; [done|]. lia.
Qed.

Lemma authority_end_eq :
  authority_end u (find u (str "/") start) (find u (str "?") start) = length pre + length auth.
Proof using Hauth Hpath Hslash.
  rewrite find_query. unfold authority_end. rewrite !length_app.
  destruct Hslash as [Hp|[k Hp]].
  - destruct (find u (str "/") start) as [i|] eqn:Hf.
    + apply find_slash_query in Hf as [[q Hq] Hi]; [|done]. rewrite Hq, Hp in *. simpl in *. lia.
    + rewrite Hp. destruct query; simpl; lia.
  - rewrite (find_slash_path k Hp). rewrite Hp. destruct query; simpl; lia.
Qed.

Lemma path_slice_eq :
  path_slice u (find u (str "/") start) (find u (str "?") start)
  = if bool_decide (path = []) then no_slice
    else {| pos := length pre + length auth; len := length path |}.
Proof using Hauth Hpath Hslash.
  rewrite find_query. unfold path_slice. destruct Hslash as [Hp|[k Hp]].
  - rewrite (bool_decide_eq_true_2 _ Hp).
    destruct (find u (str "/") start) as [i|] eqn:Hf; [|done].
    apply find_slash_query in Hf as [[q Hq] Hi]; [|done]. rewrite Hq.
    by rewrite (proj2 (Nat.ltb_ge _ _)) by lia.
  - rewrite (find_slash_path k Hp), bool_decide_eq_false_2 by (by rewrite Hp).
    destruct query as [q|].
    + rewrite (proj2 (Nat.ltb_lt _ _)) by (rewrite Hp; simpl; lia). f_equal. lia.
    + f_equal. rewrite !length_app. simpl. lia.
Qed.

Lemma query_slice_eq :
  query_slice u (find u (str "?") start)
  = match query with
    | Some q => {| pos := q_at + 1; len := length q |}
    | None => no_slice
    end.
Proof using Hauth Hpath Hslash.
  rewrite find_query. unfold query_slice. destruct query as [q|]; [|done].
  f_equal. rewrite !length_app. simpl. lia.
Qed.
End delimiters.

(** ** The authority *)

Lemma dec_free_of n chars :
  (0 ≤ n)%Z → Forall (λ c, isdigit c = false) chars → free_of chars (dec n).
Proof.
  intros Hn Hch. unfold free_of. eapply Forall_impl; [exact Hch|]. intros c Hc Hin.
  pose proof (dec_isdigit n Hn) as Hd. rewrite Forall_forall in Hd.
  specialize (Hd c Hin). simpl in *. congruence.
Qed.

Lemma free_of_app chars s k : free_of chars (s ++ k) ↔ free_of chars s ∧ free_of chars k.
Proof.
  unfold free_of. rewrite <- Forall_and. apply Forall_iff. intros c. by rewrite not_elem_of_app.
Qed.

Lemma free_of_sub chars chars' s : free_of chars s → Forall (λ c, c ∈ chars) chars' → free_of chars' s.
Proof.
  unfold free_of. intros Hs Hsub. eapply Forall_impl; [exact Hsub|]. intros c Hc.
  rewrite Forall_forall in Hs. auto.
Qed.

Lemma colons_none s : ch ":" ∉ s → colons s = 0.
Proof.
  intros Hn. unfold colons. induction s as [|c s IH]; [done|].
  apply not_elem_of_cons in Hn as [Hc Hn]. rewrite filter_cons_False by congruence. auto.
Qed.

Lemma rfind_char_app h k c : c ∉ k → rfind_char (h ++ c :: k) c = Some (length h).
Proof.
  intros Hk. apply rfind_char_None in Hk. induction h as [|x h IH]; cbn [app rfind_char].
  - by rewrite Hk, Z.eqb_refl.
  - by rewrite IH.
Qed.

Section authority.
Context `{InetTextOk}.
Context (host : bytes) (port : option Z).
Context (Hhost : free_of (str ":/?#[") host) (Hport : ∀ p, port = Some p → (0 ≤ p ≤ 2147483647)%Z).

#[local] Abbreviation auth := (host ++ opt_text (str ":") (dec <$> port)).

Lemma authority_free : free_of (str "/?#[") auth.
Proof using Hhost Hport.
  apply free_of_app. split.
  - eapply free_of_sub; [exact Hhost|]. apply (bool_decide_unpack _). vm_compute. exact I.
  - destruct port as [p|]; [|unfold free_of; simpl; repeat constructor; apply not_elem_of_nil].
    simpl. change (ch ":" :: dec p) with ([ch ":"] ++ dec p). apply free_of_app. split.
    + apply (bool_decide_unpack _). vm_compute. exact I.
    + apply dec_free_of; [by apply Hport|]. repeat constructor.
Qed.

Lemma parse6_authority : Address.parse6 auth = None.
Proof using Type*.
  assert (ch ":" ∉ host) as Hc by (eapply free_of_notin; [exact Hhost|set_solver]).
  apply parse6_colons. rewrite colons_app, (colons_none host Hc).
  destruct port as [p|] eqn:Hp; [|simpl; unfold colons; simpl; lia].
  change (opt_text (str ":") (dec <$> Some p)) with (ch ":" :: dec p).
  rewrite colons_colon, (colons_none (dec p)); [lia|].
  eapply free_of_notin; [apply (dec_free_of p (str ":"))|set_solver]; [by apply Hport|by constructor].
Qed.

Lemma starts_with_char s c : starts_with s [c] = true → c ∈ s.
Proof. intros [k ->]%starts_with_spec. by left. Qed.

Lemma parse_authority_text off hint :
  ∃ sl, parse_authority auth off hint = Ret (sl, port, false) ∧ len sl = length host
    ∧ (host ≠ [] → pos sl = off).
Proof using Type*.
  unfold parse_authority. case_bool_decide as He.
  { apply app_eq_nil in He as [Hh Hp]. destruct port; [done|]. exists no_slice. by rewrite Hh. }
  destruct (starts_with auth (str "[")) eqn:Hs.
  { apply starts_with_char in Hs. exfalso. revert Hs.
    eapply free_of_notin; [apply authority_free|set_solver]. }
  rewrite parse6_authority. rewrite bool_decide_eq_false_2, andb_false_r by (by intros [? ?]).
  destruct port as [p|] eqn:Hport'; simpl.
  - pose proof (Hport p eq_refl) as Hp. rewrite rfind_char_app.
    2: { eapply free_of_notin; [apply (dec_free_of p (str ":"))|set_solver]; [lia|by constructor]. }
    unfold substr. rewrite (proj2 (Nat.leb_le _ _)) by (rewrite length_app; simpl; lia).
    cbn [mbind outcome_bind]. exists {| pos := off; len := length host |}. split; [|done].
    unfold sub. rewrite cons_middle, app_assoc, drop_app_exact by (rewrite length_app; simpl; lia).
    rewrite take_ge by (rewrite !length_app; simpl; lia). f_equal. f_equal.
    unfold parse_port. rewrite bool_decide_eq_false_2 by (intros Hd; by destruct (digits_dec p) as (_ & _ & []); [lia|rewrite Hd]).
    rewrite <- (app_nil_r (dec p)). by rewrite from_chars_int_dec.
  - rewrite app_nil_r. rewrite (proj2 (rfind_char_None host (ch ":"))).
    + exists {| pos := off; len := length host |}. done.
    + eapply free_of_notin; [exact Hhost|set_solver].
Qed.
End authority.

(** ** The whole URI *)

Section whole.
Context `{InetTextOk}.
Context (c : parts) (Hok : parts_ok c).

#[local] Abbreviation scheme := (map tolower (p_scheme c)).
#[local] Abbreviation pre := (p_scheme c ++ str "://").
#[local] Abbreviation n := (length (p_scheme c)).
#[local] Abbreviation tail :=
  (p_path c ++ opt_text (str "?") (p_query c) ++ opt_text (str "#") (p_fragment c)).

Lemma hier_text_no_hash : ch "#" ∉ hier_text c.
Proof using All.
  unfold hier_text, authority_text. destruct Hok as [_ Hs Hh Hp _ Hpa Hq].
  pose proof (authority_free (p_host c) (p_port c) Hh Hp) as Ha.
  rewrite !not_elem_of_app. repeat split.
  - by apply (free_of_notin _ _ (ch "#") Hs); set_solver.
  - apply (bool_decide_unpack _). vm_compute. exact I.
  - pose proof (free_of_notin _ _ (ch "#") Ha) as Hn. rewrite not_elem_of_app in Hn. apply Hn. set_solver.
  - pose proof (free_of_notin _ _ (ch "#") Ha) as Hn. rewrite not_elem_of_app in Hn. apply Hn. set_solver.
  - by apply (free_of_notin _ _ (ch "#") Hpa); set_solver.
  - destruct (p_query c) as [q|]; [|apply not_elem_of_nil]. simpl.
    apply not_elem_of_cons. split; [done|]. apply (free_of_notin _ _ (ch "#") (Hq q eq_refl)). set_solver.
Qed.

(** The string the parsed URI owns. *)
Definition lowered : bytes :=
  scheme ++ str "://" ++ map tolower (p_host c) ++ opt_text (str ":") (dec <$> p_port c) ++ tail.

Definition port_or_default : Z := default (lookup_default_port scheme) (p_port c).

Lemma authority_path_free : free_of (str "/?") (authority_text c) ∧ free_of (str "?") (p_path c).
Proof using All.
  pose proof Hok as [_ _ Hh Hp _ Hpa _]. split.
  - eapply free_of_sub; [exact (authority_free (p_host c) (p_port c) Hh Hp)|].
    apply (bool_decide_unpack _). vm_compute. exact I.
  - eapply free_of_sub; [exact Hpa|]. apply (bool_decide_unpack _). vm_compute. exact I.
Qed.

(** Lower-casing the host after the scheme. *)
Lemma lower_host host :
  len host = length (p_host c) → (p_host c ≠ [] → pos host = n + 3) →
  (if slice_empty host then Ret (scheme ++ str "://" ++ authority_text c ++ tail)
   else lowercase_range (E:=UriError) (scheme ++ str "://" ++ authority_text c ++ tail) (pos host) (len host))
  = Ret lowered.
Proof using All.
  intros Hl Hpos. unfold lowered, slice_empty, authority_text. rewrite Hl.
  destruct (p_host c) as [|x h] eqn:Hh; [done|]. rewrite Hpos by done.
  cbn [length Nat.eqb]. rewrite <- (app_assoc (x :: h)), (app_assoc scheme).
  replace (n + 3) with (length (scheme ++ str "://")) by (rewrite length_app, length_map; reflexivity).
  rewrite (lowercase_range_app (scheme ++ str "://") (x :: h)). by rewrite <- !app_assoc.
Qed.

Lemma lowered_port :
  match p_port c with
  | Some p => Ret p
  | None => scheme ← slice_view (E:=UriError) {| pos := 0; len := n |} lowered; Ret (default_port_for scheme)
  end = Ret port_or_default.
Proof using All.
  unfold port_or_default. destruct (p_port c); [done|]. unfold lowered.
  by rewrite slice_view_head by (by rewrite length_map).
Qed.

Lemma parse_reads_scheme :
  parse (uri_text c) = parse_components (hier_text c)
    (scheme ++ str "://" ++ authority_text c ++ tail) {| pos := 0; len := n |} true (n + 3)
    {| pos := n + 3; len := length (hier_text c) - (n + 3) |}.
Proof using All.
  pose proof Hok as [Hne Hs _ _ _ _ _].
  unfold parse. rewrite bool_decide_eq_false_2 by (unfold uri_text, hier_text; by destruct (p_scheme c)).
  unfold uri_text at 1. rewrite strip_fragment_app by apply hier_text_no_hash.
  unfold hier_text at 1. rewrite scheme_length_app; [|done|by apply (free_of_notin _ _ (ch ":") Hs); set_solver].
  assert (uri_text c = [] ++ p_scheme c ++ str "://" ++ authority_text c ++ tail) as Hu.
  { unfold uri_text, hier_text. by rewrite !app_nil_l, <- !app_assoc. }
  unfold uri_text at 1. fold (uri_text c). rewrite Hu at 1.
  pose proof (lowercase_range_app (E:=UriError) [] (p_scheme c) (str "://" ++ authority_text c ++ tail)) as Hl.
  cbn [app length] in Hl. cbn [app]. rewrite Hl. cbn [mbind outcome_bind].
  unfold uri_text. by rewrite strip_fragment_app by apply hier_text_no_hash.
Qed.

Lemma hier_text_pre :
  hier_text c = pre ++ authority_text c ++ p_path c ++ opt_text (str "?") (p_query c).
Proof using All. unfold hier_text. by rewrite <- app_assoc. Qed.

Lemma auth_view :
  substr (hier_text c) (n + 3)
    (authority_end (hier_text c) (find (hier_text c) (str "/") (n + 3))
       (find (hier_text c) (str "?") (n + 3)) - (n + 3)) = Ret (authority_text c).
Proof using All.
  assert (n + 3 = length pre) as -> by (rewrite length_app; reflexivity).
  rewrite hier_text_pre, authority_end_eq by (first [apply authority_path_free|apply Hok]).
  apply substr_app.
Qed.

Lemma parse_uri_text :
  ∃ host, parse (uri_text c) = Ret
    {| raw_uri_ := lowered; schema_ := {| pos := 0; len := n |}; host_ := host; is_ipv6_ := false;
       port_ := Some port_or_default;
       path_ := if bool_decide (p_path c = []) then no_slice
                else {| pos := length pre + length (authority_text c); len := length (p_path c) |};
       query_string_ := match p_query c with
                        | Some q => {| pos := length pre + length (authority_text c) + length (p_path c) + 1;
                                       len := length q |}
                        | None => no_slice
                        end;
       body_ := {| pos := n + 3; len := length (hier_text c) - (n + 3) |} |}
  ∧ len host = length (p_host c) ∧ (p_host c ≠ [] → pos host = n + 3).
Proof using All.
  pose proof Hok as [_ _ Hh Hp _ _ _].
  destruct (parse_authority_text (p_host c) (p_port c) Hh Hp (n + 3)
    (scheme ++ str "://" ++ authority_text c ++ tail)) as (host & Hauth & Hlen & Hpos).
  exists host. split; [|done]. fold (authority_text c) in Hauth.
  rewrite parse_reads_scheme. unfold parse_components. cbn [negb andb].
  rewrite auth_view. cbn [mbind outcome_bind]. rewrite Hauth. cbn [mbind outcome_bind].
  rewrite (lower_host host Hlen Hpos). cbn [mbind outcome_bind].
  rewrite lowered_port. cbn [mbind outcome_bind].
  assert (n + 3 = length pre) as Hpre by (rewrite length_app; reflexivity).
  do 2 f_equal; rewrite hier_text_pre, Hpre.
  - by rewrite path_slice_eq by (first [apply authority_path_free|apply Hok]).
  - by rewrite query_slice_eq by (first [apply authority_path_free|apply Hok]).
Qed.
End whole.

(** The origin of the parts: scheme and host, and a port that is not the
    scheme's default one. *)
Definition origin_text (c : parts) : bytes :=
  let scheme := map tolower (p_scheme c) in
  let port := port_or_default c in
  scheme ++ str "://" ++ map tolower (p_host c)
  ++ (if is_default_port scheme port then [] else str ":" ++ dec port).

Lemma view_host c host :
  len host = length (p_host c) → (p_host c ≠ [] → pos host = length (p_scheme c) + 3) →
  slice_ok (lowered c) host → slice_view (E:=UriError) host (lowered c) = Ret (map tolower (p_host c)).
Proof.
  intros Hl Hpos Hok. destruct host as [hp hl]. cbn [pos len] in *. subst hl.
  destruct (p_host c) as [|x h] eqn:Hh.
  - unfold slice_view. unfold slice_ok in Hok. cbn [pos len] in *.
    rewrite (proj2 (Nat.leb_le _ _)) by lia. unfold sub. by rewrite take_0.
  - rewrite Hpos by done. unfold lowered. rewrite Hh, (app_assoc (map tolower (p_scheme c))).
    apply slice_view_app; [rewrite length_app, length_map; reflexivity|by rewrite length_map].
Qed.

Section views.
Context (c : parts).

#[local] Abbreviation q_at := (length (p_scheme c ++ str "://") + length (authority_text c) + length (p_path c)).

Definition lowered_head : bytes :=
  map tolower (p_scheme c) ++ str "://" ++ map tolower (p_host c) ++ opt_text (str ":") (dec <$> p_port c).

Lemma lowered_path :
  lowered c = lowered_head
    ++ p_path c ++ opt_text (str "?") (p_query c) ++ opt_text (str "#") (p_fragment c).
Proof. unfold lowered, lowered_head. by rewrite <- !app_assoc. Qed.

Lemma lowered_head_length :
  length lowered_head = length (p_scheme c ++ str "://") + length (authority_text c).
Proof. unfold lowered_head, authority_text. rewrite !length_app, !length_map. lia. Qed.

Lemma view_path :
  p_scheme c ≠ [] →
  (if slice_empty (if bool_decide (p_path c = []) then no_slice
                   else {| pos := length (p_scheme c ++ str "://") + length (authority_text c);
                           len := length (p_path c) |})
   then Ret (if slice_empty {| pos := 0; len := length (p_scheme c) |} then [] else str "/")
   else slice_view (E:=UriError) (if bool_decide (p_path c = []) then no_slice
                   else {| pos := length (p_scheme c ++ str "://") + length (authority_text c);
                           len := length (p_path c) |}) (lowered c))
  = Ret (if bool_decide (p_path c = []) then str "/" else p_path c).
Proof.
  intros Hs. case_bool_decide as Hp.
  - cbn. by destruct (p_scheme c).
  - unfold slice_empty. cbn [len].
    rewrite (proj2 (Nat.eqb_neq _ 0)) by (by destruct (p_path c)).
    rewrite lowered_path. by apply slice_view_app; [rewrite lowered_head_length|].
Qed.

Lemma view_query :
  slice_view (E:=UriError)
    match p_query c with
    | Some q => {| pos := q_at + 1; len := length q |}
    | None => no_slice
    end (lowered c) = Ret (default [] (p_query c)).
Proof.
  destruct (p_query c) as [q|] eqn:Hq; [|done].
  assert (lowered c = (lowered_head ++ p_path c ++ str "?") ++ q ++ opt_text (str "#") (p_fragment c)) as ->.
  { rewrite lowered_path, Hq. by rewrite <- !app_assoc. }
  apply slice_view_app; [|done]. rewrite (length_app lowered_head), lowered_head_length, (length_app (p_path c)).
  change (length (str "?")) with 1. lia.
Qed.
End views.

Lemma parse_uri_accessors `{InetTextOk} (c : parts) :
  parts_ok c →
  ∃ r, parse (uri_text c) = Ret r
    ∧ get_schema (E:=UriError) r = Ret (map tolower (p_scheme c))
    ∧ get_host (E:=UriError) r = Ret (map tolower (p_host c))
    ∧ get_port (E:=UriError) r = Ret (port_or_default c)
    ∧ get_path (E:=UriError) r = Ret (if bool_decide (p_path c = []) then str "/" else p_path c)
    ∧ get_query_string (E:=UriError) r = Ret (default [] (p_query c))
    ∧ get_origin (E:=UriError) r = Ret (origin_text c).
Proof.
  intros Hok. destruct (parse_uri_text c Hok) as (host & Hparse & Hl & Hpos).
  pose proof (parse_in_bounds_ok (uri_text c) _ Hparse) as Hwf.
  pose proof (view_host c host Hl Hpos (wf_host _ _ Hwf)) as Hhost.
  assert (slice_view (E:=UriError) {| pos := 0; len := length (p_scheme c) |} (lowered c)
    = Ret (map tolower (p_scheme c))) as Hscheme.
  { unfold lowered. by rewrite slice_view_head by (by rewrite length_map). }
  eexists. split; [exact Hparse|].
  unfold get_schema, get_host, get_port, get_path, get_query_string, get_origin, get_host_literal, view.
  cbn [raw_uri_ schema_ host_ is_ipv6_ port_ path_ query_string_ negb deref].
  rewrite Hhost, Hscheme. repeat (split; [done|]). split; [|split].
  - apply view_path, Hok.
  - apply view_query.
  - cbn [mbind outcome_bind]. rewrite bool_decide_eq_false_2.
    + unfold origin_text. destruct (is_default_port _ _); by rewrite ?app_nil_r, <- ?app_assoc.
    + pose proof (po_scheme c Hok). by destruct (p_scheme c).
Qed.

(** C31: [parse] inverts writing a URI: for a scheme, a host that is a name or an
    IPv4 address, an optional port, a path, a query and a fragment free of each
    other's delimiters, it succeeds and the accessors give back the scheme and
    the host in lower case, the port (the scheme's default when there is none),
    the path ("/" when empty), the query, and the origin without default port. *)
Theorem parse_inverts_uri_text `{InetTextOk} (c : parts) :
  parts_ok c →
  ∃ r, parse (uri_text c) = Ret r
    ∧ get_schema (E:=UriError) r = Ret (map tolower (p_scheme c))
    ∧ get_host (E:=UriError) r = Ret (map tolower (p_host c))
    ∧ get_port (E:=UriError) r = Ret (port_or_default c)
    ∧ get_path (E:=UriError) r = Ret (if bool_decide (p_path c = []) then str "/" else p_path c)
    ∧ get_query_string (E:=UriError) r = Ret (default [] (p_query c))
    ∧ get_origin (E:=UriError) r = Ret (origin_text c).
Proof. apply parse_uri_accessors. Qed.

(** Any text is split by the first occurrence of a character. *)
Lemma split_first (c : Z) (s : bytes) : ∃ a o, s = a ++ opt_text [c] o ∧ c ∉ a.
Proof.
  induction s as [|x s (a & o & -> & Ha)]; [exists [], None; split; [done|apply not_elem_of_nil]|].
  destruct (decide (x = c)) as [->|Hne].
  - exists [], (Some (a ++ opt_text [c] o)). split; [done|apply not_elem_of_nil].
  - exists (x :: a), o. split; [done|]. by rewrite not_elem_of_cons.
Qed.

(** What stands behind an https URL's host and first slash cannot change
    where the URL leads. *)
Lemma https_host `{InetTextOk} (host rest : bytes) :
  free_of (str ":/?#[") host → map tolower host = host →
  ∃ u, parse (str "https://" ++ host ++ str "/" ++ rest) = Ret u
    ∧ get_schema (E:=UriError) u = Ret (str "https") ∧ get_host (E:=UriError) u = Ret host
    ∧ get_port (E:=UriError) u = Ret 443%Z.
Proof.
  intros Hfree Hlow. destruct (split_first (ch "#") rest) as (hier & fragment & -> & Hhier).
  destruct (split_first (ch "?") hier) as (path & query & -> & Hpath).
  apply not_elem_of_app in Hhier as [Hph Hqh].
  destruct (parse_uri_accessors {| p_scheme := str "https"; p_host := host; p_port := None;
    p_path := ch "/" :: path; p_query := query; p_fragment := fragment |}) as (u & Hu & Hs & Hh & Hp & _).
  - split; simpl; [done|apply (bool_decide_unpack _); vm_compute; exact I|exact Hfree|done|right; by eexists| |].
    + unfold free_of. rewrite !Forall_cons, !not_elem_of_cons. repeat split; done.
    + intros q ->. unfold free_of. rewrite Forall_cons. split; [|constructor].
      intros Hin. apply Hqh. simpl. by right.
  - exists u. split.
    + rewrite <- Hu. f_equal. unfold uri_text, hier_text, authority_text.
      cbn [p_scheme p_host p_port p_path p_query p_fragment opt_text fmap option_fmap option_map].
      rewrite <- ?app_assoc. reflexivity.
    + split; [exact Hs|]. split; [by rewrite Hh; simpl; rewrite Hlow|exact Hp].
Qed.

(** ** Examples *)

(** A C library that knows one IPv6 address. *)
Definition sample_text : InetText :=
  {| inet_pton4 := λ _, None;
     inet_pton6 := λ s, if bool_decide (s = str "::1") then Some (replicate 15 0%Z ++ [1%Z]) else None;
     inet_ntop4 := λ _, str "0.0.0.0"; inet_ntop6 := λ _, str "::" |}.

Lemma sample_text_ok : @InetTextOk sample_text.
Proof.
  intros s b. simpl. case_bool_decide; [|done]. subst. intros _.
  by exists [], [], (str "1").
Qed.

Definition sample_parts : parts :=
  {| p_scheme := str "HTTPS"; p_host := str "Dns.Example"; p_port := None; p_path := str "/dns-query";
     p_query := Some (str "a=/b?c"); p_fragment := Some (str "x#y") |}.

Lemma parse_inverts_uri_text_witness :
  ∃ r, @parse sample_text (str "HTTPS://Dns.Example/dns-query?a=/b?c#x#y") = Ret r
    ∧ get_host (E:=UriError) r = Ret (str "dns.example") ∧ get_port (E:=UriError) r = Ret 443%Z
    ∧ get_origin (E:=UriError) r = Ret (str "https://dns.example").
Proof.
  destruct (@parse_inverts_uri_text sample_text sample_text_ok sample_parts) as (r & Hr & _ & Hh & Hp & _ & _ & Ho).
  - split; [done|apply (bool_decide_unpack _); vm_compute; exact I|
      apply (bool_decide_unpack _); vm_compute; exact I|done|right; by eexists|
      apply (bool_decide_unpack _); vm_compute; exact I|].
    intros q [= <-]. apply (bool_decide_unpack _). vm_compute. exact I.
  - exists r. split; [exact Hr|]. split; [exact Hh|]. split; [exact Hp|exact Ho].
Defined.

(** Bare IPv6 literals, ports behind brackets, and a sign that is accepted. *)
Lemma parse_examples :
  (∃ r, @parse sample_text (str "::1") = Ret r ∧ is_ipv6_ r = true
     ∧ get_host_literal (E:=UriError) r = Ret (str "[::1]"))
  ∧ (∃ r, @parse sample_text (str "tls://[::1]:853") = Ret r ∧ get_origin (E:=UriError) r = Ret (str "tls://[::1]"))
  ∧ (∃ r, @parse sample_text (str "tls://a:-5x") = Ret r ∧ get_port (E:=UriError) r = Ret (-5)%Z)
  ∧ (∃ r, @parse sample_text (str "/path") = Ret r ∧ get_port (E:=UriError) r = Undef).
Proof. repeat split; eexists; vm_compute; repeat split. Qed.
