(* ===== verification/Validation.v ===== *)
(** [src/util/validation.hpp]: the domain name check.  The regular expression is
    kept as the source has it and matched by derivatives; a theorem reads it as
    the label rules its comment states. *)
From S2P Require Import Prelude CppString.

(** * Regular expressions

    The fragment of ECMAScript expressions the program uses, matched against a
    whole text. *)
Inductive regex :=
| Nothing
| Empty
| Class (f : Z → bool)
| Cat (r1 r2 : regex)
| Alt (r1 r2 : regex)
| Star (r : regex).

(** The texts of an expression. *)
Inductive lang : regex → bytes → Prop :=
| lang_empty : lang Empty []
| lang_class f c : f c = true → lang (Class f) [c]
| lang_cat r1 r2 s1 s2 : lang r1 s1 → lang r2 s2 → lang (Cat r1 r2) (s1 ++ s2)
| lang_alt_l r1 r2 s : lang r1 s → lang (Alt r1 r2) s
| lang_alt_r r1 r2 s : lang r2 s → lang (Alt r1 r2) s
| lang_star_nil r : lang (Star r) []
| lang_star_app r s1 s2 : lang r s1 → lang (Star r) s2 → lang (Star r) (s1 ++ s2).

Fixpoint nullable (r : regex) : bool :=
  match r with
  | Nothing | Class _ => false
  | Empty | Star _ => true
  | Cat r1 r2 => nullable r1 && nullable r2
  | Alt r1 r2 => nullable r1 || nullable r2
  end.

Fixpoint deriv (c : Z) (r : regex) : regex :=
  match r with
  | Nothing | Empty => Nothing
  | Class f => if f c then Empty else Nothing
  | Cat r1 r2 =>
      if nullable r1 then Alt (Cat (deriv c r1) r2) (deriv c r2) else Cat (deriv c r1) r2
  | Alt r1 r2 => Alt (deriv c r1) (deriv c r2)
  | Star r => Cat (deriv c r) (Star r)
  end.

(** [std::regex_match]. *)
Fixpoint regex_match (r : regex) (s : bytes) : bool :=
  match s with
  | [] => nullable r
  | c :: s' => regex_match (deriv c r) s'
  end.

(** ** Abbreviations of the syntax *)

Definition lit (c : Z) : regex := Class (λ x, (x =? c)%Z).
Fixpoint text (s : bytes) : regex :=
  match s with [] => Empty | c :: s' => Cat (lit c) (text s') end.
Definition opt (r : regex) : regex := Alt Empty r.
Definition plus (r : regex) : regex := Cat r (Star r).
(** [r{0,n}] and [r{n,}]. *)
Fixpoint upto (n : nat) (r : regex) : regex :=
  match n with O => Empty | S n => opt (Cat r (upto n r)) end.
Fixpoint at_least (n : nat) (r : regex) : regex :=
  match n with O => Star r | S n => Cat r (at_least n r) end.

(** * The domain check *)

(** With the [icase] flag. *)
Definition alnum : regex := Class isalnum.
Definition alpha : regex := Class isalpha.
Definition alnum_hyphen : regex := Class (λ c, isalnum c || (c =? ch "-")%Z).
Definition icase_lit (c : Z) : regex := Class (λ x, (tolower x =? c)%Z).

(* @src src/src/util/validation.hpp 43 46 Utils::is_valid_domain (expression) *)
Definition DOMAIN_REGEX : regex :=
  let label := Cat alnum (opt (Cat (upto 61 alnum_hyphen) alnum)) in
  let punycode := Cat (icase_lit (ch "x")) (Cat (icase_lit (ch "n")) (Cat (text (str "--"))
                    (Cat alnum (opt (Cat (upto 59 alnum_hyphen) alnum))))) in
  Cat (plus (Cat label (lit (ch ".")))) (Cat (Alt (at_least 2 alpha) punycode) (opt (lit (ch ".")))).

(* @fn src/src/util/validation.hpp | DOMAIN_NAME_MAX_LEN = | Utils::DOMAIN_NAME_MAX_LEN *)
Definition DOMAIN_NAME_MAX_LEN : nat := 253.

(* @fn src/src/util/validation.hpp | inline bool is_valid_domain( | Utils::is_valid_domain *)
Definition is_valid_domain (domain : bytes) : bool :=
  if DOMAIN_NAME_MAX_LEN <? length domain then false
  else match find domain (str ".") 0 with
       | Some _ => regex_match DOMAIN_REGEX domain
       | None => false
       end.

(** * The matcher decides the language *)

Create HintDb regex.
Hint Constructors lang : regex.

Lemma nullable_spec r : nullable r = true ↔ lang r [].
Proof.
  induction r as [| |f|r1 IH1 r2 IH2|r1 IH1 r2 IH2|r IH]; simpl.
  - split; [done|intros H; inversion H].
  - split; auto with regex.
  - split; [done|intros H; inversion H].
  - rewrite andb_true_iff, IH1, IH2. split.
    + intros [H1 H2]. by apply (lang_cat _ _ [] []).
    + intros H. inversion H as [| |? ? s1 s2 H1 H2 Heq Hs| | | |]; subst.
      apply app_eq_nil in Hs as [-> ->]. done.
  - rewrite orb_true_iff, IH1, IH2. split; [intros [?|?]; auto with regex|].
    intros H. inversion H; auto.
  - split; auto with regex.
Qed.

Lemma lang_star_cons r c s :
  lang (Star r) (c :: s) → ∃ s1 s2, s = s1 ++ s2 ∧ lang r (c :: s1) ∧ lang (Star r) s2.
Proof.
  intros H. remember (Star r) as q eqn:Hq. remember (c :: s) as t eqn:Ht.
  revert c s Ht. induction H as [| | | | | |r' s1 s2 H1 _ H2 IH]; intros y t Ht; try done.
  injection Hq as ->. destruct s1 as [|x s1]; simpl in Ht; [by apply IH|].
  injection Ht as -> <-. eauto.
Qed.

Lemma deriv_spec r c s : lang (deriv c r) s ↔ lang r (c :: s).
Proof.
  revert s. induction r as [| |f|r1 IH1 r2 IH2|r1 IH1 r2 IH2|r IH]; intros s; simpl.
  - split; intros H; inversion H.
  - split; intros H; inversion H.
  - destruct (f c) eqn:Hf; (split; intros H; inversion H; subst); auto with regex. congruence.
  - assert (lang (Cat r1 r2) (c :: s) ↔
      lang (Cat (deriv c r1) r2) s ∨ (lang r1 [] ∧ lang r2 (c :: s))) as ->.
    { split.
      - intros H. inversion H as [| |? ? s1 s2 H1 H2 Heq Hs| | | |]; subst.
        destruct s1 as [|x s1]; simpl in Hs; [subst; by right|].
        injection Hs as -> <-. left. constructor; [by apply IH1|done].
      - intros [H|[H1 H2]]; [|by apply (lang_cat _ _ [] (c :: s))].
        inversion H as [| |? ? s1 s2 H1 H2 Heq Hs| | | |]; subst.
        apply (lang_cat _ _ (c :: s1) s2); [by apply IH1|done]. }
    rewrite <- nullable_spec, <- IH2. destruct (nullable r1).
    + split; [intros H; inversion H; auto|intros [?|[_ ?]]; auto with regex].
    + split; [auto|intros [?|[? _]]; done].
  - split; intros H; inversion H; subst.
    + apply lang_alt_l. by apply IH1.
    + apply lang_alt_r. by apply IH2.
    + apply lang_alt_l. by apply IH1.
    + apply lang_alt_r. by apply IH2.
  - split.
    + intros H. inversion H as [| |? ? s1 s2 H1 H2 Heq Hs| | | |]; subst.
      apply (lang_star_app _ (c :: s1) s2); [by apply IH|done].
    + intros (s1 & s2 & -> & H1 & H2)%lang_star_cons. constructor; [by apply IH|done].
Qed.

Lemma regex_match_spec r s : regex_match r s = true ↔ lang r s.
Proof.
  revert r. induction s as [|c s IH]; intros r; simpl; [apply nullable_spec|].
  by rewrite IH, deriv_spec.
Qed.

(** * Domain names as labels *)

(** A label: 1 to 63 letters, digits and hyphens, no hyphen first or last. *)
Definition label_ok (l : bytes) : Prop :=
  1 ≤ length l ≤ 63
  ∧ Forall (λ c, isalnum c = true ∨ c = ch "-") l
  ∧ (∀ c, head l = Some c ∨ last l = Some c → isalnum c = true).

(** A top-level label: at least two letters, or "xn--" and at most 61 more
    characters. *)
Definition tld_ok (l : bytes) : Prop :=
  (2 ≤ length l ∧ Forall (λ c, isalpha c = true) l)
  ∨ ∃ x n k, l = x :: n :: str "--" ++ k ∧ tolower x = ch "x" ∧ tolower n = ch "n"
      ∧ length k ≤ 61 ∧ label_ok k.

Lemma lang_cat_inv r1 r2 s : lang (Cat r1 r2) s ↔ ∃ s1 s2, s = s1 ++ s2 ∧ lang r1 s1 ∧ lang r2 s2.
Proof.
  split; [intros H; inversion H; subst; eauto|]. intros (s1 & s2 & -> & H1 & H2). by constructor.
Qed.

Lemma lang_class_inv f s : lang (Class f) s ↔ ∃ c, s = [c] ∧ f c = true.
Proof. split; [intros H; inversion H; subst; eauto|]. intros (c & -> & H). by constructor. Qed.

Lemma lang_opt_inv r s : lang (opt r) s ↔ s = [] ∨ lang r s.
Proof.
  split.
  - intros H. inversion H as [| | |? ? ? He|? ? ? Hr| |]; subst; [inversion He; auto|auto].
  - intros [->|H]; [apply lang_alt_l; constructor|by apply lang_alt_r].
Qed.

Lemma lang_lit_inv c s : lang (lit c) s ↔ s = [c].
Proof.
  unfold lit. rewrite lang_class_inv. setoid_rewrite Z.eqb_eq. naive_solver.
Qed.

Lemma lang_upto_inv n f s : lang (upto n (Class f)) s ↔ length s ≤ n ∧ Forall (λ c, f c = true) s.
Proof.
  revert s. induction n as [|n IH]; intros s.
  - split; [intros H; inversion H; by auto|]. intros [Hl _]. destruct s; [constructor|simpl in Hl; lia].
  - change (upto (S n) (Class f)) with (opt (Cat (Class f) (upto n (Class f)))).
    rewrite lang_opt_inv, lang_cat_inv. split.
    + intros [->|(s1 & s2 & -> & H1 & H2)]; [simpl; split; [lia|constructor]|].
      apply lang_class_inv in H1 as (c & -> & Hc). apply IH in H2 as [Hl Hf].
      simpl. split; [lia|by constructor].
    + intros [Hl Hf]. destruct Hf as [|c s Hc Hf]; [by left|]. right. exists [c], s.
      split; [done|]. split; [by constructor|]. apply IH. simpl in Hl. split; [lia|done].
Qed.

Lemma lang_star_class_inv f s : lang (Star (Class f)) s ↔ Forall (λ c, f c = true) s.
Proof.
  split.
  - intros H. remember (Star (Class f)) as r eqn:Hr. induction H; try done.
    injection Hr as ->. apply Forall_app_2; [|auto].
    match goal with H : lang (Class _) _ |- _ => apply lang_class_inv in H as (? & -> & ?) end. by constructor.
  - induction 1 as [|c s Hc Hs IH]; [constructor|]. apply (lang_star_app _ [c] s); [by constructor|done].
Qed.

(** One character, then at most [n] others of which the last is plain: the
    shape of labels. *)
Lemma lang_label_inv n s :
  lang (Cat alnum (opt (Cat (upto n alnum_hyphen) alnum))) s ↔
  1 ≤ length s ≤ n + 2 ∧ Forall (λ c, isalnum c = true ∨ c = ch "-") s
  ∧ (∀ c, head s = Some c ∨ last s = Some c → isalnum c = true).
Proof.
  assert (∀ c, isalnum c || (c =? ch "-")%Z = true ↔ isalnum c = true ∨ c = ch "-") as Hah.
  { intros c. by rewrite orb_true_iff, Z.eqb_eq. }
  rewrite lang_cat_inv. unfold alnum. setoid_rewrite lang_class_inv. setoid_rewrite lang_opt_inv. split.
  - intros (s1 & s2 & -> & (c & -> & Hc) & [->|H2]).
    + simpl. split; [lia|]. split; [by repeat constructor; auto|]. intros ? [[= <-]|[= <-]]; done.
    + apply lang_cat_inv in H2 as (m & e & -> & Hm & (d & -> & Hd)%lang_class_inv).
      apply lang_upto_inv in Hm as [Hl Hf].
      assert (Forall (λ c, isalnum c = true ∨ c = ch "-") m) as Hf'
        by (eapply Forall_impl; [exact Hf|intros x Hx; by apply Hah]).
      simpl. rewrite length_app. simpl. split; [lia|]. split.
      * constructor; [auto|]. apply Forall_app_2; [done|]. by repeat constructor; auto.
      * intros x [[= <-]|Hx]; [done|]. rewrite app_comm_cons, last_snoc in Hx. by injection Hx as <-.
  - intros (Hl & Hf & Hends). destruct s as [|c s]; [simpl in Hl; lia|].
    exists [c], s. split; [done|]. split; [exists c; split; [done|]; apply Hends; by left|].
    destruct s as [|d m _] using rev_ind; [by left|]. right. apply lang_cat_inv.
    exists m, [d]. split; [done|]. split.
    + apply lang_upto_inv. simpl in Hl. rewrite length_app in Hl. simpl in Hl. split; [lia|].
      apply Forall_cons_1 in Hf as [_ Hf]. apply Forall_app in Hf as [Hf _].
      eapply Forall_impl; [exact Hf|]. intros x Hx. by apply Hah.
    + constructor. apply Hends. right. by rewrite app_comm_cons, last_snoc.
Qed.

Lemma lang_text_inv t s : lang (text t) s ↔ s = t.
Proof.
  revert s. induction t as [|c t IH]; intros s; cbn [text].
  - split; [intros H; by inversion H|]. intros ->. constructor.
  - rewrite lang_cat_inv. setoid_rewrite lang_lit_inv. setoid_rewrite IH. naive_solver.
Qed.

Lemma lang_at_least_inv n f s :
  lang (at_least n (Class f)) s ↔ n ≤ length s ∧ Forall (λ c, f c = true) s.
Proof.
  revert s. induction n as [|n IH]; intros s; cbn [at_least].
  - rewrite lang_star_class_inv. split; [intros; split; [lia|done]|naive_solver].
  - rewrite lang_cat_inv. setoid_rewrite lang_class_inv. setoid_rewrite IH. split.
    + intros (? & s2 & -> & (c & -> & Hc) & Hl & Hf). simpl. split; [lia|by constructor].
    + intros [Hl Hf]. destruct Hf as [|c s Hc Hf]; [simpl in Hl; lia|].
      exists [c], s. simpl in Hl. split_and!; eauto; lia.
Qed.

(** The labels in front of the top-level one, each with its dot. *)
Definition dotted_labels (ls : list bytes) : bytes := flat_map (λ l, l ++ str ".") ls.

Lemma lang_labels_inv r s :
  lang (Star (Cat r (lit (ch ".")))) s ↔ ∃ ls, Forall (lang r) ls ∧ s = dotted_labels ls.
Proof.
  split.
  - intros H. remember (Star (Cat r (lit (ch ".")))) as q eqn:Hq.
    induction H as [| | | | | |q s1 s2 H1 _ H2 IH]; try done; [by exists []|].
    injection Hq as ->. destruct (IH eq_refl) as (ls & Hls & ->).
    apply lang_cat_inv in H1 as (l & d & -> & Hl & ->%lang_lit_inv).
    exists (l :: ls). split; [by constructor|done].
  - intros (ls & Hls & ->). induction Hls as [|l ls Hl Hls IH]; [constructor|].
    apply (lang_star_app _ (l ++ str ".") (dotted_labels ls)); [|done].
    constructor; [done|]. by apply lang_lit_inv.
Qed.

Lemma lang_tld_inv s :
  lang (Alt (at_least 2 alpha)
    (Cat (icase_lit (ch "x")) (Cat (icase_lit (ch "n")) (Cat (text (str "--"))
       (Cat alnum (opt (Cat (upto 59 alnum_hyphen) alnum))))))) s ↔ tld_ok s.
Proof.
  unfold tld_ok. split.
  - intros H. inversion H as [| | |? ? ? Ha|? ? ? Hp| |]; subst.
    + left. by apply (lang_at_least_inv 2 isalpha) in Ha.
    + right. apply lang_cat_inv in Hp as (s1 & s2 & -> & (x & -> & Hx%Z.eqb_eq)%lang_class_inv & Hp).
      apply lang_cat_inv in Hp as (s3 & s4 & -> & (n & -> & Hn%Z.eqb_eq)%lang_class_inv & Hp).
      apply lang_cat_inv in Hp as (s5 & k & -> & ->%(lang_text_inv (str "--")) & Hk).
      apply (lang_label_inv 59) in Hk as (Hl & Hf & He).
      exists x, n, k. repeat (split; [first [done|lia]|]). done.
  - intros [[Hl Hf]|(x & n & k & -> & Hx & Hn & Hl & Hk1 & Hf & He)].
    + apply lang_alt_l. by apply (lang_at_least_inv 2 isalpha).
    + apply lang_alt_r. apply (lang_cat _ _ [x]); [constructor; by apply Z.eqb_eq|].
      apply (lang_cat _ _ [n]); [constructor; by apply Z.eqb_eq|].
      apply lang_cat; [by apply (lang_text_inv (str "--"))|]. apply (lang_label_inv 59).
      split; [lia|done].
Qed.

(** The limit of 63 characters that the comment of the source states for each label
    does not hold for the final one: letters alone may go on up to the limit of the
    name, and the "xn--" form ends at 65. *)
Example final_label_too_long :
  is_valid_domain (str "example." ++ repeat (ch "a") 70) = true
  ∧ is_valid_domain (str "example.xn--" ++ repeat (ch "a") 61) = true
  ∧ is_valid_domain (repeat (ch "a") 64 ++ str ".com") = false.
Proof. by vm_compute. Qed.

Lemma tolower_alnum c l : tolower c = l → islower l = true → isalnum c = true.
Proof.
  unfold tolower, isalnum, isalpha. intros <- Hl. destruct (isupper c); [done|]. by rewrite Hl.
Qed.

(** A final label keeps the rules of the others, but for their length. *)
Lemma tld_ok_label l : tld_ok l → (label_ok l ↔ length l ≤ 63).
Proof.
  intros Hl. split; [by intros [[_ ?] _]|]. revert Hl. intros [[Hl Hf]|(x & n & k & -> & Hx & Hn & _ & Hk1 & Hf & He)] Hmax.
  - split; [lia|]. rewrite Forall_forall in Hf.
    assert (∀ c, c ∈ l → isalnum c = true) as Ha.
    { intros c Hc. unfold isalnum. by rewrite (Hf c Hc). }
    split; [apply Forall_forall; auto|]. intros c [Hc|Hc]; apply Ha.
    + by apply head_Some_elem_of in Hc.
    + apply last_Some_elem_of in Hc. done.
  - split; [split; [simpl; lia|exact Hmax]|]. assert (isalnum x = true ∧ isalnum n = true) as [Hax Han].
    { split; (eapply tolower_alnum; [eassumption|done]). }
    split.
    + repeat (constructor; [auto|]). done.
    + intros c [Hc|Hc]; [by injection Hc as <-|]. apply He. right.
      change (x :: n :: str "--" ++ k) with ([x; n; ch "-"; ch "-"] ++ k) in Hc.
      destruct k as [|d k]; [simpl in Hk1; lia|]. rewrite last_app in Hc.
      destruct (last (d :: k)) as [e|] eqn:Hk; [exact Hc|]. by apply last_None in Hk.
Qed.

(** C40: [is_valid_domain] accepts exactly the names of at most 253 characters that
    consist of one or more labels, each of 1 to 63 letters, digits and inner
    hyphens and followed by a dot, and a top-level label of at least two letters or
    "xn--" with 1 to 61 letters, digits and inner hyphens, with an optional final
    dot.  The limit of 63 is one for the labels in front only: a final label of
    letters may have any length, one in "xn--" form up to 65 characters, so a name
    that is accepted may break the rule that the source's comment states for every
    label.  Its final label keeps that rule exactly if it has at most 63 characters. *)
Theorem is_valid_domain_iff (domain : bytes) :
  is_valid_domain domain = true ↔
  length domain ≤ 253
  ∧ ∃ ls tld dot, ls ≠ [] ∧ Forall label_ok ls ∧ tld_ok tld ∧ (dot = [] ∨ dot = str ".")
      ∧ domain = dotted_labels ls ++ tld ++ dot
      ∧ (label_ok tld ↔ length tld ≤ 63).
Proof.
  assert (∀ ls, Forall (lang (Cat alnum (opt (Cat (upto 61 alnum_hyphen) alnum)))) ls ↔ Forall label_ok ls)
    as Hlabels by (intros ls; apply Forall_iff; intros x; apply (lang_label_inv 61)).
  assert (regex_match DOMAIN_REGEX domain = true ↔
    ∃ ls tld dot, ls ≠ [] ∧ Forall label_ok ls ∧ tld_ok tld ∧ (dot = [] ∨ dot = str ".")
      ∧ domain = dotted_labels ls ++ tld ++ dot ∧ (label_ok tld ↔ length tld ≤ 63)) as Hre.
  { rewrite regex_match_spec. unfold DOMAIN_REGEX, plus. rewrite lang_cat_inv.
    setoid_rewrite lang_cat_inv. setoid_rewrite lang_tld_inv. setoid_rewrite lang_opt_inv.
    setoid_rewrite lang_lit_inv. setoid_rewrite lang_labels_inv. setoid_rewrite lang_cat_inv.
    setoid_rewrite (lang_label_inv 61). setoid_rewrite lang_lit_inv. split.
    - intros (? & ? & -> & (? & ? & -> & (l & ? & -> & Hl & ->) & ls & Hls & ->) & tld & dot & -> & Ht & Hd).
      apply Hlabels in Hls.
      exists (l :: ls), tld, dot. split_and!; [done|by constructor|done|done| |by apply tld_ok_label].
      simpl. by rewrite <- !app_assoc.
    - intros (ls & tld & dot & Hne & Hls & Ht & Hd & -> & _). destruct Hls as [|l ls Hl Hls]; [done|].
      apply Hlabels in Hls.
      exists (dotted_labels (l :: ls)), (tld ++ dot). split; [done|]. split; [|eauto].
      exists (l ++ str "."), (dotted_labels ls). split; [done|]. split; eauto 10. }
  unfold is_valid_domain, DOMAIN_NAME_MAX_LEN. rewrite <- Hre.
  destruct (253 <? length domain) eqn:Hl; prop_of_bool; [split; [done|lia]|].
  destruct (find domain (str ".") 0) as [p|] eqn:Hf; [naive_solver|].
  split; [done|]. intros [_ (ls & tld & dot & Hne & _ & _ & _ & -> & _)%Hre].
  change (str ".") with [ch "."] in Hf. apply find_char_None in Hf. exfalso. apply Hf.
  destruct ls as [|l ls]; [done|]. rewrite drop_0. simpl. rewrite !elem_of_app. left. left. right. by left.
Qed.
