(* ===== verification/StringUtil.v ===== *)
(** [include/string_util.hpp]: case folding, trimming, substitution,
    splitting and joining of strings, as the HTTP, URI and driver code uses
    them.  The two branches of [replace_all] (in-place overwrite for equal
    lengths, rebuilding otherwise) are proved to compute the same left-to-right
    substitution, and [split] to invert [join]. *)
From S2P Require Import Prelude CppString.

(** * Case conversion *)

(* @fn src/include/string_util.hpp | lower_table = [] | StringUtil::detail::lower_table *)
Definition lower_table (i : Z) : Z :=
  if ((65 <=? i) && (i <=? 90))%Z then (i + 32)%Z else i.

(* @fn src/include/string_util.hpp | upper_table = [] | StringUtil::detail::upper_table *)
Definition upper_table (i : Z) : Z :=
  if ((97 <=? i) && (i <=? 122))%Z then (i - 32)%Z else i.

(* @fn src/include/string_util.hpp | void to_lower(T &buf) ^1 | StringUtil::to_lower *)
Definition to_lower (buf : bytes) : bytes := map lower_table buf.

(* @fn src/include/string_util.hpp | void to_upper(T &buf) ^1 | StringUtil::to_upper *)
Definition to_upper (buf : bytes) : bytes := map upper_table buf.

(* @fn src/include/string_util.hpp | std::string to_lower_copy ^1 | StringUtil::to_lower_copy *)
Definition to_lower_copy (s : bytes) : bytes := to_lower s.

(* @fn src/include/string_util.hpp | std::string to_upper_copy ^1 | StringUtil::to_upper_copy *)
Definition to_upper_copy (s : bytes) : bytes := to_upper s.

(** The loop [for (i = 0; i < a.size(); ++i)] of [iequals]. *)
(* @fn src/include/string_util.hpp | inline bool iequals( ==> for (size_t i | StringUtil::iequals (loop) *)
Fixpoint iequals_loop (a b : bytes) : bool :=
  match a, b with
  | x :: a', y :: b' =>
      if (lower_table x =? lower_table y)%Z then iequals_loop a' b' else false
  | _, _ => true
  end.

(* @fn src/include/string_util.hpp | inline bool iequals( | StringUtil::iequals *)
Definition iequals (a b : bytes) : bool :=
  if negb (length a =? length b) then false else iequals_loop a b.

(** The inner loop of [icontains]: [needle] against [haystack] from [start]. *)
(* @fn src/include/string_util.hpp | inline bool icontains( ==> bool match = true; ==> for (size_t i | StringUtil::icontains (inner loop) *)
Fixpoint icontains_here (haystack needle : bytes) {struct needle} : bool :=
  match needle, haystack with
  | [], _ => true
  | n :: needle', h :: haystack' =>
      if (lower_table h =? lower_table n)%Z then icontains_here haystack' needle' else false
  | _ :: _, [] => false
  end.

(** The outer loop, over the starts [0 .. haystack.size() - needle.size()]. *)
(* @fn src/include/string_util.hpp | inline bool icontains( ==> for (size_t start | StringUtil::icontains (outer loop) *)
Fixpoint icontains_from (haystack needle : bytes) (starts : nat) : bool :=
  if icontains_here haystack needle then true else
  match starts, haystack with
  | S starts', _ :: haystack' => icontains_from haystack' needle starts'
  | _, _ => false
  end.

(* @fn src/include/string_util.hpp | inline bool icontains( | StringUtil::icontains *)
Definition icontains (haystack needle : bytes) : bool :=
  if length haystack <? length needle then false
  else icontains_from haystack needle (length haystack - length needle).

(** In place. *)
(* @fn src/include/string_util.hpp | void reverse(T &buf) noexcept { ^1 | StringUtil::reverse *)
Definition reverse (buf : bytes) : bytes := rev buf.

(* @fn src/include/string_util.hpp | std::string reverse_copy(T ^1 | StringUtil::reverse_copy *)
Definition reverse_copy (s : bytes) : bytes := rev s.

(** * Trimming *)

(* @fn src/include/string_util.hpp | std::string_view ltrim( | StringUtil::ltrim *)
Fixpoint ltrim (sv : bytes) : bytes :=
  match sv with
  | c :: sv' => if isspace c then ltrim sv' else sv
  | [] => []
  end.

(* @fn src/include/string_util.hpp | std::string_view rtrim( | StringUtil::rtrim *)
Definition rtrim (sv : bytes) : bytes := rev (ltrim (rev sv)).

(* @fn src/include/string_util.hpp | std::string_view trim( | StringUtil::trim *)
Definition trim (sv : bytes) : bytes := ltrim (rtrim sv).

(* @fn src/include/string_util.hpp | std::string ltrim_copy( ^1 | StringUtil::ltrim_copy *)
Definition ltrim_copy (s : bytes) : bytes := ltrim s.

(* @fn src/include/string_util.hpp | std::string rtrim_copy( ^1 | StringUtil::rtrim_copy *)
Definition rtrim_copy (s : bytes) : bytes := rtrim s.

(* @fn src/include/string_util.hpp | std::string trim_copy( ^1 | StringUtil::trim_copy *)
Definition trim_copy (s : bytes) : bytes := trim s.

(** * Substitution *)

(** [std::copy_n(rs.data(), rs.size(), str.data() + p)]. *)
Definition overwrite (s : bytes) (p : nat) (r : bytes) : bytes :=
  take p s ++ r ++ drop (p + length r) s.

(** The equal-length loop: overwrite at [pos], search again behind it.  The
    [if] on aliasing only copies [rs] first, which changes nothing for a
    replacement given by value. *)
(* @fn src/include/string_util.hpp | void replace_all(std::string ==> if (ts.size() == rs.size()) { | StringUtil::replace_all (equal length) *)
Fixpoint replace_all_inplace {E} (fuel : nat) (s ts rs : bytes) (pos : option nat)
    : outcome E bytes :=
  match pos with
  | None => Ret s
  | Some p =>
      match fuel with
      | O => OutOfFuel
      | S fuel =>
          let s := overwrite s p rs in
          replace_all_inplace fuel s ts rs (find s ts (p + length rs))
      end
  end.

(** The unequal-length loop: build [result] from the pieces of [s]. *)
(* @src src/include/string_util.hpp 297 308 StringUtil::replace_all (unequal length) *)
Fixpoint replace_all_rebuild {E} (fuel : nat) (s ts rs : bytes) (last : nat)
    (pos : option nat) (result : bytes) : outcome E bytes :=
  match pos with
  | None => Ret (result ++ drop last s)
  | Some p =>
      match fuel with
      | O => OutOfFuel
      | S fuel =>
          let result := (result ++ sub s last (p - last)) ++ rs in
          let last := p + length ts in
          replace_all_rebuild fuel s ts rs last (find s ts last) result
      end
  end.

(** Each iteration moves the search position forward by at least one
    character: [length s] iterations are enough. *)
(* @fn src/include/string_util.hpp | void replace_all(std::string ^1 | StringUtil::replace_all *)
Definition replace_all {E} (s ts rs : bytes) : outcome E bytes :=
  match ts with
  | [] => Ret s
  | _ :: _ =>
      if length ts =? length rs
      then replace_all_inplace (length s) s ts rs (find s ts 0)
      else replace_all_rebuild (length s) s ts rs 0 (find s ts 0) []
  end.

(* @fn src/include/string_util.hpp | std::string replace_all_copy( ^1 | StringUtil::replace_all_copy *)
Definition replace_all_copy {E} (s ts rs : bytes) : outcome E bytes := replace_all s ts rs.

(* @fn src/include/string_util.hpp | bool replace_first( ^1 | StringUtil::replace_first *)
Definition replace_first (s ts rs : bytes) : bytes * bool :=
  match ts with
  | [] => (s, false)
  | _ :: _ =>
      match find s ts 0 with
      | None => (s, false)
      | Some pos => (take pos s ++ rs ++ drop (pos + length ts) s, true)
      end
  end.

(** The [do ... while] loops of the pair-list [replace]: overwrite (equal
    lengths) or [str.replace] at each match, searching on behind the
    replacement. *)
(* @src src/include/string_util.hpp 221 244 StringUtil::replace (loops) *)
Fixpoint replace_pair_loop {E} (fuel : nat) (s ts rs : bytes) (pos : option nat)
    : outcome E bytes :=
  match pos with
  | None => Ret s
  | Some p =>
      match fuel with
      | O => OutOfFuel
      | S fuel =>
          let s := if length ts =? length rs then overwrite s p rs
                   else take p s ++ rs ++ drop (p + length ts) s in
          replace_pair_loop fuel s ts rs (find s ts (p + length rs))
      end
  end.

(* @fn src/include/string_util.hpp | void replace(std::string &str, const R &replace_list) { ^1 | StringUtil::replace *)
Fixpoint replace {E} (s : bytes) (replace_list : list (bytes * bytes)) : outcome E bytes :=
  match replace_list with
  | [] => Ret s
  | (ts, rs) :: rest =>
      s ← (match ts with
           | [] => Ret s
           | _ :: _ => replace_pair_loop (length s) s ts rs (find s ts 0)
           end);
      replace s rest
  end.

(* @fn src/include/string_util.hpp | std::string replace_copy(std::string_view str ^1 | StringUtil::replace_copy *)
Definition replace_copy {E} (str : bytes) (replace_list : list (bytes * bytes)) : outcome E bytes :=
  replace str replace_list.

(** * Split, join, queries *)

(** The pieces of [sv | std::views::split(delim)]: [acc] is the piece being
    read, reversed, and [skip] the number of delimiter characters still to
    pass over. *)
Fixpoint split_view (delim sv acc : bytes) (skip : nat) : list bytes :=
  match sv with
  | [] => [rev acc]
  | x :: sv' =>
      match skip with
      | S skip => split_view delim sv' acc skip
      | O =>
          if starts_with sv delim
          then rev acc :: split_view delim sv' [] (length delim - 1)
          else split_view delim sv' (x :: acc) 0
      end
  end.

Inductive split_error := invalid_argument.

(* @fn src/include/string_util.hpp | std::vector<std::string> split(T ^1 | StringUtil::split *)
Definition split (sv delim : bytes) : outcome split_error (list bytes) :=
  match delim with
  | [] => Throw invalid_argument
  | _ :: _ => Ret (filter (λ part, part ≠ []) (split_view delim sv [] 0))
  end.

(* @fn src/include/string_util.hpp | std::string join(R ^1 | StringUtil::join *)
Fixpoint join (parts : list bytes) (delim : bytes) : bytes :=
  match parts with
  | [] => []
  | [part] => part
  | part :: parts' => part ++ delim ++ join parts' delim
  end.

(* @fn src/include/string_util.hpp | constexpr bool contains( ^1 | StringUtil::contains *)
Definition su_contains (s sub : bytes) : bool := contains s sub.

(* @src src/include/string_util.hpp 429 435 StringUtil::count (loop) *)
Fixpoint count_loop {E} (fuel : nat) (s t : bytes) (pos : option nat) (n : nat)
    : outcome E nat :=
  match pos with
  | None => Ret n
  | Some p =>
      match fuel with
      | O => OutOfFuel
      | S fuel => count_loop fuel s t (find s t (p + length t)) (S n)
      end
  end.

(* @fn src/include/string_util.hpp | constexpr size_t count( ^1 | StringUtil::count *)
Definition count {E} (s t : bytes) : outcome E nat :=
  match t with
  | [] => Ret 0
  | _ :: _ => count_loop (length s) s t (find s t 0) 0
  end.

(* @fn src/include/string_util.hpp | constexpr bool str_to_bool( ^1 | StringUtil::str_to_bool *)
Definition str_to_bool (s : bytes) : bool :=
  existsb (λ t, bool_decide (s = t))
    [str "1"; str "on"; str "ON"; str "yes"; str "YES"; str "true"; str "TRUE"].

(** * Reference substitution *)

(** The substitution read off the text from left to right: where [ts] starts,
    put [rs] and pass over [ts]. *)
Fixpoint subst (ts rs s : bytes) (skip : nat) : bytes :=
  match s with
  | [] => []
  | x :: s' =>
      match skip with
      | S skip => subst ts rs s' skip
      | O =>
          if starts_with s ts then rs ++ subst ts rs s' (length ts - 1)
          else x :: subst ts rs s' 0
      end
  end.

Section subst.
Context (ts rs : bytes) (Hts : ts ≠ []).

Lemma subst_skip s n : subst ts rs s n = subst ts rs (drop n s) 0.
Proof using Type.
  revert n. induction s as [|x s IH]; intros [|n]; simpl; auto.
Qed.

(** Up to the first match the text is kept; behind it the work resumes. *)
Lemma subst_find_at s i p :
  find_at s ts i = Some p →
  ∃ k, p = i + k ∧ k + length ts ≤ length s ∧
    subst ts rs s 0 = take k s ++ rs ++ subst ts rs (drop (k + length ts) s) 0.
Proof using Hts.
  revert i. induction s as [|x s IH]; intros i; cbn [find_at].
  - destruct ts; [congruence|done].
  - destruct (starts_with (x :: s) ts) eqn:E.
    + intros [= <-]. exists 0. split; [lia|]. split.
      { by apply starts_with_occurs in E as [? _]. }
      cbn [subst]. rewrite E, subst_skip. simpl. f_equal.
      destruct (length ts) as [|n] eqn:Hn; [by destruct ts|].
      simpl. by rewrite Nat.sub_0_r.
    + intros (k & -> & Hk & Hs)%IH. exists (S k). split; [lia|].
      split; [simpl; lia|]. cbn [subst]. by rewrite E, Hs.
Qed.

Lemma subst_find_at_None s i : find_at s ts i = None → subst ts rs s 0 = s.
Proof using Hts.
  revert i. induction s as [|x s IH]; intros i; cbn [find_at]; [done|].
  destruct (starts_with (x :: s) ts) eqn:E; [done|].
  intros Hf. cbn [subst]. rewrite E. f_equal. by apply (IH (S i)).
Qed.

Lemma subst_find s last p :
  find s ts last = Some p →
  subst ts rs (drop last s) 0 =
    sub s last (p - last) ++ rs ++ subst ts rs (drop (p + length ts) s) 0.
Proof using Hts.
  unfold find. destruct (last <=? length s); [|done].
  intros (k & -> & Hk & ->)%subst_find_at. unfold sub.
  rewrite drop_drop. do 3 f_equal; [lia|]. f_equal. lia.
Qed.

Lemma subst_find_None s last :
  last ≤ length s → find s ts last = None → subst ts rs (drop last s) 0 = drop last s.
Proof using Hts.
  unfold find. intros Hl. rewrite (proj2 (Nat.leb_le _ _) Hl).
  apply subst_find_at_None.
Qed.

Lemma ts_length : 0 < length ts.
Proof using Hts. destruct ts; [done|simpl; lia]. Qed.

Lemma replace_all_rebuild_subst {E} fuel s last result :
  last ≤ length s → length s - last ≤ fuel →
  replace_all_rebuild (E:=E) fuel s ts rs last (find s ts last) result
  = Ret (result ++ subst ts rs (drop last s) 0).
Proof using Hts.
  pose proof ts_length as Ht. revert last result.
  induction fuel as [|fuel IH]; intros last result Hl Hf;
    cbn [replace_all_rebuild]; destruct (find s ts last) as [p|] eqn:Hp.
  2,4: by rewrite subst_find_None.
  - apply find_Some_bound in Hp. lia.
  - pose proof (find_Some_bound _ _ _ _ Hp).
    rewrite IH by lia. by rewrite (subst_find _ _ _ Hp), <- !app_assoc.
Qed.

(** Replacing at a match leaves what is behind it in place. *)
Lemma replace_at_tail s p :
  p + length ts ≤ length s →
  take p s ++ rs ++ drop (p + length ts) s = (take p s ++ rs) ++ drop (p + length ts) s
  ∧ length (take p s ++ rs) = p + length rs.
Proof using Type.
  intros Hp. split; [by rewrite app_assoc|]. rewrite length_app, length_take. lia.
Qed.

Lemma replace_pair_loop_subst {E} fuel s last :
  last ≤ length s → length s - last ≤ fuel →
  replace_pair_loop (E:=E) fuel s ts rs (find s ts last)
  = Ret (take last s ++ subst ts rs (drop last s) 0).
Proof using Hts.
  pose proof ts_length as Ht. revert s last.
  induction fuel as [|fuel IH]; intros s last Hl Hf;
    cbn [replace_pair_loop]; destruct (find s ts last) as [p|] eqn:Hp.
  2,4: by rewrite subst_find_None, take_drop.
  - apply find_Some_bound in Hp. lia.
  - pose proof (find_Some_bound _ _ _ _ Hp) as [Hlp Hpl].
    set (s' := if length ts =? length rs then _ else _).
    assert (s' = (take p s ++ rs) ++ drop (p + length ts) s) as ->.
    { subst s'. rewrite <- app_assoc. unfold overwrite.
      destruct (Nat.eqb_spec (length ts) (length rs)) as [->|]; done. }
    destruct (replace_at_tail s p Hpl) as [_ Hlen].
    rewrite IH; rewrite ?length_app, ?length_take, ?length_drop; try lia.
    rewrite drop_app_exact, take_app_exact by (symmetry; exact Hlen).
    rewrite (subst_find _ _ _ Hp). unfold sub. rewrite !app_assoc. do 2 f_equal.
    rewrite take_take_drop. by replace (last + (p - last)) with p by lia.
Qed.

Lemma replace_all_inplace_eq {E} fuel s pos :
  length ts = length rs →
  replace_all_inplace (E:=E) fuel s ts rs pos = replace_pair_loop fuel s ts rs pos.
Proof using Type.
  intros Hl. revert s pos. induction fuel as [|fuel IH]; intros s [p|]; simpl; auto.
  rewrite (proj2 (Nat.eqb_eq _ _) Hl). apply IH.
Qed.
End subst.

Lemma replace_all_eq {E} s ts rs :
  replace_all (E:=E) s ts rs = Ret (if decide (ts = []) then s else subst ts rs s 0).
Proof.
  destruct ts as [|t ts]; [done|]. rewrite decide_False by done.
  unfold replace_all. destruct (Nat.eqb_spec (length (t :: ts)) (length rs)) as [Hl|Hl].
  - rewrite replace_all_inplace_eq by done.
    by rewrite replace_pair_loop_subst by (done || lia).
  - by rewrite replace_all_rebuild_subst by (done || lia).
Qed.
#[export] Hint Rewrite @replace_all_eq : outcome.

(** * Splitting and joining *)

Lemma split_view_app c part rest acc :
  c ∉ part →
  split_view [c] (part ++ c :: rest) acc 0 = (rev acc ++ part) :: split_view [c] rest [] 0.
Proof.
  revert acc. induction part as [|x part IH]; intros acc Hc.
  - simpl. by rewrite Z.eqb_refl, app_nil_r.
  - apply not_elem_of_cons in Hc as [Hne Hc]. simpl.
    rewrite (proj2 (Z.eqb_neq x c)) by congruence. simpl.
    rewrite IH by done. simpl. by rewrite <- app_assoc.
Qed.

Lemma split_view_last c part acc :
  c ∉ part → split_view [c] part acc 0 = [rev acc ++ part].
Proof.
  revert acc. induction part as [|x part IH]; intros acc Hc.
  - simpl. by rewrite app_nil_r.
  - apply not_elem_of_cons in Hc as [Hne Hc]. simpl.
    rewrite (proj2 (Z.eqb_neq x c)) by congruence. simpl.
    rewrite IH by done. simpl. by rewrite <- app_assoc.
Qed.

Lemma split_view_join c parts :
  parts ≠ [] → Forall (λ p, (c ∉ p)) parts → split_view [c] (join parts [c]) [] 0 = parts.
Proof.
  intros Hne Hall. induction Hall as [|p parts Hp Hall IH]; [done|].
  destruct parts as [|q parts]; simpl join.
  - by rewrite split_view_last.
  - rewrite split_view_app by done. f_equal. by apply IH.
Qed.

Lemma split_join_parts c parts :
  Forall (λ p, (c ∉ p) ∧ p ≠ []) parts → split (join parts [c]) [c] = Ret parts.
Proof.
  intros Hall. unfold split. f_equal.
  destruct parts as [|p parts]; [done|].
  rewrite split_view_join; [|done|by eapply Forall_impl; [exact Hall|naive_solver]].
  apply filter_all. eapply Forall_impl; [exact Hall|naive_solver].
Qed.

(** * Trimming *)

Definition all_space (s : bytes) : Prop := Forall (λ c, isspace c = true) s.

Lemma ltrim_spec s : ∃ a, s = a ++ ltrim s ∧ all_space a ∧
  (∀ c s', ltrim s = c :: s' → isspace c = false).
Proof.
  induction s as [|c s (a & Ha & Hsp & Hh)].
  { exists []. repeat split; [by constructor|done]. }
  simpl. destruct (isspace c) eqn:Hc.
  - exists (c :: a). simpl. rewrite <- Ha. repeat split; auto. by constructor.
  - exists []. repeat split; [by constructor|]. by intros ?? [= <- <-].
Qed.

Lemma rtrim_spec s : ∃ b, s = rtrim s ++ b ∧ all_space b ∧
  (∀ s' c, (rtrim s = s' ++ [c]) → isspace c = false).
Proof.
  unfold rtrim. destruct (ltrim_spec (rev s)) as (a & Ha & Hsp & Hh).
  exists (rev a). split; [|split].
  - rewrite <- rev_app_distr, <- Ha. by rewrite rev_involutive.
  - unfold all_space in *. rewrite List.Forall_forall in *. intros x Hx. apply Hsp, in_rev, Hx.
  - intros s' c Hs. apply (f_equal (@rev Z)) in Hs.
    rewrite rev_involutive, rev_app_distr in Hs. exact (Hh c (rev s') Hs).
Qed.

Lemma ltrim_suffix s : ∃ a, s = a ++ ltrim s.
Proof. destruct (ltrim_spec s) as (a & Ha & _). by exists a. Qed.

(** * Properties *)

(** [replace_all] terminates and, through its in-place branch as through
    its rebuilding branch, computes the left-to-right substitution of every
    occurrence of the target; the pair-list [replace] computes the same for
    each of its pairs, every occurrence included. *)
Theorem replace_all_is_subst {E} (s ts rs : bytes) :
  ts ≠ [] →
  replace_all (E:=E) s ts rs = Ret (subst ts rs s 0)
  ∧ replace (E:=E) s [(ts, rs)] = Ret (subst ts rs s 0).
Proof.
  intros Hts. rewrite replace_all_eq, decide_False by done. split; [done|].
  destruct ts as [|t ts]; [done|]. simpl.
  rewrite replace_pair_loop_subst by (done || lia). done.
Qed.

Lemma replace_all_is_subst_witness :
  str "{x}" ≠ [] ∧
  replace_all (E:=Empty_set) (str "a{x}b{x}") (str "{x}") (str "yz")
    = Ret (str "ayzbyz").
Proof.
  split; [done|].
  rewrite (proj1 (replace_all_is_subst (str "a{x}b{x}") (str "{x}") (str "yz") ltac:(done))).
  vm_compute. reflexivity.
Defined.

(** [split] inverts [join]: parts that are not empty and do not contain the
    (one-character) delimiter are read back exactly, in order. *)
Theorem split_join (c : Z) (parts : list bytes) :
  Forall (λ p, (c ∉ p) ∧ p ≠ []) parts → split (join parts [c]) [c] = Ret parts.
Proof. apply split_join_parts. Qed.

Lemma split_join_witness :
  split (join [str "com"; str "example"] (str ",")) (str ",") = Ret [str "com"; str "example"].
Proof.
  apply (split_join (ch ",") [str "com"; str "example"]).
  repeat constructor; try done; vm_compute; intros H;
    repeat (apply elem_of_cons in H as [H|H]; [discriminate|]); by apply elem_of_nil in H.
Defined.

(** [trim] removes exactly the surrounding white space: the input is white
    space, the result, white space, and the result begins and ends with a
    character that is not white space (or is empty). *)
Theorem trim_is_maximal (s : bytes) :
  ∃ a b, s = a ++ trim s ++ b ∧ all_space a ∧ all_space b ∧
    (∀ c s', trim s = c :: s' → isspace c = false) ∧
    (∀ s' c, (trim s = s' ++ [c]) → isspace c = false).
Proof.
  unfold trim. destruct (rtrim_spec s) as (b & Hb & Hsb & Hlast).
  destruct (ltrim_spec (rtrim s)) as (a & Ha & Hsa & Hfirst).
  exists a, b. split; [|split; [done|split; [done|split; [done|]]]].
  - rewrite app_assoc, <- Ha. done.
  - intros s' c Hs. apply (Hlast (a ++ s') c). by rewrite Ha, Hs, app_assoc.
Qed.
