(* ===== verification/Bytes.v ===== *)
(** [src/util/bytes.hpp]: big-endian reads and writes.  A read names the bytes
    it needs, so that a read past the end of the buffer is [Undef], as the
    unchecked pointer arithmetic of the code is. *)
From S2P Require Import Prelude.

(* @fn src/src/util/bytes.hpp | constexpr std::uint16_t read_u16_be(const std::uint8_t *buf) | Utils::Bytes::read_u16_be *)
Definition u16_of_be (b0 b1 : Z) : Z := Z.lor (Z.shiftl b0 8) b1.

(* @src src/src/util/bytes.hpp 21 29 Utils::Bytes::read_u16_be (span) *)
Definition read_u16_be {E} (buf : bytes) (offset : nat) : outcome E Z :=
  b0 ← rd buf offset;
  b1 ← rd buf (offset + 1);
  Ret (u16_of_be b0 b1).

(* @fn src/src/util/bytes.hpp | constexpr std::uint32_t read_u32_be(const std::uint8_t *buf) | Utils::Bytes::read_u32_be *)
Definition u32_of_be (b0 b1 b2 b3 : Z) : Z :=
  Z.lor (Z.lor (Z.lor (Z.shiftl b0 24) (Z.shiftl b1 16)) (Z.shiftl b2 8)) b3.

(* @src src/src/util/bytes.hpp 37 45 Utils::Bytes::read_u32_be (span) *)
Definition read_u32_be {E} (buf : bytes) (offset : nat) : outcome E Z :=
  b0 ← rd buf offset;
  b1 ← rd buf (offset + 1);
  b2 ← rd buf (offset + 2);
  b3 ← rd buf (offset + 3);
  Ret (u32_of_be b0 b1 b2 b3).

(** The two bytes [write_u16_be] stores. *)
(* @fn src/src/util/bytes.hpp | inline void write_u16_be(std::uint8_t *buf | Utils::Bytes::write_u16_be *)
Definition u16_be (value : Z) : bytes := [u8 (Z.shiftr value 8); u8 value].

(* @src src/src/util/bytes.hpp 53 61 Utils::Bytes::write_u16_be (span) *)
Definition write_u16_be {E} (buf : bytes) (offset : nat) (value : Z) : outcome E bytes :=
  if offset + 1 <? length buf
  then Ret (take offset buf ++ u16_be value ++ drop (offset + 2) buf)
  else Undef.

(** * Arithmetic readings *)

Lemma u16_of_be_eq b0 b1 : is_byte b1 → u16_of_be b0 b1 = (b0 * 256 + b1)%Z.
Proof. intros Hb. unfold u16_of_be. by apply (lor_shiftl_add b0 b1 8). Qed.

Lemma u32_of_be_eq b0 b1 b2 b3 :
  is_byte b0 → is_byte b1 → is_byte b2 → is_byte b3 →
  u32_of_be b0 b1 b2 b3 = (b0 * 16777216 + b1 * 65536 + b2 * 256 + b3)%Z.
Proof.
  unfold is_byte. intros H0 H1 H2 H3. unfold u32_of_be.
  replace (Z.shiftl b0 24) with (Z.shiftl (Z.shiftl b0 8) 16)
    by (rewrite Z.shiftl_shiftl; [done|lia]).
  replace (Z.shiftl b2 8) with (Z.shiftl b2 8) by done.
  rewrite <- Z.shiftl_lor, <- Z.lor_assoc.
  rewrite (lor_shiftl_add b0 b1 8) by lia.
  rewrite (lor_shiftl_add b2 b3 8) by lia.
  rewrite (lor_shiftl_add _ _ 16) by lia. lia.
Qed.

Lemma u16_be_eq v : is_u16 v → u16_be v = [(v / 256)%Z; (v mod 256)%Z].
Proof.
  unfold is_u16. intros Hv. unfold u16_be.
  rewrite Z.shiftr_div_pow2 by lia. change (2 ^ 8)%Z with 256%Z.
  rewrite u8_small; [done|]. unfold is_byte.
  split; [apply Z.div_pos; lia|apply Z.div_lt_upper_bound; lia].
Qed.

Lemma u16_be_length v : length (u16_be v) = 2.
Proof. done. Qed.

Lemma u16_be_bytes v : Forall is_byte (u16_be v).
Proof. unfold u16_be. auto with bytes. Qed.

Lemma u16_of_u16_be v : is_u16 v → u16_of_be (u8 (Z.shiftr v 8)) (u8 v) = v.
Proof.
  intros Hv. rewrite u16_of_be_eq by auto with bytes.
  pose proof (u16_be_eq v Hv) as Heq. unfold u16_be in Heq.
  assert (u8 (Z.shiftr v 8) = v / 256)%Z as -> by congruence.
  unfold u8. pose proof (Z.div_mod v 256). lia.
Qed.

Section reads.
Context {E : Type}.

Lemma read_u16_be_at (l k : bytes) b0 b1 off :
  off = length l → read_u16_be (E:=E) (l ++ b0 :: b1 :: k) off = Ret (u16_of_be b0 b1).
Proof.
  intros ->. unfold read_u16_be. rewrite (rd_Some _ (length l) b0) by by apply lookup_app_exact.
  simpl. rewrite (rd_Some _ (length l + 1) b1); [done|].
  change (b0 :: b1 :: k) with ([b0] ++ b1 :: k). rewrite app_assoc.
  apply lookup_app_exact. rewrite length_app. simpl. lia.
Qed.

(** Reading back a value just written. *)
Lemma read_u16_be_u16_be (l k : bytes) v off :
  off = length l → is_u16 v → read_u16_be (E:=E) (l ++ u16_be v ++ k) off = Ret v.
Proof.
  intros Ho Hv. unfold u16_be. cbn [app].
  rewrite (read_u16_be_at _ _ _ _ _ Ho). by rewrite u16_of_u16_be.
Qed.

Lemma wp_read_u16_be (buf : bytes) off (Q : Z → Prop) T :
  Forall is_byte buf → off + 2 ≤ length buf →
  (∀ v, is_u16 v → read_u16_be (E:=E) buf off = Ret v → Q v) →
  wp (read_u16_be (E:=E) buf off) Q T.
Proof.
  intros Hall Hl HQ.
  destruct (lookup_lt_is_Some_2 buf off) as [b0 H0]; [lia|].
  destruct (lookup_lt_is_Some_2 buf (off + 1)) as [b1 H1]; [lia|].
  pose proof (Forall_lookup_1 _ _ _ _ Hall H0). pose proof (Forall_lookup_1 _ _ _ _ Hall H1).
  assert (read_u16_be (E:=E) buf off = Ret (u16_of_be b0 b1)) as Hr.
  { unfold read_u16_be. rewrite (rd_Some _ _ _ H0). simpl. by rewrite (rd_Some _ _ _ H1). }
  rewrite Hr. simpl. apply HQ; [|done]. rewrite u16_of_be_eq by done.
  unfold is_byte, is_u16 in *. lia.
Qed.

Lemma wp_read_u32_be (buf : bytes) off (Q : Z → Prop) T :
  Forall is_byte buf → off + 4 ≤ length buf →
  (∀ v, is_u32 v → read_u32_be (E:=E) buf off = Ret v → Q v) →
  wp (read_u32_be (E:=E) buf off) Q T.
Proof.
  intros Hall Hl HQ.
  destruct (lookup_lt_is_Some_2 buf off) as [b0 H0]; [lia|].
  destruct (lookup_lt_is_Some_2 buf (off + 1)) as [b1 H1]; [lia|].
  destruct (lookup_lt_is_Some_2 buf (off + 2)) as [b2 H2]; [lia|].
  destruct (lookup_lt_is_Some_2 buf (off + 3)) as [b3 H3]; [lia|].
  assert (read_u32_be (E:=E) buf off = Ret (u32_of_be b0 b1 b2 b3)) as Hr.
  { unfold read_u32_be. rewrite (rd_Some _ _ _ H0). simpl. rewrite (rd_Some _ _ _ H1). simpl.
    rewrite (rd_Some _ _ _ H2). simpl. by rewrite (rd_Some _ _ _ H3). }
  apply (Forall_lookup_1 _ _ _ _ Hall) in H0, H1, H2, H3.
  rewrite Hr. simpl. apply HQ; [|done]. rewrite u32_of_be_eq by done.
  unfold is_byte, is_u32 in *. lia.
Qed.
End reads.

#[export] Hint Resolve u16_be_bytes : bytes.
