(* ===== verification/SockAddr.v ===== *)
(** [src/network/socket_addr.{h,cpp}] on memory: a [SocketAddr] is the octets of
    a [sockaddr_storage], with the layouts of Linux on a little-endian machine.
    The other files use Address.v's [SocketAddr], the fields of that image. *)
From S2P Require Import Prelude CppString Address Bytes.

(** * The image *)

Module Storage.
Definition AF_UNSPEC : Z := 0.
Definition AF_INET : Z := 2.
Definition AF_INET6 : Z := 10.

Definition sizeof_sockaddr_in : nat := 16.
Definition sizeof_sockaddr_in6 : nat := 28.
Definition sizeof_sockaddr_storage : nat := 128.

(** Integers as the machine stores them. *)
Definition host16 (v : Z) : bytes := [u8 v; u8 (Z.shiftr v 8)].
Definition host32 (v : Z) : bytes := [u8 v; u8 (Z.shiftr v 8); u8 (Z.shiftr v 16); u8 (Z.shiftr v 24)].
Definition of_host16 (b : bytes) : Z := u16_of_be (octet b 1) (octet b 0).
Definition of_host32 (b : bytes) : Z := u32_of_be (octet b 3) (octet b 2) (octet b 1) (octet b 0).

Definition htons (v : Z) : Z := of_host16 (u16_be v).
Definition ntohs (v : Z) : Z := htons v.

(* @src src/src/network/socket_addr.h 71 72 SocketAddr (members) *)
Record SocketAddr := { storage_ : bytes; len_ : Z }.

(** Fields, by their offsets. *)
Definition field (off n : nat) (s : bytes) : bytes := take n (drop off s).
Definition write (off : nat) (b s : bytes) : bytes := take off s ++ b ++ drop (off + length b) s.

(* @fn src/src/network/socket_addr.h | SocketAddr() noexcept = default; | SocketAddr::SocketAddr *)
Definition empty : SocketAddr :=
  {| storage_ := replicate sizeof_sockaddr_storage 0%Z; len_ := Z.of_nat sizeof_sockaddr_storage |}.

(* @fn src/src/network/socket_addr.h | [[nodiscard]] constexpr int family() const noexcept { | SocketAddr::family *)
Definition family (s : SocketAddr) : Z := of_host16 (field 0 2 (storage_ s)).

(* @src src/src/network/socket_addr.h 52 59 SocketAddr::raw, SocketAddr::raw_len *)
Definition raw (s : SocketAddr) : bytes * Z := (storage_ s, len_ s).

(* @fn src/src/network/socket_addr.cpp | std::optional<SocketAddr> SocketAddr::from_inet | SocketAddr::from_inet *)
Definition from_inet (addr : InetAddress) (port : Z) : option SocketAddr :=
  let result :=
    match addr with
    | V4 concrete =>
        let s := write 0 (host16 AF_INET) (storage_ empty) in
        let s := write 2 (host16 (htons port)) s in
        let s := write 4 (v4_addr concrete) s in
        {| storage_ := s; len_ := Z.of_nat sizeof_sockaddr_in |}
    | V6 concrete =>
        let s := write 0 (host16 AF_INET6) (storage_ empty) in
        let s := write 2 (host16 (htons port)) s in
        let s := write 4 (host32 0) s in
        let s := write 8 (v6_addr concrete) s in
        let s := write 24 (host32 (v6_scope_id concrete)) s in
        {| storage_ := s; len_ := Z.of_nat sizeof_sockaddr_in6 |}
    end in
  if (family result =? AF_UNSPEC)%Z then None else Some result.

(** A null pointer or the octets behind it; reading past them is undefined. *)
(* @fn src/src/network/socket_addr.cpp | SocketAddr SocketAddr::from_raw | SocketAddr::from_raw *)
Definition from_raw {E} (addr : option bytes) (len : Z) : outcome E SocketAddr :=
  match addr with
  | Some b =>
      if (0 <? len)%Z && (len <=? Z.of_nat sizeof_sockaddr_storage)%Z then
        if length b <? Z.to_nat len then Undef
        else Ret {| storage_ := write 0 (take (Z.to_nat len) b) (storage_ empty); len_ := len |}
      else Ret empty
  | None => Ret empty
  end.

(* @fn src/src/network/socket_addr.cpp | std::uint16_t SocketAddr::port() | SocketAddr::port *)
Definition port (s : SocketAddr) : Z :=
  if (family s =? AF_INET)%Z then ntohs (of_host16 (field 2 2 (storage_ s)))
  else if (family s =? AF_INET6)%Z then ntohs (of_host16 (field 2 2 (storage_ s)))
  else 0.

(* @fn src/src/network/inet_address.h | void set_scope_id(std::uint32_t id) noexcept { | Inet6Address::set_scope_id *)
Definition set_scope_id (id : Z) (a : Inet6Address) : Inet6Address :=
  {| v6_addr := v6_addr a; v6_scope_id := id |}.

(* @fn src/src/network/socket_addr.cpp | std::optional<InetAddress> SocketAddr::address() | SocketAddr::address *)
Definition address (s : SocketAddr) : option InetAddress :=
  if (family s =? AF_INET)%Z then Some (V4 {| v4_addr := field 4 4 (storage_ s) |})
  else if (family s =? AF_INET6)%Z then
    let v6 := {| v6_addr := field 8 16 (storage_ s); v6_scope_id := 0 |} in
    let sin6_scope_id := of_host32 (field 24 4 (storage_ s)) in
    Some (V6 (if negb (sin6_scope_id =? 0)%Z then set_scope_id sin6_scope_id v6 else v6))
  else None.

(* @fn src/src/network/socket_addr.cpp | std::string SocketAddr::to_string() | SocketAddr::to_string *)
Definition to_string `{InetText} (s : SocketAddr) : bytes :=
  match address s with
  | None => str "<unspec>"
  | Some inet =>
      let addr_str := Address.to_string inet in
      let p := port s in
      if (family s =? AF_INET6)%Z then str "[" ++ addr_str ++ str "]:" ++ dec p
      else addr_str ++ str ":" ++ dec p
  end.
End Storage.
Import Storage.

Example sample_image :
  match Storage.from_inet (V4 {| v4_addr := [192; 0; 2; 1]%Z |}) 5353 with
  | Some s => take 9 (storage_ s) = [2; 0; 20; 233; 192; 0; 2; 1; 0]%Z ∧ len_ s = 16%Z
  | None => False
  end.
Proof. vm_compute. done. Qed.

(** * Typing *)

(** The size and the octets of the class's array. *)
Record wf_storage (s : Storage.SocketAddr) : Prop := {
  wf_storage_length : length (storage_ s) = sizeof_sockaddr_storage;
  wf_storage_bytes : Forall is_byte (storage_ s);
  wf_storage_len : is_u32 (len_ s)
}.

Lemma field_length off n s : off + n ≤ length s → length (field off n s) = n.
Proof. intros Hl. unfold field. rewrite length_take, length_drop. lia. Qed.
Lemma field_bytes off n s : Forall is_byte s → Forall is_byte (field off n s).
Proof. intros Hs. by apply Forall_take, Forall_drop. Qed.
Lemma write_length off b s : off + length b ≤ length s → length (write off b s) = length s.
Proof. intros Hl. unfold write. rewrite !length_app, length_take, length_drop. lia. Qed.
Lemma write_bytes off b s : Forall is_byte b → Forall is_byte s → Forall is_byte (write off b s).
Proof. intros Hb Hs. unfold write. rewrite !Forall_app. split_and!; [by apply Forall_take|done|by apply Forall_drop]. Qed.

Lemma host16_bytes v : Forall is_byte (host16 v).
Proof. unfold host16. auto with bytes. Qed.
Lemma host32_bytes v : Forall is_byte (host32 v).
Proof. unfold host32. auto 10 with bytes. Qed.

Lemma of_host16_range b : Forall is_byte b → is_u16 (of_host16 b).
Proof.
  intros Hb. unfold of_host16. pose proof (octet_is_byte b 0 Hb) as H0. pose proof (octet_is_byte b 1 Hb) as H1.
  rewrite u16_of_be_eq by done. unfold is_byte, is_u16 in *. lia.
Qed.
Lemma of_host32_range b : Forall is_byte b → is_u32 (of_host32 b).
Proof.
  intros Hb. unfold of_host32. pose proof (octet_is_byte b 0 Hb) as H0. pose proof (octet_is_byte b 1 Hb) as H1.
  pose proof (octet_is_byte b 2 Hb) as H2. pose proof (octet_is_byte b 3 Hb) as H3.
  rewrite u32_of_be_eq by done. unfold is_byte, is_u32 in *. lia.
Qed.

(** [inet_pton] writes an [in_addr] or an [in6_addr]. *)
Class InetTextSizes `{InetText} := {
  inet_pton4_sizes s b : inet_pton4 s = Some b → length b = 4 ∧ Forall is_byte b;
  inet_pton6_sizes s b : inet_pton6 s = Some b → length b = 16 ∧ Forall is_byte b
}.

Lemma parse_scope_range s : is_u32 (parse_scope s).
Proof.
  unfold parse_scope. destruct (from_chars_unsigned _ _ _) as [[val n]|]; [|unfold is_u32; lia].
  destruct (n =? length s); [auto with bytes|unfold is_u32; lia].
Qed.

Lemma parse4_wf `{InetTextSizes} s a : parse4 s = Some a → wf_address (V4 a).
Proof.
  unfold parse4. case_bool_decide; [done|]. destruct (inet_pton4 _) as [b|] eqn:Hb; [|done].
  intros [= <-]. by apply inet_pton4_sizes in Hb.
Qed.

Lemma parse6_wf `{InetTextSizes} s a : parse6 s = Some a → wf_address (V6 a).
Proof.
  unfold parse6. case_bool_decide; [done|].
  destruct (find s [ch "%"] 0) as [pct|]; destruct (inet_pton6 _) as [b|] eqn:Hb; try done;
    intros [= <-]; apply inet_pton6_sizes in Hb as [Hl Hb]; (split; [exact Hl|split; [exact Hb|]]); simpl.
  - apply parse_scope_range.
  - unfold is_u32. lia.
Qed.

Lemma parse_wf `{InetTextSizes} s a : parse s = Some a → wf_address a.
Proof.
  unfold parse. case_bool_decide; [done|]. destruct (parse4 s) as [v4|] eqn:H4; [intros [= <-]; by eapply parse4_wf|].
  destruct (parse6 s) as [v6|] eqn:H6; [|done]. intros [= <-]. by eapply parse6_wf.
Qed.

Lemma address_wf s a : wf_storage s → address s = Some a → wf_address a.
Proof.
  intros [Hl Hb _]. unfold sizeof_sockaddr_storage in Hl. unfold address. destruct (family s =? AF_INET)%Z.
  - intros [= <-]. split; simpl; [apply field_length; lia|by apply field_bytes].
  - destruct (family s =? AF_INET6)%Z; [|done]. destruct (negb _); intros [= <-];
      (split; [simpl; apply field_length; lia|split; [simpl; by apply field_bytes|simpl]]).
    + by apply of_host32_range, field_bytes.
    + unfold is_u32. lia.
Qed.

Lemma port_range s : is_u16 (port s).
Proof.
  assert (∀ v, is_u16 (ntohs v)) as Hn.
  { intros v. apply of_host16_range, u16_be_bytes. }
  unfold port. destruct (_ =? _)%Z; [done|]. destruct (_ =? _)%Z; [done|]. unfold is_u16. lia.
Qed.

(** * The image holds the fields *)

Lemma of_host16_host16 v : is_u16 v → of_host16 (host16 v) = v.
Proof. apply u16_of_u16_be. Qed.

Lemma htons_eq v : is_u16 v → htons v = (v mod 256 * 256 + v / 256)%Z.
Proof.
  intros Hv. unfold htons, of_host16. rewrite u16_be_eq by done. simpl. apply u16_of_be_eq.
  unfold is_u16, is_byte in *. split; [apply Z.div_pos; lia|apply Z.div_lt_upper_bound; lia].
Qed.

Lemma htons_range v : is_u16 (htons v).
Proof. apply of_host16_range, u16_be_bytes. Qed.

Lemma ntohs_htons v : is_u16 v → ntohs (htons v) = v.
Proof.
  intros Hv. unfold ntohs. rewrite (htons_eq (htons v)) by apply htons_range. rewrite htons_eq by done.
  unfold is_u16 in Hv. pose proof (Z.mod_pos_bound v 256 ltac:(lia)).
  pose proof (Z.div_pos v 256). pose proof (Z.div_lt_upper_bound v 256 256).
  assert (v = 256 * (v / 256) + v mod 256)%Z as Hv2 by (apply Z.div_mod; lia).
  rewrite Hv2 at 5. set (x := (v mod 256)%Z) in *. set (y := (v / 256)%Z) in *. clearbody x y.
  rewrite (Z.add_comm (x * 256)), Z.div_add, Z.mod_add, (Z.div_small y), (Z.mod_small y) by lia. lia.
Qed.

Lemma of_host32_host32 v : is_u32 v → of_host32 (host32 v) = v.
Proof.
  intros Hv. unfold of_host32, host32. cbn [octet nth].
  rewrite u32_of_be_eq by auto with bytes. unfold u8, is_u32 in *. rewrite !Z.shiftr_div_pow2 by lia.
  change (2 ^ 24)%Z with (256 * 256 * 256)%Z. change (2 ^ 16)%Z with (256 * 256)%Z. change (2 ^ 8)%Z with 256%Z.
  rewrite <- !Z.div_div by lia.
  pose proof (Z.div_mod v 256). pose proof (Z.div_mod (v / 256) 256).
  pose proof (Z.div_mod (v / 256 / 256) 256). pose proof (Z.div_mod (v / 256 / 256 / 256) 256).
  assert (v / 256 / 256 / 256 / 256 = 0)%Z as Htop.
  { rewrite !Z.div_div by lia. apply Z.div_small. lia. }
  lia.
Qed.

(** Address.v's value: the fields of the image's family. *)
Definition view (s : Storage.SocketAddr) : Address.SocketAddr :=
  if (family s =? AF_INET)%Z then Address.AF_INET (port s) (field 4 4 (storage_ s))
  else if (family s =? AF_INET6)%Z then
    Address.AF_INET6 (port s) (field 8 16 (storage_ s)) (of_host32 (field 24 4 (storage_ s)))
  else Address.AF_UNSPEC.

Lemma view_port s : port s = sa_port (view s).
Proof.
  unfold view. destruct (family s =? AF_INET)%Z eqn:H4; [done|].
  destruct (family s =? AF_INET6)%Z eqn:H6; [done|]. unfold port. by rewrite H4, H6.
Qed.

Lemma view_address s : address s = sa_address (view s).
Proof.
  unfold view, address. destruct (family s =? AF_INET)%Z; [done|].
  destruct (family s =? AF_INET6)%Z; [|done]. simpl. by destruct (of_host32 _ =? 0)%Z.
Qed.

Lemma view_to_string `{InetText} s : Storage.to_string s = sa_to_string (view s).
Proof.
  unfold Storage.to_string, sa_to_string. rewrite <- view_address, <- view_port.
  unfold view, address. destruct (family s =? AF_INET)%Z eqn:H4.
  - apply Z.eqb_eq in H4. by rewrite H4.
  - by destruct (family s =? AF_INET6)%Z.
Qed.

(** A made image, octet by octet. *)
Definition image (a : InetAddress) (port : Z) : Storage.SocketAddr :=
  let p := host16 (htons port) in
  match a with
  | V4 a => {| storage_ := [2; 0]%Z ++ p ++ v4_addr a ++ replicate 120 0%Z; len_ := 16 |}
  | V6 a => {| storage_ := [10; 0]%Z ++ p ++ replicate 4 0%Z ++ v6_addr a ++ host32 (v6_scope_id a) ++ replicate 100 0%Z;
               len_ := 28 |}
  end.

Lemma from_inet_image a port : wf_address a → Storage.from_inet a port = Some (image a port).
Proof.
  destruct a as [[b]|[b scope]]; intros [Hl _]; cbn [v4_addr v6_addr] in Hl; unfold image;
    do 4 (destruct b as [|? b]; [done|]); [by destruct b|]; do 12 (destruct b as [|? b]; [done|]). by destruct b.
Qed.

Lemma image_wf a port : wf_address a → wf_storage (image a port).
Proof.
  intros Ha. destruct a as [a|a]; destruct Ha as [Hl Hb]; cbn [image]; split; cbn [storage_ len_]; try (unfold is_u32; lia).
  - rewrite !length_app, length_replicate, Hl. done.
  - rewrite !Forall_app. split_and!; [by repeat constructor|apply host16_bytes|done|by apply Forall_replicate].
  - rewrite !length_app, !length_replicate, Hl. done.
  - destruct Hb as [Hb _]. rewrite !Forall_app.
    split_and!; [by repeat constructor|apply host16_bytes|by repeat constructor|done|apply host32_bytes|by apply Forall_replicate].
Qed.

Lemma image_port p : is_u16 p → ntohs (of_host16 (host16 (htons p))) = p.
Proof. intros Hp. rewrite of_host16_host16 by apply htons_range. by apply ntohs_htons. Qed.

Lemma view_image a port : wf_address a → is_u16 port → Address.from_inet a port = Some (view (image a port)).
Proof.
  intros Ha Hp. pose proof (image_port port Hp) as Hport.
  destruct a as [[b]|[b scope]]; destruct Ha as [Hl Hb]; cbn [v4_addr v6_addr v6_scope_id] in *;
    do 4 (destruct b as [|? b]; [done|]).
  - destruct b; [|done]. transitivity (Some (Address.AF_INET
      (ntohs (of_host16 (host16 (htons port)))) [z; z0; z1; z2])); [by rewrite Hport|reflexivity].
  - destruct Hb as [_ Hs]. do 12 (destruct b as [|? b]; [done|]). destruct b; [|done].
    transitivity (Some (Address.AF_INET6 (ntohs (of_host16 (host16 (htons port))))
      [z; z0; z1; z2; z3; z4; z5; z6; z7; z8; z9; z10; z11; z12; z13; z14] (of_host32 (host32 scope))));
      [by rewrite Hport, of_host32_host32|reflexivity].
Qed.

(** A raw address that is copied: an image, whatever it was read from. *)
Lemma from_raw_wf {E} b len :
  Forall is_byte b → is_u32 len → Z.to_nat len ≤ length b →
  ∃ s, from_raw (E:=E) (Some b) len = Ret s ∧ wf_storage s.
Proof.
  intros Hb Hlen Hle. assert (wf_storage empty) as Hempty.
  { split; [done|by apply Forall_replicate|apply (bool_decide_unpack _); vm_compute; exact I]. }
  unfold from_raw. destruct (_ && _) eqn:Hr; [|by eexists]. prop_of_bool.
  rewrite (proj2 (Nat.ltb_ge _ _) Hle). eexists. split; [done|].
  destruct Hempty as [Hel Heb _]. unfold sizeof_sockaddr_storage in *. split; cbn [storage_ len_]; [|by apply write_bytes; [apply Forall_take|]|done].
  rewrite write_length; [done|]. rewrite length_take, Hel. lia.
Qed.

(** Copying the used part of a made image gives the image back. *)
Lemma from_raw_image {E} a port :
  wf_address a →
  from_raw (E:=E) (Some (take (Z.to_nat (len_ (image a port))) (storage_ (image a port)))) (len_ (image a port))
    = Ret (image a port).
Proof.
  destruct a as [[b]|[b scope]]; intros [Hl _]; cbn [v4_addr v6_addr] in Hl; 
    do 4 (destruct b as [|? b]; [done|]); [by destruct b|]. do 12 (destruct b as [|? b]; [done|]). by destruct b.
Qed.

(** C32: Addresses stay what their types say: what is parsed, made from octets or
    read from a socket address has four or sixteen octets and a 32-bit scope.  A
    socket address made from one is a [sockaddr] of its family's size whose fields
    are the address and the port, all accessors read those fields, and the octets
    that are handed to the system make the same socket address when they come
    back. *)
Theorem addresses_typed `{InetTextSizes} {E} :
  (∀ text a, parse text = Some a → wf_address a)
  ∧ (∀ b a, Forall is_byte b → from_bytes b = Some a → wf_address a)
  ∧ (∀ b len, Forall is_byte b → is_u32 len → Z.to_nat len ≤ length b →
       ∃ s, from_raw (E:=E) (Some b) len = Ret s ∧ wf_storage s)
  ∧ (∀ s, wf_storage s → is_u16 (port s) ∧ (∀ a, address s = Some a → wf_address a))
  ∧ (∀ s, port s = sa_port (view s) ∧ address s = sa_address (view s) ∧ Storage.to_string s = sa_to_string (view s))
  ∧ (∀ a p, wf_address a → is_u16 p →
       ∃ s, Storage.from_inet a p = Some s ∧ wf_storage s ∧ Address.from_inet a p = Some (view s)
         ∧ address s = Some a ∧ port s = p
         ∧ (let '(octets, len) := raw s in from_raw (E:=E) (Some (take (Z.to_nat len) octets)) len = Ret s)).
Proof.
  split_and!; [apply parse_wf|apply from_bytes_wf|apply from_raw_wf| | |].
  - intros s Hs. split; [apply port_range|]. intros a. by apply address_wf.
  - intros s. split_and!; [apply view_port|apply view_address|apply view_to_string].
  - intros a p Ha Hp. exists (image a p). destruct (from_inet_address a p) as (v & Hv & Hva & Hvp).
    rewrite (view_image a p Ha Hp) in Hv. injection Hv as Hv.
    split_and!; [by apply from_inet_image|by apply image_wf|by apply view_image|by rewrite view_address, Hv|
      by rewrite view_port, Hv|by apply from_raw_image].
Qed.

(** A C library that knows two addresses. *)
Definition sample_inet : InetText := {|
  inet_pton4 s := if bool_decide (s = str "192.0.2.1") then Some [192; 0; 2; 1]%Z else None;
  inet_pton6 s := if bool_decide (s = str "fe80::1") then Some ([254; 128]%Z ++ replicate 13 0%Z ++ [1%Z]) else None;
  inet_ntop4 _ := str "192.0.2.1";
  inet_ntop6 _ := str "fe80::1"
|}.

Lemma sample_inet_sizes : @InetTextSizes sample_inet.
Proof.
  split; intros s b; simpl; case_bool_decide; try done; intros [= <-];
    (split; [done|]); apply (bool_decide_unpack _); vm_compute; exact I.
Qed.

Lemma addresses_typed_witness :
  ∃ a s, @parse sample_inet (str "fe80::1%2") = Some a ∧ wf_address a ∧ Storage.from_inet a 5353 = Some s
    ∧ address s = Some a ∧ @Storage.to_string sample_inet s = str "[fe80::1%2]:5353".
Proof.
  pose proof (@addresses_typed sample_inet sample_inet_sizes unit) as (Hparse & _ & _ & _ & _ & Hmake).
  destruct (@parse sample_inet (str "fe80::1%2")) as [a|] eqn:Ha; [|by vm_compute in Ha].
  pose proof (Hparse _ _ Ha) as Hwf. destruct (Hmake a 5353%Z Hwf) as (s & Hs & _ & _ & Hsa & _ & _); [done|].
  exists a, s. split_and!; [done..|]. vm_compute in Ha. injection Ha as <-. vm_compute in Hs. injection Hs as <-.
  vm_compute. reflexivity.
Defined.
