(* ===== verification/DnsTypes.v ===== *)
(** [src/dns/types.h], [include/dns_error.h], [include/record_kind.h],
    [src/dns/util.hpp], [src/dns/dns_error_info.h]: the data of the DNS
    component. *)
From S2P Require Import Prelude.

(* @fn src/src/dns/types.h | constexpr size_t HEADER_SIZE | DNS::HEADER_SIZE *)
Definition HEADER_SIZE : nat := 12.

(** * Enumerations *)

(* @fn src/src/dns/types.h | enum class RecordType | DNS::RecordType *)
Inductive RecordType := A | NS | CNAME | SOA | MX | TXT | AAAA | OPT | PTR | SRV | ANY.

(** The underlying value of an enumerator. *)
(* @fn src/src/dns/types.h | enum class RecordType | DNS::RecordType (underlying values) *)
Definition record_type_code (t : RecordType) : Z :=
  match t with
  | A => 1 | NS => 2 | CNAME => 5 | SOA => 6 | MX => 15 | TXT => 16 | AAAA => 28
  | OPT => 41 | PTR => 12 | SRV => 33 | ANY => 255
  end%Z.

(* @fn src/src/dns/types.h | enum class RecordClass | DNS::RecordClass *)
Inductive RecordClass := IN | CLASS_ANY.
Definition record_class_code (c : RecordClass) : Z :=
  match c with IN => 1 | CLASS_ANY => 255 end%Z.

(** An [Rcode] holds any 8-bit value ([static_cast] from the wire), so it is
    modelled by that value; the enumerators are names for some of them. *)
(* @fn src/src/dns/types.h | enum class Rcode | DNS::Rcode *)
Definition Rcode : Type := Z.
Definition NOERROR : Rcode := 0%Z.
Definition FORMERR : Rcode := 1%Z.
Definition SERVFAIL : Rcode := 2%Z.
Definition NXDOMAIN : Rcode := 3%Z.
Definition REFUSED : Rcode := 5%Z.
Definition BADVERS : Rcode := 16%Z.

(* @fn src/include/record_kind.h | enum class RecordKind | RecordKind *)
Inductive RecordKind := KIND_A | KIND_AAAA | KIND_TXT.

(* @fn src/src/dns/util.hpp | constexpr RecordType type_to_record_type | DNS::Util::type_to_record_type *)
Definition type_to_record_type (kind : RecordKind) : RecordType :=
  match kind with
  | KIND_A => A
  | KIND_AAAA => AAAA
  | KIND_TXT => TXT
  end.

(* @fn src/include/dns_error.h | enum class DnsError | DnsError *)
Inductive DnsError :=
| NX_DOMAIN | RETRY | NODATA | PARSE | CONNECTION | CONFIG | CANCELLED | SERVER_REFUSED | UNKNOWN.

(* @fn src/src/dns/error.cpp | std::string_view error_to_str | error_to_str *)
Definition error_to_str (error : DnsError) : bytes :=
  match error with
  | NX_DOMAIN => str "no such domain (NXDOMAIN)"
  | RETRY => str "retry (TRY_AGAIN)"
  | NODATA => str "no data (NO_DATA)"
  | PARSE => str "DNS record parse error (PARSE)"
  | CONNECTION => str "connection error (CONNECTION)"
  | CONFIG => str "configuration error (CONFIG)"
  | CANCELLED => str "cancelled (CANCELLED)"
  | SERVER_REFUSED => str "server refused query (REFUSED)"
  | UNKNOWN => str "unknown DNS error"
  end.

#[global] Instance RecordType_eq_dec : EqDecision RecordType.
Proof. solve_decision. Defined.
#[global] Instance RecordKind_eq_dec : EqDecision RecordKind.
Proof. solve_decision. Defined.
#[global] Instance DnsError_eq_dec : EqDecision DnsError.
Proof. solve_decision. Defined.

(** * Parsed structures *)

(* @fn src/src/dns/types.h | struct Question | DNS::Question *)
Record Question := {
  q_qname : bytes;
  q_qtype : Z;
  q_qclass : Z
}.

(* @fn src/src/dns/types.h | struct ResourceRecord | DNS::ResourceRecord *)
Record ResourceRecord := {
  rr_name : bytes;
  rr_type : Z;
  rr_qclass : Z;
  rr_ttl : Z;
  rr_rdata : bytes;
  rr_rdata_offset : nat
}.

(* @fn src/src/dns/types.h | struct EdnsOption | DNS::EdnsOption *)
Record EdnsOption := {
  opt_code : Z;
  opt_data : bytes
}.

(* @fn src/src/dns/types.h | struct EdnsInfo | DNS::EdnsInfo *)
Record EdnsInfo := {
  udp_payload_size : Z;
  extended_rcode : Z;
  edns_version : Z;
  dnssec_ok : bool;
  edns_options : list EdnsOption
}.

(* @fn src/src/dns/types.h | struct ParsedMessage | DNS::ParsedMessage *)
Record ParsedMessage := {
  m_id : Z;
  m_qr : bool;
  m_opcode : Z;
  m_aa : bool;
  m_tc : bool;
  m_rd : bool;
  m_ra : bool;
  m_qdcount : Z;
  m_ancount : Z;
  m_nscount : Z;
  m_arcount : Z;
  m_questions : list Question;
  m_answers : list ResourceRecord;
  m_authorities : list ResourceRecord;
  m_additionals : list ResourceRecord;
  m_edns : option EdnsInfo;
  m_rcode : Rcode
}.

(* @fn src/src/dns/types.h | struct ParsedResponse | DNS::ParsedResponse *)
Record ParsedResponse := {
  resp_rcode : Rcode;
  resp_answers : list ResourceRecord
}.

(* @fn src/src/dns/types.h | struct FormattedResponse | DNS::FormattedResponse *)
Record FormattedResponse := {
  fmt_rcode : Rcode;
  fmt_records : list bytes
}.

(** The error side of the resolvers' [std::expected]. *)
(* @fn src/src/dns/dns_error_info.h | struct DnsErrorInfo { | DnsErrorInfo *)
Record DnsErrorInfo := {
  ei_code : DnsError;
  ei_message : bytes
}.

(* @fn src/src/dns/dns_error_info.h | std::string_view error_name() | DnsErrorInfo::error_name *)
Definition error_name (e : DnsErrorInfo) : bytes := error_to_str (ei_code e).

#[global] Instance DnsErrorInfo_eq_dec : EqDecision DnsErrorInfo.
Proof. solve_decision. Defined.

Lemma record_type_code_u16 t : is_u16 (record_type_code t).
Proof. by destruct t. Qed.
#[export] Hint Resolve record_type_code_u16 : bytes.
