(* ===== verification/Config.v ===== *)
(** [src/config/config.h], [dns_config.h], [validator.hpp]: the configuration and
    the checks made on it before anything is scheduled. *)
From S2P Require Import Prelude CppString Address Uri Validation DnsTypes.

(** * Data *)

(* @fn src/src/config/dns_config.h | struct DnsServer { | Config::DnsServer *)
Record DnsServer := { ds_address : bytes; ds_port : Z }.

(* @fn src/src/config/dns_config.h | enum class ResolverStrategy | Config::ResolverStrategy *)
Inductive ResolverStrategy := FALLBACK | CONCURRENT.

(* @fn src/src/config/config.h | enum class IpSource { | Config::IpSource *)
Inductive IpSource := INTERFACE | HTTP | MDNS.

#[global] Instance IpSource_eq_dec : EqDecision IpSource.
Proof. solve_decision. Defined.

(* @fn src/src/config/config.h | struct DriverConfig { | Config::DriverConfig *)
Record DriverConfig := { driver_dir : option bytes; auto_discover : bool; load : list bytes }.

(* @fn src/src/config/config.h | struct ResolverConfig { | Config::ResolverConfig *)
Record ResolverConfig := {
  use_custom_server : bool;
  rc_address : bytes;
  rc_port : Z;
  rc_servers : list DnsServer;
  rc_strategy : ResolverStrategy
}.

Section config.
(** [glz::generic], a JSON value. *)
Context {generic : Type}.

(* @fn src/src/config/config.h | struct SubdomainConfig { | Config::SubdomainConfig *)
Record SubdomainConfig := {
  sd_name : bytes;
  sd_type : RecordKind;
  sd_interface : bytes;
  sd_ip_type : AddressFamily;
  sd_ip_source : IpSource;
  sd_ip_source_param : bytes;
  sd_allow_ula : bool;
  sd_allow_local_link : bool;
  sd_update_interval : Z;
  sd_driver_param : generic
}.

(* @fn src/src/config/config.h | struct DomainConfig { | Config::DomainConfig *)
Record DomainConfig := {
  dm_name : bytes;
  dm_update_interval : Z;
  dm_force_update : Z;
  dm_driver : bytes;
  dm_subdomains : list SubdomainConfig
}.

(* @fn src/src/config/config.h | struct AppConfig { | Config::AppConfig *)
Record AppConfig := {
  app_driver : DriverConfig;
  app_resolver : ResolverConfig;
  app_domains : list DomainConfig
}.

(** * Validation *)

(** A [ConfigVerificationException], or another exception that gets through. *)
Inductive ConfigError :=
| ConfigVerification (what : bytes)
| OtherException (e : UriError).

Definition verify (violated : bool) (what : bytes) : outcome ConfigError unit :=
  throw_if violated (ConfigVerification what).

(** [e.what()]; the text of [std::out_of_range] is the library's. *)
Definition uri_what (e : UriError) : bytes :=
  match e with RuntimeError w => w | OutOfRange => str "basic_string_view::substr" end.

Section validate.
Context `{InetText}.
(** [UpdateInterval], the loaded drivers, the network interfaces. *)
Context (UpdateInterval : Z) (loaded_drivers_ interfaces_ : list bytes).

(* @fn src/src/config/validator.hpp | inline std::string fqdn_for( | detail::fqdn_for *)
Definition fqdn_for (domain : DomainConfig) (subdomain : SubdomainConfig) : bytes :=
  sd_name subdomain ++ str "." ++ dm_name domain.

(** The [try] block around the URL of an HTTP source. *)
(* @src src/src/config/validator.hpp 45 50 detail::validate_ip_source (try) *)
Definition check_http_url (param : bytes) : outcome UriError unit :=
  uri ← Uri.parse param;
  host ← get_host uri;
  if bool_decide (host = []) then Throw (RuntimeError (str "missing host or port")) else
  port ← get_port uri;
  throw_if (port =? 0)%Z (RuntimeError (str "missing host or port")).

(* @fn src/src/config/validator.hpp | inline void validate_ip_source( | detail::validate_ip_source *)
Definition validate_ip_source (domain : DomainConfig) (subdomain : SubdomainConfig)
    : outcome ConfigError unit :=
  let fqdn := fqdn_for domain subdomain in
  let param := sd_ip_source_param subdomain in
  _ ← verify (bool_decide (sd_ip_source subdomain = INTERFACE) && bool_decide (sd_interface subdomain = []))
        (str "Subdomain " ++ fqdn ++ str " uses interface IP source but 'interface' field is empty");
  match sd_ip_source subdomain with
  | HTTP =>
      _ ← verify (bool_decide (param = []))
            (str "Subdomain " ++ fqdn ++ str " uses HTTP IP source but ip_source_param is empty");
      match check_http_url param with
      | Throw e => Throw (ConfigVerification (str "Subdomain " ++ fqdn
          ++ str " has invalid ip_source_param '" ++ param ++ str "': " ++ uri_what e))
      | Ret _ => Ret tt
      | Undef => Undef
      | OutOfFuel => OutOfFuel
      end
  | MDNS =>
      _ ← verify (bool_decide (param = []))
            (str "Subdomain " ++ fqdn ++ str " uses mDNS IP source but ip_source_param is empty");
      _ ← verify (negb (is_valid_domain param))
            (str "Subdomain " ++ fqdn ++ str " has invalid domain name '" ++ param
               ++ str "' for mDNS IP source");
      _ ← verify (negb (ends_with param (str ".local")) && negb (ends_with param (str ".local.")))
            (str "Subdomain " ++ fqdn ++ str " uses mDNS IP source but domain '" ++ param
               ++ str "' does not end with '.local' (RFC 6762)");
      verify (bool_decide (sd_type subdomain ≠ KIND_A) && bool_decide (sd_type subdomain ≠ KIND_AAAA))
        (str "Subdomain " ++ fqdn ++ str " uses mDNS IP source but type must be 'a' or 'aaaa'")
  | INTERFACE => Ret tt
  end.

(** What [Uri] throws is not caught here. *)
Definition uri_call {A} (m : outcome UriError A) : outcome ConfigError A :=
  match m with
  | Ret a => Ret a
  | Throw e => Throw (OtherException e)
  | Undef => Undef
  | OutOfFuel => OutOfFuel
  end.

(** The build with the native DNS stack, where IPv6 servers are allowed. *)
(* @fn src/src/config/validator.hpp | inline void validate_resolver_address( | detail::validate_resolver_address *)
Definition validate_resolver_address (address : bytes) : outcome ConfigError unit :=
  uri ← uri_call (Uri.parse address);
  schema ← uri_call (get_schema uri);
  if bool_decide (schema = str "https") || bool_decide (schema = str "tls") then
    host ← uri_call (get_host uri);
    _ ← verify (bool_decide (host = []))
          (str "DoH/DoT resolver address " ++ quoted address ++ str " has an empty host");
    port ← uri_call (get_port uri);
    verify (port =? 0)%Z (str "DoH/DoT resolver address " ++ quoted address ++ str " has port 0")
  else verify (bool_decide (Address.parse address = None)) (str "Invalid resolver address " ++ address).

(** [fmt::join(interfaces, ", ")]. *)
Definition join_comma (l : list bytes) : bytes :=
  match l with [] => [] | x :: l => x ++ flat_map (λ y, str ", " ++ y) l end.

(* @fn src/src/config/validator.hpp | for (const auto &subdomain: subdomains) { | ConfigValidator::validate (subdomains) *)
Fixpoint validate_subdomains (domain : DomainConfig) (subdomains : list SubdomainConfig)
    : outcome ConfigError unit :=
  match subdomains with
  | [] => Ret tt
  | subdomain :: rest =>
      _ ← verify (bool_decide (sd_name subdomain = []))
            (str "Subdomain name must not be empty in domain '" ++ dm_name domain ++ str "'");
      _ ← validate_ip_source domain subdomain;
      _ ← verify (negb (sd_update_interval subdomain =? 0) && (sd_update_interval subdomain <? UpdateInterval))%Z
            (str "Update interval too low for subdomain " ++ sd_name subdomain ++ str "." ++ dm_name domain
               ++ str " (" ++ dec (sd_update_interval subdomain) ++ str "), minimal interval: "
               ++ dec UpdateInterval);
      _ ← verify (negb (bool_decide (sd_interface subdomain = []))
                    && negb (bool_decide (sd_interface subdomain ∈ interfaces_)))
            (str "Interface " ++ sd_interface subdomain ++ str " not found, available interfaces: "
               ++ join_comma interfaces_);
      validate_subdomains domain rest
  end.

(* @fn src/src/config/validator.hpp | void validate(const Config::AppConfig &cfg) const { ==> for (const auto &[name, | ConfigValidator::validate (domains) *)
Fixpoint validate_domains (domains : list DomainConfig) : outcome ConfigError unit :=
  match domains with
  | [] => Ret tt
  | d :: rest =>
      _ ← verify (bool_decide (dm_name d = [])) (str "Domain name must not be empty");
      _ ← verify (bool_decide (dm_subdomains d = []))
            (str "Domain '" ++ dm_name d ++ str "' must have at least one subdomain");
      _ ← verify (negb (bool_decide (dm_driver d ∈ loaded_drivers_)))
            (str "Driver " ++ dm_driver d ++ str " not found");
      _ ← verify (dm_update_interval d <? UpdateInterval)%Z
            (str "Update interval too low for domain " ++ dm_name d ++ str " ("
               ++ dec (dm_update_interval d) ++ str "), minimal interval: " ++ dec UpdateInterval);
      _ ← verify (negb (dm_force_update d =? 0) && (dm_force_update d <? dm_update_interval d))%Z
            (str "Force update interval for domain " ++ dm_name d
               ++ str " must not be smaller than the update interval (" ++ dec (dm_update_interval d) ++ str ")");
      _ ← validate_subdomains d (dm_subdomains d);
      validate_domains rest
  end.

(* @fn src/src/config/validator.hpp | for (const auto &server: cfg.resolver.servers) { | ConfigValidator::validate (servers) *)
Fixpoint validate_servers (servers : list DnsServer) : outcome ConfigError unit :=
  match servers with
  | [] => Ret tt
  | s :: rest => _ ← validate_resolver_address (ds_address s); validate_servers rest
  end.

(* @fn src/src/config/validator.hpp | void validate(const Config::AppConfig &cfg) const { | ConfigValidator::validate *)
Definition validate (cfg : AppConfig) : outcome ConfigError unit :=
  _ ← validate_domains (app_domains cfg);
  let r := app_resolver cfg in
  if use_custom_server r then
    if negb (bool_decide (rc_servers r = [])) then validate_servers (rc_servers r)
    else if negb (bool_decide (rc_address r = [])) then validate_resolver_address (rc_address r)
    else Ret tt
  else Ret tt.
End validate.
End config.
Arguments SubdomainConfig : clear implicits.
Arguments DomainConfig : clear implicits.
Arguments AppConfig : clear implicits.

(** * What a valid configuration is *)

Section valid.
Context {generic : Type} `{InetText}.
Context (UpdateInterval : Z) (loaded_drivers_ interfaces_ : list bytes).

(** A URL with a host and a port other than 0. *)
Definition http_url_ok (param : bytes) : Prop :=
  ∃ u host port, Uri.parse param = Ret u ∧ get_host (E:=UriError) u = Ret host ∧ host ≠ []
    ∧ get_port (E:=UriError) u = Ret port ∧ port ≠ 0%Z.

Definition ip_source_ok (sd : SubdomainConfig generic) : Prop :=
  match sd_ip_source sd with
  | INTERFACE => sd_interface sd ≠ []
  | HTTP => sd_ip_source_param sd ≠ [] ∧ http_url_ok (sd_ip_source_param sd)
  | MDNS => sd_ip_source_param sd ≠ [] ∧ is_valid_domain (sd_ip_source_param sd) = true
      ∧ (ends_with (sd_ip_source_param sd) (str ".local") = true
         ∨ ends_with (sd_ip_source_param sd) (str ".local.") = true)
      ∧ (sd_type sd = KIND_A ∨ sd_type sd = KIND_AAAA)
  end.

Definition subdomain_ok (sd : SubdomainConfig generic) : Prop :=
  sd_name sd ≠ [] ∧ ip_source_ok sd
  ∧ (sd_update_interval sd = 0 ∨ UpdateInterval ≤ sd_update_interval sd)%Z
  ∧ (sd_interface sd = [] ∨ sd_interface sd ∈ interfaces_).

Definition domain_ok (d : DomainConfig generic) : Prop :=
  dm_name d ≠ [] ∧ dm_subdomains d ≠ [] ∧ dm_driver d ∈ loaded_drivers_
  ∧ (UpdateInterval ≤ dm_update_interval d)%Z
  ∧ (dm_force_update d = 0 ∨ dm_update_interval d ≤ dm_force_update d)%Z
  ∧ Forall subdomain_ok (dm_subdomains d).

(** An IP address, or a DoH or DoT URL with a host and a port other than 0. *)
Definition resolver_address_ok (address : bytes) : Prop :=
  ∃ u schema, Uri.parse address = Ret u ∧ get_schema (E:=UriError) u = Ret schema
    ∧ if bool_decide (schema = str "https") || bool_decide (schema = str "tls")
      then http_url_ok address else Address.parse address ≠ None.

Definition resolver_config_ok (r : ResolverConfig) : Prop :=
  use_custom_server r = true →
  if bool_decide (rc_servers r = [])
  then rc_address r = [] ∨ resolver_address_ok (rc_address r)
  else Forall (λ s, resolver_address_ok (ds_address s)) (rc_servers r).

Definition config_ok (cfg : AppConfig generic) : Prop :=
  Forall domain_ok (app_domains cfg) ∧ resolver_config_ok (app_resolver cfg).

(** ** Deciding by throwing *)

(** [m] returns exactly when [P] holds, and throws otherwise. *)
Definition decides {E} (m : outcome E unit) (P : Prop) : Prop :=
  (m = Ret tt ∧ P) ∨ (∃ e, m = Throw e ∧ ¬ P).

Lemma decides_ret {E} : decides (E:=E) (Ret tt) True.
Proof. by left. Qed.

Lemma decides_iff {E} (m : outcome E unit) P Q : decides m P → (P ↔ Q) → decides m Q.
Proof. intros [[? ?]|(e & ? & ?)] HPQ; [left|right]; naive_solver. Qed.

Lemma decides_throw_if {E} b (e : E) : decides (throw_if b e) (b = false).
Proof. destruct b; [right|left]; eauto. Qed.

Lemma decides_seq {E} (m k : outcome E unit) P Q :
  decides m P → (P → decides k Q) → decides (_ ← m; k) (P ∧ Q).
Proof.
  intros [[-> HP]|(e & -> & HP)] Hk; simpl; [|right; naive_solver].
  destruct (Hk HP) as [[-> HQ]|(e & -> & HQ)]; [left|right]; naive_solver.
Qed.

(** A call that returns or throws, used by a continuation. *)
Lemma decides_bind {E A} (m : outcome E A) (k : A → outcome E unit) (P : A → Prop) :
  defined m → (∀ a, m = Ret a → decides (k a) (P a)) → decides (m ≫= k) (∃ a, m = Ret a ∧ P a).
Proof.
  intros Hm Hk. destruct m as [a|e| |]; [|right; naive_solver|done|done].
  eapply decides_iff; [by apply Hk|]. naive_solver.
Qed.

Lemma decides_defined {E} (m : outcome E unit) P : decides m P → defined m.
Proof. intros [[-> _]|(e & -> & _)]; done. Qed.

(** ** URLs *)

Lemma parse_defined uri : defined (Uri.parse uri).
Proof. eapply wp_defined, wp_parse. Qed.

Lemma view_defined uri u sl :
  Uri.parse uri = Ret u → slice_ok (raw_uri_ u) sl → defined (view (E:=UriError) u sl).
Proof.
  intros _ Hs. unfold view, slice_view. unfold slice_ok in Hs.
  by rewrite (proj2 (Nat.leb_le _ _)) by lia.
Qed.

Lemma host_defined uri u : Uri.parse uri = Ret u → defined (get_host (E:=UriError) u).
Proof. intros Hu. eapply view_defined; [done|]. eapply wf_host. by apply parse_in_bounds_ok. Qed.

Lemma schema_defined uri u : Uri.parse uri = Ret u → defined (get_schema (E:=UriError) u).
Proof. intros Hu. eapply view_defined; [done|]. eapply wf_schema. by apply parse_in_bounds_ok. Qed.

Lemma view_no_slice {E} u : view (E:=E) u no_slice = Ret [].
Proof. unfold view, slice_view. simpl. unfold sub. by rewrite take_0. Qed.

(** With a host or a scheme there is a port. *)
Lemma port_defined uri u :
  Uri.parse uri = Ret u → (schema_ u ≠ no_slice ∨ host_ u ≠ no_slice) →
  defined (get_port (E:=UriError) u).
Proof.
  intros Hu Hne. unfold get_port. destruct (port_ u) as [p|] eqn:Hp; [done|].
  apply (wf_no_port uri u (parse_in_bounds_ok uri u Hu)) in Hp as [Hs Hh]. naive_solver.
Qed.

Lemma host_port_defined uri u host :
  Uri.parse uri = Ret u → get_host (E:=UriError) u = Ret host → host ≠ [] →
  defined (get_port (E:=UriError) u).
Proof.
  intros Hu Hh Hne. eapply port_defined; [done|]. right. intros Hno.
  unfold get_host in Hh. rewrite Hno, view_no_slice in Hh. congruence.
Qed.

Lemma check_http_url_decides param : decides (check_http_url param) (http_url_ok param).
Proof.
  unfold check_http_url, http_url_ok.
  eapply decides_iff with (P := ∃ u, Uri.parse param = Ret u ∧ ∃ host, get_host u = Ret host
    ∧ host ≠ [] ∧ ∃ port, get_port u = Ret port ∧ port ≠ 0%Z); [|naive_solver].
  apply decides_bind; [apply parse_defined|]. intros u Hu.
  apply decides_bind; [by eapply host_defined|]. intros host Hhost.
  case_bool_decide as Hne; [right; naive_solver|].
  eapply decides_iff with (P := ∃ port, get_port u = Ret port ∧ port ≠ 0%Z); [|naive_solver].
  apply decides_bind; [by eapply host_port_defined|]. intros port _.
  eapply decides_iff; [apply decides_throw_if|]. rewrite Z.eqb_neq. done.
Qed.

Lemma verify_decides b what : decides (verify b what) (b = false).
Proof. apply decides_throw_if. Qed.

Lemma uri_call_bind_decides {A} (m : outcome UriError A) k (P : A → Prop) :
  defined m → (∀ a, m = Ret a → decides (k a) (P a)) → decides (uri_call m ≫= k) (∃ a, m = Ret a ∧ P a).
Proof.
  intros Hm Hk. destruct m as [a|e| |]; [|right; naive_solver|done|done].
  eapply decides_iff; [by apply Hk|]. naive_solver.
Qed.

(** ** The checks *)

(** The next check, and the rest. *)
Ltac next_check := eapply decides_seq; [apply verify_decides|intros _].

Lemma validate_ip_source_decides domain sd :
  decides (validate_ip_source domain sd) (ip_source_ok sd).
Proof.
  unfold validate_ip_source, ip_source_ok. destruct (sd_ip_source sd).
  - eapply decides_iff; [next_check; apply decides_ret|].
    rewrite andb_false_iff, !bool_decide_eq_false. naive_solver.
  - eapply decides_iff with (P := False ∨ (sd_ip_source_param sd ≠ [] ∧ http_url_ok (sd_ip_source_param sd))); [|naive_solver].
    eapply decides_iff.
    + next_check. next_check.
      destruct (check_http_url_decides (sd_ip_source_param sd)) as [[-> Hok]|(e & -> & Hno)].
      * left. split; [done|exact Hok].
      * right. eauto.
    + rewrite andb_false_iff, !bool_decide_eq_false. naive_solver.
  - eapply decides_iff; [next_check; next_check; next_check; next_check; apply verify_decides|].
    rewrite !andb_false_iff, !bool_decide_eq_false, !negb_false_iff.
    destruct (decide (sd_type sd = KIND_A)), (decide (sd_type sd = KIND_AAAA)); naive_solver.
Qed.

Lemma validate_subdomains_decides domain sds :
  decides (validate_subdomains UpdateInterval interfaces_ domain sds) (Forall subdomain_ok sds).
Proof.
  induction sds as [|sd sds IH]; cbn [validate_subdomains].
  { eapply decides_iff; [apply decides_ret|]. by rewrite Forall_nil. }
  eapply decides_iff.
  { next_check. eapply decides_seq; [apply validate_ip_source_decides|intros _].
    next_check. next_check. exact IH. }
  rewrite Forall_cons. unfold subdomain_ok.
  rewrite !andb_false_iff, !bool_decide_eq_false, !negb_false_iff, !bool_decide_eq_true,
    Z.eqb_eq, Z.ltb_ge. tauto.
Qed.

Lemma validate_domains_decides ds :
  decides (validate_domains UpdateInterval loaded_drivers_ interfaces_ ds) (Forall domain_ok ds).
Proof.
  induction ds as [|d ds IH]; cbn [validate_domains].
  { eapply decides_iff; [apply decides_ret|]. by rewrite Forall_nil. }
  eapply decides_iff.
  { do 5 next_check. eapply decides_seq; [apply validate_subdomains_decides|intros _]. exact IH. }
  rewrite Forall_cons. unfold domain_ok.
  rewrite !andb_false_iff, !bool_decide_eq_false, !negb_false_iff, !bool_decide_eq_true,
    Z.eqb_eq, !Z.ltb_ge. tauto.
Qed.

Lemma validate_resolver_address_decides address :
  decides (validate_resolver_address address) (resolver_address_ok address).
Proof.
  unfold validate_resolver_address, resolver_address_ok.
  eapply decides_iff with (P := ∃ u, Uri.parse address = Ret u ∧ ∃ schema, get_schema u = Ret schema
    ∧ if bool_decide (schema = str "https") || bool_decide (schema = str "tls")
      then http_url_ok address else Address.parse address ≠ None); [|naive_solver].
  apply uri_call_bind_decides; [apply parse_defined|]. intros u Hu.
  apply uri_call_bind_decides; [by eapply schema_defined|]. intros schema _.
  destruct (_ || _).
  - unfold http_url_ok. eapply decides_iff with (P := ∃ host, get_host u = Ret host
      ∧ host ≠ [] ∧ ∃ port, get_port u = Ret port ∧ port ≠ 0%Z).
    2: { split; [naive_solver|]. intros (u' & host & port & Hu' & Hp).
         rewrite Hu in Hu'. injection Hu' as <-. naive_solver. }
    apply uri_call_bind_decides; [by eapply host_defined|]. intros host Hhost.
    eapply decides_iff.
    + eapply decides_seq; [apply verify_decides|]. intros Hne%bool_decide_eq_false_1.
      apply uri_call_bind_decides; [by eapply host_port_defined|]. intros port _. apply verify_decides.
    + setoid_rewrite Z.eqb_neq. by rewrite bool_decide_eq_false.
  - eapply decides_iff; [apply verify_decides|]. by rewrite bool_decide_eq_false.
Qed.

Lemma validate_servers_decides servers :
  decides (validate_servers servers) (Forall (λ s, resolver_address_ok (ds_address s)) servers).
Proof.
  induction servers as [|s servers IH]; cbn [validate_servers].
  { eapply decides_iff; [apply decides_ret|]. by rewrite Forall_nil. }
  eapply decides_iff; [eapply decides_seq; [apply validate_resolver_address_decides|intros _; exact IH]|].
  by rewrite Forall_cons.
Qed.

Lemma validate_decides cfg :
  decides (validate UpdateInterval loaded_drivers_ interfaces_ cfg) (config_ok cfg).
Proof.
  unfold validate, config_ok. eapply decides_seq; [apply validate_domains_decides|intros _].
  unfold resolver_config_ok. destruct (use_custom_server _).
  - case_bool_decide as Hs; cbn [negb].
    + case_bool_decide as Ha; cbn [negb].
      * eapply decides_iff; [apply decides_ret|]. naive_solver.
      * eapply decides_iff; [apply validate_resolver_address_decides|]. naive_solver.
    + eapply decides_iff; [apply validate_servers_decides|]. naive_solver.
  - eapply decides_iff; [apply decides_ret|]. naive_solver.
Qed.
End valid.

(** C28: Validation has no undefined behaviour and returns exactly for the valid
    configurations, throwing for all others: every domain has a name, a loaded
    driver, an interval of at least the minimum and a force interval of 0 or not
    below it, and subdomains that have names, intervals of 0 or at least the
    minimum, existing interfaces and usable address sources; custom resolvers
    are IP addresses or URLs with a host and a port. *)
Theorem validate_iff {generic : Type} `{InetText} (UpdateInterval : Z)
    (loaded_drivers interfaces : list bytes) (cfg : AppConfig generic) :
  (validate UpdateInterval loaded_drivers interfaces cfg = Ret tt
     ∧ config_ok UpdateInterval loaded_drivers interfaces cfg)
  ∨ ∃ e, validate UpdateInterval loaded_drivers interfaces cfg = Throw e
     ∧ ¬ config_ok UpdateInterval loaded_drivers interfaces cfg.
Proof. apply validate_decides. Qed.
