(* ===== verification/Json.v ===== *)
(** JSON as glaze reads and writes it from tables of an object's members
    ([glz::meta] and its [object] and [enumerate]).  The tables are the program's;
    what glaze does with them is a class whose laws are its documented behaviour. *)
From S2P Require Import Prelude.

Local Open Scope Z_scope.

(** * Values *)

(** A number that is no integer is kept as its text. *)
Inductive json :=
| JNull
| JBool (b : bool)
| JInt (z : Z)
| JNumber (text : bytes)
| JString (s : bytes)
| JArray (l : list json)
| JObject (members : list (bytes * json)).

#[global] Instance json_eq_dec : EqDecision json.
Proof.
  refine (fix go (j1 j2 : json) : Decision (j1 = j2) :=
    let _ : EqDecision json := @go in
    match j1, j2 with
    | JNull, JNull => left eq_refl
    | JBool b1, JBool b2 => cast_if (decide (b1 = b2))
    | JInt z1, JInt z2 => cast_if (decide (z1 = z2))
    | JNumber t1, JNumber t2 => cast_if (decide (t1 = t2))
    | JString s1, JString s2 => cast_if (decide (s1 = s2))
    | JArray l1, JArray l2 => cast_if (decide (l1 = l2))
    | JObject m1, JObject m2 => cast_if (decide (m1 = m2))
    | _, _ => right _
    end); try done; try (by subst); try (by intros [= ?]).
Defined.

(** ** Texts that are JSON

    Strings are UTF-8 (RFC 3629), and of the control characters only those that
    have an escape of their own. *)

Definition continuation (b : Z) : bool := (128 <=? b) && (b <=? 191).

(** The second octet after the first one of three or four. *)
Definition second (b0 b1 : Z) : bool :=
  continuation b1
  && (negb (b0 =? 224) || (160 <=? b1)) && (negb (b0 =? 237) || (b1 <=? 159))
  && (negb (b0 =? 240) || (144 <=? b1)) && (negb (b0 =? 244) || (b1 <=? 143)).

Fixpoint utf8 (s : bytes) : bool :=
  match s with
  | [] => true
  | b0 :: s1 =>
      if (0 <=? b0) && (b0 <=? 127) then utf8 s1 else
      match s1 with
      | [] => false
      | b1 :: s2 =>
          if (194 <=? b0) && (b0 <=? 223) then continuation b1 && utf8 s2 else
          match s2 with
          | [] => false
          | b2 :: s3 =>
              if (224 <=? b0) && (b0 <=? 239) then second b0 b1 && continuation b2 && utf8 s3 else
              match s3 with
              | [] => false
              | b3 :: s4 => (240 <=? b0) && (b0 <=? 244) && second b0 b1 && continuation b2 && continuation b3 && utf8 s4
              end
          end
      end
  end.

(** Backspace, tab, line feed, form feed and carriage return have an escape. *)
Definition plain_char (b : Z) : bool := (32 <=? b) || existsb (Z.eqb b) [8; 9; 10; 12; 13].
Definition plain_text (s : bytes) : bool := forallb plain_char s && utf8 s.

Definition is_digit (b : Z) : bool := (48 <=? b) && (b <=? 57).
Fixpoint skip_digits (s : bytes) : bytes :=
  match s with b :: s' => if is_digit b then skip_digits s' else s | [] => [] end.
Definition some_digits (s : bytes) : option bytes :=
  match s with b :: s' => if is_digit b then Some (skip_digits s') else None | [] => None end.

(** A number with a fraction or an exponent. *)
Definition exponent (s : bytes) : bool :=
  match s with
  | e :: s => ((e =? 101) || (e =? 69)) && bool_decide (some_digits (match s with
      | b :: s' => if (b =? 43) || (b =? 45) then s' else s | [] => [] end) = Some [])
  | [] => false
  end.

Definition json_number (text : bytes) : bool :=
  let s := match text with b :: s => if b =? 45 then s else text | [] => [] end in
  match (match s with b :: r => if b =? 48 then Some r else some_digits s | [] => None end) with
  | None => false
  | Some (b :: r) =>
      if b =? 46 then
        match some_digits r with Some [] => true | Some r => exponent r | None => false end
      else exponent (b :: r)
  | Some [] => false
  end.

(** Values that have a text. *)
Fixpoint printable (j : json) : bool :=
  match j with
  | JNull | JBool _ | JInt _ => true
  | JNumber text => json_number text
  | JString s => plain_text s
  | JArray l => forallb printable l
  | JObject members => forallb (λ member, plain_text member.1 && printable member.2) members
  end.

(** How values of a type are read, over the value that is there, and written.  The
    flag is the option [error_on_missing_keys]. *)
Record codec (A : Type) := {
  decode : bool → A → json → option A;
  encode : A → json;
  nullable : bool
}.
Arguments decode {A}. Arguments encode {A}. Arguments nullable {A}.

(** A line of a table: a key and the member it is for. *)
Record field (T : Type) := {
  f_key : bytes;
  f_nullable : bool;
  f_decode : bool → T → json → option T;
  f_encode : T → json
}.
Arguments f_key {T}. Arguments f_nullable {T}. Arguments f_decode {T}. Arguments f_encode {T}.

Definition member {T A} (key : bytes) (c : codec A) (get : T → A) (set : A → T → T) : field T :=
  {| f_key := key; f_nullable := nullable c;
     f_decode missing v j := (λ a, set a v) <$> decode c missing (get v) j;
     f_encode v := encode c (get v) |}.

Class Glaze := {
  glz_string : codec bytes;
  glz_bool : codec bool;
  (** an integral type of these bounds *)
  glz_integer : Z → Z → codec Z;
  glz_generic : codec json;
  (** with a value of the type as its default constructor makes it *)
  glz_optional {A} : A → codec A → codec (option A);
  glz_vector {A} : A → codec A → codec (list A);
  glz_enumerate {A} `{EqDecision A} : list (bytes * A) → codec A;
  glz_object {T} : list (field T) → codec T;
  (** whether a null member is left out *)
  glz_skips {T} : field T → T → bool;
  (** the values that a [glz::generic] can hold *)
  generic_holds : json → Prop
}.

(** * What glaze documents *)

Definition find_field {T} (table : list (field T)) (key : bytes) : option (field T) :=
  snd <$> list_find (λ f, f_key f = key) table.

(** The members in the order of the text; one that is not in the table is an error. *)
Fixpoint read_members {T} (missing : bool) (table : list (field T)) (members : list (bytes * json)) (v : T)
    : option T :=
  match members with
  | [] => Some v
  | (key, j) :: members =>
      f ← find_field table key; v ← f_decode f missing v j; read_members missing table members v
  end.

(** No member that cannot be null is missing. *)
Definition complete {T} (table : list (field T)) (members : list (bytes * json)) : bool :=
  forallb (λ f, f_nullable f || bool_decide (f_key f ∈ members.*1)) table.

Definition written {T} `{Glaze} (table : list (field T)) (v : T) : list (bytes * json) :=
  map (λ f, (f_key f, f_encode f v)) (filter (λ f, glz_skips f v = false) table).

Definition enum_value {A} (names : list (bytes * A)) (s : bytes) : option A :=
  '(_, p) ← list_find (λ p, p.1 = s) names; Some p.2.

Class GlazeOk `{Glaze} := {
  string_decode m v s : decode glz_string m v (JString s) = Some s;
  string_encode s : encode glz_string s = JString s;
  string_nullable : nullable glz_string = false;
  bool_decode m v b : decode glz_bool m v (JBool b) = Some b;
  bool_encode b : encode glz_bool b = JBool b;
  bool_nullable : nullable glz_bool = false;
  integer_decode lo hi m v z : (lo ≤ z ≤ hi)%Z → decode (glz_integer lo hi) m v (JInt z) = Some z;
  integer_range lo hi m v j z : decode (glz_integer lo hi) m v j = Some z → (lo ≤ z ≤ hi)%Z;
  integer_encode lo hi z : encode (glz_integer lo hi) z = JInt z;
  integer_nullable lo hi : nullable (glz_integer lo hi) = false;
  (** A [glz::generic] keeps a number as a [double] and an object as a map, so it may
      hold another value than the text has; but what it holds is written so that
      it is read again. *)
  generic_null m v : decode glz_generic m v JNull = Some JNull;
  generic_read m v j g : decode glz_generic m v j = Some g → generic_holds g;
  generic_again m v g : generic_holds g → decode glz_generic m v (encode glz_generic g) = Some g;
  optional_null {A} (a : A) c m v : decode (glz_optional a c) m v JNull = Some None;
  optional_some {A} (a : A) c m v j : j ≠ JNull →
    decode (glz_optional a c) m v j = Some <$> decode c m (default a v) j;
  optional_encode {A} (a : A) c v : encode (glz_optional a c) v = from_option (encode c) JNull v;
  optional_nullable {A} (a : A) c : nullable (glz_optional a c) = true;
  vector_decode {A} (a : A) c m v l : decode (glz_vector a c) m v (JArray l) = mapM (decode c m a) l;
  vector_only {A} (a : A) c m v j l : decode (glz_vector a c) m v j = Some l → ∃ js, j = JArray js;
  vector_encode {A} (a : A) c l : encode (glz_vector a c) l = JArray (map (encode c) l);
  vector_nullable {A} (a : A) c : nullable (glz_vector a c) = false;
  enumerate_decode {A} `{EqDecision A} (names : list (bytes * A)) m v s :
    decode (glz_enumerate names) m v (JString s) = enum_value names s;
  enumerate_only {A} `{EqDecision A} (names : list (bytes * A)) m v j a :
    decode (glz_enumerate names) m v j = Some a → ∃ s, j = JString s;
  enumerate_encode {A} `{EqDecision A} (names : list (bytes * A)) a : NoDup names.*1 → a ∈ names.*2 →
    ∃ s, encode (glz_enumerate names) a = JString s ∧ enum_value names s = Some a;
  object_decode {T} (table : list (field T)) m v members :
    decode (glz_object table) m v (JObject members)
      = if m && negb (complete table members) then None else read_members m table members v;
  object_only {T} (table : list (field T)) m v j v' :
    decode (glz_object table) m v j = Some v' → ∃ members, j = JObject members;
  object_encode {T} (table : list (field T)) v : encode (glz_object table) v = JObject (written table v);
  object_nullable {T} (table : list (field T)) : nullable (glz_object table) = false;
  skips_null {T} (f : field T) v : glz_skips f v = true → f_encode f v = JNull
}.

(** * Lemmas *)

(** What is written is read back, over the value [d]; a null is the value that is
    there when it is left out. *)
Definition lossless {A} (c : codec A) (P : A → Prop) (d : A) : Prop :=
  ∀ v, P v → decode c false d (encode c v) = Some v.

Lemma enum_value_elem {A} (names : list (bytes * A)) s a :
  NoDup names.*1 → (s, a) ∈ names → enum_value names s = Some a.
Proof.
  unfold enum_value. induction names as [|[s' a'] names IH]; intros Hnd Hin; [by apply elem_of_nil in Hin|].
  cbn [fmap list_fmap fst] in Hnd. apply NoDup_cons in Hnd as [Hs Hnd]. cbn [list_find fst].
  apply elem_of_cons in Hin as [[= -> ->]|Hin]; [by rewrite decide_True|].
  destruct (decide (s' = s)) as [->|Hne]; [destruct Hs; by apply (list_elem_of_fmap_2 fst _ (s, a))|].
  specialize (IH Hnd Hin). destruct (list_find _ names) as [[i p]|]; [exact IH|done].
Qed.

Section laws.
Context `{GlazeOk}.

Lemma string_lossless P d : lossless glz_string P d.
Proof using All. intros v _. by rewrite string_encode, string_decode. Qed.

Lemma bool_lossless P d : lossless glz_bool P d.
Proof using All. intros v _. by rewrite bool_encode, bool_decode. Qed.

Lemma integer_lossless lo hi d : lossless (glz_integer lo hi) (λ z, lo ≤ z ≤ hi)%Z d.
Proof using All. intros v Hv. by rewrite integer_encode, integer_decode. Qed.

Lemma generic_lossless d : lossless glz_generic generic_holds d.
Proof using All. intros v Hv. by apply generic_again. Qed.

Lemma generic_encode_null g : generic_holds g → encode glz_generic g = JNull → g = JNull.
Proof using All.
  intros Hg He. pose proof (generic_again false g g Hg) as Ha. rewrite He, generic_null in Ha. congruence.
Qed.

Lemma enumerate_lossless {A} `{EqDecision A} (names : list (bytes * A)) d :
  NoDup names.*1 → lossless (glz_enumerate names) (λ a, a ∈ names.*2) d.
Proof using All.
  intros Hnd v Hv. destruct (enumerate_encode names v Hnd Hv) as (s & -> & Hs). by rewrite enumerate_decode.
Qed.

Lemma vector_lossless {A} (a : A) c P d : lossless c P a → lossless (glz_vector a c) (Forall P) d.
Proof using All.
  intros Hc l Hl. rewrite vector_encode, vector_decode. induction Hl as [|v l Hv Hl IH]; [done|].
  cbn [map mapM]. rewrite (Hc v Hv). cbn [mbind option_bind]. by rewrite IH.
Qed.

Lemma optional_lossless {A} (a : A) c (P : A → Prop) d :
  (∀ d', lossless c P d') → (∀ v, encode c v ≠ JNull) → lossless (glz_optional a c) (λ o, ∀ v, o = Some v → P v) d.
Proof using All.
  intros Hc Hnull [v|] Hv; rewrite optional_encode; cbn [from_option]; [|apply optional_null].
  rewrite optional_some by apply Hnull. by rewrite (Hc _ v (Hv v eq_refl)).
Qed.

(** The values a table's fields go through while the members of [v] are read. *)
Fixpoint chain {T} (m : bool) (fields : list (field T)) (v d : T) : Prop :=
  match fields with
  | [] => d = v
  | f :: fields =>
      ∃ d', f_decode f m d (f_encode f v) = Some d' ∧ (f_encode f v = JNull → d' = d) ∧ chain m fields v d'
  end.

Lemma find_field_elem {T} (table : list (field T)) f :
  NoDup (map f_key table) → f ∈ table → find_field table (f_key f) = Some f.
Proof using Type.
  unfold find_field. induction table as [|g table IH]; intros Hnd Hin; [by apply elem_of_nil in Hin|].
  cbn [map] in Hnd. apply NoDup_cons in Hnd as [Hg Hnd]. cbn [list_find].
  apply elem_of_cons in Hin as [->|Hin]; [by rewrite decide_True|].
  destruct (decide (f_key g = f_key f)) as [Heq|Hne].
  - exfalso. apply Hg. rewrite Heq. by apply list_elem_of_fmap_2.
  - specialize (IH Hnd Hin). destruct (list_find _ table) as [[i h]|]; [exact IH|done].
Qed.

Lemma read_written {T} m (table fields : list (field T)) v d :
  NoDup (map f_key table) → (∀ f, f ∈ fields → f ∈ table) → chain m fields v d →
  read_members m table (written fields v) d = Some v.
Proof using All.
  intros Hnd. revert d. induction fields as [|f fields IH]; intros d Hsub Hc; cbn [chain] in Hc; [by subst|].
  destruct Hc as (d' & Hd & Hnull & Hc). unfold written. rewrite filter_cons.
  assert (read_members m table (written fields v) d' = Some v) as IH' by (apply IH; [set_solver|done]).
  destruct (decide _) as [Hs|Hs].
  - cbn [map read_members]. rewrite (find_field_elem _ _ Hnd (Hsub f ltac:(set_solver))). cbn [mbind option_bind].
    rewrite Hd. exact IH'.
  - apply not_false_is_true in Hs. rewrite (Hnull (skips_null _ _ Hs)) in IH'. exact IH'.
Qed.

Lemma object_lossless {T} (table : list (field T)) (P : T → Prop) d :
  NoDup (map f_key table) → (∀ v, P v → chain false table v d) → lossless (glz_object table) P d.
Proof using All.
  intros Hnd Hc v Hv. rewrite object_encode, object_decode. cbn [andb]. apply read_written; auto.
Qed.

(** ** What is read is of its type *)

(** [P] holds of what is read over a value of which it holds. *)
Definition keeps {A} (c : codec A) (P : A → Prop) : Prop :=
  ∀ m d j v, P d → decode c m d j = Some v → P v.

Definition field_keeps {T} (P : T → Prop) (f : field T) : Prop :=
  ∀ m d j v, P d → f_decode f m d j = Some v → P v.

Lemma member_keeps {T A} key (c : codec A) get set (P : T → Prop) (Q : A → Prop) :
  keeps c Q → (∀ v, P v → Q (get v)) → (∀ a v, P v → Q a → P (set a v)) →
  field_keeps P (member key c get set).
Proof using Type.
  intros Hc Hget Hset m d j v Hd Hv. cbn [member f_decode] in Hv.
  destruct (decode c m (get d) j) as [a|] eqn:Ha; [|done]. injection Hv as <-.
  apply Hset; [done|]. eapply Hc, Ha. by apply Hget.
Qed.

Lemma free_member_keeps {T A} key (c : codec A) get set (P : T → Prop) :
  (∀ a v, P v → P (set a v)) → field_keeps P (member key c get set).
Proof using Type. intros Hset. apply (member_keeps _ _ _ _ _ (λ _, True)); [done|done|auto]. Qed.

Lemma object_keeps {T} (table : list (field T)) P : Forall (field_keeps P) table → keeps (glz_object table) P.
Proof using All.
  intros Htable m d j v Hd Hv. destruct (object_only _ _ _ _ _ Hv) as [members ->].
  rewrite object_decode in Hv. destruct (m && _); [done|]. revert d Hd Hv.
  induction members as [|[key j] members IH]; intros d Hd Hv; cbn [read_members] in Hv; [congruence|].
  unfold find_field in Hv. destruct (list_find _ table) as [[i f]|] eqn:Hf; [|done]. cbn [fmap option_fmap option_map snd mbind option_bind] in Hv.
  apply list_find_Some in Hf as (Hi & _). rewrite Forall_forall in Htable.
  destruct (f_decode f m d j) as [d'|] eqn:Hd'; [|done]. eapply IH, Hv.
  eapply Htable, Hd'; [by eapply list_elem_of_lookup_2|done].
Qed.

Lemma vector_keeps {A} (a : A) c P : P a → keeps c P → keeps (glz_vector a c) (Forall P).
Proof using All.
  intros Ha Hc m d j l _ Hl. destruct (vector_only _ _ _ _ _ _ Hl) as [js ->]. rewrite vector_decode in Hl.
  apply mapM_Some in Hl. induction Hl as [|j v js l Hj _ IH]; [done|]. constructor; [by eapply Hc, Hj|done].
Qed.

Lemma generic_keeps : keeps glz_generic generic_holds.
Proof using All. intros m d j g _. apply generic_read. Qed.

Lemma integer_keeps lo hi : keeps (glz_integer lo hi) (λ z, lo ≤ z ≤ hi)%Z.
Proof using All. intros m d j z _. apply integer_range. Qed.

(** ** What is written has a text *)

Definition prints {A} (c : codec A) (P : A → Prop) : Prop := ∀ v, P v → printable (encode c v) = true.

Definition field_prints {T} (P : T → Prop) (f : field T) : Prop :=
  plain_text (f_key f) = true ∧ ∀ v, P v → printable (f_encode f v) = true.

Lemma string_prints : prints glz_string (λ s, plain_text s = true).
Proof using All. intros s Hs. by rewrite string_encode. Qed.

Lemma bool_prints : prints glz_bool (λ _, True).
Proof using All. intros b _. by rewrite bool_encode. Qed.

Lemma integer_prints lo hi : prints (glz_integer lo hi) (λ _, True).
Proof using All. intros z _. by rewrite integer_encode. Qed.

Lemma enumerate_prints {A} `{EqDecision A} (names : list (bytes * A)) :
  NoDup names.*1 → (∀ a, a ∈ names.*2) → forallb plain_text names.*1 = true → prints (glz_enumerate names) (λ _, True).
Proof using All.
  intros Hnd Hall Hp a _. destruct (enumerate_encode names a Hnd (Hall a)) as (s & -> & Hs). cbn [printable].
  rewrite forallb_forall in Hp. apply Hp, list_elem_of_In. unfold enum_value in Hs.
  destruct (list_find _ names) as [[i p]|] eqn:Hf; [|done]. apply list_find_Some in Hf as (Hi & <- & _).
  apply list_elem_of_fmap_2. by eapply list_elem_of_lookup_2.
Qed.

Lemma optional_prints {A} (a : A) c P : prints c P → prints (glz_optional a c) (λ o, ∀ v, o = Some v → P v).
Proof using All. intros Hc [v|] Hv; rewrite optional_encode; [by apply Hc, Hv|done]. Qed.

Lemma vector_prints {A} (a : A) c P : prints c P → prints (glz_vector a c) (Forall P).
Proof using All.
  intros Hc l Hl. rewrite vector_encode. cbn [printable]. rewrite forallb_forall. intros j Hj.
  apply list_elem_of_In, list_elem_of_fmap in Hj as (v & -> & Hv). rewrite Forall_forall in Hl. auto.
Qed.

Lemma object_prints {T} (table : list (field T)) P : Forall (field_prints P) table → prints (glz_object table) P.
Proof using All.
  intros Ht v Hv. rewrite object_encode. cbn [printable]. rewrite forallb_forall. intros m Hm.
  apply list_elem_of_In, list_elem_of_fmap in Hm as (f & -> & Hf). apply list_elem_of_filter in Hf as [_ Hf].
  rewrite Forall_forall in Ht. destruct (Ht f Hf) as [Hk Hp]. simpl. rewrite Hk. by apply Hp.
Qed.

Lemma member_prints {T A} key (c : codec A) get set (P : T → Prop) (Q : A → Prop) :
  plain_text key = true → prints c Q → (∀ v, P v → Q (get v)) → field_prints P (member key c get set).
Proof using Type. intros Hk Hc Hq. split; [done|]. intros v Hv. by apply Hc, Hq. Qed.
End laws.

(** * An implementation *)

(** Numbers that a double has, and objects without a key twice. *)
Fixpoint held (j : json) : bool :=
  match j with
  | JNull | JBool _ | JString _ => true
  | JInt z => Z.abs z <=? 2 ^ 53
  | JNumber text => json_number text
  | JArray l => forallb held l
  | JObject members => forallb (λ member, held member.2) members && bool_decide (NoDup members.*1)
  end.

Definition json_null (j : json) : bool := match j with JNull => true | _ => false end.

#[local] Instance reference_glaze : Glaze := {|
  glz_string := {| decode m v j := match j with JString s => Some s | _ => None end; encode := JString; nullable := false |};
  glz_bool := {| decode m v j := match j with JBool b => Some b | _ => None end; encode := JBool; nullable := false |};
  glz_integer lo hi :=
    {| decode m v j := match j with JInt z => if bool_decide (lo ≤ z ≤ hi)%Z then Some z else None | _ => None end;
       encode := JInt; nullable := false |};
  glz_generic := {| decode m v j := if held j then Some j else None; encode j := j; nullable := true |};
  glz_optional A a c :=
    {| decode m v j := if json_null j then Some None else Some <$> decode c m (default a v) j;
       encode := from_option (encode c) JNull; nullable := true |};
  glz_vector A a c :=
    {| decode m v j := match j with JArray l => mapM (decode c m a) l | _ => None end;
       encode l := JArray (map (encode c) l); nullable := false |};
  glz_enumerate A eq names :=
    {| decode m v j := match j with JString s => enum_value names s | _ => None end;
       encode a := match list_find (λ p, enum_value names p.1 = Some a) names with
                   | Some (_, p) => JString p.1 | None => JNull end;
       nullable := false |};
  glz_object T table :=
    {| decode m v j := match j with
         | JObject members => if m && negb (complete table members) then None else read_members m table members v
         | _ => None end;
       encode v := JObject (map (λ f, (f_key f, f_encode f v)) (filter (λ f, json_null (f_encode f v) = false) table));
       nullable := false |};
  glz_skips T f v := json_null (f_encode f v);
  generic_holds j := held j = true
|}.

#[local] Instance reference_glaze_ok : GlazeOk.
Proof.
  split; try done.
  - intros lo hi m v z Hz. cbn. by rewrite bool_decide_true.
  - intros lo hi m v [] n Hn; try done. cbn in Hn. case_bool_decide; congruence.
  - intros m v j g Hg. cbn in Hg |- *. destruct (held j) eqn:Hj; congruence.
  - intros m v g Hg. cbn in Hg |- *. by rewrite Hg.
  - intros A a c m v j Hj. by destruct j.
  - intros A a c m v [] r Hr; try done. by eexists.
  - intros A E names m v [] r Hr; try done. by eexists.
  - intros A E names a Hnd Ha. cbn. apply list_elem_of_fmap in Ha as ([s b] & -> & Hin).
    destruct (list_find _ names) as [[i p]|] eqn:Hf.
    + apply list_find_Some in Hf as (_ & Hp & _). by exists p.1.
    + rewrite list_find_None, Forall_forall in Hf. destruct (Hf _ Hin). by apply enum_value_elem.
  - intros T table m v [] v' Hv; try done. by eexists.
  - intros T f v. cbn. by destruct (f_encode f v).
Qed.
