(* ===== verification/ConfigReader.v ===== *)
(** [src/config/parser.hpp] and [config.cpp]: the configuration file, read by glaze
    from the tables of its members, and the file that [config show] writes. *)
From S2P Require Import Prelude Address DnsTypes Config Json.

#[local] Instance ResolverStrategy_eq_dec : EqDecision ResolverStrategy.
Proof. solve_decision. Defined.
#[local] Instance family_eq_dec : EqDecision AddressFamily.
Proof. solve_decision. Defined.

(** * The values that the types' initialisers give *)

(* @src src/src/config/dns_config.h 14 17 Config::DnsServer (initialisers) *)
Definition default_server : DnsServer := {| ds_address := []; ds_port := 53 |}.

(* @src src/src/config/config.h 29 33 Config::DriverConfig (initialisers) *)
Definition default_driver : DriverConfig := {| driver_dir := None; auto_discover := false; load := [] |}.

(* @src src/src/config/config.h 36 42 Config::ResolverConfig (initialisers) *)
Definition default_resolver : ResolverConfig :=
  {| use_custom_server := false; rc_address := []; rc_port := 53; rc_servers := []; rc_strategy := CONCURRENT |}.

(* @src src/src/config/config.h 45 56 Config::SubdomainConfig (initialisers) *)
Definition default_subdomain : SubdomainConfig json :=
  {| sd_name := []; sd_type := KIND_A; sd_interface := []; sd_ip_type := UNSPECIFIED; sd_ip_source := INTERFACE;
     sd_ip_source_param := []; sd_allow_ula := false; sd_allow_local_link := false; sd_update_interval := 0;
     sd_driver_param := JNull |}.

(* @src src/src/config/config.h 59 65 Config::DomainConfig (initialisers) *)
Definition default_domain : DomainConfig json :=
  {| dm_name := []; dm_update_interval := 0; dm_force_update := 0; dm_driver := []; dm_subdomains := [] |}.

(* @src src/src/config/config.h 68 72 Config::AppConfig (initialisers) *)
Definition default_config : AppConfig json :=
  {| app_driver := default_driver; app_resolver := default_resolver; app_domains := [] |}.

(** * The tables *)

Section tables.
Context `{Glaze}.

(** [int] *)
Definition int_codec : codec Z := glz_integer (-2147483648) 2147483647.

(* @src src/src/config/parser.hpp 50 57 glz::meta<Config::ResolverStrategy> *)
Definition ResolverStrategy_names : list (bytes * ResolverStrategy) :=
  [(str "fallback", FALLBACK); (str "concurrent", CONCURRENT)].
Definition ResolverStrategy_codec : codec ResolverStrategy := glz_enumerate ResolverStrategy_names.

(* @src src/src/config/parser.hpp 103 112 glz::meta<Config::IpSource> *)
Definition IpSource_names : list (bytes * IpSource) :=
  [(str "interface", INTERFACE); (str "http", HTTP); (str "url", HTTP); (str "mdns", MDNS)].
Definition IpSource_codec : codec IpSource := glz_enumerate IpSource_names.

(* @src src/src/config/parser.hpp 115 123 glz::meta<RecordKind> *)
Definition RecordKind_names : list (bytes * RecordKind) :=
  [(str "a", KIND_A); (str "aaaa", KIND_AAAA); (str "txt", KIND_TXT)].
Definition RecordKind_codec : codec RecordKind := glz_enumerate RecordKind_names.

(* @src src/src/config/parser.hpp 126 134 glz::meta<AddressFamily> *)
Definition AddressFamily_names : list (bytes * AddressFamily) :=
  [(str "ipv6", IPV6); (str "ipv4", IPV4); (str "unspecified", UNSPECIFIED)].
Definition AddressFamily_codec : codec AddressFamily := glz_enumerate AddressFamily_names.

(* @src src/src/config/parser.hpp 13 21 glz::meta<Config::DriverConfig> *)
Definition DriverConfig_fields : list (field DriverConfig) := [
  member (str "driver_dir") (glz_optional [] glz_string) driver_dir
    (λ a '(Build_DriverConfig _ x1 x2), Build_DriverConfig a x1 x2);
  member (str "auto_discover") glz_bool auto_discover
    (λ a '(Build_DriverConfig x0 _ x2), Build_DriverConfig x0 a x2);
  member (str "load") (glz_vector [] glz_string) load
    (λ a '(Build_DriverConfig x0 x1 _), Build_DriverConfig x0 x1 a)].
Definition DriverConfig_codec : codec DriverConfig := glz_object DriverConfig_fields.

(* @src src/src/config/parser.hpp 25 33 glz::meta<Config::DnsServer> *)
Definition DnsServer_fields : list (field DnsServer) := [
  member (str "address") glz_string ds_address
    (λ a '(Build_DnsServer _ x1), Build_DnsServer a x1);
  member (str "ipaddress") glz_string ds_address
    (λ a '(Build_DnsServer _ x1), Build_DnsServer a x1);
  member (str "port") (glz_integer 0 65535) ds_port
    (λ a '(Build_DnsServer x0 _), Build_DnsServer x0 a)].
Definition DnsServer_codec : codec DnsServer := glz_object DnsServer_fields.

(* @src src/src/config/parser.hpp 36 47 glz::meta<Config::ResolverConfig> *)
Definition ResolverConfig_fields : list (field ResolverConfig) := [
  member (str "use_custom_server") glz_bool use_custom_server
    (λ a '(Build_ResolverConfig _ x1 x2 x3 x4), Build_ResolverConfig a x1 x2 x3 x4);
  member (str "address") glz_string rc_address
    (λ a '(Build_ResolverConfig x0 _ x2 x3 x4), Build_ResolverConfig x0 a x2 x3 x4);
  member (str "ipaddress") glz_string rc_address
    (λ a '(Build_ResolverConfig x0 _ x2 x3 x4), Build_ResolverConfig x0 a x2 x3 x4);
  member (str "port") (glz_integer 0 65535) rc_port
    (λ a '(Build_ResolverConfig x0 x1 _ x3 x4), Build_ResolverConfig x0 x1 a x3 x4);
  member (str "servers") (glz_vector default_server DnsServer_codec) rc_servers
    (λ a '(Build_ResolverConfig x0 x1 x2 _ x4), Build_ResolverConfig x0 x1 x2 a x4);
  member (str "strategy") ResolverStrategy_codec rc_strategy
    (λ a '(Build_ResolverConfig x0 x1 x2 x3 _), Build_ResolverConfig x0 x1 x2 x3 a)].
Definition ResolverConfig_codec : codec ResolverConfig := glz_object ResolverConfig_fields.

(* @src src/src/config/parser.hpp 60 75 glz::meta<Config::SubdomainConfig> *)
Definition SubdomainConfig_fields : list (field (SubdomainConfig json)) := [
  member (str "name") glz_string sd_name
    (λ a '(Build_SubdomainConfig _ x1 x2 x3 x4 x5 x6 x7 x8 x9), Build_SubdomainConfig a x1 x2 x3 x4 x5 x6 x7 x8 x9);
  member (str "type") RecordKind_codec sd_type
    (λ a '(Build_SubdomainConfig x0 _ x2 x3 x4 x5 x6 x7 x8 x9), Build_SubdomainConfig x0 a x2 x3 x4 x5 x6 x7 x8 x9);
  member (str "interface") glz_string sd_interface
    (λ a '(Build_SubdomainConfig x0 x1 _ x3 x4 x5 x6 x7 x8 x9), Build_SubdomainConfig x0 x1 a x3 x4 x5 x6 x7 x8 x9);
  member (str "ip_type") AddressFamily_codec sd_ip_type
    (λ a '(Build_SubdomainConfig x0 x1 x2 _ x4 x5 x6 x7 x8 x9), Build_SubdomainConfig x0 x1 x2 a x4 x5 x6 x7 x8 x9);
  member (str "ip_source") IpSource_codec sd_ip_source
    (λ a '(Build_SubdomainConfig x0 x1 x2 x3 _ x5 x6 x7 x8 x9), Build_SubdomainConfig x0 x1 x2 x3 a x5 x6 x7 x8 x9);
  member (str "ip_source_param") glz_string sd_ip_source_param
    (λ a '(Build_SubdomainConfig x0 x1 x2 x3 x4 _ x6 x7 x8 x9), Build_SubdomainConfig x0 x1 x2 x3 x4 a x6 x7 x8 x9);
  member (str "allow_ula") glz_bool sd_allow_ula
    (λ a '(Build_SubdomainConfig x0 x1 x2 x3 x4 x5 _ x7 x8 x9), Build_SubdomainConfig x0 x1 x2 x3 x4 x5 a x7 x8 x9);
  member (str "allow_local_link") glz_bool sd_allow_local_link
    (λ a '(Build_SubdomainConfig x0 x1 x2 x3 x4 x5 x6 _ x8 x9), Build_SubdomainConfig x0 x1 x2 x3 x4 x5 x6 a x8 x9);
  member (str "update_interval") int_codec sd_update_interval
    (λ a '(Build_SubdomainConfig x0 x1 x2 x3 x4 x5 x6 x7 _ x9), Build_SubdomainConfig x0 x1 x2 x3 x4 x5 x6 x7 a x9);
  member (str "driver_param") glz_generic sd_driver_param
    (λ a '(Build_SubdomainConfig x0 x1 x2 x3 x4 x5 x6 x7 x8 _), Build_SubdomainConfig x0 x1 x2 x3 x4 x5 x6 x7 x8 a)].
Definition SubdomainConfig_codec : codec (SubdomainConfig json) := glz_object SubdomainConfig_fields.

(* @src src/src/config/parser.hpp 78 88 glz::meta<Config::DomainConfig> *)
Definition DomainConfig_fields : list (field (DomainConfig json)) := [
  member (str "name") glz_string dm_name
    (λ a '(Build_DomainConfig _ x1 x2 x3 x4), Build_DomainConfig a x1 x2 x3 x4);
  member (str "update_interval") int_codec dm_update_interval
    (λ a '(Build_DomainConfig x0 _ x2 x3 x4), Build_DomainConfig x0 a x2 x3 x4);
  member (str "force_update") int_codec dm_force_update
    (λ a '(Build_DomainConfig x0 x1 _ x3 x4), Build_DomainConfig x0 x1 a x3 x4);
  member (str "driver") glz_string dm_driver
    (λ a '(Build_DomainConfig x0 x1 x2 _ x4), Build_DomainConfig x0 x1 x2 a x4);
  member (str "subdomains") (glz_vector default_subdomain SubdomainConfig_codec) dm_subdomains
    (λ a '(Build_DomainConfig x0 x1 x2 x3 _), Build_DomainConfig x0 x1 x2 x3 a)].
Definition DomainConfig_codec : codec (DomainConfig json) := glz_object DomainConfig_fields.

(* @src src/src/config/parser.hpp 91 99 glz::meta<Config::AppConfig> *)
Definition AppConfig_fields : list (field (AppConfig json)) := [
  member (str "driver") DriverConfig_codec app_driver
    (λ a '(Build_AppConfig _ x1 x2), Build_AppConfig a x1 x2);
  member (str "resolver") ResolverConfig_codec app_resolver
    (λ a '(Build_AppConfig x0 _ x2), Build_AppConfig x0 a x2);
  member (str "domains") (glz_vector default_domain DomainConfig_codec) app_domains
    (λ a '(Build_AppConfig x0 x1 _), Build_AppConfig x0 x1 a)].
Definition AppConfig_codec : codec (AppConfig json) := glz_object AppConfig_fields.

(** * Reading and writing *)

(** The text of a file, or why it cannot be read; the value that a text is, or why
    it is none; the text of the error of a value that does not fit the tables. *)
Context (read_file : bytes → bytes + bytes) (parse : bytes → bytes + json) (format_error : json → bytes).
(** The text that glaze writes for a value, or its error. *)
Context (print : json → bytes + bytes).

(** [glz::read_file_json(cfg, config_path, buffer)] on a fresh configuration *)
(* @src src/src/config/config.cpp 23 29 Config::load_config (reading) *)
Definition read_file_json (config_path : bytes) : bytes + AppConfig json :=
  match read_file config_path with
  | inl error => inl error
  | inr buffer =>
      match parse buffer with
      | inl error => inl error
      | inr j => match decode AppConfig_codec false default_config j with
                 | Some cfg => inr cfg
                 | None => inl (format_error j)
                 end
      end
  end.

(** [glz::write_json(config, json)] *)
(* @src src/src/cli/config.cpp 51 55 Cli::execute_config_show (writing) *)
Definition write_json (config : AppConfig json) : bytes + bytes := print (encode AppConfig_codec config).
End tables.

(** * What is written is read back *)

Section typed.
Context `{Glaze}.

Definition is_int (z : Z) : Prop := (-2147483648 ≤ z ≤ 2147483647)%Z.
Definition is_port (z : Z) : Prop := (0 ≤ z ≤ 65535)%Z.
Definition server_typed (s : DnsServer) : Prop := is_port (ds_port s).
Definition resolver_typed (r : ResolverConfig) : Prop := is_port (rc_port r) ∧ Forall server_typed (rc_servers r).
Definition subdomain_typed (s : SubdomainConfig json) : Prop :=
  is_int (sd_update_interval s) ∧ generic_holds (sd_driver_param s).
Definition domain_typed (d : DomainConfig json) : Prop :=
  is_int (dm_update_interval d) ∧ is_int (dm_force_update d) ∧ Forall subdomain_typed (dm_subdomains d).
(** The integers and the generic values are of their types. *)
Definition config_typed (c : AppConfig json) : Prop :=
  resolver_typed (app_resolver c) ∧ Forall domain_typed (app_domains c).

Definition plain (s : bytes) : Prop := plain_text s = true.
Definition server_plain (s : DnsServer) : Prop := plain (ds_address s).
Definition driver_plain (d : DriverConfig) : Prop :=
  (∀ dir, driver_dir d = Some dir → plain dir) ∧ Forall plain (load d).
Definition resolver_plain (r : ResolverConfig) : Prop := plain (rc_address r) ∧ Forall server_plain (rc_servers r).
Definition subdomain_plain (s : SubdomainConfig json) : Prop :=
  plain (sd_name s) ∧ plain (sd_interface s) ∧ plain (sd_ip_source_param s)
  ∧ printable (encode glz_generic (sd_driver_param s)) = true.
Definition domain_plain (d : DomainConfig json) : Prop :=
  plain (dm_name d) ∧ plain (dm_driver d) ∧ Forall subdomain_plain (dm_subdomains d).
(** The texts are UTF-8 without the control characters that are written as they are. *)
Definition config_plain (c : AppConfig json) : Prop :=
  driver_plain (app_driver c) ∧ resolver_plain (app_resolver c) ∧ Forall domain_plain (app_domains c).
End typed.

Section lossless.
Context `{GlazeOk}.

Lemma string_not_null s : encode glz_string s ≠ JNull.
Proof using All. by rewrite string_encode. Qed.
Lemma bool_not_null b : encode glz_bool b ≠ JNull.
Proof using All. by rewrite bool_encode. Qed.
Lemma integer_not_null lo hi z : encode (glz_integer lo hi) z ≠ JNull.
Proof using All. by rewrite integer_encode. Qed.
Lemma vector_not_null {A} (a : A) c l : encode (glz_vector a c) l ≠ JNull.
Proof using All. by rewrite vector_encode. Qed.
Lemma object_not_null {T} (table : list (field T)) v : encode (glz_object table) v ≠ JNull.
Proof using All. by rewrite object_encode. Qed.

(** The names of an enumeration name each of its values. *)
Lemma names_lossless {A} `{EqDecision A} (names : list (bytes * A)) :
  NoDup names.*1 → (∀ a, a ∈ names.*2) →
  (∀ d, lossless (glz_enumerate names) (λ _, True) d) ∧ ∀ a, encode (glz_enumerate names) a ≠ JNull.
Proof using All.
  intros Hnd Hall. split.
  - intros d a _. by apply enumerate_lossless.
  - intros a. by destruct (enumerate_encode names a Hnd (Hall a)) as (s & -> & _).
Qed.

Ltac by_computation := apply (bool_decide_unpack _); vm_compute; exact I.

Lemma strategy_names : (∀ d, lossless ResolverStrategy_codec (λ _, True) d) ∧ ∀ a, encode ResolverStrategy_codec a ≠ JNull.
Proof using All. apply names_lossless; [by_computation|]. intros []; by_computation. Qed.
Lemma source_names : (∀ d, lossless IpSource_codec (λ _, True) d) ∧ ∀ a, encode IpSource_codec a ≠ JNull.
Proof using All. apply names_lossless; [by_computation|]. intros []; by_computation. Qed.
Lemma kind_names : (∀ d, lossless RecordKind_codec (λ _, True) d) ∧ ∀ a, encode RecordKind_codec a ≠ JNull.
Proof using All. apply names_lossless; [by_computation|]. intros []; by_computation. Qed.
Lemma family_names : (∀ d, lossless AddressFamily_codec (λ _, True) d) ∧ ∀ a, encode AddressFamily_codec a ≠ JNull.
Proof using All. apply names_lossless; [by_computation|]. intros []; by_computation. Qed.

(** One member: what it reads, and that it is not null. *)
Lemma chain_member {T A} (key : bytes) (c : codec A) (get : T → A) (set : A → T → T) fields (P : A → Prop) v d :
  lossless c P (get d) → P (get v) → (encode c (get v) ≠ JNull ∨ set (get v) d = d) →
  chain false fields v (set (get v) d) → chain false (member key c get set :: fields) v d.
Proof using All.
  intros Hc Hv Hnull Hrest. exists (set (get v) d). split; [|split; [|done]].
  - cbn [member f_decode f_encode]. by rewrite (Hc _ Hv).
  - cbn [member f_encode]. intros Hn. by destruct Hnull.
Qed.

(** A member of a type without conditions. *)
Ltac plain_member :=
  apply (chain_member _ _ _ _ _ (λ _, True));
  [first [apply string_lossless|apply bool_lossless|apply strategy_names|apply source_names|apply kind_names
         |apply family_names|apply vector_lossless, string_lossless]
  |first [done|by apply Forall_true]
  |left; first [apply string_not_null|apply bool_not_null|apply strategy_names|apply source_names|apply kind_names
         |apply family_names|apply vector_not_null]|].
Ltac integer_member P :=
  apply (chain_member _ _ _ _ _ P);
  [apply integer_lossless|done|left; apply integer_not_null|].

Lemma server_lossless d : lossless DnsServer_codec server_typed d.
Proof using All.
  apply object_lossless; [by_computation|]. intros [a p] Hv. unfold DnsServer_fields.
  plain_member. plain_member. integer_member is_port. by destruct d.
Qed.

Lemma driver_lossless : lossless DriverConfig_codec (λ _, True) default_driver.
Proof using All.
  apply object_lossless; [by_computation|]. intros [dir auto l] _. unfold DriverConfig_fields.
  apply (chain_member _ _ _ _ _ (λ o, ∀ v, o = Some v → True)).
  - apply optional_lossless; [intros d; apply string_lossless|apply string_not_null].
  - done.
  - destruct dir as [dir|]; [left|by right]. rewrite optional_encode. apply string_not_null.
  - plain_member.
    apply (chain_member _ _ _ _ _ (Forall (λ _, True))); [apply vector_lossless, string_lossless|by apply Forall_true|left; apply vector_not_null|].
    done.
Qed.

Lemma resolver_lossless d : lossless ResolverConfig_codec resolver_typed d.
Proof using All.
  apply object_lossless; [by_computation|]. intros [u a p servers st] [Hp Hs]. unfold ResolverConfig_fields.
  plain_member. plain_member. plain_member. integer_member is_port.
  apply (chain_member _ _ _ _ _ (Forall server_typed)); [apply vector_lossless, server_lossless|done|left; apply vector_not_null|].
  plain_member. by destruct d.
Qed.

Lemma subdomain_lossless : lossless SubdomainConfig_codec subdomain_typed default_subdomain.
Proof using All.
  apply object_lossless; [by_computation|]. intros [n k i f src par ula ll iv p] [Hv Hp]. unfold SubdomainConfig_fields.
  do 8 plain_member. unfold int_codec. integer_member is_int.
  apply (chain_member _ _ _ _ _ generic_holds); [apply generic_lossless|done| |done].
  cbn [sd_driver_param] in *. destruct (decide (encode glz_generic p = JNull)) as [Hn|Hn]; [right|by left].
  by rewrite (generic_encode_null _ Hp Hn).
Qed.

Lemma domain_lossless d : lossless DomainConfig_codec domain_typed d.
Proof using All.
  apply object_lossless; [by_computation|]. intros [n iv force drv subs] (Hi & Hf & Hs). unfold DomainConfig_fields, int_codec.
  plain_member. integer_member is_int. integer_member is_int. plain_member.
  apply (chain_member _ _ _ _ _ (Forall subdomain_typed)); [apply vector_lossless, subdomain_lossless|done|left; apply vector_not_null|].
  by destruct d.
Qed.

Lemma config_lossless : lossless AppConfig_codec config_typed default_config.
Proof using All.
  apply object_lossless; [by_computation|]. intros [drv r ds] [Hr Hd]. unfold AppConfig_fields.
  apply (chain_member _ _ _ _ _ (λ _, True)); [apply driver_lossless|done|left; apply object_not_null|].
  apply (chain_member _ _ _ _ _ resolver_typed); [apply resolver_lossless|done|left; apply object_not_null|].
  apply (chain_member _ _ _ _ _ (Forall domain_typed)); [apply vector_lossless, domain_lossless|done|left; apply vector_not_null|].
  done.
Qed.

(** ** What is read is of its type *)

Ltac free_member := apply free_member_keeps; by intros ? [].

Lemma server_keeps : keeps DnsServer_codec server_typed.
Proof using All.
  apply object_keeps. unfold DnsServer_fields. repeat apply Forall_cons_2; try apply Forall_nil_2; try free_member.
  apply (member_keeps _ _ _ _ _ is_port); [apply integer_keeps|done|by intros ? []].
Qed.

Lemma resolver_keeps : keeps ResolverConfig_codec resolver_typed.
Proof using All.
  apply object_keeps. unfold ResolverConfig_fields. repeat apply Forall_cons_2; try apply Forall_nil_2; try free_member.
  - apply (member_keeps _ _ _ _ _ is_port); [apply integer_keeps|by intros ? []|].
    intros a [] [? ?]. done.
  - apply (member_keeps _ _ _ _ _ (Forall server_typed)); [|by intros ? []|].
    + apply vector_keeps; [by split|apply server_keeps].
    + intros a [] [? ?]. done.
Qed.

Lemma subdomain_keeps : keeps SubdomainConfig_codec subdomain_typed.
Proof using All.
  apply object_keeps. unfold SubdomainConfig_fields. repeat apply Forall_cons_2; try apply Forall_nil_2; try free_member.
  - apply (member_keeps _ _ _ _ _ is_int); [apply integer_keeps|by intros ? []|by intros ? [] []].
  - apply (member_keeps _ _ _ _ _ generic_holds); [apply generic_keeps|by intros ? []|by intros ? [] []].
Qed.

Lemma domain_keeps : keeps DomainConfig_codec domain_typed.
Proof using All.
  apply object_keeps. unfold DomainConfig_fields. repeat apply Forall_cons_2; try apply Forall_nil_2; try free_member.
  - apply (member_keeps _ _ _ _ _ is_int); [apply integer_keeps|by intros ? []|]. by intros a [] (? & ? & ?).
  - apply (member_keeps _ _ _ _ _ is_int); [apply integer_keeps|by intros ? (? & ? & ?)|]. by intros a [] (? & ? & ?).
  - apply (member_keeps _ _ _ _ _ (Forall subdomain_typed)); [|by intros ? (? & ? & ?)|by intros a [] (? & ? & ?)].
    apply vector_keeps; [|apply subdomain_keeps]. split; [done|]. by apply (generic_read false JNull JNull), generic_null.
Qed.

Lemma config_keeps : keeps AppConfig_codec config_typed.
Proof using All.
  apply object_keeps. unfold AppConfig_fields. repeat apply Forall_cons_2; try apply Forall_nil_2; try free_member.
  - apply (member_keeps _ _ _ _ _ resolver_typed); [apply resolver_keeps|by intros ? []|by intros a [] []].
  - apply (member_keeps _ _ _ _ _ (Forall domain_typed)); [|by intros ? []|by intros a [] []].
    apply vector_keeps; [|apply domain_keeps]. split_and!; [by split..|constructor].
Qed.

(** ** What is written has a text *)

Ltac prints_text := apply (member_prints _ _ _ _ _ plain); [reflexivity|apply string_prints|].
Ltac prints_bool := apply (member_prints _ _ _ _ _ (λ _, True)); [reflexivity|apply bool_prints|done].
Ltac prints_integer := apply (member_prints _ _ _ _ _ (λ _, True)); [reflexivity|apply integer_prints|done].
Ltac prints_name := apply (member_prints _ _ _ _ _ (λ _, True)); [reflexivity|apply enumerate_prints|done];
  [by_computation|intros []; by_computation|reflexivity].
Ltac each_field := repeat apply Forall_cons_2; try apply Forall_nil_2.

Lemma server_prints : prints DnsServer_codec server_plain.
Proof using All. apply object_prints. unfold DnsServer_fields. each_field; [prints_text; done..|prints_integer]. Qed.

Lemma driver_prints : prints DriverConfig_codec driver_plain.
Proof using All.
  apply object_prints. unfold DriverConfig_fields. each_field; [|prints_bool|].
  - apply (member_prints _ _ _ _ _ (λ o, ∀ v, o = Some v → plain v)); [reflexivity|apply optional_prints, string_prints|by intros ? []].
  - apply (member_prints _ _ _ _ _ (Forall plain)); [reflexivity|apply vector_prints, string_prints|by intros ? []].
Qed.

Lemma resolver_prints : prints ResolverConfig_codec resolver_plain.
Proof using All.
  apply object_prints. unfold ResolverConfig_fields.
  each_field; [prints_bool|prints_text; by intros ? []|prints_text; by intros ? []|prints_integer| |prints_name].
  apply (member_prints _ _ _ _ _ (Forall server_plain)); [reflexivity|apply vector_prints, server_prints|by intros ? []].
Qed.

Lemma subdomain_prints : prints SubdomainConfig_codec subdomain_plain.
Proof using All.
  apply object_prints. unfold SubdomainConfig_fields.
  each_field; [prints_text; by intros ? (? & ? & ? & ?)|prints_name|prints_text; by intros ? (? & ? & ? & ?)
    |prints_name|prints_name|prints_text; by intros ? (? & ? & ? & ?)|prints_bool|prints_bool|prints_integer|].
  apply (member_prints _ _ _ _ _ (λ g, printable (encode glz_generic g) = true)); [reflexivity|by intros g|by intros ? (? & ? & ? & ?)].
Qed.

Lemma domain_prints : prints DomainConfig_codec domain_plain.
Proof using All.
  apply object_prints. unfold DomainConfig_fields.
  each_field; [prints_text; by intros ? (? & ? & ?)|prints_integer|prints_integer|prints_text; by intros ? (? & ? & ?)|].
  apply (member_prints _ _ _ _ _ (Forall subdomain_plain)); [reflexivity|apply vector_prints, subdomain_prints|by intros ? (? & ? & ?)].
Qed.

Lemma config_prints : prints AppConfig_codec config_plain.
Proof using All.
  apply object_prints. unfold AppConfig_fields. each_field.
  - apply (member_prints _ _ _ _ _ driver_plain); [reflexivity|apply driver_prints|by intros ? (? & ? & ?)].
  - apply (member_prints _ _ _ _ _ resolver_plain); [reflexivity|apply resolver_prints|by intros ? (? & ? & ?)].
  - apply (member_prints _ _ _ _ _ (Forall domain_plain)); [reflexivity|apply vector_prints, domain_prints|by intros ? (? & ? & ?)].
Qed.
End lossless.

(** * Properties *)

(** The keys of the tables, in their order. *)
Definition config_keys `{Glaze} : list (list bytes) := [
  map f_key AppConfig_fields; map f_key DriverConfig_fields; map f_key ResolverConfig_fields; map f_key DnsServer_fields;
  map f_key DomainConfig_fields; map f_key SubdomainConfig_fields ].

(** The documentation lists the type soa, which no configuration can have. *)
Lemma soa_is_refused `{GlazeOk} m v : decode RecordKind_codec m v (JString (str "soa")) = None.
Proof. unfold RecordKind_codec. rewrite enumerate_decode. vm_compute. reflexivity. Qed.

(** C29: What [config show] writes for a configuration is read as the same
    configuration, for every one whose integers and generic values are of their
    types and whose texts are plain (UTF-8, and no control character without an
    escape of its own: glaze writes those as they are): no member is lost and none
    read as another, whichever of an enumeration's names and of the null members
    are written.  A configuration that a file gives is of its types.  The keys are
    these, and the older [ipaddress] and [url] are read as [address] and [http]. *)
Theorem config_show_roundtrip `{GlazeOk} (read_file : bytes → bytes + bytes) (parse : bytes → bytes + json)
    (format_error : json → bytes) (print : json → bytes + bytes) :
  (∀ j text, printable j = true → print j = inr text → parse text = inr j) →
  (∀ cfg text path, config_typed cfg → config_plain cfg → write_json print cfg = inr text → read_file path = inr text →
     read_file_json read_file parse format_error path = inr cfg)
  ∧ (∀ cfg path, read_file_json read_file parse format_error path = inr cfg → config_typed cfg)
  ∧ config_keys = [
      [str "driver"; str "resolver"; str "domains"];
      [str "driver_dir"; str "auto_discover"; str "load"];
      [str "use_custom_server"; str "address"; str "ipaddress"; str "port"; str "servers"; str "strategy"];
      [str "address"; str "ipaddress"; str "port"];
      [str "name"; str "update_interval"; str "force_update"; str "driver"; str "subdomains"];
      [str "name"; str "type"; str "interface"; str "ip_type"; str "ip_source"; str "ip_source_param"; str "allow_ula";
       str "allow_local_link"; str "update_interval"; str "driver_param"] ]
  ∧ (∀ v a, decode DnsServer_codec false v (JObject [(str "ipaddress", JString a)])
       = Some {| ds_address := a; ds_port := ds_port v |})
  ∧ (∀ m v, decode IpSource_codec m v (JString (str "url")) = Some HTTP).
Proof.
  intros Hprint. split_and!.
  - intros cfg text path Ht Hp Hw Hf. unfold read_file_json. rewrite Hf, (Hprint _ _ (config_prints _ Hp) Hw).
    by rewrite (config_lossless _ Ht).
  - intros cfg path Hread. unfold read_file_json in Hread.
    destruct (read_file path) as [|buffer]; [done|]. destruct (parse buffer) as [|j]; [done|].
    destruct (decode AppConfig_codec false default_config j) as [c|] eqn:Hj; [|done]. injection Hread as ->.
    apply (config_keeps _ _ _ _) in Hj; [done|]. repeat split; try done; constructor.
  - reflexivity.
  - intros [a0 p0] a. unfold DnsServer_codec. rewrite object_decode. cbn [andb].
    cbn [read_members]. match goal with |- context [find_field ?table ?key] =>
      let r := eval hnf in (find_field table key) in change (find_field table key) with r end.
    cbn [prod_map snd id mbind option_bind member f_decode]. by rewrite string_decode.
  - intros m v. unfold IpSource_codec. by rewrite enumerate_decode.
Qed.

(** ** An example *)

#[local] Existing Instances reference_glaze reference_glaze_ok.

Definition sample_json : json := JObject [
  (str "driver", JObject [(str "auto_discover", JBool true)]);
  (str "resolver", JObject [(str "servers", JArray [JObject [(str "ipaddress", JString (str "1.1.1.1"))]])]);
  (str "domains", JArray [JObject [
    (str "name", JString (str "example.com")); (str "update_interval", JInt 300); (str "driver", JString (str "simple"));
    (str "subdomains", JArray [JObject [
      (str "name", JString (str "www")); (str "type", JString (str "aaaa")); (str "ip_source", JString (str "url"));
      (str "driver_param", JObject [(str "url", JString (str "http://h/"))])]])]])].

Definition sample_config : AppConfig json :=
  default default_config (decode AppConfig_codec false default_config sample_json).

(** Two files: the sample's, and the one with what is printed for it. *)
Definition sample_read_file (path : bytes) : bytes + bytes := inr path.
Definition sample_parse (text : bytes) : bytes + json :=
  if decide (text = str "old") then inr sample_json
  else if decide (text = str "new") then inr (encode AppConfig_codec sample_config) else inl [].
Definition sample_print (j : json) : bytes + bytes :=
  if decide (j = encode AppConfig_codec sample_config) then inr (str "new") else inl [].

Lemma config_show_roundtrip_witness :
  config_typed sample_config ∧ length (app_domains sample_config) = 1
  ∧ read_file_json sample_read_file sample_parse (λ _, []) (str "new") = inr sample_config.
Proof.
  destruct (config_show_roundtrip sample_read_file sample_parse (λ _, []) sample_print)
    as (Hw & Hr & _).
  - intros j text _ Hp. unfold sample_print in Hp. destruct (decide (j = _)) as [->|]; [|discriminate Hp].
    injection Hp as <-. unfold sample_parse. vm_compute. reflexivity.
  - assert (config_typed sample_config) as Ht by (apply (Hr _ (str "old")); vm_compute; reflexivity).
    split; [exact Ht|]. split; [vm_compute; reflexivity|]. apply (Hw sample_config (str "new") (str "new")).
    + exact Ht.
    + repeat first [split|constructor]; try discriminate; vm_compute; reflexivity.
    + vm_compute. reflexivity.
    + reflexivity.
Defined.
