(* ===== verification/DnsBuilder.v ===== *)
(** [src/dns/wire/builder.h], [src/dns/wire/builder.cpp] and
    [src/dns/wire/query_util.h]: construction of DNS queries in wire format.

    [WireWriter] appends to a buffer that is passed along; [QueryBuilder] is
    the record of the builder's fields and [build] the whole packet.  The
    random engine is not modelled: [QueryBuilder_new] takes the number it
    drew. *)
From S2P Require Import Prelude CppString StringUtil Bytes DnsTypes.

(** The [DnsPacketException]s the builder throws, one constructor per throw
    statement, carrying the values its message shows. *)
Inductive DnsPacketException :=
| NoQuestion
| NameTooLong (name : bytes) (encoded_size : nat)
| LabelTooLong (name : bytes) (pos : nat)
| EdnsVersionUnsupported (version : Z)
| EdnsPayloadTooSmall (size : Z).

#[global] Instance DnsPacketException_eq_dec : EqDecision DnsPacketException.
Proof. solve_decision. Defined.

Abbreviation build_result := (outcome DnsPacketException).

(** * WireWriter *)

Module WireWriter.

(* @fn src/src/dns/wire/builder.cpp | void write_uint16( | WireWriter::write_uint16 *)
Definition write_uint16 (buf : bytes) (v : Z) : bytes :=
  buf ++ [u8 (Z.shiftr v 8); u8 (Z.land v 0xFF)].

(* @fn src/src/dns/wire/builder.cpp | void write_uint32( | WireWriter::write_uint32 *)
Definition write_uint32 (buf : bytes) (v : Z) : bytes :=
  buf ++ [u8 (Z.shiftr v 24); u8 (Z.shiftr v 16); u8 (Z.shiftr v 8); u8 (Z.land v 0xFF)].

(** The label loop of [encode_name].  Every iteration moves [pos] past a dot or
    past the end, so [length name] iterations are enough. *)
(* @fn src/src/dns/wire/builder.cpp | void encode_name( ==> while (pos < name.size()) | WireWriter::encode_name (loop) *)
Fixpoint encode_labels (fuel : nat) (name : bytes) (pos : nat) (buf : bytes)
    : build_result bytes :=
  if pos <? length name then
    match fuel with
    | O => OutOfFuel
    | S fuel =>
        let dot := default (length name) (find name [ch "."] pos) in
        let label_len := u8 (Z.of_nat (dot - pos)) in
        if (63 <? label_len)%Z then Throw (LabelTooLong name pos) else
        encode_labels fuel name (dot + 1)
          (buf ++ label_len :: sub name pos (Z.to_nat label_len))
    end
  else Ret buf.

(** The length computed up front: one octet more than the name when it ends in
    a dot, two otherwise. *)
(* @src src/src/dns/wire/builder.cpp 51 57 WireWriter::encode_name (encoded_size) *)
Definition encoded_size (name : bytes) : nat :=
  length name + (if decide (last name = Some (ch ".")) then 1 else 2).

(* @fn src/src/dns/wire/builder.cpp | void encode_name( ^5 | WireWriter::encode_name *)
Definition encode_name (buf name : bytes) : build_result bytes :=
  if decide (name = [] ∨ name = [ch "."]) then Ret (buf ++ [0%Z]) else
  if 255 <? encoded_size name then Throw (NameTooLong name (encoded_size name)) else
  buf ← encode_labels (length name) name 0 buf;
  Ret (buf ++ [0%Z]).

(* @fn src/src/dns/wire/builder.cpp | void write_bytes( | WireWriter::write_bytes *)
Definition write_bytes (buf bs : bytes) : bytes := buf ++ bs.

End WireWriter.
Import WireWriter.

(** * Header flags *)

(* @src src/src/dns/wire/builder.cpp 100 105 FLAG_QR, FLAG_AA, FLAG_TC, FLAG_RD, FLAG_RA *)
Definition FLAG_QR : Z := 0x8000.
Definition FLAG_AA : Z := 0x0400.
Definition FLAG_TC : Z := 0x0200.
Definition FLAG_RD : Z := 0x0100.
Definition FLAG_RA : Z := 0x0080.

(* @fn src/src/dns/wire/builder.cpp | OPT_RR_TYPE = 41 | OPT_RR_TYPE *)
Definition OPT_RR_TYPE : Z := 41.

Definition flag (b : bool) (v : Z) : Z := if b then v else 0%Z.

(* @fn src/src/dns/wire/builder.cpp | build_flags(bool qr ^10 | build_flags *)
Definition build_flags (qr : bool) (opcode : Z) (aa tc rd ra : bool) (rcode : Z) : Z :=
  u16 (Z.lor (Z.lor (Z.lor (Z.lor (Z.lor (Z.lor
        (flag qr FLAG_QR)
        (Z.shiftl (Z.land opcode 0x0F) 11))
        (flag aa FLAG_AA)) (flag tc FLAG_TC)) (flag rd FLAG_RD)) (flag ra FLAG_RA))
        (Z.land rcode 0x0F)).

(** * QueryBuilder *)

(* @fn src/src/dns/wire/builder.h | struct EdnsConfig | QueryBuilder::EdnsConfig *)
Record EdnsConfig := {
  cfg_udp_payload_size : Z;
  cfg_version : Z;
  cfg_dnssec_ok : bool;
  cfg_options : list EdnsOption
}.

(* @fn src/src/dns/wire/builder.h | struct PendingQuestion | QueryBuilder::PendingQuestion *)
Record PendingQuestion := {
  pq_qname : bytes;
  pq_qtype : RecordType;
  pq_qclass : Z
}.

(* @src src/src/dns/wire/builder.h 134 144 QueryBuilder (members) *)
Record QueryBuilder := {
  id_ : Z;
  qr_ : bool;
  opcode_ : Z;
  aa_ : bool;
  tc_ : bool;
  rd_ : bool;
  ra_ : bool;
  rcode_ : Rcode;
  questions_ : list PendingQuestion;
  edns_ : option EdnsConfig
}.

(** [rnd] is the number drawn from [Utils::Random::engine()]. *)
(* @fn src/src/dns/wire/builder.cpp | QueryBuilder::QueryBuilder() | QueryBuilder::QueryBuilder *)
Definition QueryBuilder_new (rnd : Z) : QueryBuilder :=
  {| id_ := Z.land rnd 0xFFFF; qr_ := false; opcode_ := 0; aa_ := false; tc_ := false;
     rd_ := true; ra_ := false; rcode_ := NOERROR; questions_ := []; edns_ := None |}.

(* @fn src/src/dns/wire/builder.cpp | &QueryBuilder::id(std | QueryBuilder::id *)
Definition set_id (v : Z) (b : QueryBuilder) : QueryBuilder :=
  {| id_ := v; qr_ := qr_ b; opcode_ := opcode_ b; aa_ := aa_ b; tc_ := tc_ b;
     rd_ := rd_ b; ra_ := ra_ b; rcode_ := rcode_ b; questions_ := questions_ b;
     edns_ := edns_ b |}.

(* @fn src/src/dns/wire/builder.cpp | &QueryBuilder::qr(bool | QueryBuilder::qr *)
Definition set_qr (v : bool) (b : QueryBuilder) : QueryBuilder :=
  {| id_ := id_ b; qr_ := v; opcode_ := opcode_ b; aa_ := aa_ b; tc_ := tc_ b;
     rd_ := rd_ b; ra_ := ra_ b; rcode_ := rcode_ b; questions_ := questions_ b;
     edns_ := edns_ b |}.

(* @fn src/src/dns/wire/builder.cpp | &QueryBuilder::opcode(std | QueryBuilder::opcode *)
Definition set_opcode (v : Z) (b : QueryBuilder) : QueryBuilder :=
  {| id_ := id_ b; qr_ := qr_ b; opcode_ := v; aa_ := aa_ b; tc_ := tc_ b;
     rd_ := rd_ b; ra_ := ra_ b; rcode_ := rcode_ b; questions_ := questions_ b;
     edns_ := edns_ b |}.

(* @fn src/src/dns/wire/builder.cpp | &QueryBuilder::aa(bool | QueryBuilder::aa *)
Definition set_aa (v : bool) (b : QueryBuilder) : QueryBuilder :=
  {| id_ := id_ b; qr_ := qr_ b; opcode_ := opcode_ b; aa_ := v; tc_ := tc_ b;
     rd_ := rd_ b; ra_ := ra_ b; rcode_ := rcode_ b; questions_ := questions_ b;
     edns_ := edns_ b |}.

(* @fn src/src/dns/wire/builder.cpp | &QueryBuilder::tc(bool | QueryBuilder::tc *)
Definition set_tc (v : bool) (b : QueryBuilder) : QueryBuilder :=
  {| id_ := id_ b; qr_ := qr_ b; opcode_ := opcode_ b; aa_ := aa_ b; tc_ := v;
     rd_ := rd_ b; ra_ := ra_ b; rcode_ := rcode_ b; questions_ := questions_ b;
     edns_ := edns_ b |}.

(* @fn src/src/dns/wire/builder.cpp | &QueryBuilder::rd(bool | QueryBuilder::rd *)
Definition set_rd (v : bool) (b : QueryBuilder) : QueryBuilder :=
  {| id_ := id_ b; qr_ := qr_ b; opcode_ := opcode_ b; aa_ := aa_ b; tc_ := tc_ b;
     rd_ := v; ra_ := ra_ b; rcode_ := rcode_ b; questions_ := questions_ b;
     edns_ := edns_ b |}.

(* @fn src/src/dns/wire/builder.cpp | &QueryBuilder::ra(bool | QueryBuilder::ra *)
Definition set_ra (v : bool) (b : QueryBuilder) : QueryBuilder :=
  {| id_ := id_ b; qr_ := qr_ b; opcode_ := opcode_ b; aa_ := aa_ b; tc_ := tc_ b;
     rd_ := rd_ b; ra_ := v; rcode_ := rcode_ b; questions_ := questions_ b;
     edns_ := edns_ b |}.

(* @fn src/src/dns/wire/builder.cpp | &QueryBuilder::rcode(Rcode | QueryBuilder::rcode *)
Definition set_rcode (v : Rcode) (b : QueryBuilder) : QueryBuilder :=
  {| id_ := id_ b; qr_ := qr_ b; opcode_ := opcode_ b; aa_ := aa_ b; tc_ := tc_ b;
     rd_ := rd_ b; ra_ := ra_ b; rcode_ := v; questions_ := questions_ b;
     edns_ := edns_ b |}.

(* @fn src/src/dns/wire/builder.cpp | &QueryBuilder::add_question_raw_qclass( | QueryBuilder::add_question_raw_qclass *)
Definition add_question_raw_qclass (qname : bytes) (qtype : RecordType) (raw_qclass : Z)
    (b : QueryBuilder) : QueryBuilder :=
  {| id_ := id_ b; qr_ := qr_ b; opcode_ := opcode_ b; aa_ := aa_ b; tc_ := tc_ b;
     rd_ := rd_ b; ra_ := ra_ b; rcode_ := rcode_ b;
     questions_ := questions_ b ++
       [{| pq_qname := qname; pq_qtype := qtype; pq_qclass := raw_qclass |}];
     edns_ := edns_ b |}.

(* @fn src/src/dns/wire/builder.cpp | &QueryBuilder::add_question( | QueryBuilder::add_question *)
Definition add_question (qname : bytes) (qtype : RecordType) (qclass : RecordClass)
    (b : QueryBuilder) : QueryBuilder :=
  {| id_ := id_ b; qr_ := qr_ b; opcode_ := opcode_ b; aa_ := aa_ b; tc_ := tc_ b;
     rd_ := rd_ b; ra_ := ra_ b; rcode_ := rcode_ b;
     questions_ := questions_ b ++
       [{| pq_qname := qname; pq_qtype := qtype; pq_qclass := record_class_code qclass |}];
     edns_ := edns_ b |}.

(* @fn src/src/dns/wire/builder.cpp | &QueryBuilder::add_edns( | QueryBuilder::add_edns *)
Definition add_edns (udp_payload_size version : Z) (dnssec_ok : bool)
    (options : list EdnsOption) (b : QueryBuilder) : QueryBuilder :=
  {| id_ := id_ b; qr_ := qr_ b; opcode_ := opcode_ b; aa_ := aa_ b; tc_ := tc_ b;
     rd_ := rd_ b; ra_ := ra_ b; rcode_ := rcode_ b; questions_ := questions_ b;
     edns_ := Some {| cfg_udp_payload_size := udp_payload_size; cfg_version := version;
                      cfg_dnssec_ok := dnssec_ok; cfg_options := options |} |}.

(** ** [build] *)

(* @fn src/src/dns/wire/builder.cpp | for (const auto &q: questions_) | QueryBuilder::build (question section) *)
Fixpoint write_questions (w : bytes) (qs : list PendingQuestion) : build_result bytes :=
  match qs with
  | [] => Ret w
  | q :: qs' =>
      w ← encode_name w (pq_qname q);
      let w := write_uint16 w (record_type_code (pq_qtype q)) in
      let w := write_uint16 w (pq_qclass q) in
      write_questions w qs'
  end.

(* @src src/src/dns/wire/builder.cpp 270 275 QueryBuilder::build (rdlength) *)
Definition edns_rdlength (options : list EdnsOption) : Z :=
  foldl (λ rdlength opt, u16 (rdlength + u16 (4 + Z.of_nat (length (opt_data opt))))) 0%Z options.

(* @src src/src/dns/wire/builder.cpp 278 283 QueryBuilder::build (options) *)
Definition write_option (w : bytes) (opt : EdnsOption) : bytes :=
  let w := write_uint16 w (opt_code opt) in
  let w := write_uint16 w (u16 (Z.of_nat (length (opt_data opt)))) in
  write_bytes w (opt_data opt).

(* @fn src/src/dns/wire/builder.cpp | QueryBuilder::build() const ==> if (edns_.has_value()) { | QueryBuilder::build (OPT pseudo-record) *)
Definition write_edns (w : bytes) (edns : EdnsConfig) : build_result bytes :=
  _ ← throw_if (negb (cfg_version edns =? 0)%Z) (EdnsVersionUnsupported (cfg_version edns));
  _ ← throw_if (cfg_udp_payload_size edns <? 512)%Z (EdnsPayloadTooSmall (cfg_udp_payload_size edns));
  w ← encode_name w [];
  let w := write_uint16 w OPT_RR_TYPE in
  let w := write_uint16 w (cfg_udp_payload_size edns) in
  let ttl := u32 (Z.lor (Z.shiftl (cfg_version edns) 16)
                        (if cfg_dnssec_ok edns then 0x8000 else 0)%Z) in
  let w := write_uint32 w ttl in
  let w := write_uint16 w (edns_rdlength (cfg_options edns)) in
  Ret (foldl write_option w (cfg_options edns)).

(* @fn src/src/dns/wire/builder.cpp | QueryBuilder::build() const | QueryBuilder::build *)
Definition build (b : QueryBuilder) : build_result bytes :=
  _ ← throw_if (bool_decide (questions_ b = [])) NoQuestion;
  let qdcount := u16 (Z.of_nat (length (questions_ b))) in
  let arcount := match edns_ b with Some _ => 1 | None => 0 end%Z in
  let w := write_uint16 [] (id_ b) in
  let w := write_uint16 w
    (build_flags (qr_ b) (opcode_ b) (aa_ b) (tc_ b) (rd_ b) (ra_ b) (rcode_ b)) in
  let w := write_uint16 w qdcount in
  let w := write_uint16 w 0 in
  let w := write_uint16 w 0 in
  let w := write_uint16 w arcount in
  w ← write_questions w (questions_ b);
  match edns_ b with
  | Some edns => write_edns w edns
  | None => Ret w
  end.

(* @fn src/src/dns/wire/query_util.h | inline std::vector<std::uint8_t> build_query( | DNS::build_query *)
Definition build_query (rnd : Z) (host : bytes) (type : RecordType) : build_result bytes :=
  build (add_edns 1232 0 false [] (add_question host type IN (QueryBuilder_new rnd))).

(** * Lemmas on WireWriter *)

Lemma u8_land v : u8 (Z.land v 0xFF) = u8 v.
Proof.
  change 0xFF%Z with (2 ^ 8 - 1)%Z. rewrite land_mod_pow2 by lia.
  unfold u8. by rewrite Z.mod_mod by lia.
Qed.

Lemma write_uint16_eq buf v : write_uint16 buf v = buf ++ u16_be v.
Proof. unfold write_uint16, u16_be. by rewrite u8_land. Qed.

Definition u32_be (v : Z) : bytes :=
  [u8 (Z.shiftr v 24); u8 (Z.shiftr v 16); u8 (Z.shiftr v 8); u8 v].

Lemma write_uint32_eq buf v : write_uint32 buf v = buf ++ u32_be v.
Proof. unfold write_uint32, u32_be. by rewrite u8_land. Qed.

Create Rewrite HintDb wire.
#[export] Hint Rewrite write_uint16_eq write_uint32_eq : wire.

(** ** Names *)

(** A label in the sense of RFC 1035: 1 to 63 octets, none of them a dot. *)
Definition label_ok (l : bytes) : Prop :=
  l ≠ [] ∧ length l ≤ 63 ∧ (ch "." ∉ l) ∧ Forall is_byte l.

Definition dotted (ls : list bytes) : bytes := join ls [ch "."].

(** The wire form of a name: each label with its length in front, then 0. *)
Definition wire_labels (ls : list bytes) : bytes :=
  concat (map (λ l, Z.of_nat (length l) :: l) ls).
Definition wire_name (ls : list bytes) : bytes := wire_labels ls ++ [0%Z].

Lemma dotted_cons l ls : ls ≠ [] → dotted (l :: ls) = l ++ ch "." :: dotted ls.
Proof. by destruct ls. Qed.

Lemma wire_labels_length ls :
  ls ≠ [] → length (wire_labels ls) = length (dotted ls) + 1.
Proof.
  intros Hne. induction ls as [|l ls IH]; [done|].
  unfold wire_labels in *. cbn [map concat]. rewrite length_app.
  destruct (decide (ls = [])) as [->|Hls].
  { change (dotted [l]) with l. simpl. lia. }
  rewrite dotted_cons, IH by done. rewrite !length_app. simpl. lia.
Qed.

Lemma wire_name_length ls :
  ls ≠ [] → length (wire_name ls) = length (dotted ls) + 2.
Proof. intros. unfold wire_name. rewrite length_app, wire_labels_length by done. simpl. lia. Qed.

Lemma wire_labels_bytes ls : Forall label_ok ls → Forall is_byte (wire_labels ls).
Proof.
  induction 1 as [|l ls (_ & Hl & _ & Hb) _ IH]; [constructor|].
  unfold wire_labels in *. cbn [map concat]. apply Forall_app. split; [|done].
  constructor; [unfold is_byte; lia|done].
Qed.

Lemma encode_labels_dotted fuel pre ls buf :
  ls ≠ [] → Forall label_ok ls → length ls ≤ fuel →
  encode_labels fuel (pre ++ dotted ls) (length pre) buf = Ret (buf ++ wire_labels ls).
Proof.
  revert pre ls buf. induction fuel as [|fuel IH]; intros pre ls buf Hne Hok Hf.
  { destruct ls; simpl in *; [done|lia]. }
  destruct ls as [|l ls]; [done|]. apply Forall_cons_1 in Hok as [(Hl0 & Hl63 & Hdot & Hb) Hok].
  assert (0 < length l) as Hl by (destruct l; [done|simpl; lia]).
  assert (u8 (Z.of_nat (length l)) = Z.of_nat (length l)) as Hu8
    by (apply u8_small; unfold is_byte; lia).
  cbn [encode_labels]. destruct (decide (ls = [])) as [->|Hls].
  - change (dotted [l]) with l. rewrite length_app.
    rewrite (proj2 (Nat.ltb_lt _ _)) by lia.
    rewrite find_char_notin by (by rewrite drop_app_length). cbn [default].
    replace (length pre + length l - length pre) with (length l) by lia.
    rewrite Hu8, Nat2Z.id, (proj2 (Z.ltb_ge _ _)) by lia.
    unfold sub. rewrite drop_app_length, take_ge by lia.
    assert (∀ f b, encode_labels f (pre ++ l) (length pre + length l + 1) b = Ret b) as ->.
    { intros f b. destruct f; cbn [encode_labels];
        by rewrite length_app, (proj2 (Nat.ltb_ge _ _)) by lia. }
    unfold wire_labels. simpl. by rewrite app_nil_r.
  - rewrite dotted_cons by done.
    rewrite (proj2 (Nat.ltb_lt _ _)) by (rewrite !length_app; simpl; lia).
    rewrite app_assoc, find_char_app;
      [|rewrite length_app; lia|by rewrite drop_app_length].
    cbn [default]. unfold id. rewrite length_app.
    replace (length pre + length l - length pre) with (length l) by lia.
    rewrite Hu8, Nat2Z.id, (proj2 (Z.ltb_ge _ _)) by lia.
    rewrite <- app_assoc, (sub_app_exact pre l) by done.
    replace (pre ++ l ++ ch "." :: dotted ls) with ((pre ++ l ++ [ch "."]) ++ dotted ls)
      by (by rewrite <- !app_assoc).
    replace (length pre + length l + 1) with (length (pre ++ l ++ [ch "."]))
      by (rewrite !length_app; simpl; lia).
    rewrite IH by (try done; simpl in Hf; lia).
    unfold wire_labels. cbn [map concat]. by rewrite <- !app_assoc.
Qed.

Lemma dotted_last ls :
  ls ≠ [] → Forall label_ok ls → last (dotted ls) ≠ Some (ch ".").
Proof.
  intros Hne Hok. induction Hok as [|l ls (Hl0 & _ & Hdot & _) Hok IH]; [done|].
  destruct (decide (ls = [])) as [->|Hls].
  - change (dotted [l]) with l. intros Hlast. apply Hdot.
    by apply last_Some_elem_of.
  - rewrite dotted_cons by done. rewrite last_app_cons.
    assert (dotted ls ≠ []) as Hd.
    { inversion Hok as [|l' ls' (Hl' & _) _]; subst; [done|].
      destruct (decide (ls' = [])) as [->|]; [done|]. rewrite dotted_cons by done.
      destruct l'; done. }
    destruct (dotted ls) as [|x d] eqn:Hdd; [done|]. rewrite last_cons_cons. by apply IH.
Qed.

Lemma dotted_not_root ls :
  ls ≠ [] → Forall label_ok ls → ¬ (dotted ls = [] ∨ dotted ls = [ch "."]).
Proof.
  intros Hne Hok. inversion Hok as [|l ls' (Hl & _ & Hdot & _) _]; subst; [done|].
  assert (∃ x l' k, l = x :: l' ∧ dotted (l :: ls') = x :: l' ++ k) as (x & l' & k & -> & ->).
  { destruct l as [|x l']; [done|]. destruct (decide (ls' = [])) as [->|].
    - exists x, l', []. by rewrite app_nil_r.
    - exists x, l', (ch "." :: dotted ls'). by rewrite dotted_cons. }
  intros [?|Heq]; [done|]. injection Heq as -> _. apply Hdot. by left.
Qed.

Lemma encode_name_dotted buf ls :
  ls ≠ [] → Forall label_ok ls → length (dotted ls) ≤ 253 →
  encode_name buf (dotted ls) = Ret (buf ++ wire_name ls).
Proof.
  intros Hne Hok Hlen. unfold encode_name, encoded_size.
  rewrite decide_False by (by apply dotted_not_root).
  rewrite decide_False by (by apply dotted_last).
  rewrite (proj2 (Nat.ltb_ge _ _)) by lia.
  rewrite (encode_labels_dotted _ [] ls buf); [|done|done|].
  - simpl. unfold wire_name. by rewrite app_assoc.
  - clear Hlen. induction Hok as [|l ls (Hl & _) Hok IH]; [done|].
    destruct (decide (ls = [])) as [->|].
    + destruct l; [done|simpl; lia].
    + rewrite dotted_cons, length_app by done. simpl. specialize (IH ltac:(done)).
      destruct l; [done|simpl; lia].
Qed.

Lemma encode_name_root buf : encode_name buf [] = Ret (buf ++ [0%Z]).
Proof. done. Qed.

(** Whatever the name, empty labels and a trailing dot included, the loop
    writes the announced number of octets or rejects a label. *)
Lemma encode_labels_length fuel name pos buf :
  let N := length name + (if decide (last name = Some (ch ".")) then 0 else 1) in
  pos ≤ N → (pos = length name → last name = Some (ch ".")) → length name - pos ≤ fuel →
  N ≤ 254 →
  wp (encode_labels fuel name pos buf)
    (λ r, ∃ enc, r = buf ++ enc ∧ length enc = N - pos)
    (λ e, ∃ p, e = LabelTooLong name p
       ∧ 63 < default (length name) (find name [ch "."] p) - p).
Proof.
  intros N. revert pos buf. induction fuel as [|fuel IH]; intros pos buf Hpos Hend Hf HN;
    cbn [encode_labels]; destruct (pos <? length name) eqn:Hlt; prop_of_bool.
  1: lia.
  1,3: exists []; rewrite app_nil_r; split; [done|]; subst N; simpl; case_decide; [lia|];
       assert (pos ≠ length name) by naive_solver; lia.
  set (dot := default (length name) _).
  assert (pos ≤ dot ≤ length name ∧ (dot < length name → name !! dot = Some (ch "."))) as [Hdot Hdc].
  { subst dot. destruct (find name [ch "."] pos) as [d|] eqn:Hd; simpl; [|lia].
    apply find_char_Some in Hd as (? & Hd & _). apply lookup_lt_Some in Hd as ?. split; [lia|done]. }
  assert (dot + 1 ≤ N ∧ (dot + 1 = length name → last name = Some (ch "."))) as [HdN Hde].
  { split.
    - subst N. case_decide as Hl; [|lia].
      destruct (decide (dot = length name)) as [Hd|]; [|lia]. exfalso.
      subst dot. destruct (find name [ch "."] pos) as [d|] eqn:Hf'; simpl in *.
      + apply find_Some_bound in Hf'. simpl in Hf'. lia.
      + apply find_char_None in Hf'. apply Hf'. rewrite last_lookup in Hl.
        apply list_elem_of_lookup. exists (pred (length name) - pos). rewrite lookup_drop.
        by replace (pos + (pred (length name) - pos)) with (pred (length name)) by lia.
    - intros Hd. rewrite last_lookup, <- Hd. replace (pred (dot + 1)) with dot by lia.
      apply Hdc. lia. }
  assert (u8 (Z.of_nat (dot - pos)) = Z.of_nat (dot - pos)) as Hu8.
  { apply u8_small. unfold is_byte. subst N. case_decide; lia. }
  rewrite Hu8. destruct (63 <? Z.of_nat (dot - pos))%Z eqn:H63; prop_of_bool.
  { simpl. exists pos. split; [done|]. fold dot. lia. }
  rewrite Nat2Z.id. eapply wp_mono; [apply IH; [lia|done|lia|lia]| |done].
  intros r (enc & -> & Hlen). exists (Z.of_nat (dot - pos) :: sub name pos (dot - pos) ++ enc).
  rewrite <- app_assoc. split; [done|]. simpl. rewrite length_app, sub_length by lia. lia.
Qed.

(** Whether a name is written as the root. *)
Definition is_root (name : bytes) : Prop := name = [] ∨ name = [ch "."].

Lemma encode_name_spec buf name :
  wp (encode_name buf name)
    (λ r, ∃ enc, r = buf ++ enc
       ∧ (is_root name → enc = [0%Z])
       ∧ (¬ is_root name → length enc = encoded_size name ∧ encoded_size name ≤ 255))
    (λ e, (e = NameTooLong name (encoded_size name) ∧ 255 < encoded_size name)
        ∨ (∃ p, e = LabelTooLong name p ∧ 63 < default (length name) (find name [ch "."] p) - p)).
Proof.
  unfold encode_name. case_decide as Hroot.
  { exists [0%Z]. split; [done|]. split; [done|]. by intros []. }
  destruct (255 <? encoded_size name) eqn:Hs; prop_of_bool; [by left|].
  assert (name ≠ []) as Hne by naive_solver.
  eapply wp_call.
  - eapply wp_mono; [apply encode_labels_length| |intros e He; right; exact He].
    all: unfold encoded_size in Hs; try (case_decide; lia).
    + intros Hl. destruct name; [done|simpl in Hl; lia].
    + intros r Hr. exact Hr.
  - intros r _ (enc & -> & Hlen). simpl. exists (enc ++ [0%Z]). rewrite app_assoc.
    split; [done|]. split; [done|]. intros _. split; [|done].
    rewrite length_app, Hlen. unfold encoded_size. simpl. case_decide; lia.
Qed.

(** * Properties *)

(** Every name is encoded or rejected, never truncated or overrun: the root
    (the empty name or a lone dot) becomes one zero octet; any other name
    becomes exactly [encoded_size] octets, at most 255, when the call returns; it
    throws only because that size is above 255 or because a label starting at
    the reported position is longer than 63 octets. *)
Theorem encode_name_bounded (buf name : bytes) :
  (∃ enc, encode_name buf name = Ret (buf ++ enc)
     ∧ (is_root name → enc = [0%Z])
     ∧ (¬ is_root name → length enc = encoded_size name ∧ encoded_size name ≤ 255))
  ∨ (encode_name buf name = Throw (NameTooLong name (encoded_size name))
     ∧ 255 < encoded_size name)
  ∨ (∃ p, encode_name buf name = Throw (LabelTooLong name p)
     ∧ 63 < default (length name) (find name [ch "."] p) - p).
Proof.
  destruct (wp_cases _ _ _ (encode_name_spec buf name))
    as [(r & Heq & enc & -> & He)|(e & Heq & [[-> ?]|(p & -> & ?)])].
  - left. by exists enc.
  - right. by left.
  - right. right. by exists p.
Qed.
