(* ===== verification/DnsParser.v ===== *)
(** [src/dns/parser/parser_native.h] and [.cpp]: the self-contained parser of
    DNS responses ([RecordParser]).

    Offsets into the packet are natural numbers.  Every access to the packet is
    a checked read ([rd], [read_u16_be], [subspan]) whose failure is [Undef], so
    that the bounds the code relies on are theorems here.  [inet_ntop] is a
    parameter. *)
From S2P Require Import Prelude CppString Bytes DnsTypes.

(** The [DnsLookupException]s of the parser, one constructor per throw
    statement, carrying the values its message shows. *)
Inductive parse_fault :=
| OffsetBeyondWire (offset wire_len : nat)
| PointerTruncated (offset : nat)
| TooManyIndirections
| PointerCycle (ptr_offset : nat)
| InvalidLabelLength (label_len : Z) (offset : nat)
| LabelPastEnd (label_len : Z)
| TxtSegmentTooLong (seg_len pos : nat)
| EdnsOptionTruncated (code : Z) (opt_len remaining : nat)
| BadALength (rdlen : nat)
| BadAAAALength (rdlen : nat)
| UnsupportedType (type : Z)
| PacketTooShort (size : nat)
| QuestionTruncated (offset : nat)
| RRHeaderTruncated (offset : nat)
| RDataTruncated (offset rd_length : nat)
| IndexOutOfBounds (index : nat) (ancount : Z).

(* @fn src/include/exception/dns_lookup.h | class DnsLookupException | DnsLookupException *)
Inductive DnsLookupException := DnsLookup (what : parse_fault) (error : DnsError).

(* @fn src/include/exception/dns_lookup.h | DnsError get_error() | DnsLookupException::get_error *)
Definition get_error (e : DnsLookupException) : DnsError :=
  match e with DnsLookup _ error => error end.

Abbreviation parse_result := (outcome DnsLookupException).

(** Every throw of the parser has the code [PARSE]. *)
Definition fault (f : parse_fault) : DnsLookupException := DnsLookup f PARSE.
Definition is_parse_error (e : DnsLookupException) : Prop := get_error e = PARSE.

(** [e.what()].  [type_name] is [magic_enum::enum_name] of a record type. *)
Definition parse_what (type_name : Z → bytes) (f : parse_fault) : bytes :=
  let n k := dec (Z.of_nat k) in
  match f with
  | OffsetBeyondWire o len => str "DNS name decompression: offset " ++ n o
      ++ str " beyond wire length " ++ n len
  | PointerTruncated o => str "DNS name decompression: pointer at offset " ++ n o ++ str " truncated"
  | TooManyIndirections => str "DNS name decompression: too many indirections (7)"
  | PointerCycle o => str "DNS name decompression: repeated pointer to offset " ++ n o ++ str " (cycle)"
  | InvalidLabelLength len o => str "DNS name decompression: invalid label length " ++ dec len
      ++ str " at offset " ++ n o
  | LabelPastEnd len => str "DNS name decompression: label of length " ++ dec len
      ++ str " extends past wire end"
  | TxtSegmentTooLong len pos => str "Invalid TXT record: segment length " ++ n len
      ++ str " exceeds RDATA at offset " ++ n pos
  | EdnsOptionTruncated code len rest => str "EDNS0 option truncated: code=" ++ dec code
      ++ str ", declared length=" ++ n len ++ str ", remaining=" ++ n rest
  | BadALength len => str "Invalid A record RDATA length: " ++ n len
  | BadAAAALength len => str "Invalid AAAA record RDATA length: " ++ n len
  | UnsupportedType type => str "DNS parsing: record type "
      ++ (if decide (type_name type = []) then str "?" else type_name type)
      ++ str " (" ++ dec type ++ str ") is not supported yet"
  | PacketTooShort size => str "DNS packet too short: " ++ n size ++ str " bytes (minimum 12 bytes)"
  | QuestionTruncated o => str "DNS question section truncated at offset " ++ n o
  | RRHeaderTruncated o => str "DNS RR header truncated at offset " ++ n o
  | RDataTruncated o len => str "DNS RDATA truncated at offset " ++ n o
      ++ str " (declared " ++ n len ++ str ")"
  | IndexOutOfBounds i count => str "DNS parse_record: index " ++ n i
      ++ str " out of bounds (answer count: " ++ dec count ++ str ")"
  end.

Module RecordParser.

(** * Name decompression *)

(* @fn src/src/dns/parser/parser_native.cpp | MAX_LABEL_LENGTH = 63 | MAX_LABEL_LENGTH *)
Definition MAX_LABEL_LENGTH : Z := 63.
(* @fn src/src/dns/parser/parser_native.cpp | MAX_POINTER_DEPTH = 7 | MAX_POINTER_DEPTH *)
Definition MAX_POINTER_DEPTH : nat := 7.
(* @fn src/src/dns/parser/parser_native.cpp | QUESTION_FIXED_SIZE = 4 | QUESTION_FIXED_SIZE *)
Definition QUESTION_FIXED_SIZE : nat := 4.
(* @fn src/src/dns/parser/parser_native.cpp | RR_FIXED_SIZE = 10 | RR_FIXED_SIZE *)
Definition RR_FIXED_SIZE : nat := 10.
(* @fn src/src/dns/parser/parser_native.cpp | OPT_NAME_SIZE = 1 | OPT_NAME_SIZE *)
Definition OPT_NAME_SIZE : nat := 1.

(** [visited[visited_count++] = ptr_offset] on an array of
    [MAX_POINTER_DEPTH] elements. *)
(* @fn src/src/dns/parser/parser_native.cpp | visited[visited_count++] = ptr_offset; | RecordParser::decompress_name (visited array) *)
Definition push_visited (visited : list nat) (ptr_offset : nat) : parse_result (list nat) :=
  if length visited <? MAX_POINTER_DEPTH then Ret (visited ++ [ptr_offset]) else Undef.

(** The [while (true)] loop of [decompress_name]; its state is the locals and
    the caller's [offset]. *)
(* @fn src/src/dns/parser/parser_native.cpp | RecordParser::decompress_name ==> while (true) { | RecordParser::decompress_name (loop) *)
Fixpoint decompress_loop (fuel : nat) (wire : bytes) (current offset indirections : nat)
    (jumped : bool) (visited : list nat) (result : bytes) : parse_result (bytes * nat) :=
  match fuel with
  | O => OutOfFuel
  | S fuel =>
      _ ← throw_if (length wire <=? current) (fault (OffsetBeyondWire current (length wire)));
      label_len ← rd wire current;
      if (Z.land label_len 0xC0 =? 0xC0)%Z then
        _ ← throw_if (length wire <? current + 2) (fault (PointerTruncated current));
        low ← rd wire (current + 1);
        let ptr_offset := Z.to_nat (Z.lor (Z.shiftl (Z.land label_len 0x3F) 8) low) in
        _ ← throw_if (MAX_POINTER_DEPTH <=? indirections) (fault TooManyIndirections);
        _ ← throw_if (bool_decide (ptr_offset ∈ visited)) (fault (PointerCycle ptr_offset));
        visited ← push_visited visited ptr_offset;
        decompress_loop fuel wire ptr_offset (if jumped then offset else current + 2)
          (S indirections) true visited result
      else if (label_len =? 0)%Z then
        Ret (result, if jumped then offset else current + 1)
      else
        _ ← throw_if (MAX_LABEL_LENGTH <? label_len)%Z
              (fault (InvalidLabelLength label_len current));
        let result := if decide (result = []) then result else result ++ [ch "."] in
        let current := current + 1 in
        let n := Z.to_nat label_len in
        _ ← throw_if (length wire <? current + n) (fault (LabelPastEnd label_len));
        decompress_loop fuel wire (current + n) offset indirections jumped visited
          (result ++ sub wire current n)
  end.

(** At most [MAX_POINTER_DEPTH] pointers are followed, and between two of them
    every iteration moves towards the end of the packet. *)
Definition name_fuel (wire : bytes) : nat := 9 * (length wire + 2).

(* @fn src/src/dns/parser/parser_native.cpp | std::string DNS::RecordParser::decompress_name | RecordParser::decompress_name *)
Definition decompress_name (wire : bytes) (offset : nat) : parse_result (bytes * nat) :=
  decompress_loop (name_fuel wire) wire offset offset 0 false [] [].

(** * RDATA formatting *)

Section format.
  (** [inet_ntop(AF_INET, ...)] and [inet_ntop(AF_INET6, ...)]: C library. *)
  Context (inet_ntop4 inet_ntop6 : bytes → bytes).

(* @fn src/src/dns/parser/parser_native.cpp | std::string DNS::RecordParser::format_a(const | RecordParser::format_a *)
Definition format_a (rdata : bytes) : bytes := inet_ntop4 rdata.

(* @fn src/src/dns/parser/parser_native.cpp | std::string DNS::RecordParser::format_aaaa(const | RecordParser::format_aaaa *)
Definition format_aaaa (rdata : bytes) : bytes := inet_ntop6 rdata.

(* @fn src/src/dns/parser/parser_native.cpp | std::string DNS::RecordParser::format_txt(const ==> while (pos < rdlen) { | RecordParser::format_txt (loop) *)
Fixpoint format_txt_loop (fuel : nat) (rdata : bytes) (pos : nat) (result : bytes)
    : parse_result bytes :=
  if pos <? length rdata then
    match fuel with
    | O => OutOfFuel
    | S fuel =>
        b ← rd rdata pos;
        let seg_len := Z.to_nat b in
        _ ← throw_if (length rdata <? pos + 1 + seg_len) (fault (TxtSegmentTooLong seg_len pos));
        let result := if decide (result = []) then result else result ++ [ch " "] in
        format_txt_loop fuel rdata (pos + 1 + seg_len) (result ++ sub rdata (pos + 1) seg_len)
    end
  else Ret result.

(* @fn src/src/dns/parser/parser_native.cpp | std::string DNS::RecordParser::format_txt(const | RecordParser::format_txt *)
Definition format_txt (rdata : bytes) : parse_result bytes :=
  format_txt_loop (length rdata) rdata 0 [].

(* @fn src/src/dns/parser/parser_native.cpp | std::string DNS::RecordParser::format_domain_name(const | RecordParser::format_domain_name *)
Definition format_domain_name (wire : bytes) (rdata_offset : nat) : parse_result bytes :=
  '(name, _) ← decompress_name wire rdata_offset;
  Ret name.

(* @fn src/src/dns/parser/parser_native.cpp | std::string DNS::RecordParser::format_mx(const | RecordParser::format_mx *)
Definition format_mx (wire : bytes) (rdata_offset : nat) : parse_result bytes :=
  pref ← read_u16_be wire rdata_offset;
  '(name, _) ← decompress_name wire (rdata_offset + 2);
  Ret (dec pref ++ str " " ++ name).

(* @fn src/src/dns/parser/parser_native.cpp | std::string DNS::RecordParser::format_soa(const | RecordParser::format_soa *)
Definition format_soa (wire : bytes) (rdata_offset : nat) : parse_result bytes :=
  '(mname, offset) ← decompress_name wire rdata_offset;
  '(rname, offset) ← decompress_name wire offset;
  serial ← read_u32_be wire offset;
  refresh ← read_u32_be wire (offset + 4);
  retry ← read_u32_be wire (offset + 8);
  expire ← read_u32_be wire (offset + 12);
  minimum ← read_u32_be wire (offset + 16);
  Ret (mname ++ str " " ++ rname ++ str " " ++ dec serial ++ str " " ++ dec refresh ++ str " "
       ++ dec retry ++ str " " ++ dec expire ++ str " " ++ dec minimum).

(* @fn src/src/dns/parser/parser_native.cpp | std::string DNS::RecordParser::format_srv(const | RecordParser::format_srv *)
Definition format_srv (wire : bytes) (rdata_offset : nat) : parse_result bytes :=
  priority ← read_u16_be wire rdata_offset;
  weight ← read_u16_be wire (rdata_offset + 2);
  port ← read_u16_be wire (rdata_offset + 4);
  '(target, _) ← decompress_name wire (rdata_offset + 6);
  Ret (dec priority ++ str " " ++ dec weight ++ str " " ++ dec port ++ str " " ++ target).

(* @fn src/src/dns/parser/parser_native.cpp | std::string DNS::RecordParser::format_generic(const | RecordParser::format_generic *)
Definition format_generic (rdata : bytes) : bytes :=
  str "0x" ++ flat_map (λ b,
    let hex n := nth (Z.to_nat n) (str "0123456789abcdef") 0%Z in
    [hex (Z.land (Z.shiftr b 4) 0x0F); hex (Z.land b 0x0F)]) rdata.

(** [wire.subspan(off, n)]: undefined unless inside the packet. *)
Definition subspan (wire : bytes) (off n : nat) : parse_result bytes :=
  if off + n <=? length wire then Ret (sub wire off n) else Undef.

(* @fn src/src/dns/parser/parser_native.cpp | std::string DNS::RecordParser::rdata_to_string(const | RecordParser::rdata_to_string *)
Definition rdata_to_string (rr : ResourceRecord) (wire : bytes) : parse_result bytes :=
  let off := rr_rdata_offset rr in
  if off <? 2 then Undef else
  hi ← rd wire (off - 2);
  lo ← rd wire (off - 1);
  let rdlen := Z.to_nat (Z.lor (Z.shiftl hi 8) lo) in
  rdata ← subspan wire off rdlen;
  let type := rr_type rr in
  if (type =? record_type_code A)%Z then
    _ ← throw_if (negb (rdlen =? 4)) (fault (BadALength rdlen));
    Ret (format_a rdata)
  else if (type =? record_type_code AAAA)%Z then
    _ ← throw_if (negb (rdlen =? 16)) (fault (BadAAAALength rdlen));
    Ret (format_aaaa rdata)
  else if (type =? record_type_code TXT)%Z then format_txt rdata
  else if ((type =? record_type_code CNAME) || (type =? record_type_code NS)
           || (type =? record_type_code PTR))%Z then format_domain_name wire off
  else if (type =? record_type_code MX)%Z then format_mx wire off
  else if (type =? record_type_code SOA)%Z then format_soa wire off
  else if (type =? record_type_code SRV)%Z then format_srv wire off
  else Throw (fault (UnsupportedType type)).

End format.

(** * EDNS0 *)

(* @fn src/src/dns/parser/parser_native.cpp | RecordParser::parse_edns ==> while (offset + 4 <= rr.rdata.size()) { | RecordParser::parse_edns (loop) *)
Fixpoint parse_edns_options (fuel : nat) (rdata : bytes) (offset : nat)
    (options : list EdnsOption) : parse_result (list EdnsOption) :=
  if offset + 4 <=? length rdata then
    match fuel with
    | O => OutOfFuel
    | S fuel =>
        code ← read_u16_be rdata offset;
        len ← read_u16_be rdata (offset + 2);
        let opt_len := Z.to_nat len in
        let offset := offset + 4 in
        _ ← throw_if (length rdata <? offset + opt_len)
              (fault (EdnsOptionTruncated code opt_len (length rdata - offset)));
        parse_edns_options fuel rdata (offset + opt_len)
          (options ++ [{| opt_code := code; opt_data := sub rdata offset opt_len |}])
    end
  else Ret options.

(* @fn src/src/dns/parser/parser_native.cpp | std::optional<DNS::EdnsInfo> DNS::RecordParser::parse_edns | RecordParser::parse_edns *)
Definition parse_edns (rr : ResourceRecord) : parse_result (option EdnsInfo) :=
  if negb (rr_type rr =? record_type_code OPT)%Z then Ret None else
  let ttl_val := rr_ttl rr in
  options ← parse_edns_options (length (rr_rdata rr)) (rr_rdata rr) 0 [];
  Ret (Some {|
    udp_payload_size := rr_qclass rr;
    extended_rcode := u8 (Z.shiftr (Z.land ttl_val 0xFF000000) 24);
    edns_version := u8 (Z.shiftr (Z.land ttl_val 0x00FF0000) 16);
    dnssec_ok := negb (Z.land ttl_val 0x00008000 =? 0)%Z;
    edns_options := options |}).

(** * Messages *)

(* @fn src/src/dns/parser/parser_native.cpp | for (uint16_t i = 0; i < m.qdcount; ++i) { | RecordParser::parse_message (question section) *)
Fixpoint parse_questions (n : nat) (data : bytes) (offset : nat)
    : parse_result (list Question * nat) :=
  match n with
  | O => Ret ([], offset)
  | S n =>
      '(qname, offset) ← decompress_name data offset;
      _ ← throw_if (length data <? offset + QUESTION_FIXED_SIZE) (fault (QuestionTruncated offset));
      qtype ← read_u16_be data offset;
      qclass ← read_u16_be data (offset + 2);
      '(qs, offset) ← parse_questions n data (offset + QUESTION_FIXED_SIZE);
      Ret ({| q_qname := qname; q_qtype := qtype; q_qclass := qclass |} :: qs, offset)
  end.

(* @fn src/src/dns/parser/parser_native.cpp | auto parse_rr = [&]() -> ResourceRecord { | RecordParser::parse_message (parse_rr) *)
Definition parse_rr (copy_rdata : bool) (data : bytes) (offset : nat)
    : parse_result (ResourceRecord * nat) :=
  '(name, offset) ← decompress_name data offset;
  _ ← throw_if (length data <? offset + RR_FIXED_SIZE) (fault (RRHeaderTruncated offset));
  type ← read_u16_be data offset;
  qclass ← read_u16_be data (offset + 2);
  ttl ← read_u32_be data (offset + 4);
  rdl ← read_u16_be data (offset + 8);
  let rd_length := Z.to_nat rdl in
  let offset := offset + RR_FIXED_SIZE in
  _ ← throw_if (length data <? offset + rd_length) (fault (RDataTruncated offset rd_length));
  Ret ({| rr_name := name; rr_type := type; rr_qclass := qclass; rr_ttl := ttl;
          rr_rdata := if copy_rdata then sub data offset rd_length else [];
          rr_rdata_offset := offset |}, offset + rd_length).

(* @src src/src/dns/parser/parser_native.cpp 456 464 RecordParser::parse_message (answers, authorities) *)
Fixpoint parse_rrs (n : nat) (copy_rdata : bool) (data : bytes) (offset : nat)
    : parse_result (list ResourceRecord * nat) :=
  match n with
  | O => Ret ([], offset)
  | S n =>
      '(rr, offset) ← parse_rr copy_rdata data offset;
      '(rrs, offset) ← parse_rrs n copy_rdata data offset;
      Ret (rr :: rrs, offset)
  end.

(** The test on an additional record that makes it the message's OPT record. *)
(* @src src/src/dns/parser/parser_native.cpp 469 473 RecordParser::parse_message (OPT test) *)
Definition is_opt_record (rr : ResourceRecord) : bool :=
  (rr_type rr =? record_type_code OPT)%Z && (length (rr_name rr) =? OPT_NAME_SIZE)
  && (0 <? rr_qclass rr)%Z.

(* @fn src/src/dns/parser/parser_native.cpp | for (uint16_t i = 0; i < m.arcount; ++i) { | RecordParser::parse_message (additionals) *)
Fixpoint parse_additionals (n : nat) (copy_rdata : bool) (data : bytes) (offset : nat)
    (edns : option EdnsInfo) : parse_result (list ResourceRecord * option EdnsInfo * nat) :=
  match n with
  | O => Ret ([], edns, offset)
  | S n =>
      '(rr, offset) ← parse_rr copy_rdata data offset;
      edns ← (if is_opt_record rr then parse_edns rr else Ret edns);
      '(rrs, edns, offset) ← parse_additionals n copy_rdata data offset edns;
      Ret (rr :: rrs, edns, offset)
  end.

(* @fn src/src/dns/parser/parser_native.cpp | DNS::ParsedMessage DNS::RecordParser::parse_message | RecordParser::parse_message *)
Definition parse_message (data : bytes) (copy_rdata : bool) : parse_result ParsedMessage :=
  _ ← throw_if (length data <? HEADER_SIZE) (fault (PacketTooShort (length data)));
  id ← read_u16_be data 0;
  flags2 ← rd data 2;
  flags3 ← rd data 3;
  qdcount ← read_u16_be data 4;
  ancount ← read_u16_be data 6;
  nscount ← read_u16_be data 8;
  arcount ← read_u16_be data 10;
  '(questions, offset) ← parse_questions (Z.to_nat qdcount) data HEADER_SIZE;
  '(answers, offset) ← parse_rrs (Z.to_nat ancount) copy_rdata data offset;
  '(authorities, offset) ← parse_rrs (Z.to_nat nscount) copy_rdata data offset;
  '(additionals, edns, offset) ← parse_additionals (Z.to_nat arcount) copy_rdata data offset None;
  let rcode := Z.land flags3 0x0F in
  Ret {|
    m_id := id;
    m_qr := negb (Z.land flags2 0x80 =? 0)%Z;
    m_opcode := Z.land (Z.shiftr flags2 3) 0x0F;
    m_aa := negb (Z.land flags2 0x04 =? 0)%Z;
    m_tc := negb (Z.land flags2 0x02 =? 0)%Z;
    m_rd := negb (Z.land flags2 0x01 =? 0)%Z;
    m_ra := negb (Z.land flags3 0x80 =? 0)%Z;
    m_qdcount := qdcount; m_ancount := ancount; m_nscount := nscount; m_arcount := arcount;
    m_questions := questions; m_answers := answers; m_authorities := authorities;
    m_additionals := additionals; m_edns := edns;
    m_rcode := match edns with
               | Some e => u8 (Z.lor rcode (Z.shiftl (extended_rcode e) 4))
               | None => rcode
               end |}.

(** * Public interface *)

(* @src src/src/dns/parser/parser_native.h 80 115 RecordParser (wire_, message_) *)
Record t := { wire_ : bytes; message_ : ParsedMessage }.

(* @fn src/src/dns/parser/parser_native.cpp | DNS::RecordParser::RecordParser( | RecordParser::RecordParser *)
Definition new (data : bytes) : parse_result t :=
  m ← parse_message data true;
  Ret {| wire_ := data; message_ := m |}.

(* @fn src/src/dns/parser/parser_native.cpp | size_t DNS::RecordParser::record_count() | RecordParser::record_count *)
Definition record_count (p : t) : nat := Z.to_nat (m_ancount (message_ p)).

Section public.
  Context (inet_ntop4 inet_ntop6 : bytes → bytes).

(* @fn src/src/dns/parser/parser_native.cpp | std::string DNS::RecordParser::parse_record( | RecordParser::parse_record *)
Definition parse_record (p : t) (index : nat) : parse_result bytes :=
  let msg := message_ p in
  _ ← throw_if (Z.to_nat (m_ancount msg) <=? index) (fault (IndexOutOfBounds index (m_ancount msg)));
  rr ← deref (m_answers msg !! index);
  rdata_to_string inet_ntop4 inet_ntop6 rr (wire_ p).

(* @fn src/src/dns/parser/parser_native.cpp | DNS::ParsedResponse DNS::RecordParser::parse_response | RecordParser::parse_response *)
Definition parse_response (data : bytes) : parse_result ParsedResponse :=
  parser ← new data;
  let msg := message_ parser in
  Ret {| resp_rcode := m_rcode msg;
         resp_answers := if (m_rcode msg =? NOERROR)%Z then m_answers msg else [] |}.

(* @src src/src/dns/parser/parser_native.cpp 540 546 RecordParser::parse_strings (loop) *)
Fixpoint format_answers (answers : list ResourceRecord) (data : bytes) : parse_result (list bytes) :=
  match answers with
  | [] => Ret []
  | rr :: rest =>
      record ← rdata_to_string inet_ntop4 inet_ntop6 rr data;
      records ← format_answers rest data;
      Ret (record :: records)
  end.

(* @fn src/src/dns/parser/parser_native.cpp | DNS::FormattedResponse DNS::RecordParser::parse_strings | RecordParser::parse_strings *)
Definition parse_strings (data : bytes) : parse_result FormattedResponse :=
  msg ← parse_message data false;
  records ← (if (m_rcode msg =? NOERROR)%Z then format_answers (m_answers msg) data else Ret []);
  Ret {| fmt_rcode := m_rcode msg; fmt_records := records |}.

End public.
End RecordParser.
Import RecordParser.

(** * Lemmas on name decompression *)

Section decompress.
Context (wire : bytes) (Hwire : Forall is_byte wire).

Lemma wire_lookup_byte i b : wire !! i = Some b → is_byte b.
Proof using Hwire. apply Forall_lookup_1, Hwire. Qed.

(** The loop terminates within its fuel, reads only the packet, fails only
    with parse errors, and leaves the caller's offset inside the packet. *)
Lemma decompress_loop_spec fuel current offset ind jumped visited result :
  length visited = ind → ind ≤ MAX_POINTER_DEPTH →
  (8 - ind) * (length wire + 2) + (length wire + 1 - current) < fuel →
  Forall is_byte result →
  wp (decompress_loop fuel wire current offset ind jumped visited result)
    (λ '(name, off'), Forall is_byte name ∧
       if jumped then off' = offset else current < off' ≤ length wire)
    is_parse_error.
Proof using Hwire.
  unfold MAX_POINTER_DEPTH.
  revert current offset ind jumped visited result.
  induction fuel as [|fuel IH]; intros current offset ind jumped visited result
    Hvis Hind Hfuel Hres; [by apply Nat.nlt_0_r in Hfuel|].
  cbn [decompress_loop]. wp_guard.
  apply wp_rd_bind; [done|]. intros label_len Hl. pose proof (wire_lookup_byte _ _ Hl).
  destruct (Z.land label_len 0xC0 =? 0xC0)%Z eqn:Hptr.
  - wp_guard. apply wp_rd_bind; [lia|]. intros low Hlow.
    wp_guard. unfold MAX_POINTER_DEPTH in *. wp_guard.
    unfold push_visited, MAX_POINTER_DEPTH.
    rewrite (proj2 (Nat.ltb_lt _ _)) by lia. simpl.
    eapply wp_mono; [apply IH|..]; [rewrite length_app; simpl; lia|lia| |done| |done].
    { replace ((8 - ind) * (length wire + 2))
        with ((8 - S ind) * (length wire + 2) + (length wire + 2)) in Hfuel
        by (replace (8 - ind) with (S (8 - S ind)) by lia; simpl; lia).
      remember ((8 - S ind) * (length wire + 2)) as K. lia. }
    intros [name off'] [? ->]. split; [done|]. destruct jumped; [done|lia].
  - destruct (label_len =? 0)%Z eqn:Hz.
    { simpl. split; [done|]. destruct jumped; [done|lia]. }
    wp_guard. wp_guard.
    eapply wp_mono; [apply IH|..]; try done.
    + prop_of_bool. unfold is_byte in *.
      remember ((8 - ind) * (length wire + 2)) as K. lia.
    + apply Forall_app. split; [|by apply Forall_take, Forall_drop].
      destruct (decide (result = [])); [done|].
      apply Forall_app; split; [done|]. auto with bytes.
    + intros [name off'] [? Hoff]. split; [done|]. destruct jumped; [done|].
      unfold is_byte in *. prop_of_bool. lia.
Qed.

Lemma decompress_name_spec offset :
  wp (decompress_name wire offset)
    (λ '(name, off'), Forall is_byte name ∧ offset < off' ≤ length wire) is_parse_error.
Proof using Hwire.
  unfold decompress_name, name_fuel.
  apply decompress_loop_spec; [done|unfold MAX_POINTER_DEPTH; lia|lia|constructor].
Qed.
End decompress.

(** * Lemmas on the sections of a message *)

(** What the parser guarantees of a record: its RDATA, preceded by its length
    field, lies inside the packet, and the copy (if asked for) is exactly it. *)
Record rr_ok (data : bytes) (copy_rdata : bool) (rr : ResourceRecord) : Prop := {
  rr_ok_offset : 2 ≤ rr_rdata_offset rr;
  rr_ok_rdata : ∃ v, is_u16 v ∧ read_u16_be (E:=DnsLookupException) data (rr_rdata_offset rr - 2) = Ret v
    ∧ rr_rdata_offset rr + Z.to_nat v ≤ length data
    ∧ rr_rdata rr = if copy_rdata then sub data (rr_rdata_offset rr) (Z.to_nat v) else [];
  rr_ok_name : Forall is_byte (rr_name rr);
  rr_ok_type : is_u16 (rr_type rr);
  rr_ok_class : is_u16 (rr_qclass rr);
  rr_ok_ttl : is_u32 (rr_ttl rr)
}.

Lemma sub_bytes (l : bytes) off n : Forall is_byte l → Forall is_byte (sub l off n).
Proof. intros. by apply Forall_take, Forall_drop. Qed.
#[export] Hint Resolve sub_bytes : bytes.

Section sections.
Context (data : bytes) (Hdata : Forall is_byte data).

Lemma parse_questions_spec n offset :
  offset ≤ length data →
  wp (parse_questions n data offset)
    (λ '(qs, off'), length qs = n ∧ offset ≤ off' ≤ length data
       ∧ Forall (λ q, is_u16 (q_qtype q) ∧ is_u16 (q_qclass q)) qs) is_parse_error.
Proof using Hdata.
  revert offset. induction n as [|n IH]; intros offset Hoff; cbn [parse_questions].
  { simpl. repeat split; auto; lia. }
  eapply wp_call; [by apply decompress_name_spec|]. intros [qname off1] _ [_ Hoff1].
  unfold QUESTION_FIXED_SIZE in *. wp_guard.
  apply wp_bind, wp_read_u16_be; [done|lia|]. intros qtype Ht _.
  apply wp_bind, wp_read_u16_be; [done|lia|]. intros qclass Hc _.
  eapply wp_call; [apply IH; lia|]. intros [qs off2] _ (Hlen & Hoff2 & Hqs).
  simpl. repeat split; [by rewrite Hlen|lia|lia|by constructor].
Qed.

Lemma parse_rr_spec copy_rdata offset :
  wp (parse_rr copy_rdata data offset)
    (λ '(rr, off'), rr_ok data copy_rdata rr ∧ offset < off' ≤ length data) is_parse_error.
Proof using Hdata.
  unfold parse_rr.
  eapply wp_call; [by apply decompress_name_spec|]. intros [name off1] _ [Hname Hoff1].
  unfold RR_FIXED_SIZE in *. wp_guard.
  apply wp_bind, wp_read_u16_be; [done|lia|]. intros type Ht _.
  apply wp_bind, wp_read_u16_be; [done|lia|]. intros qclass Hc _.
  apply wp_bind, wp_read_u32_be; [done|lia|]. intros ttl Httl _.
  apply wp_bind, wp_read_u16_be; [done|lia|]. intros rdl Hr Hread.
  wp_guard. simpl. split; [|lia]. constructor; simpl; auto; [lia|].
  exists rdl. replace (off1 + 10 - 2) with (off1 + 8) by lia. auto.
Qed.

Lemma parse_rrs_spec n copy_rdata offset :
  offset ≤ length data →
  wp (parse_rrs n copy_rdata data offset)
    (λ '(rrs, off'), length rrs = n ∧ Forall (rr_ok data copy_rdata) rrs
       ∧ offset ≤ off' ≤ length data) is_parse_error.
Proof using Hdata.
  revert offset. induction n as [|n IH]; intros offset Hoff; cbn [parse_rrs].
  { simpl. repeat split; auto; lia. }
  eapply wp_call; [by apply parse_rr_spec|]. intros [rr off1] _ [Hrr Hoff1].
  eapply wp_call; [apply IH; lia|]. intros [rrs off2] _ (Hlen & Hrrs & Hoff2).
  simpl. repeat split; [by rewrite Hlen|by constructor|lia|lia].
Qed.

Lemma parse_edns_options_spec (rdata : bytes) fuel offset options :
  Forall is_byte rdata → length rdata - offset ≤ fuel →
  wp (parse_edns_options fuel rdata offset options) (λ _, True) is_parse_error.
Proof using Type.
  intros Hb. revert offset options.
  induction fuel as [|fuel IH]; intros offset options Hf; cbn [parse_edns_options];
    destruct (offset + 4 <=? length rdata) eqn:Ho; prop_of_bool; try done; [lia|].
  apply wp_bind, wp_read_u16_be; [done|lia|]. intros code _ _.
  apply wp_bind, wp_read_u16_be; [done|lia|]. intros len _ _.
  wp_guard. apply IH. lia.
Qed.

Lemma parse_edns_spec copy_rdata rr :
  rr_ok data copy_rdata rr →
  wp (parse_edns rr)
    (λ o, ∀ e, o = Some e → is_byte (extended_rcode e) ∧ udp_payload_size e = rr_qclass rr
       ∧ rr_type rr = record_type_code OPT)
    is_parse_error.
Proof using Hdata.
  intros Hok. unfold parse_edns. destruct (rr_type rr =? record_type_code OPT)%Z eqn:Ht;
    cbn [negb]; [|by simpl].
  assert (Forall is_byte (rr_rdata rr)) as Hb.
  { destruct (rr_ok_rdata _ _ _ Hok) as (v & _ & _ & _ & ->).
    destruct copy_rdata; auto with bytes. }
  eapply wp_call; [apply parse_edns_options_spec; [done|lia]|].
  intros options _ _. simpl. prop_of_bool. intros e [= <-]. simpl. auto with bytes.
Qed.

Lemma parse_additionals_spec n copy_rdata offset edns :
  offset ≤ length data →
  (∀ e, edns = Some e → is_byte (extended_rcode e)) →
  wp (parse_additionals n copy_rdata data offset edns)
    (λ '(rrs, edns', off'), length rrs = n ∧ Forall (rr_ok data copy_rdata) rrs
       ∧ offset ≤ off' ≤ length data
       ∧ (∀ e, edns' = Some e → is_byte (extended_rcode e))
       ∧ (edns' = edns ∨ ∃ rr, rr ∈ rrs ∧ is_opt_record rr = true)) is_parse_error.
Proof using Hdata.
  revert offset edns. induction n as [|n IH]; intros offset edns Hoff He;
    cbn [parse_additionals].
  { simpl. split; [done|]. split; [constructor|]. split; [lia|]. auto. }
  eapply wp_call; [by apply parse_rr_spec|]. intros [rr off1] _ [Hrr Hoff1].
  eapply (wp_call _ _ (λ edns1, (∀ e, edns1 = Some e → is_byte (extended_rcode e))
      ∧ (edns1 = edns ∨ is_opt_record rr = true))).
  { destruct (is_opt_record rr); [|simpl; auto].
    eapply wp_mono; [by eapply parse_edns_spec| |done]. naive_solver. }
  intros edns1 _ [He1 Hsrc].
  eapply wp_call; [apply IH; [lia|done]|].
  intros [[rrs edns2] off2] _ (Hlen & Hrrs & Hoff2 & He2 & Hsrc2).
  simpl. split; [by rewrite Hlen|]. split; [by constructor|]. split; [lia|]. split; [done|].
  destruct Hsrc2 as [->|(rr' & ? & ?)].
  - destruct Hsrc as [->|?]; [by left|]. right. exists rr. split; [by left|done].
  - right. exists rr'. split; [by right|done].
Qed.

(** What a successful parse guarantees of a message. *)
Record message_ok (copy_rdata : bool) (m : ParsedMessage) : Prop := {
  mok_id : is_u16 (m_id m);
  mok_questions : length (m_questions m) = Z.to_nat (m_qdcount m);
  mok_answers : length (m_answers m) = Z.to_nat (m_ancount m);
  mok_authorities : length (m_authorities m) = Z.to_nat (m_nscount m);
  mok_additionals : length (m_additionals m) = Z.to_nat (m_arcount m);
  mok_records : Forall (rr_ok data copy_rdata)
    (m_answers m ++ m_authorities m ++ m_additionals m);
  mok_rcode : is_byte (m_rcode m);
  mok_rcode_basic : m_edns m = None → (m_rcode m < 16)%Z;
  mok_edns : is_Some (m_edns m) → ∃ rr, rr ∈ m_additionals m ∧ is_opt_record rr = true
}.

Lemma parse_message_spec copy_rdata :
  wp (parse_message data copy_rdata) (message_ok copy_rdata) is_parse_error.
Proof using Hdata.
  unfold parse_message, HEADER_SIZE. wp_guard.
  apply wp_bind, wp_read_u16_be; [done|lia|]. intros id Hid _.
  apply wp_rd_bind; [lia|]. intros flags2 _.
  apply wp_rd_bind; [lia|]. intros flags3 Hf3.
  apply wp_bind, wp_read_u16_be; [done|lia|]. intros qdcount _ _.
  apply wp_bind, wp_read_u16_be; [done|lia|]. intros ancount _ _.
  apply wp_bind, wp_read_u16_be; [done|lia|]. intros nscount _ _.
  apply wp_bind, wp_read_u16_be; [done|lia|]. intros arcount _ _.
  eapply wp_call; [apply parse_questions_spec; lia|]. intros [qs o1] _ (Hqs & Ho1 & _).
  eapply wp_call; [apply parse_rrs_spec; lia|]. intros [ans o2] _ (Han & Hanok & Ho2).
  eapply wp_call; [apply parse_rrs_spec; lia|]. intros [aut o3] _ (Hau & Hauok & Ho3).
  eapply wp_call; [apply parse_additionals_spec; [lia|done]|].
  intros [[add edns] o4] _ (Had & Hadok & _ & Hedns & Hsrc).
  simpl. constructor; simpl; auto.
  - by apply Forall_app_2; [|apply Forall_app_2].
  - destruct edns; [auto with bytes|].
    apply (wire_lookup_byte data Hdata) in Hf3. revert Hf3.
    generalize flags3. intros b Hb. by_all_bytes b Hb.
  - intros ->. apply (wire_lookup_byte data Hdata) in Hf3. revert Hf3.
    generalize flags3. intros b Hb. by_all_bytes b Hb.
  - intros [e He]. destruct Hsrc as [->|?]; [done|done].
Qed.
End sections.

(** * Lemmas on RDATA formatting *)

(** The RDATA length the formatter reads back from the packet. *)
Definition wire_rdlen (data : bytes) (rr : ResourceRecord) : nat :=
  match read_u16_be (E:=DnsLookupException) data (rr_rdata_offset rr - 2) with
  | Ret v => Z.to_nat v
  | _ => 0
  end.

(** Records whose formatter reads at fixed offsets past the names or before
    them have enough RDATA for it; [SOA] has no such guarantee. *)
Definition formats_in_bounds (data : bytes) (rr : ResourceRecord) : Prop :=
  rr_type rr ≠ record_type_code SOA
  ∧ (rr_type rr = record_type_code MX → 2 ≤ wire_rdlen data rr)
  ∧ (rr_type rr = record_type_code SRV → 6 ≤ wire_rdlen data rr).

Lemma format_txt_loop_spec (rdata : bytes) fuel pos result :
  Forall is_byte rdata → length rdata - pos ≤ fuel →
  wp (format_txt_loop fuel rdata pos result) (λ _, True) is_parse_error.
Proof.
  intros Hb. revert pos result. induction fuel as [|fuel IH]; intros pos result Hf;
    cbn [format_txt_loop]; destruct (pos <? length rdata) eqn:Hp; prop_of_bool; try done; [lia|].
  apply wp_rd_bind; [done|]. intros b _. wp_guard. apply IH. lia.
Qed.

Section rdata.
Context (inet_ntop4 inet_ntop6 : bytes → bytes).
Context (data : bytes) (Hdata : Forall is_byte data).

Lemma format_name_spec offset {A} (f : bytes → A) :
  wp ('(name, _) ← decompress_name data offset; Ret (f name)) (λ _, True) is_parse_error.
Proof using Hdata.
  eapply wp_call; [by apply decompress_name_spec|]. by intros [name off'] _ _.
Qed.

Lemma format_mx_spec offset :
  offset + 2 ≤ length data → wp (format_mx data offset) (λ _, True) is_parse_error.
Proof using Hdata.
  intros Hl. unfold format_mx. apply wp_bind, wp_read_u16_be; [done|lia|]. intros pref _ _.
  apply format_name_spec.
Qed.

Lemma format_srv_spec offset :
  offset + 6 ≤ length data → wp (format_srv data offset) (λ _, True) is_parse_error.
Proof using Hdata.
  intros Hl. unfold format_srv.
  do 3 (apply wp_bind, wp_read_u16_be; [done|lia|]; intros ? _ _).
  apply format_name_spec.
Qed.

Lemma rdata_to_string_spec copy_rdata rr :
  rr_ok data copy_rdata rr → formats_in_bounds data rr →
  wp (rdata_to_string inet_ntop4 inet_ntop6 rr data) (λ _, True) is_parse_error.
Proof using Hdata.
  intros Hok (Hsoa & Hmx & Hsrv).
  pose proof (rr_ok_offset _ _ _ Hok) as Hoff.
  destruct (rr_ok_rdata _ _ _ Hok) as (v & Hv & Hread & Hlen & _).
  unfold wire_rdlen in Hmx, Hsrv. rewrite Hread in Hmx, Hsrv.
  unfold rdata_to_string. rewrite (proj2 (Nat.ltb_ge _ _)) by lia.
  unfold read_u16_be in Hread.
  apply bind_Ret_inv in Hread as (hi & Hhi & Hread). rewrite Hhi. cbn [mbind outcome_bind].
  apply bind_Ret_inv in Hread as (lo & Hlo & Hread).
  replace (rr_rdata_offset rr - 2 + 1) with (rr_rdata_offset rr - 1) in Hlo by lia.
  rewrite Hlo. cbn [mbind outcome_bind].
  injection Hread as Hread. unfold u16_of_be in Hread. rewrite Hread.
  unfold subspan. rewrite (proj2 (Nat.leb_le _ _)) by lia. cbn [mbind outcome_bind].
  destruct (rr_type rr =? record_type_code A)%Z eqn:?; [by wp_guard|].
  destruct (rr_type rr =? record_type_code AAAA)%Z eqn:?; [by wp_guard|].
  destruct (rr_type rr =? record_type_code TXT)%Z eqn:?.
  { apply format_txt_loop_spec; [auto with bytes|lia]. }
  destruct (_ || _)%bool; [apply format_name_spec with (f := id)|].
  destruct (rr_type rr =? record_type_code MX)%Z eqn:?; prop_of_bool.
  { apply format_mx_spec. specialize (Hmx ltac:(done)). lia. }
  destruct (rr_type rr =? record_type_code SOA)%Z eqn:?; prop_of_bool; [done|].
  destruct (rr_type rr =? record_type_code SRV)%Z eqn:?; prop_of_bool; [|done].
  apply format_srv_spec. specialize (Hsrv ltac:(done)). lia.
Qed.

Lemma format_answers_spec copy_rdata rrs :
  Forall (rr_ok data copy_rdata) rrs → Forall (formats_in_bounds data) rrs →
  wp (format_answers inet_ntop4 inet_ntop6 rrs data)
    (λ records, length records = length rrs) is_parse_error.
Proof using Hdata.
  induction 1 as [|rr rrs Hrr Hrrs IH]; intros Hb; cbn [format_answers]; [done|].
  apply Forall_cons_1 in Hb as [Hb1 Hb2].
  eapply wp_call; [by eapply rdata_to_string_spec|]. intros record _ _.
  eapply wp_call; [by apply IH|]. intros records _ Hl. simpl. by rewrite Hl.
Qed.
End rdata.

(** * The only exceptions are parse errors

    Also where the packet is not known to be long enough, what the parser
    throws has the code [PARSE]. *)

Definition throws_parse {A} (m : parse_result A) : Prop :=
  match m with Throw e => is_parse_error e | _ => True end.

Create HintDb parse.

Lemma throws_parse_Ret {A} (a : A) : throws_parse (Ret a).
Proof. done. Qed.
Lemma throws_parse_Undef {A} : throws_parse (A:=A) Undef.
Proof. done. Qed.
Lemma throws_parse_OutOfFuel {A} : throws_parse (A:=A) OutOfFuel.
Proof. done. Qed.
Lemma throws_parse_fault {A} f : throws_parse (A:=A) (Throw (fault f)).
Proof. done. Qed.
Lemma throws_parse_if b f : throws_parse (throw_if b (fault f)).
Proof. by destruct b. Qed.
Lemma throws_parse_rd buf i : throws_parse (rd buf i).
Proof. unfold rd, deref. by destruct (buf !! i). Qed.
Lemma throws_parse_subspan wire off n : throws_parse (subspan wire off n).
Proof. unfold subspan. by destruct (_ <=? _). Qed.
Lemma throws_parse_bind {A B} (m : parse_result A) (f : A → parse_result B) :
  throws_parse m → (∀ a, throws_parse (f a)) → throws_parse (m ≫= f).
Proof. destruct m; simpl; auto. Qed.

#[export] Hint Resolve throws_parse_Ret throws_parse_Undef throws_parse_OutOfFuel throws_parse_fault throws_parse_if
  throws_parse_rd throws_parse_subspan : parse.

(** Walk through a computation bind by bind and test by test. *)
Ltac throws_parse :=
  repeat first
    [ solve [eauto with parse]
    | apply throws_parse_bind; [|intros ?]
    | match goal with
      | |- throws_parse (let '(_, _) := ?p in _) => destruct p
      | |- throws_parse (if ?b then _ else _) => destruct b
      | |- throws_parse (match ?b with left _ => _ | right _ => _ end) => destruct b
      end ].

Lemma throws_parse_read_u16_be buf i : throws_parse (read_u16_be buf i).
Proof. unfold read_u16_be. throws_parse. Qed.
Lemma throws_parse_read_u32_be buf i : throws_parse (read_u32_be buf i).
Proof. unfold read_u32_be. throws_parse. Qed.
#[export] Hint Resolve throws_parse_read_u16_be throws_parse_read_u32_be : parse.

Lemma throws_parse_decompress_loop fuel wire current offset ind jumped visited result :
  throws_parse (decompress_loop fuel wire current offset ind jumped visited result).
Proof.
  revert current offset ind jumped visited result.
  induction fuel as [|fuel IH]; intros; cbn [decompress_loop]; [done|].
  throws_parse. unfold push_visited. throws_parse.
Qed.
Lemma throws_parse_decompress_name wire offset : throws_parse (decompress_name wire offset).
Proof. apply throws_parse_decompress_loop. Qed.
#[export] Hint Resolve throws_parse_decompress_name : parse.

Lemma throws_parse_format_txt rdata : throws_parse (format_txt rdata).
Proof.
  unfold format_txt. generalize (length rdata) at 1, 0, (@nil Z). intros fuel.
  induction fuel as [|fuel IH]; intros pos result; cbn [format_txt_loop]; throws_parse.
Qed.
#[export] Hint Resolve throws_parse_format_txt : parse.

Lemma throws_parse_rdata_to_string f4 f6 rr wire : throws_parse (rdata_to_string f4 f6 rr wire).
Proof.
  unfold rdata_to_string, format_domain_name, format_mx, format_soa, format_srv. throws_parse.
Qed.
#[export] Hint Resolve throws_parse_rdata_to_string : parse.

Lemma throws_parse_format_answers f4 f6 rrs data : throws_parse (format_answers f4 f6 rrs data).
Proof. induction rrs as [|rr rrs IH]; cbn [format_answers]; throws_parse. Qed.
#[export] Hint Resolve throws_parse_format_answers : parse.

Lemma throws_parse_questions n data offset : throws_parse (parse_questions n data offset).
Proof. revert offset. induction n as [|n IH]; intros; cbn [parse_questions]; throws_parse. Qed.
Lemma throws_parse_rr copy_rdata data offset : throws_parse (parse_rr copy_rdata data offset).
Proof. unfold parse_rr. throws_parse. Qed.
#[export] Hint Resolve throws_parse_questions throws_parse_rr : parse.
Lemma throws_parse_rrs n copy_rdata data offset : throws_parse (parse_rrs n copy_rdata data offset).
Proof. revert offset. induction n as [|n IH]; intros; cbn [parse_rrs]; throws_parse. Qed.
Lemma throws_parse_edns rr : throws_parse (parse_edns rr).
Proof.
  unfold parse_edns. destruct (negb _); [done|]. apply throws_parse_bind; [|done].
  generalize (length (rr_rdata rr)), 0, (@nil EdnsOption). intros fuel.
  induction fuel as [|fuel IH]; intros; cbn [parse_edns_options]; throws_parse.
Qed.
#[export] Hint Resolve throws_parse_rrs throws_parse_edns : parse.
Lemma throws_parse_additionals n copy_rdata data offset edns :
  throws_parse (parse_additionals n copy_rdata data offset edns).
Proof.
  revert offset edns. induction n as [|n IH]; intros; cbn [parse_additionals]; throws_parse.
Qed.
#[export] Hint Resolve throws_parse_additionals : parse.

Lemma throws_parse_message data copy_rdata : throws_parse (parse_message data copy_rdata).
Proof. unfold parse_message. throws_parse. Qed.
#[export] Hint Resolve throws_parse_message : parse.

Lemma throws_parse_strings f4 f6 data : throws_parse (parse_strings f4 f6 data).
Proof. unfold parse_strings. throws_parse. Qed.

(** * Parsing and formatting end

    On a packet of octets, whatever it holds and also where it is too short, the
    fuel is enough. *)

Definition ends {A} (m : parse_result A) : Prop := m ≠ OutOfFuel.

Lemma ends_bind {A B} (m : parse_result A) (f : A → parse_result B) :
  ends m → (∀ a, ends (f a)) → ends (m ≫= f).
Proof. unfold ends. destruct m; simpl; auto; done. Qed.

Lemma ends_wp {A} (m : parse_result A) Q T : wp m Q T → ends m.
Proof. by destruct m. Qed.

Lemma ends_rd buf i : ends (rd buf i).
Proof. unfold rd, deref. by destruct (buf !! i). Qed.
Lemma ends_throw_if b e : ends (throw_if b e).
Proof. by destruct b. Qed.

(** Bind by bind and test by test. *)
Ltac parse_ends :=
  repeat first
    [ discriminate | apply ends_rd | apply ends_throw_if
    | apply ends_bind; [|intros ?]
    | match goal with
      | |- ends (let '(_, _) := ?p in _) => destruct p
      | |- ends (if ?b then _ else _) => destruct b
      end ].

Section ends.
Context (inet_ntop4 inet_ntop6 : bytes → bytes).
Context (data : bytes) (Hdata : Forall is_byte data).

Lemma ends_read_u16_be buf i : ends (read_u16_be buf i).
Proof. unfold read_u16_be. parse_ends. Qed.
Lemma ends_read_u32_be buf i : ends (read_u32_be buf i).
Proof. unfold read_u32_be. parse_ends; apply ends_read_u16_be. Qed.

Lemma ends_decompress_name offset : ends (decompress_name data offset).
Proof using Hdata. eapply ends_wp, decompress_name_spec, Hdata. Qed.

Lemma ends_format_txt_loop rdata fuel pos result :
  length rdata - pos ≤ fuel → ends (format_txt_loop fuel rdata pos result).
Proof.
  revert pos result. induction fuel as [|fuel IH]; intros pos result Hf; cbn [format_txt_loop];
    destruct (pos <? length rdata) eqn:Hp; prop_of_bool; try done; [lia|].
  parse_ends. apply IH. lia.
Qed.

Lemma ends_rdata_to_string rr : ends (rdata_to_string inet_ntop4 inet_ntop6 rr data).
Proof using Hdata.
  unfold rdata_to_string, format_domain_name, format_mx, format_soa, format_srv, subspan, format_txt.
  parse_ends; first [apply ends_decompress_name|apply ends_read_u16_be|apply ends_read_u32_be
    |apply ends_format_txt_loop; lia].
Qed.

Lemma ends_format_answers rrs : ends (format_answers inet_ntop4 inet_ntop6 rrs data).
Proof using Hdata.
  induction rrs as [|rr rrs IH]; cbn [format_answers]; parse_ends; [apply ends_rdata_to_string|exact IH].
Qed.

Lemma ends_parse_strings : ends (parse_strings inet_ntop4 inet_ntop6 data).
Proof using Hdata.
  unfold parse_strings. apply ends_bind; [by eapply ends_wp, parse_message_spec|intros m].
  apply ends_bind; [|discriminate]. destruct (_ =? _)%Z; [apply ends_format_answers|discriminate].
Qed.
End ends.

(** * Properties *)

(** On every packet and offset, name decompression terminates, reads only
    bytes of the packet and writes only inside its array of visited offsets: it
    returns a name of octets and moves the caller's offset forward, inside the
    packet, or throws an exception with code PARSE. *)
Theorem decompress_name_total (wire : bytes) (offset : nat) :
  Forall is_byte wire →
  (∃ name offset', decompress_name wire offset = Ret (name, offset')
     ∧ Forall is_byte name ∧ offset < offset' ≤ length wire)
  ∨ (∃ e, decompress_name wire offset = Throw e ∧ get_error e = PARSE).
Proof.
  intros Hw. destruct (wp_cases _ _ _ (decompress_name_spec wire Hw offset))
    as [([name off'] & Heq & Hn & Ho)|?]; [left; by exists name, off'|by right].
Qed.

(** "www.example.com" at 0, then a pointer to "example.com" at 17 and a pointer
    to itself at 19. *)
Definition compressed_wire : bytes :=
  [3; 119; 119; 119; 7; 101; 120; 97; 109; 112; 108; 101; 3; 99; 111; 109; 0;
   192; 4; 192; 19]%Z.

Lemma decompress_name_total_witness :
  Forall is_byte compressed_wire ∧
  decompress_name compressed_wire 17 = Ret (str "example.com", 19) ∧
  decompress_name compressed_wire 19 = Throw (fault (PointerCycle 19)) ∧
  ∃ name offset', decompress_name compressed_wire 0 = Ret (name, offset').
Proof.
  assert (Forall is_byte compressed_wire) as Hw.
  { apply (bool_decide_unpack _). vm_compute. exact I. }
  split; [exact Hw|]. split; [vm_compute; reflexivity|]. split; [vm_compute; reflexivity|].
  destruct (decompress_name_total compressed_wire 0 Hw) as [(n & o & H & _)|(e & H & _)].
  - exists n, o. exact H.
  - vm_compute in H. discriminate H.
Defined.

(** C1: Parsing never leaves the packet and always terminates: on every byte
    string [parse_message] either throws an exception with code PARSE or returns
    a message whose sections have exactly the header's counts and whose records
    each lie inside the packet, their RDATA copied octet for octet. *)
Theorem parse_message_total (data : bytes) (copy_rdata : bool) :
  Forall is_byte data →
  (∃ m, parse_message data copy_rdata = Ret m ∧ message_ok data copy_rdata m)
  ∨ (∃ e, parse_message data copy_rdata = Throw e ∧ get_error e = PARSE).
Proof. intros Hd. apply wp_cases, (parse_message_spec data Hd). Qed.

(** A response with one A record for "a.b", its owner name compressed. *)
Definition a_response : bytes :=
  [18; 52; 129; 128; 0; 1; 0; 1; 0; 0; 0; 0; 1; 97; 1; 98; 0; 0; 1; 0; 1;
   192; 12; 0; 1; 0; 1; 0; 0; 0; 60; 0; 4; 10; 0; 0; 7]%Z.

Lemma parse_message_total_witness :
  Forall is_byte a_response ∧
  ∃ m, parse_message a_response true = Ret m ∧ message_ok a_response true m
    ∧ map rr_rdata (m_answers m) = [[10; 0; 0; 7]%Z] ∧ map rr_name (m_answers m) = [str "a.b"].
Proof.
  assert (Forall is_byte a_response) as Hw.
  { apply (bool_decide_unpack _). vm_compute. exact I. }
  split; [exact Hw|].
  destruct (parse_message_total a_response true Hw) as [(m & H & Hok)|(e & H & _)].
  - exists m. split; [exact H|]. split; [exact Hok|].
    vm_compute in H. injection H as <-. split; reflexivity.
  - vm_compute in H. discriminate H.
Defined.

(** Formatting the answers stays inside the packet when they carry no SOA
    record, no MX record with less than two octets of RDATA and no SRV record
    with less than six: [parse_strings] then returns one string per answer (none
    unless the response code is NOERROR) or throws a PARSE exception. *)
Theorem parse_strings_defined (inet_ntop4 inet_ntop6 : bytes → bytes) (data : bytes) :
  Forall is_byte data →
  (∀ m, parse_message data false = Ret m → Forall (formats_in_bounds data) (m_answers m)) →
  (∃ r, parse_strings inet_ntop4 inet_ntop6 data = Ret r
     ∧ ∃ m, parse_message data false = Ret m ∧ fmt_rcode r = m_rcode m
        ∧ length (fmt_records r) = if (m_rcode m =? NOERROR)%Z then length (m_answers m) else 0)
  ∨ (∃ e, parse_strings inet_ntop4 inet_ntop6 data = Throw e ∧ get_error e = PARSE).
Proof.
  intros Hd Hb. apply wp_cases. unfold parse_strings.
  eapply wp_call; [by apply parse_message_spec|]. intros m Hm Hok.
  apply wp_bind. destruct (m_rcode m =? NOERROR)%Z eqn:Hr.
  - eapply wp_mono; [eapply format_answers_spec; [done| |by apply Hb]| |done].
    { by apply mok_records, Forall_app in Hok as [? _]. }
    intros records Hl. simpl. exists m. by rewrite Hr.
  - simpl. exists m. by rewrite Hr.
Qed.

Lemma parse_strings_defined_witness :
  ∃ r, parse_strings id id a_response = Ret r ∧ length (fmt_records r) = 1.
Proof.
  destruct (parse_strings_defined id id a_response) as [(r & H & m & Hm & _ & Hl)|(e & H & _)].
  - apply (bool_decide_unpack _). vm_compute. exact I.
  - intros m Hm. vm_compute in Hm. injection Hm as <-.
    apply Forall_singleton. split; [|split]; vm_compute; discriminate.
  - exists r. split; [exact H|]. vm_compute in Hm. injection Hm as <-. exact Hl.
  - vm_compute in H. discriminate H.
Defined.

(** A response whose only answer is an SOA record with two root names and
    [k] further octets of RDATA, the last of the packet. *)
Definition soa_response (k : nat) : bytes :=
  [0; 0; 128; 0; 0; 0; 0; 1; 0; 0; 0; 0; 0; 0; 6; 0; 1; 0; 0; 0; 0; 0; 2 + Z.of_nat k; 0; 0]%Z
  ++ repeat 1%Z k.

(** The SOA formatter does not check that the five 32-bit integers are
    there: on a well-formed response whose SOA RDATA is short (fewer than 20
    octets after the names, at the end of the packet) it reads past the end of
    the buffer, although [parse_message] accepts the packet; with 20 octets it
    formats them. *)
Theorem soa_reads_past_the_packet (inet_ntop4 inet_ntop6 : bytes → bytes) :
  (∀ k, k < 20 →
     (∃ m, parse_message (soa_response k) false = Ret m)
     ∧ parse_strings inet_ntop4 inet_ntop6 (soa_response k) = Undef)
  ∧ ∃ r, parse_strings inet_ntop4 inet_ntop6 (soa_response 20) = Ret r.
Proof.
  split.
  - intros k Hk. do 20 (destruct k as [|k]; [split; [eexists; vm_compute; reflexivity
      |vm_compute; reflexivity]|]). lia.
  - eexists. vm_compute. reflexivity.
Qed.

(** An OPT record is taken as the message's EDNS information only if its
    owner name has exactly one character, so never when it is the root, whose
    decompressed name is empty: a message all of whose OPT records are owned by
    the root has no EDNS information and no extended response code. *)
Theorem root_opt_is_not_edns (data : bytes) (copy_rdata : bool) (m : ParsedMessage) :
  Forall is_byte data → parse_message data copy_rdata = Ret m →
  Forall (λ rr, rr_type rr = record_type_code OPT → rr_name rr = []) (m_additionals m) →
  m_edns m = None ∧ (m_rcode m < 16)%Z.
Proof.
  intros Hd Hm Hroot.
  pose proof (wp_Ret_inv _ _ _ _ (parse_message_spec data Hd copy_rdata) Hm) as Hok.
  destruct (m_edns m) as [e|] eqn:He; [|split; [done|by eapply mok_rcode_basic]].
  exfalso. destruct (mok_edns _ _ _ Hok) as (rr & Hin & Hopt); [by exists e|].
  rewrite Forall_forall in Hroot. unfold is_opt_record in Hopt. prop_of_bool.
  by rewrite (Hroot rr Hin) in *.
Qed.

(** A response with an OPT record owned by the root: payload size 1232 and the
    extended response code 1 (BADVERS with the header's 0). *)
Definition opt_response : bytes :=
  [0; 0; 128; 0; 0; 0; 0; 0; 0; 0; 0; 1; 0; 0; 41; 4; 208; 1; 0; 0; 0; 0; 0]%Z.

Lemma root_opt_is_not_edns_witness :
  ∃ m, parse_message opt_response true = Ret m
    ∧ map rr_type (m_additionals m) = [record_type_code OPT] ∧ m_edns m = None.
Proof.
  eexists. split; [vm_compute; reflexivity|]. split; [reflexivity|].
  refine (proj1 (root_opt_is_not_edns opt_response true _ _ _ _)).
  - apply (bool_decide_unpack _). vm_compute. exact I.
  - vm_compute. reflexivity.
  - apply Forall_singleton. intros _. reflexivity.
Defined.
