(* ===== verification/DnsRoundtrip.v ===== *)
(** The query builder against the response parser: what [QueryBuilder] writes,
    [RecordParser] reads back. *)
From S2P Require Import Prelude CppString StringUtil Bytes DnsTypes DnsBuilder DnsParser.
Import WireWriter RecordParser.

(** * Reading at a known position *)

Section at_position.
Context {E : Type}.

Lemma rd_at (pre post : bytes) b off : off = length pre → rd (E:=E) (pre ++ b :: post) off = Ret b.
Proof. intros ->. apply rd_Some. by apply lookup_app_exact. Qed.

Lemma read_u32_be_u32_be (pre post : bytes) v off :
  off = length pre → is_u32 v → read_u32_be (E:=E) (pre ++ u32_be v ++ post) off = Ret v.
Proof.
  intros -> Hv. unfold read_u32_be, u32_be. cbn [app].
  rewrite (rd_at pre _ _ (length pre)) by done. cbn [mbind outcome_bind].
  rewrite (rd_Some _ (length pre + 1) (u8 (Z.shiftr v 16)))
    by (rewrite lookup_app_r by lia; by replace (_ + 1 - _) with 1 by lia).
  cbn [mbind outcome_bind].
  rewrite (rd_Some _ (length pre + 2) (u8 (Z.shiftr v 8)))
    by (rewrite lookup_app_r by lia; by replace (_ + 2 - _) with 2 by lia).
  cbn [mbind outcome_bind].
  rewrite (rd_Some _ (length pre + 3) (u8 v))
    by (rewrite lookup_app_r by lia; by replace (_ + 3 - _) with 3 by lia).
  cbn [mbind outcome_bind]. f_equal. rewrite u32_of_be_eq by auto with bytes.
  unfold u8. rewrite !Z.shiftr_div_pow2 by lia. unfold is_u32 in Hv.
  change (2 ^ 24)%Z with (256 * (256 * 256))%Z. change (2 ^ 16)%Z with (256 * 256)%Z.
  change (2 ^ 8)%Z with 256%Z. rewrite <- !Z.div_div by lia.
  pose proof (Z.div_mod v 256 ltac:(lia)).
  pose proof (Z.div_mod (v / 256) 256 ltac:(lia)).
  pose proof (Z.div_mod (v / 256 / 256) 256 ltac:(lia)).
  rewrite (Z.mod_small (v / 256 / 256 / 256)); [lia|].
  split; [apply Z.div_pos; [|lia]; apply Z.div_pos; [|lia]; apply Z.div_pos; lia|].
  do 3 (apply Z.div_lt_upper_bound; [lia|]). lia.
Qed.
End at_position.

Lemma u32_be_length v : length (u32_be v) = 4.
Proof. done. Qed.

(** * Names *)

(** The labels of a name the builder accepts as it is. *)
Definition labels_ok (ls : list bytes) : Prop :=
  Forall label_ok ls ∧ length (dotted ls) ≤ 253.

Lemma encode_name_labels buf ls :
  labels_ok ls → encode_name buf (dotted ls) = Ret (buf ++ wire_name ls).
Proof.
  intros [Hok Hl]. destruct (decide (ls = [])) as [->|]; [apply encode_name_root|].
  by apply encode_name_dotted.
Qed.

(** How [decompress_name] extends a partial result by labels. *)
Fixpoint append_labels (result : bytes) (ls : list bytes) : bytes :=
  match ls with
  | [] => result
  | l :: ls => append_labels ((if decide (result = []) then result else result ++ [ch "."]) ++ l) ls
  end.

Lemma append_labels_ne result ls :
  result ≠ [] → ls ≠ [] → append_labels result ls = result ++ ch "." :: dotted ls.
Proof.
  revert result. induction ls as [|l ls IH]; intros result Hr Hls; [done|].
  simpl. rewrite decide_False by done. destruct (decide (ls = [])) as [->|Hne].
  - simpl. by rewrite <- app_assoc.
  - rewrite IH; [|by destruct result|done]. rewrite dotted_cons by done.
    by rewrite <- !app_assoc.
Qed.

Lemma append_nonempty_labels ls :
  Forall (λ l, l ≠ []) ls → append_labels [] ls = dotted ls.
Proof.
  intros Hok. destruct Hok as [|l ls Hl _]; [done|]. simpl.
  destruct (decide (ls = [])) as [->|Hne]; [done|].
  rewrite append_labels_ne by done. by rewrite dotted_cons.
Qed.

Lemma append_labels_dotted ls :
  Forall label_ok ls → append_labels [] ls = dotted ls.
Proof.
  intros Hok. apply append_nonempty_labels. eapply Forall_impl; [done|]. by intros l (Hl & _).
Qed.

(** A label length has its two high bits clear. *)
Lemma land_c0_small z : (0 ≤ z < 64)%Z → Z.land z 0xC0 = 0%Z.
Proof.
  intros Hz. apply Z.bits_inj'. intros i Hi. rewrite Z.land_spec, Z.bits_0.
  destruct (decide (6 <= i)%Z) as [Hi6|Hi6].
  - by rewrite (testbit_above _ 6) by (change (2 ^ 6)%Z with 64%Z; lia).
  - assert (i = 0 ∨ i = 1 ∨ i = 2 ∨ i = 3 ∨ i = 4 ∨ i = 5)%Z
      as [->|[->|[->|[->|[->| ->]]]]] by lia; apply andb_false_r.
Qed.

Lemma decompress_loop_labels fuel pre ls post offset ind visited result :
  Forall label_ok ls → length ls < fuel →
  decompress_loop fuel (pre ++ wire_name ls ++ post) (length pre) offset ind false visited result
  = Ret (append_labels result ls, length pre + length (wire_name ls)).
Proof.
  revert fuel pre result.
  induction ls as [|l ls IH]; intros [|fuel] pre result Hok Hf; try (simpl in Hf; lia);
    cbn [decompress_loop].
  - unfold wire_name, wire_labels. cbn [map concat app].
    rewrite throw_if_false by (apply Nat.leb_gt; rewrite length_app; simpl; lia).
    rewrite (rd_at pre _ _ _ eq_refl). simpl. by rewrite Nat.add_1_r.
  - apply Forall_cons_1 in Hok as [(Hl0 & Hl63 & _) Hok].
    assert (0 < length l) as Hl by (destruct l; [done|simpl; lia]).
    change (wire_name (l :: ls)) with ((Z.of_nat (length l) :: l ++ wire_labels ls) ++ [0%Z]).
    cbn [app]. rewrite <- !app_assoc.
    change (wire_labels ls ++ [0%Z] ++ post) with (wire_labels ls ++ ([0%Z] ++ post)).
    rewrite (app_assoc (wire_labels ls)). change (wire_labels ls ++ [0%Z]) with (wire_name ls).
    rewrite throw_if_false by (apply Nat.leb_gt; rewrite length_app; simpl; lia).
    rewrite (rd_at pre _ _ _ eq_refl). cbn [mbind outcome_bind].
    rewrite land_c0_small by lia.
    change (0 =? 0xC0)%Z with false. cbn match.
    rewrite (proj2 (Z.eqb_neq _ _)) by lia.
    rewrite throw_if_false by (unfold MAX_LABEL_LENGTH; apply Z.ltb_ge; lia).
    rewrite Nat2Z.id.
    rewrite throw_if_false by (apply Nat.ltb_ge; rewrite !length_app; simpl; rewrite !length_app; lia).
    cbn [append_labels].
    replace (pre ++ Z.of_nat (length l) :: l ++ wire_name ls ++ post)
      with ((pre ++ Z.of_nat (length l) :: l) ++ wire_name ls ++ post)
      by (by rewrite <- app_assoc).
    replace (length pre + 1 + length l) with (length (pre ++ Z.of_nat (length l) :: l))
      by (rewrite length_app; simpl; lia).
    assert (sub ((pre ++ Z.of_nat (length l) :: l) ++ wire_name ls ++ post) (length pre + 1) (length l)
            = l) as ->.
    { replace ((pre ++ Z.of_nat (length l) :: l) ++ wire_name ls ++ post)
        with ((pre ++ [Z.of_nat (length l)]) ++ l ++ wire_name ls ++ post)
        by (by rewrite <- !app_assoc).
      apply sub_app_exact; [rewrite length_app; simpl; lia|done]. }
    rewrite IH by (simpl in Hf; first [done|lia]).
    f_equal. f_equal. unfold wire_name. rewrite !length_app. simpl. rewrite !length_app. simpl. lia.
Qed.

Lemma dotted_length_ge ls : Forall label_ok ls → length ls ≤ length (dotted ls).
Proof.
  induction 1 as [|l ls (Hl & _) Hok IH]; [done|]. destruct l; [done|].
  destruct (decide (ls = [])) as [->|]; [simpl; lia|].
  rewrite dotted_cons, length_app by done. simpl. lia.
Qed.

Lemma wire_name_length_ge ls : Forall label_ok ls → length ls < length (wire_name ls).
Proof.
  intros Hok. destruct (decide (ls = [])) as [->|Hne]; [simpl; lia|].
  rewrite wire_name_length by done. apply dotted_length_ge in Hok. lia.
Qed.

Lemma decompress_name_wire pre ls post :
  Forall label_ok ls →
  decompress_name (pre ++ wire_name ls ++ post) (length pre)
  = Ret (dotted ls, length pre + length (wire_name ls)).
Proof.
  intros Hok. unfold decompress_name. rewrite decompress_loop_labels; [|done|].
  - by rewrite append_labels_dotted.
  - unfold name_fuel. rewrite !length_app. apply wire_name_length_ge in Hok. lia.
Qed.

(** * The question section *)

(** A question whose name has a plain dotted form. *)
Definition pq_ok (q : PendingQuestion) : Prop :=
  ∃ ls, pq_qname q = dotted ls ∧ labels_ok ls ∧ is_u16 (pq_qclass q).

Definition question_of (q : PendingQuestion) : Question :=
  {| q_qname := pq_qname q; q_qtype := record_type_code (pq_qtype q); q_qclass := pq_qclass q |}.

Lemma write_parse_questions qs :
  Forall pq_ok qs →
  ∃ qw, (∀ w, write_questions w qs = Ret (w ++ qw))
    ∧ (∀ pre post, parse_questions (length qs) (pre ++ qw ++ post) (length pre)
         = Ret (map question_of qs, length pre + length qw)).
Proof.
  induction 1 as [|q qs (ls & Hn & Hls & Hc) Hqs (qw & Hw & Hp)].
  { exists []. split; [intros; simpl; by rewrite app_nil_r|].
    intros. simpl. by rewrite Nat.add_0_r. }
  pose proof (record_type_code_u16 (pq_qtype q)) as Ht.
  set (tc := record_type_code (pq_qtype q)) in *.
  exists (wire_name ls ++ u16_be tc ++ u16_be (pq_qclass q) ++ qw). split.
  - intros w. cbn [write_questions]. rewrite Hn, encode_name_labels by done.
    cbn [mbind outcome_bind]. rewrite !write_uint16_eq, Hw. fold tc. by rewrite <- !app_assoc.
  - intros pre post. cbn [parse_questions length map]. rewrite <- !app_assoc.
    destruct Hls as [Hls _]. rewrite decompress_name_wire by done. cbn [mbind outcome_bind].
    replace (length pre + length (wire_name ls)) with (length (pre ++ wire_name ls))
      by (by rewrite length_app).
    rewrite throw_if_false
      by (apply Nat.ltb_ge; unfold QUESTION_FIXED_SIZE; rewrite !length_app; simpl; lia).
    rewrite (app_assoc pre (wire_name ls)).
    rewrite (read_u16_be_u16_be _ _ _ _ eq_refl Ht). cbn [mbind outcome_bind].
    rewrite (app_assoc _ (u16_be tc)).
    rewrite read_u16_be_u16_be by (try done; rewrite !length_app; simpl; lia).
    cbn [mbind outcome_bind]. rewrite (app_assoc _ (u16_be (pq_qclass q))).
    replace (length (pre ++ wire_name ls) + QUESTION_FIXED_SIZE)
      with (length (((pre ++ wire_name ls) ++ u16_be tc) ++ u16_be (pq_qclass q)))
      by (unfold QUESTION_FIXED_SIZE; rewrite !length_app; simpl; lia).
    rewrite Hp. cbn [mbind outcome_bind]. unfold question_of. rewrite Hn. fold tc.
    do 2 f_equal. rewrite !length_app. simpl. lia.
Qed.

(** * The OPT record *)

Definition option_wire (opt : EdnsOption) : bytes :=
  u16_be (opt_code opt) ++ u16_be (Z.of_nat (length (opt_data opt))) ++ opt_data opt.
Definition options_wire (opts : list EdnsOption) : bytes := concat (map option_wire opts).

Definition option_ok (opt : EdnsOption) : Prop :=
  is_u16 (opt_code opt) ∧ is_u16 (Z.of_nat (length (opt_data opt))).

Lemma option_wire_length opt : length (option_wire opt) = 4 + length (opt_data opt).
Proof. unfold option_wire. rewrite !length_app. simpl. lia. Qed.

Lemma write_options_eq w opts :
  Forall option_ok opts → foldl write_option w opts = w ++ options_wire opts.
Proof.
  intros Hok. revert w. induction Hok as [|opt opts (_ & Hl) Hok IH]; intros w; simpl.
  { unfold options_wire. simpl. by rewrite app_nil_r. }
  rewrite IH. unfold write_option, write_bytes. rewrite !write_uint16_eq, u16_small by done.
  unfold options_wire, option_wire. simpl. by rewrite <- !app_assoc.
Qed.

Lemma edns_rdlength_eq opts :
  edns_rdlength opts = u16 (Z.of_nat (length (options_wire opts))).
Proof.
  unfold edns_rdlength.
  assert (∀ z, is_u16 z → foldl (λ r o, u16 (r + u16 (4 + Z.of_nat (length (opt_data o)))))%Z z opts
    = u16 (z + Z.of_nat (length (options_wire opts)))) as H.
  { induction opts as [|opt opts IH]; intros z Hz.
    - simpl. rewrite Z.add_0_r. by rewrite u16_small.
    - cbn [foldl]. rewrite IH by auto with bytes.
      change (options_wire (opt :: opts)) with (option_wire opt ++ options_wire opts).
      rewrite length_app, option_wire_length. unfold u16.
      rewrite Zplus_mod_idemp_l. rewrite (Z.add_comm z), <- Z.add_assoc, Zplus_mod_idemp_l.
      f_equal. lia. }
  rewrite H by (unfold is_u16; lia). done.
Qed.

Lemma parse_options_wire fuel pre opts acc :
  Forall option_ok opts → length opts ≤ fuel →
  parse_edns_options fuel (pre ++ options_wire opts) (length pre) acc = Ret (acc ++ opts).
Proof.
  intros Hok. revert fuel pre acc.
  induction Hok as [|opt opts (Hc & Hl) Hok IH]; intros fuel pre acc Hf.
  { unfold options_wire. simpl. rewrite !app_nil_r. destruct fuel; cbn [parse_edns_options];
      by rewrite (proj2 (Nat.leb_gt _ _)) by lia. }
  destruct fuel as [|fuel]; [simpl in Hf; lia|]. cbn [parse_edns_options].
  change (options_wire (opt :: opts)) with (option_wire opt ++ options_wire opts).
  rewrite (proj2 (Nat.leb_le _ _)) by (rewrite !length_app, option_wire_length; lia).
  unfold option_wire. rewrite <- !app_assoc.
  rewrite (read_u16_be_u16_be _ _ _ _ eq_refl Hc). cbn [mbind outcome_bind].
  rewrite (app_assoc pre), read_u16_be_u16_be by (try done; rewrite !length_app; simpl; lia).
  cbn [mbind outcome_bind]. rewrite Nat2Z.id.
  rewrite throw_if_false by (apply Nat.ltb_ge; rewrite !length_app; simpl; lia).
  rewrite (app_assoc (pre ++ u16_be (opt_code opt))).
  rewrite sub_app_exact by (rewrite ?length_app; simpl; lia).
  rewrite (app_assoc _ (opt_data opt)).
  match goal with |- parse_edns_options _ (?p ++ _) ?o _ = _ =>
    replace o with (length p) by (rewrite !length_app; simpl; lia) end.
  rewrite IH by (simpl in Hf; lia). rewrite <- app_assoc. by destruct opt.
Qed.

Lemma options_wire_length_ge opts : length opts ≤ length (options_wire opts).
Proof.
  induction opts as [|opt opts IH]; [done|].
  change (options_wire (opt :: opts)) with (option_wire opt ++ options_wire opts).
  rewrite length_app, option_wire_length. simpl. lia.
Qed.

(** What the builder accepts as EDNS configuration and writes unharmed. *)
Record edns_ok (e : EdnsConfig) : Prop := {
  eok_version : cfg_version e = 0%Z;
  eok_payload : (512 ≤ cfg_udp_payload_size e < 65536)%Z;
  eok_options : Forall option_ok (cfg_options e);
  eok_length : is_u16 (Z.of_nat (length (options_wire (cfg_options e))))
}.

(** The record the parser makes of it. *)
Definition opt_record (e : EdnsConfig) (copy_rdata : bool) (offset : nat) : ResourceRecord :=
  {| rr_name := []; rr_type := OPT_RR_TYPE; rr_qclass := cfg_udp_payload_size e;
     rr_ttl := if cfg_dnssec_ok e then 0x8000 else 0;
     rr_rdata := if copy_rdata then options_wire (cfg_options e) else [];
     rr_rdata_offset := offset |}.

Definition edns_wire (e : EdnsConfig) : bytes :=
  wire_name [] ++ u16_be OPT_RR_TYPE ++ u16_be (cfg_udp_payload_size e)
  ++ u32_be (if cfg_dnssec_ok e then 0x8000 else 0)
  ++ u16_be (Z.of_nat (length (options_wire (cfg_options e)))) ++ options_wire (cfg_options e).

Lemma write_edns_eq w e : edns_ok e → write_edns w e = Ret (w ++ edns_wire e).
Proof.
  intros [Hv Hp Ho Hl]. unfold write_edns. rewrite Hv.
  rewrite throw_if_false by done. rewrite throw_if_false by (apply Z.ltb_ge; lia).
  rewrite encode_name_root. cbn [mbind outcome_bind].
  autorewrite with wire. rewrite write_options_eq by done.
  rewrite edns_rdlength_eq, u16_small by done. unfold edns_wire, wire_name, wire_labels.
  cbn [map concat app]. rewrite <- !app_assoc. cbn [app]. by destruct (cfg_dnssec_ok e).
Qed.

Lemma rr_fixed_reads {E} (pre : bytes) type qclass ttl len (post : bytes) :
  is_u16 type → is_u16 qclass → is_u32 ttl → is_u16 len →
  let wire := pre ++ u16_be type ++ u16_be qclass ++ u32_be ttl ++ u16_be len ++ post in
  read_u16_be (E:=E) wire (length pre) = Ret type
  ∧ read_u16_be (E:=E) wire (length pre + 2) = Ret qclass
  ∧ read_u32_be (E:=E) wire (length pre + 4) = Ret ttl
  ∧ read_u16_be (E:=E) wire (length pre + 8) = Ret len.
Proof.
  intros Ht Hc Httl Hl wire. subst wire. split; [by apply read_u16_be_u16_be|].
  split; [|split].
  - rewrite app_assoc. apply read_u16_be_u16_be; [|done]. by rewrite length_app.
  - rewrite (app_assoc pre), (app_assoc (pre ++ _)).
    apply read_u32_be_u32_be; [|done]. rewrite !length_app. simpl. lia.
  - rewrite (app_assoc pre), (app_assoc (pre ++ _)), (app_assoc ((pre ++ _) ++ _)).
    apply read_u16_be_u16_be; [|done]. rewrite !length_app. simpl. lia.
Qed.

Lemma parse_edns_wire e copy_rdata pre :
  edns_ok e →
  parse_rr copy_rdata (pre ++ edns_wire e) (length pre)
  = Ret (opt_record e copy_rdata (length pre + 11), length pre + length (edns_wire e)).
Proof.
  intros [Hv Hp Ho Hl]. unfold parse_rr, edns_wire.
  set (ol := Z.of_nat (length (options_wire (cfg_options e)))) in *.
  assert (is_u32 (if cfg_dnssec_ok e then 0x8000 else 0)) as Httl
    by (unfold is_u32; destruct (cfg_dnssec_ok e); lia).
  assert (is_u16 (cfg_udp_payload_size e)) as Hps by (unfold is_u16; lia).
  assert (is_u16 OPT_RR_TYPE) as Htype by (unfold is_u16, OPT_RR_TYPE; lia).
  set (ttl := (if cfg_dnssec_ok e then 0x8000 else 0)%Z) in *.
  rewrite decompress_name_wire by constructor. cbn [mbind outcome_bind].
  rewrite throw_if_false
    by (apply Nat.ltb_ge; unfold RR_FIXED_SIZE; rewrite !length_app; simpl; lia).
  rewrite (app_assoc pre). rewrite <- length_app.
  destruct (rr_fixed_reads (E:=DnsLookupException) (pre ++ wire_name []) OPT_RR_TYPE
    (cfg_udp_payload_size e) ttl ol (options_wire (cfg_options e))) as (-> & H2 & H3 & H4); try done.
  cbn [mbind outcome_bind]. rewrite H2. cbn [mbind outcome_bind]. rewrite H3.
  cbn [mbind outcome_bind]. rewrite H4. cbn [mbind outcome_bind]. unfold RR_FIXED_SIZE.
  subst ol. rewrite Nat2Z.id.
  rewrite throw_if_false by (apply Nat.ltb_ge; rewrite !length_app; simpl; lia).
  set (opts := options_wire (cfg_options e)).
  assert (sub ((pre ++ wire_name []) ++ u16_be OPT_RR_TYPE ++ u16_be (cfg_udp_payload_size e)
    ++ u32_be ttl ++ u16_be (Z.of_nat (length opts)) ++ opts)
    (length (pre ++ wire_name []) + 10) (length opts) = opts) as ->.
  { unfold sub. rewrite <- drop_drop, drop_app_length. simpl. by rewrite take_ge. }
  unfold opt_record. fold ttl. fold opts.
  replace (length (pre ++ wire_name []) + 10) with (length pre + 11)
    by (rewrite length_app; simpl; lia).
  do 2 f_equal. rewrite !length_app. simpl. lia.
Qed.

Lemma parse_additionals_opt e copy_rdata pre :
  edns_ok e →
  parse_additionals 1 copy_rdata (pre ++ edns_wire e) (length pre) None
  = Ret ([opt_record e copy_rdata (length pre + 11)], None, length pre + length (edns_wire e)).
Proof.
  intros He. cbn [parse_additionals]. rewrite parse_edns_wire by done. done.
Qed.

Lemma parse_edns_opt_record e offset :
  edns_ok e →
  parse_edns (opt_record e true offset)
  = Ret (Some {| udp_payload_size := cfg_udp_payload_size e; extended_rcode := 0;
                 edns_version := 0; dnssec_ok := cfg_dnssec_ok e;
                 edns_options := cfg_options e |}).
Proof.
  intros [_ _ Ho _]. unfold parse_edns, opt_record. cbn [rr_type rr_ttl rr_rdata rr_qclass].
  change (negb (OPT_RR_TYPE =? record_type_code OPT)%Z) with false. cbn match.
  pose proof (parse_options_wire (length (options_wire (cfg_options e))) [] _ [] Ho
    (options_wire_length_ge _)) as H.
  cbn [app length] in H. rewrite H.
  cbn [mbind outcome_bind]. by destruct (cfg_dnssec_ok e).
Qed.

(** * The header flags *)

Lemma build_flags_nibbles qr opcode aa tc rd ra rcode :
  build_flags qr opcode aa tc rd ra rcode
  = build_flags qr (Z.land opcode 15) aa tc rd ra (Z.land rcode 15).
Proof. unfold build_flags. by rewrite <- !Z.land_assoc. Qed.

(** What the parser reads out of the two flag octets. *)
Definition flags_read (hi lo : Z) (qr : bool) (opcode : Z) (aa tc rd ra : bool) (rcode : Z) : Prop :=
  negb (Z.land hi 0x80 =? 0)%Z = qr ∧ Z.land (Z.shiftr hi 3) 0x0F = opcode
  ∧ negb (Z.land hi 0x04 =? 0)%Z = aa ∧ negb (Z.land hi 0x02 =? 0)%Z = tc
  ∧ negb (Z.land hi 0x01 =? 0)%Z = rd ∧ negb (Z.land lo 0x80 =? 0)%Z = ra
  ∧ Z.land lo 0x0F = rcode.

#[local] Instance flags_read_dec hi lo qr opcode aa tc rd ra rcode :
  Decision (flags_read hi lo qr opcode aa tc rd ra rcode).
Proof. unfold flags_read. apply _. Defined.

Lemma nibble_mod z : (Z.land z 15 = z mod 16)%Z.
Proof. apply (land_mod_pow2 z 4). lia. Qed.

Lemma build_flags_read qr opcode aa tc rd ra rcode :
  let f := build_flags qr opcode aa tc rd ra rcode in
  flags_read (u8 (Z.shiftr f 8)) (u8 f) qr (Z.land opcode 15) aa tc rd ra (Z.land rcode 15).
Proof.
  cbv zeta. rewrite build_flags_nibbles.
  set (o := Z.land opcode 15). set (r := Z.land rcode 15).
  assert (o ∈ seqZ 0 16) as Ho
    by (apply elem_of_seqZ; subst o; rewrite nibble_mod; pose proof (Z.mod_pos_bound opcode 16); lia).
  assert (r ∈ seqZ 0 16) as Hr
    by (apply elem_of_seqZ; subst r; rewrite nibble_mod; pose proof (Z.mod_pos_bound rcode 16); lia).
  clearbody o r.
  assert (Forall (λ o, Forall (λ r, let f := build_flags qr o aa tc rd ra r in
    flags_read (u8 (Z.shiftr f 8)) (u8 f) qr o aa tc rd ra r) (seqZ 0 16)) (seqZ 0 16)) as H.
  { destruct qr, aa, tc, rd, ra; apply (bool_decide_unpack _); vm_compute; exact I. }
  rewrite Forall_forall in H. specialize (H o Ho). rewrite Forall_forall in H. by apply H.
Qed.

(** * The whole packet *)

Record builder_ok (b : QueryBuilder) : Prop := {
  bok_id : is_u16 (id_ b);
  bok_questions : questions_ b ≠ [];
  bok_names : Forall pq_ok (questions_ b);
  bok_count : is_u16 (Z.of_nat (length (questions_ b)));
  bok_edns : ∀ e, edns_ b = Some e → edns_ok e
}.

(** The six header fields in front of anything. *)
Lemma header_reads {E} id f qd an ns ar (post : bytes) :
  is_u16 id → is_u16 qd → is_u16 an → is_u16 ns → is_u16 ar →
  let wire := (((((u16_be id ++ u16_be f) ++ u16_be qd) ++ u16_be an) ++ u16_be ns) ++ u16_be ar)
    ++ post in
  read_u16_be (E:=E) wire 0 = Ret id
  ∧ rd (E:=E) wire 2 = Ret (u8 (Z.shiftr f 8)) ∧ rd (E:=E) wire 3 = Ret (u8 f)
  ∧ read_u16_be (E:=E) wire 4 = Ret qd ∧ read_u16_be (E:=E) wire 6 = Ret an
  ∧ read_u16_be (E:=E) wire 8 = Ret ns ∧ read_u16_be (E:=E) wire 10 = Ret ar.
Proof.
  intros Hi Hq Ha Hn Hr wire. subst wire. rewrite <- !app_assoc.
  split; [by apply (read_u16_be_u16_be [])|]. split; [done|]. split; [done|].
  split; [by apply (read_u16_be_u16_be (u16_be id ++ u16_be f))|].
  split; [by apply (read_u16_be_u16_be ((u16_be id ++ u16_be f) ++ u16_be qd))|].
  split; [by apply (read_u16_be_u16_be (((u16_be id ++ u16_be f) ++ u16_be qd) ++ u16_be an))|].
  by apply (read_u16_be_u16_be ((((u16_be id ++ u16_be f) ++ u16_be qd) ++ u16_be an) ++ u16_be ns)).
Qed.

(** The header [build] writes, as the number of questions and of additional
    records vary. *)
Definition header_wire (b : QueryBuilder) : bytes :=
  ((((u16_be (id_ b)
      ++ u16_be (build_flags (qr_ b) (opcode_ b) (aa_ b) (tc_ b) (rd_ b) (ra_ b) (rcode_ b)))
     ++ u16_be (Z.of_nat (length (questions_ b)))) ++ u16_be 0) ++ u16_be 0)
  ++ u16_be (match edns_ b with Some _ => 1 | None => 0 end).

Lemma build_eq b qw :
  builder_ok b → (∀ w, write_questions w (questions_ b) = Ret (w ++ qw)) →
  build b = Ret (header_wire b ++ qw ++ match edns_ b with Some e => edns_wire e | None => [] end).
Proof.
  intros [Hid Hne Hq Hc He] Hqw. unfold build.
  rewrite throw_if_false by (by apply bool_decide_eq_false).
  rewrite u16_small by done. autorewrite with wire. cbn [app]. rewrite Hqw.
  cbn [mbind outcome_bind]. unfold header_wire. destruct (edns_ b) as [e|].
  - rewrite write_edns_eq by auto. by rewrite <- !app_assoc.
  - by rewrite app_nil_r, <- !app_assoc.
Qed.

(** What [parse_message] makes of the packet [b] builds. *)
Record parsed_as (b : QueryBuilder) (copy_rdata : bool) (m : ParsedMessage) : Prop := {
  pa_id : m_id m = id_ b;
  pa_flags : (m_qr m, m_aa m, m_tc m, m_rd m, m_ra m) = (qr_ b, aa_ b, tc_ b, rd_ b, ra_ b);
  pa_opcode : m_opcode m = Z.land (opcode_ b) 15;
  pa_rcode : m_rcode m = Z.land (rcode_ b) 15;
  pa_questions : m_questions m = map question_of (questions_ b);
  pa_answers : m_answers m = [] ∧ m_authorities m = [];
  pa_additionals : match edns_ b with
    | Some e => ∃ offset, m_additionals m = [opt_record e copy_rdata offset]
    | None => m_additionals m = []
    end;
  pa_edns : m_edns m = None
}.

Lemma build_parses b copy_rdata :
  builder_ok b →
  ∃ p m, build b = Ret p ∧ parse_message p copy_rdata = Ret m ∧ parsed_as b copy_rdata m.
Proof.
  intros Hb. destruct (write_parse_questions _ (bok_names _ Hb)) as (qw & Hqw & Hparse).
  pose proof (build_eq b qw Hb Hqw) as Hbuild.
  set (tail := match edns_ b with Some e => edns_wire e | None => [] end) in *.
  exists (header_wire b ++ qw ++ tail). rewrite Hbuild.
  pose proof (build_flags_read (qr_ b) (opcode_ b) (aa_ b) (tc_ b) (rd_ b) (ra_ b) (rcode_ b))
    as (F1 & F2 & F3 & F4 & F5 & F6 & F7).
  set (f := build_flags _ _ _ _ _ _ _) in *. cbv zeta in *.
  set (arc := (match edns_ b with Some _ => 1 | None => 0 end)%Z).
  assert (is_u16 arc) as Harc by (unfold is_u16; subst arc; destruct (edns_ b); lia).
  destruct (header_reads (E:=DnsLookupException) (id_ b) f (Z.of_nat (length (questions_ b)))
    0 0 arc (qw ++ tail) (bok_id _ Hb) (bok_count _ Hb) ltac:(unfold is_u16; lia)
    ltac:(unfold is_u16; lia) Harc) as (R0 & R2 & R3 & R4 & R6 & R8 & R10).
  assert (∃ add, parse_additionals (Z.to_nat arc) copy_rdata (header_wire b ++ qw ++ tail)
      (12 + length qw) None = Ret (add, None, 12 + length qw + length tail)
    ∧ match edns_ b with
      | Some e => ∃ offset, add = [opt_record e copy_rdata offset]
      | None => add = []
      end) as (add & Hadd & Hadd').
  { subst arc tail. destruct (edns_ b) as [e|] eqn:He.
    - pose proof (parse_additionals_opt e copy_rdata (header_wire b ++ qw) (bok_edns _ Hb e He)) as H.
      rewrite <- app_assoc, length_app in H. eexists. split; [exact H|]. by eexists.
    - exists []. simpl. by rewrite Nat.add_0_r. }
  specialize (Hparse (header_wire b) tail). change (length (header_wire b)) with 12 in Hparse.
  eexists. split; [done|]. unfold parse_message.
  rewrite throw_if_false
    by (apply Nat.ltb_ge; rewrite length_app; change (length (header_wire b)) with 12;
        unfold HEADER_SIZE; lia).
  fold f in R0. change (header_wire b ++ qw ++ tail) with
    ((((((u16_be (id_ b) ++ u16_be f) ++ u16_be (Z.of_nat (length (questions_ b)))) ++ u16_be 0)
      ++ u16_be 0) ++ u16_be arc) ++ qw ++ tail) in *.
  rewrite R0, R2, R3, R4, R6, R8, R10. cbn [mbind outcome_bind]. rewrite Nat2Z.id.
  unfold HEADER_SIZE. rewrite Hparse. change (Z.to_nat 0) with 0.
  cbn [mbind outcome_bind parse_rrs].
  rewrite Hadd. cbn [mbind outcome_bind]. split; [done|].
  constructor; cbn; try done; by rewrite ?F1, ?F2, ?F3, ?F4, ?F5, ?F6, ?F7.
Qed.

(** The builder [DNS::build_query] sets up. *)
Definition query_builder (rnd : Z) (host : bytes) (type : RecordType) : QueryBuilder :=
  add_edns 1232 0 false [] (add_question host type IN (QueryBuilder_new rnd)).

Lemma land_ffff_u16 z : is_u16 (Z.land z 0xFFFF).
Proof.
  change 0xFFFF%Z with (2 ^ 16 - 1)%Z. rewrite land_mod_pow2 by lia.
  unfold is_u16. apply Z.mod_pos_bound. lia.
Qed.

Lemma query_builder_ok rnd ls type :
  labels_ok ls → builder_ok (query_builder rnd (dotted ls) type).
Proof.
  intros Hls. constructor; simpl.
  - apply land_ffff_u16.
  - done.
  - repeat constructor. exists ls. split; [done|]. split; [done|]. unfold is_u16. simpl. lia.
  - unfold is_u16. lia.
  - intros e [= <-]. constructor; simpl; [done|lia|constructor|]. unfold is_u16. simpl. lia.
Qed.

(** * Properties *)

(** Name encoding and decompression are inverse: a dotted name of at most 253
    characters whose labels have 1 to 63 octets is encoded as the RFC 1035
    label sequence, and that sequence, anywhere in a packet, is read back as
    the same name with the offset moved just past it. *)
Theorem decompress_inverts_encode (pre post buf : bytes) (ls : list bytes) :
  labels_ok ls →
  encode_name buf (dotted ls) = Ret (buf ++ wire_name ls)
  ∧ decompress_name (pre ++ wire_name ls ++ post) (length pre)
    = Ret (dotted ls, length pre + length (wire_name ls)).
Proof.
  intros Hls. split; [by apply encode_name_labels|]. by apply decompress_name_wire, Hls.
Qed.

Lemma labels_ok_example : labels_ok [str "www"; str "example"; str "com"].
Proof.
  split; [|vm_compute; lia].
  repeat constructor; try discriminate; try (vm_compute; lia);
    try (apply (bool_decide_unpack _); vm_compute; exact I).
Qed.

Lemma decompress_inverts_encode_witness :
  labels_ok [str "www"; str "example"; str "com"] ∧
  encode_name [] (str "www.example.com")
  = Ret [3; 119; 119; 119; 7; 101; 120; 97; 109; 112; 108; 101; 3; 99; 111; 109; 0]%Z.
Proof.
  split; [exact labels_ok_example|].
  exact (proj1 (decompress_inverts_encode [1%Z] [2%Z] [] _ labels_ok_example)).
Defined.

(** C8: The parser reads back what the builder writes: for every builder whose
    question names are plain dotted names and whose EDNS options fit their
    length fields, [build] succeeds and [parse_message] returns a message with the
    same identifier, flags, opcode and response code (their low four bits), the
    same questions in order, no answers and no authorities. *)
Theorem build_parse_roundtrip (b : QueryBuilder) (copy_rdata : bool) :
  builder_ok b →
  ∃ p m, build b = Ret p ∧ parse_message p copy_rdata = Ret m ∧ parsed_as b copy_rdata m.
Proof. apply build_parses. Qed.

Lemma build_parse_roundtrip_witness :
  ∃ p m, build_query 4660 (str "www.example.com") AAAA = Ret p
    ∧ parse_message p true = Ret m ∧ m_id m = 4660%Z
    ∧ map q_qname (m_questions m) = [str "www.example.com"].
Proof.
  destruct (build_parse_roundtrip (query_builder 4660 (str "www.example.com") AAAA) true
    (query_builder_ok _ _ _ labels_ok_example)) as (p & m & Hb & Hm & Hp).
  exists p, m. split; [exact Hb|]. split; [exact Hm|].
  split; [rewrite (pa_id _ _ _ Hp); reflexivity|].
  rewrite (pa_questions _ _ _ Hp). reflexivity.
Defined.

(** The EDNS section survives the trip only outside [parse_message]: the
    additional record the parser makes of a builder's EDNS configuration is
    one [parse_edns] decodes to the same payload size, DO bit and options, yet
    [parse_message] itself leaves the message without EDNS information, since
    it compares the (empty) name of the root with the length 1. *)
Theorem build_parse_edns (b : QueryBuilder) (e : EdnsConfig) :
  builder_ok b → edns_ b = Some e →
  ∃ p m rr, build b = Ret p ∧ parse_message p true = Ret m ∧ m_additionals m = [rr]
    ∧ parse_edns rr
      = Ret (Some {| udp_payload_size := cfg_udp_payload_size e; extended_rcode := 0;
                     edns_version := cfg_version e; dnssec_ok := cfg_dnssec_ok e;
                     edns_options := cfg_options e |})
    ∧ m_edns m = None.
Proof.
  intros Hb He. destruct (build_parses b true Hb) as (p & m & Hp & Hm & Hpa).
  pose proof (pa_additionals _ _ _ Hpa) as Hadd. rewrite He in Hadd.
  destruct Hadd as (offset & Hadd). exists p, m, (opt_record e true offset).
  split; [done|]. split; [done|]. split; [done|].
  pose proof (bok_edns _ Hb e He) as Hok. split; [|by eapply pa_edns].
  rewrite (eok_version _ Hok). by apply parse_edns_opt_record.
Qed.

Lemma build_parse_edns_witness :
  ∃ m rr, m_additionals m = [rr] ∧ m_edns m = None
    ∧ parse_edns rr = Ret (Some {| udp_payload_size := 1232; extended_rcode := 0;
         edns_version := 0; dnssec_ok := false; edns_options := [] |}).
Proof.
  destruct (build_parse_edns (query_builder 7 (str "www.example.com") A) _
    (query_builder_ok _ _ _ labels_ok_example) eq_refl) as (p & m & rr & _ & _ & Ha & He & Hn).
  exists m, rr. split; [exact Ha|]. split; [exact Hn|exact He].
Defined.
