(* ===== verification/DnsWire.v ===== *)
(** The wire format of RFC 1035 and RFC 6891 as a grammar, a relation between a
    packet and the message it says, and the parser as its decision procedure:
    [RecordParser.parse_message] returns a message exactly when the packet
    spells that message.  The grammar has neither fuel nor loops nor bit
    operations; it differs from the RFCs where the code does, and says where. *)
From S2P Require Import Prelude CppString StringUtil Bytes DnsTypes DnsBuilder DnsParser DnsRoundtrip.
Import WireWriter RecordParser.

(** * Computations that return *)

Section returns.
Context {E : Type}.

Lemma bind_returns {A B} (m : outcome E A) (f : A → outcome E B) b :
  m ≫= f = Ret b ↔ ∃ a, m = Ret a ∧ f a = Ret b.
Proof. destruct m; split; naive_solver. Qed.

Lemma throw_if_returns b (e : E) u : throw_if b e = Ret u ↔ b = false.
Proof. destruct b, u; split; done. Qed.

Lemma rd_returns (buf : bytes) i b : rd (E:=E) buf i = Ret b ↔ buf !! i = Some b.
Proof. unfold rd. destruct (buf !! i); split; naive_solver. Qed.
End returns.

(** Take a hypothesis [m = Ret a] apart along the binds of [m]. *)
Ltac returns_inv H :=
  let a := fresh "a" in let Ha := fresh "Ha" in
  apply bind_returns in H as (a & Ha & H).
Ltac guard_inv H :=
  let u := fresh "u" in let Hg := fresh "Hg" in
  apply bind_returns in H as (u & Hg & H); apply throw_if_returns in Hg; clear u; prop_of_bool.
(** Step a goal [m ≫= f = Ret a] whose [m] returns by an equation at hand. *)
Ltac returns_rd := apply bind_returns; eexists; split; [by apply rd_returns|].
Ltac returns_guard :=
  apply bind_returns; exists tt; split;
    [apply throw_if_returns; first [apply Nat.ltb_ge|apply Nat.leb_gt|apply Z.ltb_ge]|].

(** * Numbers *)

(** Big-endian numbers at an offset. *)
Definition u16_at (data : bytes) (o : nat) (v : Z) : Prop :=
  ∃ b0 b1, data !! o = Some b0 ∧ data !! (o + 1) = Some b1 ∧ v = (b0 * 256 + b1)%Z.
Definition u32_at (data : bytes) (o : nat) (v : Z) : Prop :=
  ∃ h l, u16_at data o h ∧ u16_at data (o + 2) l ∧ v = (h * 65536 + l)%Z.

Section numbers.
Context {E : Type} (data : bytes) (Hdata : Forall is_byte data).

Lemma read_u16_be_iff o v : read_u16_be (E:=E) data o = Ret v ↔ u16_at data o v.
Proof using Hdata.
  unfold read_u16_be, u16_at. split.
  - intros H. returns_inv H. returns_inv H. apply rd_returns in Ha, Ha0. injection H as <-.
    exists a, a0. split; [done|]. split; [done|]. apply u16_of_be_eq. by eapply wire_lookup_byte.
  - intros (b0 & b1 & H0 & H1 & ->). returns_rd.
    returns_rd. f_equal. apply u16_of_be_eq. by eapply wire_lookup_byte.
Qed.

Lemma read_u32_be_iff o v : read_u32_be (E:=E) data o = Ret v ↔ u32_at data o v.
Proof using Hdata.
  unfold read_u32_be, u32_at, u16_at. split.
  - intros H. do 4 returns_inv H. apply rd_returns in Ha, Ha0, Ha1, Ha2. injection H as <-.
    exists (a * 256 + a0)%Z, (a1 * 256 + a2)%Z.
    replace (o + 2 + 1) with (o + 3) by lia.
    split; [by eauto|]. split; [by eauto|].
    rewrite u32_of_be_eq by (by eapply wire_lookup_byte). lia.
  - intros (h & l & (b0 & b1 & H0 & H1 & ->) & (b2 & b3 & H2 & H3 & ->) & ->).
    replace (o + 2 + 1) with (o + 3) in H3 by lia.
    do 4 returns_rd. f_equal.
    rewrite u32_of_be_eq by (by eapply wire_lookup_byte). lia.
Qed.
End numbers.

(** * Names *)

(** [name_at wire o ts ls e]: at [o] the packet spells the labels [ls], jumping
    through the pointers to [ts], and the part of it that stands at [o] ends
    before [e]. *)
Inductive name_at (wire : bytes) : nat → list nat → list bytes → nat → Prop :=
  | name_root o : wire !! o = Some 0%Z → name_at wire o [] [] (o + 1)
  | name_label o b ts ls e :
      wire !! o = Some b → (1 ≤ b ≤ 63)%Z → o + 1 + Z.to_nat b ≤ length wire →
      name_at wire (o + 1 + Z.to_nat b) ts ls e →
      name_at wire o ts (sub wire (o + 1) (Z.to_nat b) :: ls) e
  | name_pointer o hi lo ts ls e :
      wire !! o = Some hi → (192 ≤ hi)%Z → wire !! (o + 1) = Some lo →
      name_at wire (Z.to_nat ((hi - 192) * 256 + lo)) ts ls e →
      name_at wire o (Z.to_nat ((hi - 192) * 256 + lo) :: ts) ls (o + 2).

(** A packet spells at most one name at an offset. *)
Lemma name_at_deterministic wire o ts ls e ts' ls' e' :
  name_at wire o ts ls e → name_at wire o ts' ls' e' → ts = ts' ∧ ls = ls' ∧ e = e'.
Proof.
  intros H. revert ts' ls' e'.
  induction H as [o H0|o b ts ls e Hb Hr Hl H IH|o hi lo ts ls e Hhi Hr Hlo H IH];
    intros ts' ls' e'; inversion 1; simplify_eq; try lia; try done.
  - by edestruct IH as (-> & -> & ->).
  - by edestruct IH as (-> & -> & ->).
Qed.

Lemma name_at_suffix wire o ts ls e : name_at wire o ts ls e →
  ∀ a t ts', ts = a ++ t :: ts' → ∃ ls' e', name_at wire t ts' ls' e'.
Proof.
  induction 1 as [o H0|o b ts ls e Hb Hr Hl H IH|o hi lo ts ls e Hhi Hr Hlo H IH];
    intros a t ts' Hts; [by destruct a|by eapply IH|].
  destruct a as [|x a]; simplify_eq/=; eauto.
Qed.

(** A name that ends does not jump to the same place twice. *)
Lemma name_at_NoDup wire o ts ls e : name_at wire o ts ls e → NoDup ts.
Proof.
  induction 1 as [o H0|o b ts ls e Hb Hr Hl H IH|o hi lo ts ls e Hhi Hr Hlo H IH];
    [constructor|done|].
  constructor; [|done]. intros (a & ts' & Hts)%list_elem_of_split.
  destruct (name_at_suffix _ _ _ _ _ H _ _ _ Hts) as (ls' & e' & H').
  destruct (name_at_deterministic _ _ _ _ _ _ _ _ H H') as (Heq & _).
  rewrite Heq in Hts. apply (f_equal length) in Hts. rewrite length_app in Hts. simpl in Hts. lia.
Qed.

Lemma name_at_labels wire o ts ls e :
  name_at wire o ts ls e → Forall (λ l, 1 ≤ length l ≤ 63) ls.
Proof.
  induction 1; [constructor|constructor; [|done]|done].
  unfold sub. rewrite length_take, length_drop. lia.
Qed.

(** The two top bits of a byte, as the code tests them. *)
Lemma pointer_byte b : is_byte b → (Z.land b 0xC0 =? 0xC0)%Z = bool_decide (192 ≤ b)%Z.
Proof. intros Hb. by_all_bytes b Hb. Qed.
Lemma pointer_target hi lo : is_byte hi → is_byte lo → (192 ≤ hi)%Z →
  Z.lor (Z.shiftl (Z.land hi 0x3F) 8) lo = ((hi - 192) * 256 + lo)%Z.
Proof.
  intros Hhi Hlo Hr. assert (Z.land hi 0x3F = hi mod 2 ^ 6)%Z as -> by (by apply (land_mod_pow2 hi 6)).
  assert (hi mod 2 ^ 6 = hi - 192)%Z as ->.
  { symmetry. apply (Z.mod_unique _ _ 3); unfold is_byte in Hhi; lia. }
  by apply (lor_shiftl_add (hi - 192) lo 8).
Qed.

Section names.
Context (wire : bytes) (Hwire : Forall is_byte wire).

(** What the loop returns is spelled by the packet. *)
Lemma decompress_loop_sound fuel : ∀ current offset ind jumped visited result name off,
  decompress_loop fuel wire current offset ind jumped visited result = Ret (name, off) →
  ∃ ts ls e, name_at wire current ts ls e ∧ name = append_labels result ls
    ∧ (ts = [] ∨ ind + length ts ≤ MAX_POINTER_DEPTH) ∧ off = if jumped then offset else e.
Proof using Hwire.
  induction fuel as [|fuel IH]; intros current offset ind jumped visited result name off H;
    [done|].
  cbn [decompress_loop] in H. guard_inv H. returns_inv H. apply rd_returns in Ha.
  pose proof (wire_lookup_byte _ Hwire _ _ Ha) as Hb. rewrite pointer_byte in H by done.
  case_bool_decide as Hptr.
  - guard_inv H. returns_inv H. apply rd_returns in Ha0. guard_inv H. guard_inv H. returns_inv H.
    apply IH in H as (ts & ls & e & Hn & -> & Hts & Hoff).
    rewrite pointer_target in Hn by (try done; by eapply wire_lookup_byte).
    eexists (_ :: ts), ls, (current + 2). split; [by eapply name_pointer|].
    split; [done|]. split; [|by destruct jumped].
    right. simpl. destruct Hts as [-> | Hts]; simpl; lia.
  - destruct (a =? 0)%Z eqn:Hz; prop_of_bool.
    { injection H as <- <-. exists [], [], (current + 1).
      split; [by apply name_root; subst a|]. auto. }
    unfold MAX_LABEL_LENGTH in H. guard_inv H. guard_inv H. unfold is_byte in Hb.
    apply IH in H as (ts & ls & e & Hn & -> & Hts & Hoff).
    eexists ts, (_ :: ls), e. split; [apply (name_label _ _ a); [done|lia|lia|done]|].
    by split.
Qed.

(** What the packet spells the loop returns, unless its fuel runs out. *)
Lemma decompress_loop_complete current ts ls e : name_at wire current ts ls e →
  ∀ fuel offset jumped visited result,
  length visited + length ts ≤ MAX_POINTER_DEPTH → NoDup (visited ++ ts) →
  ends (decompress_loop fuel wire current offset (length visited) jumped visited result) →
  decompress_loop fuel wire current offset (length visited) jumped visited result
  = Ret (append_labels result ls, if jumped then offset else e).
Proof using Hwire.
  unfold MAX_POINTER_DEPTH.
  induction 1 as [o H0|o b ts ls e Hb Hr Hl H IH|o hi lo ts ls e Hhi Hr Hlo H IH];
    intros [|fuel] offset jumped visited result Hd Hnd; try done; cbn [decompress_loop].
  - pose proof (lookup_lt_Some _ _ _ H0). intros _.
    rewrite throw_if_false by (apply Nat.leb_gt; lia). by rewrite (rd_Some _ _ _ H0).
  - pose proof (lookup_lt_Some _ _ _ Hb). pose proof (wire_lookup_byte _ Hwire _ _ Hb).
    rewrite throw_if_false by (apply Nat.leb_gt; lia).
    rewrite (rd_Some _ _ _ Hb). cbn [mbind outcome_bind].
    rewrite pointer_byte, bool_decide_eq_false_2 by (done || lia).
    rewrite (proj2 (Z.eqb_neq _ _)) by lia. unfold MAX_LABEL_LENGTH.
    rewrite throw_if_false by (apply Z.ltb_ge; lia).
    rewrite throw_if_false by (apply Nat.ltb_ge; lia). cbn [mbind outcome_bind].
    intros He. by rewrite IH.
  - pose proof (lookup_lt_Some _ _ _ Hhi). pose proof (lookup_lt_Some _ _ _ Hlo).
    pose proof (wire_lookup_byte _ Hwire _ _ Hhi). pose proof (wire_lookup_byte _ Hwire _ _ Hlo).
    rewrite throw_if_false by (apply Nat.leb_gt; lia).
    rewrite (rd_Some _ _ _ Hhi). cbn [mbind outcome_bind].
    rewrite pointer_byte, bool_decide_eq_true_2 by done.
    rewrite throw_if_false by (apply Nat.ltb_ge; lia).
    rewrite (rd_Some _ _ _ Hlo). cbn [mbind outcome_bind].
    rewrite pointer_target by done. simpl in Hd. unfold MAX_POINTER_DEPTH.
    rewrite throw_if_false by (apply Nat.leb_gt; lia).
    pose proof Hnd as (_ & Hni & _)%NoDup_app.
    rewrite bool_decide_eq_false_2
      by (intros Hin; apply (Hni _ Hin); left).
    unfold push_visited, MAX_POINTER_DEPTH.
    rewrite (proj2 (Nat.ltb_lt _ _)) by lia. cbn [throw_if mbind outcome_bind].
    set (t := Z.to_nat ((hi - 192) * 256 + lo)) in *.
    replace (S (length visited)) with (length (visited ++ [t])) by (rewrite length_app; simpl; lia).
    intros He. rewrite IH; [by destruct jumped| | |done].
    + rewrite length_app. simpl. lia.
    + by rewrite <- app_assoc.
Qed.

(** [decompress_name] decides the grammar of names: it returns the labels with
    dots between them, when at most [MAX_POINTER_DEPTH] pointers lead there. *)
Lemma decompress_name_iff o name off :
  decompress_name wire o = Ret (name, off) ↔
  ∃ ts ls, name_at wire o ts ls off ∧ length ts ≤ MAX_POINTER_DEPTH ∧ name = dotted ls.
Proof using Hwire.
  unfold decompress_name. split.
  - intros H. apply decompress_loop_sound in H as (ts & ls & e & Hn & -> & Hts & ->).
    exists ts, ls. split; [done|]. split; [destruct Hts as [->|]; simpl; lia|].
    apply append_nonempty_labels. eapply Forall_impl; [by eapply name_at_labels|].
    intros [|??] ?; simpl in *; [lia|done].
  - intros (ts & ls & Hn & Hts & ->).
    rewrite (decompress_loop_complete _ _ _ _ Hn _ o false [] []); [|done| |].
    + do 2 f_equal. apply append_nonempty_labels. eapply Forall_impl; [by eapply name_at_labels|].
      intros [|??] ?; simpl in *; [lia|done].
    + by eapply name_at_NoDup.
    + by apply ends_decompress_name.
Qed.
End names.

(** * Questions and records *)

(** A name as the sections have it. *)
Definition spells_name (data : bytes) (o : nat) (name : bytes) (e : nat) : Prop :=
  ∃ ts ls, name_at data o ts ls e ∧ length ts ≤ MAX_POINTER_DEPTH ∧ name = dotted ls.

Definition question_at (data : bytes) (o : nat) (q : Question) (e : nat) : Prop :=
  ∃ o1, spells_name data o (q_qname q) o1
    ∧ u16_at data o1 (q_qtype q) ∧ u16_at data (o1 + 2) (q_qclass q) ∧ e = o1 + 4.

Definition record_at (copy_rdata : bool) (data : bytes) (o : nat) (rr : ResourceRecord) (e : nat)
    : Prop :=
  ∃ o1 n, spells_name data o (rr_name rr) o1
    ∧ u16_at data o1 (rr_type rr) ∧ u16_at data (o1 + 2) (rr_qclass rr)
    ∧ u32_at data (o1 + 4) (rr_ttl rr) ∧ u16_at data (o1 + 8) n
    ∧ rr_rdata_offset rr = o1 + 10 ∧ e = o1 + 10 + Z.to_nat n ∧ e ≤ length data
    ∧ rr_rdata rr = if copy_rdata then sub data (o1 + 10) (Z.to_nat n) else [].

(** Consecutive items. *)
Inductive series_at {A} (P : nat → A → nat → Prop) : nat → list A → nat → Prop :=
  | series_nil o : series_at P o [] o
  | series_cons o x o1 xs e : P o x o1 → series_at P o1 xs e → series_at P o (x :: xs) e.

Lemma u16_at_bound data o v : u16_at data o v → o + 2 ≤ length data.
Proof. intros (b0 & b1 & _ & H%lookup_lt_Some & _). lia. Qed.

(** Step over a reader whose field is at hand. *)
Ltac returns_field :=
  apply bind_returns; eexists; split;
    [by first [apply read_u16_be_iff|apply read_u32_be_iff|apply decompress_name_iff]|cbn beta iota].
(** Step over a call, by its equivalence with the grammar. *)
Tactic Notation "returns_call" uconstr(lem) :=
  apply bind_returns; eexists; split; [apply lem|cbn beta iota].

Section items.
Context (data : bytes) (Hdata : Forall is_byte data).

Lemma parse_questions_iff n : ∀ o qs e,
  parse_questions n data o = Ret (qs, e) ↔ length qs = n ∧ series_at (question_at data) o qs e.
Proof using Hdata.
  induction n as [|n IH]; intros o qs e; cbn [parse_questions].
  { split; [intros [= <- <-]; split; [done|constructor]|].
    by intros [->%nil_length_inv H]; inversion H. }
  split.
  - intros H. returns_inv H. destruct a as [qname o1]. apply decompress_name_iff in Ha; [|done].
    guard_inv H. do 2 returns_inv H. apply read_u16_be_iff in Ha0, Ha1; [|done..].
    returns_inv H. destruct a1 as [qs' e']. apply IH in Ha2 as [<- Hs]. injection H as <- <-.
    split; [done|]. eapply series_cons; [|done]. exists o1. by repeat split.
  - intros [Hl H]. inversion H as [|? q ? qs' ? (o1 & Hn & Ht & Hc & ->) Hs]; subst; [done|].
    pose proof (u16_at_bound _ _ _ Hc). unfold QUESTION_FIXED_SIZE.
    returns_field. returns_guard; [lia|].
    returns_field. returns_field.
    returns_call IH; [by injection Hl as Hl; split|]. by destruct q.
Qed.

Lemma parse_rr_iff copy_rdata o rr e :
  parse_rr copy_rdata data o = Ret (rr, e) ↔ record_at copy_rdata data o rr e.
Proof using Hdata.
  unfold parse_rr, record_at, RR_FIXED_SIZE. split.
  - intros H. returns_inv H. destruct a as [name o1]. apply decompress_name_iff in Ha; [|done].
    guard_inv H. do 4 returns_inv H. apply read_u16_be_iff in Ha0, Ha1, Ha3; [|done..].
    apply read_u32_be_iff in Ha2; [|done]. guard_inv H. injection H as <- <-.
    exists o1, a2. repeat split; try done.
  - intros (o1 & n & Hn & Ht & Hc & Httl & Hlen & Ho & -> & Hb & Hr).
    pose proof (u16_at_bound _ _ _ Hlen).
    returns_field. returns_guard; [lia|].
    returns_field. returns_field.
    returns_field. returns_field.
    returns_guard; [lia|]. rewrite <- Hr, <- Ho. by destruct rr.
Qed.

Lemma parse_rrs_iff copy_rdata n : ∀ o rrs e,
  parse_rrs n copy_rdata data o = Ret (rrs, e)
  ↔ length rrs = n ∧ series_at (record_at copy_rdata data) o rrs e.
Proof using Hdata.
  induction n as [|n IH]; intros o rrs e; cbn [parse_rrs].
  { split; [intros [= <- <-]; split; [done|constructor]|].
    by intros [->%nil_length_inv H]; inversion H. }
  split.
  - intros H. returns_inv H. destruct a as [rr o1]. apply parse_rr_iff in Ha.
    returns_inv H. destruct a as [rrs' e']. apply IH in Ha0 as [<- Hs]. injection H as <- <-.
    split; [done|]. by eapply series_cons.
  - intros [Hl H]. inversion H as [|? rr o1 rrs' ? Hr Hs]; subst; [done|].
    returns_call parse_rr_iff; [done|].
    returns_call IH; [by injection Hl as Hl; split|]. done.
Qed.
End items.

(** * EDNS *)

(** The options of an OPT record's data; fewer than four bytes at the end are
    ignored. *)
Inductive options_at (rdata : bytes) : nat → list EdnsOption → Prop :=
  | options_end o : length rdata < o + 4 → options_at rdata o []
  | options_more o code n options :
      u16_at rdata o code → u16_at rdata (o + 2) n → o + 4 + Z.to_nat n ≤ length rdata →
      options_at rdata (o + 4 + Z.to_nat n) options →
      options_at rdata o
        ({| opt_code := code; opt_data := sub rdata (o + 4) (Z.to_nat n) |} :: options).

(** An OPT record keeps the payload size in its class, and the extended code,
    the version and the DO bit in its TTL. *)
Record edns_at (rr : ResourceRecord) (info : EdnsInfo) : Prop := {
  ea_size : udp_payload_size info = rr_qclass rr;
  ea_rcode : extended_rcode info = (rr_ttl rr / 2 ^ 24)%Z;
  ea_version : edns_version info = (rr_ttl rr / 2 ^ 16 mod 256)%Z;
  ea_do : dnssec_ok info = Z.testbit (rr_ttl rr) 15;
  ea_options : options_at (rr_rdata rr) 0 (edns_options info)
}.

Lemma land_bit_testbit x n :
  (0 ≤ n)%Z → negb (Z.land x (2 ^ n) =? 0)%Z = Z.testbit x n.
Proof.
  intros Hn. rewrite Z.land_comm. destruct (Z.testbit x n) eqn:Hb.
  - apply negb_true_iff, Z.eqb_neq. intros H0. apply (f_equal (λ z, Z.testbit z n)) in H0.
    rewrite Z.land_spec, Hb, Z.pow2_bits_true, Z.bits_0 in H0 by done. done.
  - apply negb_false_iff, Z.eqb_eq, Z.bits_inj'. intros i Hi.
    rewrite Z.land_spec, Z.bits_0, Z.pow2_bits_eqb by done.
    destruct (n =? i)%Z eqn:He; [|done]. prop_of_bool. by subst i.
Qed.

Lemma shifted_byte x n : (0 ≤ n)%Z →
  u8 (Z.shiftr (Z.land x (Z.shiftl 0xFF n)) n) = (x / 2 ^ n mod 256)%Z.
Proof.
  intros Hn. unfold u8. rewrite Z.shiftr_land, Z.shiftr_shiftl_l, Z.sub_diag, Z.shiftl_0_r by done.
  rewrite (land_mod_pow2 _ 8), Z.shiftr_div_pow2 by done. by rewrite Z.mod_mod.
Qed.

Section edns.
Context (rdata : bytes) (Hrdata : Forall is_byte rdata).

Lemma parse_edns_options_sound fuel : ∀ o options options',
  parse_edns_options fuel rdata o options = Ret options' →
  ∃ more, options' = options ++ more ∧ options_at rdata o more.
Proof using Hrdata.
  induction fuel as [|fuel IH]; intros o options options'; cbn [parse_edns_options];
    destruct (o + 4 <=? length rdata) eqn:Ho; prop_of_bool; intros H; try done.
  1,3: injection H as <-; exists []; rewrite app_nil_r; split; [done|by constructor].
  do 2 returns_inv H. apply read_u16_be_iff in Ha, Ha0; [|done..]. guard_inv H.
  apply IH in H as (more & -> & Hm). eexists (_ :: more). split; [by rewrite <- app_assoc|].
  by apply options_more.
Qed.

Lemma parse_edns_options_complete o more : options_at rdata o more → ∀ fuel options,
  length rdata - o ≤ fuel → parse_edns_options fuel rdata o options = Ret (options ++ more).
Proof using Hrdata.
  induction 1 as [o Ho|o code n more Hc Hn Hb _ IH]; intros fuel options Hf.
  - rewrite app_nil_r. destruct fuel; cbn [parse_edns_options];
      by rewrite (proj2 (Nat.leb_gt _ _)) by lia.
  - destruct fuel as [|fuel]; [lia|]. cbn [parse_edns_options].
    rewrite (proj2 (Nat.leb_le _ _)) by lia. returns_field. returns_field. returns_guard; [lia|].
    rewrite IH by lia. by rewrite <- app_assoc.
Qed.
End edns.

Lemma parse_edns_iff rr info :
  Forall is_byte (rr_rdata rr) → is_u32 (rr_ttl rr) → rr_type rr = record_type_code OPT →
  parse_edns rr = Ret info ↔ ∃ e, info = Some e ∧ edns_at rr e.
Proof.
  intros Hb Ht Hopt. unfold parse_edns. rewrite Hopt, Z.eqb_refl. cbn [negb].
  change 0xFF000000%Z with (Z.shiftl 0xFF 24). change 0x00FF0000%Z with (Z.shiftl 0xFF 16).
  change 0x00008000%Z with (2 ^ 15)%Z.
  rewrite !shifted_byte, land_bit_testbit by done.
  rewrite (Z.mod_small (_ / 2 ^ 24))
    by (unfold is_u32 in Ht; split; [apply Z.div_pos; lia|apply Z.div_lt_upper_bound; lia]).
  split.
  - intros H. returns_inv H. apply parse_edns_options_sound in Ha as (more & -> & Hm); [|done].
    injection H as <-. eexists. split; [done|]. by constructor.
  - intros (e & -> & [Hs Hr Hv Hd Ho]).
    rewrite (parse_edns_options_complete _ Hb _ _ Ho) by lia. cbn [mbind outcome_bind app].
    rewrite <- Hs, <- Hr, <- Hv, <- Hd. by destruct e.
Qed.

(** * Messages *)

(** What the additional section says about EDNS, after [before]: every record
    the code takes for an OPT record is one, and the last of them counts. *)
Definition section_edns (before : option EdnsInfo) (rrs : list ResourceRecord)
    (info : option EdnsInfo) : Prop :=
  (∀ rr, rr ∈ rrs → is_opt_record rr = true → ∃ e, edns_at rr e)
  ∧ match last (filter (λ rr, is_opt_record rr = true) rrs) with
    | Some rr => ∃ e, info = Some e ∧ edns_at rr e
    | None => info = before
    end.

(** The header's flags and the response code, which EDNS extends; of the twelve
    bits RFC 6891 gives it, [ParsedMessage] has room for the low eight. *)
Record flags_at (data : bytes) (m : ParsedMessage) (f2 f3 : Z) : Prop := {
  fa_byte2 : data !! 2 = Some f2;
  fa_byte3 : data !! 3 = Some f3;
  fa_qr : m_qr m = Z.testbit f2 7;
  fa_opcode : m_opcode m = (f2 / 8 mod 16)%Z;
  fa_aa : m_aa m = Z.testbit f2 2;
  fa_tc : m_tc m = Z.testbit f2 1;
  fa_rd : m_rd m = Z.testbit f2 0;
  fa_ra : m_ra m = Z.testbit f3 7;
  fa_rcode : m_rcode m = match m_edns m with
                         | Some e => (extended_rcode e mod 16 * 16 + f3 mod 16)%Z
                         | None => (f3 mod 16)%Z
                         end
}.

Record message_at (copy_rdata : bool) (data : bytes) (m : ParsedMessage) : Prop := {
  ma_length : 12 ≤ length data;
  ma_id : u16_at data 0 (m_id m);
  ma_flags : ∃ f2 f3, flags_at data m f2 f3;
  ma_qdcount : u16_at data 4 (m_qdcount m);
  ma_ancount : u16_at data 6 (m_ancount m);
  ma_nscount : u16_at data 8 (m_nscount m);
  ma_arcount : u16_at data 10 (m_arcount m);
  ma_sections : ∃ o1 o2 o3 e,
    series_at (question_at data) 12 (m_questions m) o1
    ∧ series_at (record_at copy_rdata data) o1 (m_answers m) o2
    ∧ series_at (record_at copy_rdata data) o2 (m_authorities m) o3
    ∧ series_at (record_at copy_rdata data) o3 (m_additionals m) e;
  ma_questions : length (m_questions m) = Z.to_nat (m_qdcount m);
  ma_answers : length (m_answers m) = Z.to_nat (m_ancount m);
  ma_authorities : length (m_authorities m) = Z.to_nat (m_nscount m);
  ma_additionals : length (m_additionals m) = Z.to_nat (m_arcount m);
  ma_edns : section_edns None (m_additionals m) (m_edns m)
}.

Section message.
Context (data : bytes) (Hdata : Forall is_byte data).

Lemma u16_at_u16 o v : u16_at data o v → is_u16 v.
Proof using Hdata.
  intros (b0 & b1 & H0%(wire_lookup_byte _ Hdata) & H1%(wire_lookup_byte _ Hdata) & ->).
  unfold is_u16, is_byte in *. lia.
Qed.

Lemma record_at_fields copy_rdata o rr e : record_at copy_rdata data o rr e →
  Forall is_byte (rr_rdata rr) ∧ is_u32 (rr_ttl rr).
Proof using Hdata.
  intros (o1 & n & _ & _ & _ & (h & l & Hh%u16_at_u16 & Hl%u16_at_u16 & ->) & _ & _ & _ & _ & ->).
  split; [destruct copy_rdata; auto with bytes|]. unfold is_u32, is_u16 in *. lia.
Qed.

Lemma section_edns_cons before rr rrs info :
  section_edns before (rr :: rrs) info ↔
  if is_opt_record rr then ∃ e, edns_at rr e ∧ section_edns (Some e) rrs info
  else section_edns before rrs info.
Proof using Type.
  unfold section_edns. rewrite filter_cons.
  setoid_rewrite elem_of_cons.
  destruct (is_opt_record rr) eqn:Ho.
  - rewrite decide_True, last_cons by done. split.
    + intros [Hall Hlast]. destruct (Hall rr (or_introl eq_refl) Ho) as [e He].
      destruct (last _) as [rr'|]; [eauto 7|]. destruct Hlast as (e' & -> & He').
      eauto 7.
    + intros (e & He & Hall & Hlast). split; [intros rr' [->|?]; eauto|].
      destruct (last _) as [rr'|]; [done|]. subst. eauto.
  - rewrite decide_False by congruence. split.
    + intros [Hall Hlast]. eauto.
    + intros [Hall Hlast]. split; [|done]. intros rr' [->|?]; [congruence|eauto].
Qed.

Lemma parse_additionals_iff copy_rdata n : ∀ o before rrs info e,
  parse_additionals n copy_rdata data o before = Ret (rrs, info, e)
  ↔ length rrs = n ∧ series_at (record_at copy_rdata data) o rrs e
    ∧ section_edns before rrs info.
Proof using Hdata.
  induction n as [|n IH]; intros o before rrs info e; cbn [parse_additionals].
  { split.
    - intros [= <- <- <-]. split; [done|]. split; [constructor|].
      split; [by intros rr ?%elem_of_nil|done].
    - intros (->%nil_length_inv & H & _ & Hi). inversion H; subst. by simpl in Hi; subst. }
  split.
  - intros H. returns_inv H. destruct a as [rr o1]. apply parse_rr_iff in Ha; [|done].
    pose proof (record_at_fields _ _ _ _ Ha) as [Hb Ht]. returns_inv H.
    returns_inv H. destruct a0 as [[rrs' info'] e']. apply IH in Ha1 as (<- & Hs & He).
    injection H as <- <- <-. split; [done|]. split; [by eapply series_cons|].
    apply section_edns_cons. destruct (is_opt_record rr) eqn:Ho; [|by injection Ha0 as <-].
    apply parse_edns_iff in Ha0 as (e1 & -> & He1); [eauto|done|done|].
    unfold is_opt_record in Ho. by prop_of_bool.
  - intros (Hl & H & He). inversion H as [|? rr o1 rrs' ? Hr Hs]; subst; [done|].
    pose proof (record_at_fields _ _ _ _ Hr) as [Hb Ht]. apply section_edns_cons in He.
    returns_call parse_rr_iff; [done|done|]. destruct (is_opt_record rr) eqn:Ho.
    + destruct He as (e1 & He1 & He). returns_call parse_edns_iff; [done|done| |by eauto|].
      { unfold is_opt_record in Ho. by prop_of_bool. }
      returns_call IH; [by injection Hl as Hl; split|]. done.
    + cbn [mbind outcome_bind]. returns_call IH; [by injection Hl as Hl; split|]. done.
Qed.

Lemma header_code f e :
  u8 (Z.lor (Z.land f 0x0F) (Z.shiftl e 4)) = (e mod 16 * 16 + f mod 16)%Z.
Proof using Type.
  rewrite (land_mod_pow2 _ 4), Z.lor_comm by done. unfold u8.
  change (2 ^ 4)%Z with 16%Z. pose proof (Z.mod_pos_bound f 16 ltac:(lia)) as Hf.
  rewrite (lor_shiftl_add e (f mod 16) 4) by (done || lia).
  change (2 ^ 4)%Z with 16%Z. pose proof (Z.mod_pos_bound e 16 ltac:(lia)).
  symmetry. apply (Z.mod_unique _ _ (e / 16)); [lia|].
  pose proof (Z.div_mod e 16 ltac:(lia)). lia.
Qed.

Lemma header_opcode f : Z.land (Z.shiftr f 3) 0x0F = (f / 8 mod 16)%Z.
Proof using Type. by rewrite (land_mod_pow2 _ 4), Z.shiftr_div_pow2 by done. Qed.

Lemma header_bits f :
  (negb (Z.land f 0x80 =? 0) = Z.testbit f 7 ∧ negb (Z.land f 0x04 =? 0) = Z.testbit f 2
   ∧ negb (Z.land f 0x02 =? 0) = Z.testbit f 1 ∧ negb (Z.land f 0x01 =? 0) = Z.testbit f 0)%Z.
Proof using Type.
  split; [by apply (land_bit_testbit f 7)|]. split; [by apply (land_bit_testbit f 2)|].
  split; [by apply (land_bit_testbit f 1)|by apply (land_bit_testbit f 0)].
Qed.
End message.

(** Read the header's flags as bits. *)
Ltac header_flags :=
  repeat match goal with
    | |- context [negb (Z.land ?f 0x80 =? 0)%Z] => rewrite (proj1 (header_bits f))
    | |- context [negb (Z.land ?f 0x04 =? 0)%Z] => rewrite (proj1 (proj2 (header_bits f)))
    | |- context [negb (Z.land ?f 0x02 =? 0)%Z] => rewrite (proj1 (proj2 (proj2 (header_bits f))))
    | |- context [negb (Z.land ?f 0x01 =? 0)%Z] => rewrite (proj2 (proj2 (proj2 (header_bits f))))
    end;
  rewrite header_opcode.

Lemma parse_message_returns (copy_rdata : bool) (data : bytes) (m : ParsedMessage) :
  Forall is_byte data →
  (parse_message data copy_rdata = Ret m ↔ message_at copy_rdata data m).
Proof.
  intros Hdata. unfold parse_message, HEADER_SIZE. split.
  - intros H. guard_inv H. do 7 returns_inv H.
    apply read_u16_be_iff in Ha, Ha2, Ha3, Ha4, Ha5; [|done..]. apply rd_returns in Ha0, Ha1.
    returns_inv H. destruct a6 as [qs o1]. apply parse_questions_iff in Ha6 as [Hq Hs1]; [|done].
    returns_inv H. destruct a6 as [ans o2]. apply parse_rrs_iff in Ha6 as [Han Hs2]; [|done].
    returns_inv H. destruct a6 as [aut o3]. apply parse_rrs_iff in Ha6 as [Hau Hs3]; [|done].
    returns_inv H. destruct a6 as [[add info] e].
    apply parse_additionals_iff in Ha6 as (Had & Hs4 & He); [|done].
    injection H as <-. constructor; cbn; try done; [|by eauto 10].
    exists a0, a1. header_flags. constructor; try done. cbn. destruct info; [apply header_code|by apply (land_mod_pow2 _ 4)].
  - intros [Hl Hid (f2 & f3 & [H2 H3 Hqr Hop Haa Htc Hrd Hra Hrc]) Hqd Han Hns Har
      (o1 & o2 & o3 & e & Hs1 & Hs2 & Hs3 & Hs4) Hnq Hna Hnau Hnad He].
    returns_guard; [lia|]. returns_field. do 2 returns_rd. do 4 returns_field.
    returns_call parse_questions_iff; [done|by split|].
    returns_call parse_rrs_iff; [done|by split|]. returns_call parse_rrs_iff; [done|by split|].
    returns_call parse_additionals_iff; [done|by split|].
    header_flags. rewrite <- Hqr, <- Hop, <- Haa, <- Htc.
    rewrite <- Hrd, <- Hra. destruct m as [? ? ? ? ? ? ? ? ? ? ? ? ? ? ? info ?]; cbn in *.
    do 2 f_equal. rewrite Hrc. destruct info; [apply header_code|by apply (land_mod_pow2 _ 4)].
Qed.

(** C2: [RecordParser.parse_message] decides the wire format: it returns a
    message exactly when the packet spells that message, by a grammar with
    neither fuel nor bit operations, and throws a PARSE exception exactly when
    the packet spells none. *)
Theorem parse_message_iff (copy_rdata : bool) (data : bytes) :
  Forall is_byte data →
  (∀ m, parse_message data copy_rdata = Ret m ↔ message_at copy_rdata data m)
  ∧ ((∃ e, parse_message data copy_rdata = Throw e ∧ get_error e = PARSE)
     ↔ ¬ ∃ m, message_at copy_rdata data m).
Proof.
  intros Hdata. split; [intros m; by apply parse_message_returns|]. split.
  - intros (e & He & _) (m & Hm). apply parse_message_returns in Hm; [congruence|done].
  - intros Hno. destruct (wp_cases _ _ _ (parse_message_spec data Hdata copy_rdata))
      as [(m & Hm & _)|H]; [|done].
    exfalso. apply Hno. exists m. by apply parse_message_returns.
Qed.

(** A response whose answer's owner name points at itself. *)
Definition looping_response : bytes :=
  [18; 52; 129; 128; 0; 0; 0; 1; 0; 0; 0; 0; 192; 12; 0; 1; 0; 1; 0; 0; 0; 60; 0; 4; 10; 0; 0; 1]%Z.

(** The response of [a_response] is spelled, the looping one is not. *)
Lemma parse_message_iff_witness :
  (∃ m, message_at true a_response m ∧ map rr_name (m_answers m) = [str "a.b"]
     ∧ map rr_rdata (m_answers m) = [[10; 0; 0; 7]%Z])
  ∧ ¬ ∃ m, message_at true looping_response m.
Proof.
  assert (Forall is_byte a_response) as Ha by (apply (bool_decide_unpack _); vm_compute; exact I).
  assert (Forall is_byte looping_response) as Hl
    by (apply (bool_decide_unpack _); vm_compute; exact I).
  split.
  - eexists. split; [apply (proj1 (parse_message_iff true a_response Ha)); vm_compute; reflexivity|].
    split; vm_compute; reflexivity.
  - apply (proj2 (parse_message_iff true looping_response Hl)).
    eexists. split; vm_compute; reflexivity.
Defined.
