(* ===== verification/DnsValidator.v ===== *)
(** [src/dns/validator.cpp]: the checks a response has to pass before it is
    parsed. *)
From S2P Require Import Prelude CppString StringUtil Bytes DnsTypes DnsBuilder DnsParser DnsRoundtrip.
Import WireWriter RecordParser.

Abbreviation check_result := (outcome DnsErrorInfo).

Definition parse_error (message : bytes) : DnsErrorInfo :=
  {| ei_code := PARSE; ei_message := message |}.

Module Validator.

(** The loop moves [offset] forward by at least one octet. *)
(* @fn src/src/dns/validator.cpp | size_t skip_name( ==> while (offset | skip_name (loop) *)
Fixpoint skip_name_loop (fuel : nat) (msg : bytes) (offset : nat) : check_result nat :=
  if offset <? length msg then
    match fuel with
    | O => OutOfFuel
    | S fuel =>
        label_len ← rd msg offset;
        if (label_len =? 0)%Z then Ret (offset + 1) else
        if (Z.land label_len 0xC0 =? 0xC0)%Z then Ret (offset + 2) else
        skip_name_loop fuel msg (offset + (1 + Z.to_nat label_len))
    end
  else Ret 0.

(* @fn src/src/dns/validator.cpp | size_t skip_name( ^4 | skip_name *)
Definition skip_name (msg : bytes) (offset : nat) : check_result nat :=
  skip_name_loop (length msg) msg offset.

(* @fn src/src/dns/validator.cpp | size_t question_section_end( ^2 | question_section_end *)
Definition question_section_end (msg : bytes) : check_result nat :=
  if length msg <? 12 then Ret 0 else
  qdcount ← read_u16_be msg 4;
  if (qdcount =? 0)%Z then Ret 0 else
  off ← skip_name msg 12;
  if (off =? 0) || (length msg <? off + 4) then Ret 0 else
  Ret (off + 4).

(* @fn src/src/dns/validator.cpp | check_min_header_size(std | check_min_header_size *)
Definition check_min_header_size (response : bytes) : check_result unit :=
  if 12 <=? length response then Ret tt else
  Throw (parse_error (str "DNS response too short: " ++ dec (Z.of_nat (length response))
    ++ str " bytes (minimum 12)")).

(* @fn src/src/dns/validator.cpp | check_qr_bit(std | check_qr_bit *)
Definition check_qr_bit (response : bytes) : check_result unit :=
  b ← rd response 2;
  if negb (Z.land b 0x80 =? 0)%Z then Ret tt else
  Throw (parse_error (str "DNS response has QR=0 (not a response)")).

(* @fn src/src/dns/validator.cpp | check_txid( | check_txid *)
Definition check_txid (request response : bytes) : check_result unit :=
  r0 ← rd response 0;
  q0 ← rd request 0;
  same ← (if (r0 =? q0)%Z then r1 ← rd response 1; q1 ← rd request 1; Ret (r1 =? q1)%Z
          else Ret false);
  if same : bool then Ret tt else
  Throw (parse_error (str "DNS response transaction ID mismatch")).

(* @fn src/src/dns/validator.cpp | check_qdcount(std | check_qdcount *)
Definition check_qdcount (response : bytes) : check_result unit :=
  qdcount ← read_u16_be response 4;
  if (qdcount =? 1)%Z then Ret tt else
  Throw (parse_error (str "DNS response QDCOUNT is " ++ dec qdcount ++ str " (expected 1)")).

(* @fn src/src/dns/validator.cpp | check_question_echo( | check_question_echo *)
Definition check_question_echo (request response : bytes) : check_result unit :=
  req_qs_end ← question_section_end request;
  rsp_qs_end ← question_section_end response;
  if (req_qs_end =? 0) || (rsp_qs_end =? 0) then
    Throw (parse_error (str "DNS response has malformed question section")) else
  let req_qs_len := req_qs_end - HEADER_SIZE in
  let rsp_qs_len := rsp_qs_end - HEADER_SIZE in
  if (req_qs_len =? rsp_qs_len)
     && bool_decide (sub request HEADER_SIZE req_qs_len = sub response HEADER_SIZE rsp_qs_len)
  then Ret tt else
  Throw (parse_error (str "DNS response question section does not match the query")).

(* @fn src/src/dns/validator.cpp | validate_response( | DNS::Validator::validate_response *)
Definition validate_response (request response : bytes) : check_result unit :=
  _ ← check_min_header_size response;
  _ ← check_qr_bit response;
  _ ← check_txid request response;
  _ ← check_qdcount response;
  check_question_echo request response.

End Validator.
Import Validator.

(** * Lemmas *)

Definition is_parse_info (e : DnsErrorInfo) : Prop := ei_code e = PARSE.

Section validator.
Context (msg : bytes) (Hmsg : Forall is_byte msg).

Lemma skip_name_loop_spec fuel offset :
  length msg - offset ≤ fuel →
  wp (skip_name_loop fuel msg offset) (λ off, off = 0 ∨ offset < off) (λ _, False).
Proof using Hmsg.
  revert offset. induction fuel as [|fuel IH]; intros offset Hf; cbn [skip_name_loop];
    destruct (offset <? length msg) eqn:Ho; prop_of_bool; try (by left); [lia|].
  apply wp_rd_bind; [done|]. intros b Hb.
  destruct (b =? 0)%Z; [simpl; lia|].
  destruct (Z.land b 0xC0 =? 0xC0)%Z; [simpl; lia|].
  eapply wp_mono; [apply IH; lia| |done]. intros off [->|?]; [by left|right; lia].
Qed.

Lemma question_section_end_spec :
  wp (question_section_end msg) (λ e, e = 0 ∨ 12 < e ≤ length msg) (λ _, False).
Proof using Hmsg.
  unfold question_section_end. destruct (length msg <? 12) eqn:Hl; prop_of_bool; [by left|].
  apply wp_bind, wp_read_u16_be; [done|lia|]. intros qd _ _.
  destruct (qd =? 0)%Z; [by left|].
  eapply wp_call; [apply skip_name_loop_spec; lia|]. intros off _ Hoff. cbv beta in Hoff.
  destruct (_ || _)%bool eqn:Hc; prop_of_bool; [by left|simpl; right; lia].
Qed.
End validator.

(** When a response is accepted. *)
Definition accepts (request response : bytes) : Prop :=
  12 ≤ length response
  ∧ (∃ b, response !! 2 = Some b ∧ Z.land b 0x80 ≠ 0%Z)
  ∧ take 2 response = take 2 request
  ∧ read_u16_be (E:=DnsErrorInfo) response 4 = Ret 1%Z
  ∧ ∃ e, e ≠ 0 ∧ question_section_end request = Ret e ∧ question_section_end response = Ret e
      ∧ sub request 12 (e - 12) = sub response 12 (e - 12).

Lemma take_2 (l : bytes) a b : l !! 0 = Some a → l !! 1 = Some b → take 2 l = [a; b].
Proof. destruct l as [|? [|? l]]; simpl; naive_solver. Qed.

Lemma validate_response_spec request response :
  Forall is_byte request → Forall is_byte response → 12 ≤ length request →
  wp (validate_response request response)
    (λ _, accepts request response) (λ e, is_parse_info e ∧ ¬ accepts request response).
Proof.
  intros Hreq Hrsp Hlen. unfold validate_response.
  apply wp_bind. unfold check_min_header_size.
  destruct (12 <=? length response) eqn:H12; prop_of_bool;
    [|split; [done|]; intros (? & _); lia].
  simpl. apply wp_bind. unfold check_qr_bit. apply wp_rd_bind; [lia|]. intros b Hb.
  destruct (Z.land b 0x80 =? 0)%Z eqn:Hqr; cbn [negb]; prop_of_bool;
    [split; [done|]; intros (_ & (b' & Hb' & ?) & _); congruence|].
  simpl. apply wp_bind. unfold check_txid.
  apply wp_rd_bind; [lia|]. intros r0 Hr0. apply wp_rd_bind; [lia|]. intros q0 Hq0.
  destruct (lookup_lt_is_Some_2 response 1) as [r1 Hr1]; [lia|].
  destruct (lookup_lt_is_Some_2 request 1) as [q1 Hq1]; [lia|].
  assert (take 2 response = [r0; r1]) as Ht1 by by apply take_2.
  assert (take 2 request = [q0; q1]) as Ht2 by by apply take_2.
  rewrite (rd_Some _ _ _ Hr1). cbn [mbind outcome_bind]. rewrite (rd_Some _ _ _ Hq1).
  cbn [mbind outcome_bind].
  destruct (r0 =? q0)%Z eqn:E0; cbn [mbind outcome_bind]; prop_of_bool.
  2:{ split; [done|]. intros (_ & _ & ? & _). congruence. }
  destruct (r1 =? q1)%Z eqn:E1; cbn [mbind outcome_bind]; prop_of_bool.
  2:{ split; [done|]. intros (_ & _ & ? & _). congruence. }
  simpl. apply wp_bind. unfold check_qdcount. apply wp_bind, wp_read_u16_be; [done|lia|].
  intros qd _ Hqd. destruct (qd =? 1)%Z eqn:H1; prop_of_bool.
  2:{ split; [done|]. intros (_ & _ & _ & ? & _). congruence. }
  simpl. unfold check_question_echo.
  eapply wp_call; [eapply wp_mono; [by apply question_section_end_spec|done|done]|].
  intros e1 He1 Hb1.
  eapply wp_call; [eapply wp_mono; [by apply question_section_end_spec|done|done]|].
  intros e2 He2 Hb2. cbv beta in Hb1, Hb2.
  destruct (_ || _)%bool eqn:Hz; prop_of_bool.
  { split; [done|]. intros (_ & _ & _ & _ & e & ? & ? & ? & _).
    apply orb_true_iff in Hz as [Hz|Hz]; prop_of_bool; congruence. }
  unfold HEADER_SIZE. destruct (_ && _)%bool eqn:Hq; prop_of_bool.
  - simpl. assert (e1 = e2) as -> by lia. unfold accepts.
    split; [done|]. split; [by eexists|]. split; [congruence|]. split; [congruence|]. by exists e2.
  - split; [done|]. intros (_ & _ & _ & _ & e & ? & ? & ? & Hsub).
    assert (e1 = e ∧ e2 = e) as [-> ->] by (split; congruence).
    rewrite Nat.eqb_refl in Hq. simpl in Hq. prop_of_bool. done.
Qed.

(** ** The program's own queries *)

Definition question_wire (ls : list bytes) (type : RecordType) : bytes :=
  wire_name ls ++ u16_be (record_type_code type) ++ u16_be 1.

(** The packet [build_query] makes, in three parts. *)
Definition query_header (rnd : Z) : bytes :=
  u16_be (Z.land rnd 0xFFFF) ++ [1; 0; 0; 1; 0; 0; 0; 0; 0; 1]%Z.
Definition query_edns : bytes := [0; 0; 41; 4; 208; 0; 0; 0; 0; 0; 0]%Z.

Lemma build_query_eq rnd ls type :
  labels_ok ls →
  build_query rnd (dotted ls) type
  = Ret (query_header rnd ++ question_wire ls type ++ query_edns).
Proof.
  intros Hls. unfold build_query. fold (query_builder rnd (dotted ls) type).
  rewrite (build_eq _ (question_wire ls type)).
  - done.
  - by apply query_builder_ok.
  - intros w. cbn [query_builder add_edns add_question questions_ QueryBuilder_new write_questions app
      pq_qname pq_qtype pq_qclass].
    rewrite encode_name_labels by done. cbn [mbind outcome_bind]. autorewrite with wire.
    unfold question_wire. by rewrite <- !app_assoc.
Qed.

Lemma skip_name_loop_labels fuel pre ls post :
  Forall label_ok ls → length ls < fuel →
  skip_name_loop fuel (pre ++ wire_name ls ++ post) (length pre)
  = Ret (length pre + length (wire_name ls)).
Proof.
  revert fuel pre.
  induction ls as [|l ls IH]; intros [|fuel] pre Hok Hf; try (simpl in Hf; lia);
    cbn [skip_name_loop];
    (rewrite (proj2 (Nat.ltb_lt _ _))
      by (rewrite !length_app; pose proof (wire_name_length_ge _ Hok); lia)).
  - unfold wire_name, wire_labels. cbn [map concat app].
    rewrite (rd_at pre _ _ _ eq_refl). simpl. by rewrite Nat.add_1_r.
  - apply Forall_cons_1 in Hok as [(Hl0 & Hl63 & _) Hok].
    assert (0 < length l) as Hl by (destruct l; [done|simpl; lia]).
    assert (wire_name (l :: ls) = Z.of_nat (length l) :: l ++ wire_name ls) as ->
      by (unfold wire_name, wire_labels; simpl; by rewrite <- app_assoc).
    cbn [app]. rewrite (rd_at pre _ _ _ eq_refl). cbn [mbind outcome_bind].
    rewrite (proj2 (Z.eqb_neq _ _)) by lia.
    rewrite land_c0_small by lia. change (0 =? 0xC0)%Z with false. cbn match.
    rewrite Nat2Z.id, <- app_assoc.
    replace (pre ++ Z.of_nat (length l) :: l ++ wire_name ls ++ post)
      with ((pre ++ Z.of_nat (length l) :: l) ++ wire_name ls ++ post)
      by (by rewrite <- app_assoc).
    replace (length pre + (1 + length l)) with (length (pre ++ Z.of_nat (length l) :: l))
      by (rewrite length_app; simpl; lia).
    rewrite IH by (simpl in Hf; first [done|lia]).
    f_equal. rewrite !length_app. simpl. rewrite !length_app. simpl. lia.
Qed.

Lemma question_section_end_wire header ls type post :
  length header = 12 → read_u16_be (E:=DnsErrorInfo) header 4 = Ret 1%Z → Forall label_ok ls →
  question_section_end (header ++ question_wire ls type ++ post)
  = Ret (12 + length (question_wire ls type)).
Proof.
  intros H12 Hqd Hok. unfold question_section_end.
  rewrite (proj2 (Nat.ltb_ge _ _)) by (rewrite length_app; lia).
  assert (read_u16_be (E:=DnsErrorInfo) (header ++ question_wire ls type ++ post) 4 = Ret 1%Z) as ->.
  { rewrite <- Hqd. do 12 (destruct header as [|? header]; [done|]). done. }
  cbn [mbind outcome_bind]. change (1 =? 0)%Z with false. cbn match.
  unfold skip_name, question_wire. rewrite <- !app_assoc. rewrite <- H12.
  rewrite skip_name_loop_labels; [|done|].
  - cbn [mbind outcome_bind]. rewrite (proj2 (Nat.eqb_neq _ _)) by lia.
    rewrite (proj2 (Nat.ltb_ge _ _)) by (rewrite !length_app; simpl; lia). simpl.
    f_equal. rewrite !length_app. simpl. lia.
  - rewrite !length_app. pose proof (wire_name_length_ge _ Hok). lia.
Qed.

Lemma question_wire_bytes ls type : Forall label_ok ls → Forall is_byte (question_wire ls type).
Proof.
  intros Hok. unfold question_wire, wire_name.
  apply Forall_app_2; [apply Forall_app_2|auto with bytes]; [by apply wire_labels_bytes|].
  repeat constructor; unfold is_byte; lia.
Qed.

Lemma query_bytes rnd ls type :
  Forall label_ok ls → Forall is_byte (query_header rnd ++ question_wire ls type ++ query_edns).
Proof.
  intros Hok. apply Forall_app_2; [|apply Forall_app_2; [by apply question_wire_bytes|]].
  - apply Forall_app_2; [auto with bytes|]. repeat constructor; unfold is_byte; lia.
  - repeat constructor; unfold is_byte; lia.
Qed.

(** What an accepted response to such a query looks like. *)
Lemma accepted_response rnd ls type response :
  labels_ok ls → Forall is_byte response →
  accepts (query_header rnd ++ question_wire ls type ++ query_edns) response →
  ∃ header post, response = header ++ question_wire ls type ++ post ∧ length header = 12
    ∧ take 2 header = u16_be (Z.land rnd 0xFFFF)
    ∧ (∃ b, header !! 2 = Some b ∧ Z.land b 0x80 ≠ 0%Z)
    ∧ read_u16_be (E:=DnsErrorInfo) header 4 = Ret 1%Z.
Proof.
  intros [Hok _] Hb (H12 & (b & Hb2 & Hqr) & Hid & Hqd & e & He0 & Hreq & Hrsp & Hsub).
  rewrite question_section_end_wire in Hreq by done.
  assert (e = 12 + length (question_wire ls type)) as -> by congruence.
  pose proof (wp_Ret_inv _ _ _ _ (question_section_end_spec response Hb) Hrsp) as Hlen.
  cbv beta in Hlen. destruct Hlen as [|Hlen]; [done|].
  replace (12 + length (question_wire ls type) - 12) with (length (question_wire ls type)) in Hsub by lia.
  rewrite (sub_app_exact (query_header rnd) (question_wire ls type)) in Hsub by done.
  exists (take 12 response), (drop (12 + length (question_wire ls type)) response).
  split; [|split; [|split; [|split]]].
  - rewrite Hsub at 1. unfold sub. rewrite <- drop_drop, take_drop, take_drop. done.
  - rewrite length_take. lia.
  - rewrite take_take. change (2 `min` 12) with 2. rewrite Hid. done.
  - exists b. by rewrite lookup_take_lt by lia.
  - rewrite <- Hqd. do 12 (destruct response as [|? response]; [simpl in H12; lia|]). done.
Qed.

Lemma parse_message_inv data copy_rdata m :
  parse_message data copy_rdata = Ret m →
  ∃ flags2 off, read_u16_be (E:=DnsLookupException) data 0 = Ret (m_id m)
    ∧ rd (E:=DnsLookupException) data 2 = Ret flags2
    ∧ m_qr m = negb (Z.land flags2 0x80 =? 0)%Z
    ∧ read_u16_be (E:=DnsLookupException) data 4 = Ret (m_qdcount m)
    ∧ parse_questions (Z.to_nat (m_qdcount m)) data HEADER_SIZE = Ret (m_questions m, off).
Proof.
  intros Hm. unfold parse_message in Hm. inv_bind Hm.
  destruct a7 as [qs o1]. inv_bind Hm. destruct a7 as [ans o2]. inv_bind Hm.
  destruct a7 as [aut o3]. inv_bind Hm. destruct a7 as [[add edns] o4].
  injection Hm as <-. exists a1, o1. simpl. auto.
Qed.

(** What [parse_message] says of such a response. *)
Lemma accepted_response_parsed rnd ls type response copy_rdata m :
  labels_ok ls → Forall is_byte response →
  accepts (query_header rnd ++ question_wire ls type ++ query_edns) response →
  parse_message response copy_rdata = Ret m →
  m_id m = Z.land rnd 0xFFFF ∧ m_qr m = true
  ∧ m_questions m = [{| q_qname := dotted ls; q_qtype := record_type_code type; q_qclass := 1 |}].
Proof.
  intros Hls Hb Hacc Hm.
  destruct (accepted_response _ _ _ _ Hls Hb Hacc)
    as (header & post & -> & H12 & Hid & (b & Hb2 & Hqr) & Hqd).
  destruct (write_parse_questions [{| pq_qname := dotted ls; pq_qtype := type; pq_qclass := 1 |}])
    as (qw & Hqw & Hparse).
  { repeat constructor. exists ls. split; [done|]. split; [done|]. unfold is_u16; simpl; lia. }
  assert (qw = question_wire ls type) as ->.
  { specialize (Hqw []). cbn [write_questions pq_qname pq_qtype pq_qclass] in Hqw.
    rewrite encode_name_labels in Hqw by done. cbn [mbind outcome_bind] in Hqw.
    autorewrite with wire in Hqw. cbn [app] in Hqw. injection Hqw as <-.
    unfold question_wire. by rewrite <- app_assoc. }
  specialize (Hparse header post). rewrite H12 in Hparse. cbn [length map question_of] in Hparse.
  apply parse_message_inv in Hm as (flags2 & off & Hr0 & Hr2 & -> & Hr4 & Hqs).
  assert (m_qdcount m = 1%Z) as Hqd1.
  { do 12 (destruct header as [|? header]; [done|]). unfold read_u16_be in Hr4, Hqd.
    cbn in Hr4, Hqd. congruence. }
  rewrite Hqd1 in Hqs. change (Z.to_nat 1) with 1 in Hqs. unfold HEADER_SIZE in Hqs.
  rewrite Hparse in Hqs. injection Hqs as <- _.
  do 12 (destruct header as [|? header]; [done|]). cbn in Hr2, Hb2.
  injection Hr2 as <-. injection Hb2 as ->. split; [|split; [|done]].
  - injection Hid as -> ->. unfold read_u16_be in Hr0. cbn [rd deref lookup] in Hr0.
    cbn in Hr0. injection Hr0 as <-. apply u16_of_u16_be, land_ffff_u16.
  - by apply negb_true_iff, Z.eqb_neq.
Qed.

(** * Properties *)

(** Validation is defined on every response and decides [accepts]: it returns
    exactly when the response has 12 octets, the QR bit, the request's
    identifier, one question, and a question section equal octet for octet to
    the request's; otherwise its error has the code PARSE. *)
Theorem validate_response_iff (request response : bytes) :
  Forall is_byte request → Forall is_byte response → 12 ≤ length request →
  (validate_response request response = Ret tt ∧ accepts request response)
  ∨ (∃ e, validate_response request response = Throw e ∧ ei_code e = PARSE
       ∧ ¬ accepts request response).
Proof.
  intros Hq Hr Hl.
  destruct (wp_cases _ _ _ (validate_response_spec _ _ Hq Hr Hl)) as [([] & ? & ?)|(e & ? & ? & ?)];
    [by left|right; by exists e].
Qed.

(** A query for "a.b" and the beginning of its response. *)
Definition ab_query : bytes := query_header 4660 ++ question_wire [str "a"; str "b"] A ++ query_edns.
Definition ab_response : bytes :=
  [18; 52; 129; 128; 0; 1; 0; 1; 0; 0; 0; 0; 1; 97; 1; 98; 0; 0; 1; 0; 1;
   192; 12; 0; 1; 0; 1; 0; 0; 0; 60; 0; 4; 10; 0; 0; 7]%Z.

Lemma validate_response_iff_witness :
  validate_response ab_query ab_response = Ret tt ∧ accepts ab_query ab_response
  ∧ ∃ e, validate_response ab_query ab_query = Throw e.
Proof.
  assert (Forall is_byte ab_query) as Hq by (apply (bool_decide_unpack _); vm_compute; exact I).
  assert (Forall is_byte ab_response) as Hr by (apply (bool_decide_unpack _); vm_compute; exact I).
  assert (12 ≤ length ab_query) as Hl by (vm_compute; lia).
  destruct (validate_response_iff ab_query ab_response Hq Hr Hl) as [[H Ha]|(e & H & _)].
  - split; [exact H|]. split; [exact Ha|]. eexists. vm_compute. reflexivity.
  - vm_compute in H. discriminate H.
Defined.

(** C9: A validated response answers the query that was sent: if [build_query] made
    the request, validation accepted the response and the parser accepts it,
    then the parsed message is a response with the query's identifier and its
    only question is the queried name, type and class IN. *)
Theorem validated_response_matches (rnd : Z) (ls : list bytes) (type : RecordType)
    (request response : bytes) (copy_rdata : bool) (m : ParsedMessage) :
  labels_ok ls → build_query rnd (dotted ls) type = Ret request → Forall is_byte response →
  validate_response request response = Ret tt →
  parse_message response copy_rdata = Ret m →
  m_id m = Z.land rnd 0xFFFF ∧ m_qr m = true
  ∧ m_questions m = [{| q_qname := dotted ls; q_qtype := record_type_code type; q_qclass := 1 |}].
Proof.
  intros Hls Hb Hr Hv Hm. rewrite build_query_eq in Hb by done. injection Hb as <-.
  eapply accepted_response_parsed; [done|done| |done].
  apply (wp_Ret_inv _ _ _ _ (validate_response_spec _ _ (query_bytes rnd ls type (proj1 Hls)) Hr
    ltac:(rewrite !length_app; simpl; lia)) Hv).
Qed.

Lemma labels_ab : labels_ok [str "a"; str "b"].
Proof.
  split; [|vm_compute; lia].
  repeat constructor; try discriminate; try (vm_compute; lia);
    try (apply (bool_decide_unpack _); vm_compute; exact I).
Qed.

Lemma validated_response_matches_witness :
  ∃ m, parse_message ab_response true = Ret m ∧ m_id m = 4660%Z ∧ m_qr m = true
    ∧ map q_qname (m_questions m) = [str "a.b"].
Proof.
  eexists. split; [vm_compute; reflexivity|].
  destruct (validated_response_matches 4660 [str "a"; str "b"] A ab_query ab_response true
    _ labels_ab (build_query_eq _ _ _ labels_ab)
    ltac:(apply (bool_decide_unpack _); vm_compute; exact I)
    ltac:(vm_compute; reflexivity) ltac:(vm_compute; reflexivity)) as (Hi & Hq & Hqs).
  split; [exact Hi|]. split; [exact Hq|]. rewrite Hqs. reflexivity.
Defined.
