(* ===== verification/Io.v ===== *)
(** The effects of the network components: computations over a world that may
    fail, and the interfaces ([TlsConnectionBase], the steady clock, the random
    engine) their code is written against. *)
From S2P Require Import Prelude.

(** * Stateful computations

    A computation over a state [S] returns an outcome and the state it leaves,
    also when it throws. *)
Definition st (S E A : Type) : Type := S → outcome E A * S.

#[global] Instance st_ret {S E} : MRet (st S E) := λ A a s, (Ret a, s).
#[global] Instance st_bind {S E} : MBind (st S E) := λ A B f m s,
  match m s with
  | (Ret a, s') => f a s'
  | (Throw e, s') => (Throw e, s')
  | (Undef, s') => (Undef, s')
  | (OutOfFuel, s') => (OutOfFuel, s')
  end.

Section st.
Context {S E : Type}.

Definition lift {A} (m : outcome E A) : st S E A := λ s, (m, s).
Definition throw {A} (e : E) : st S E A := λ s, (Throw e, s).
Definition gets {A} (f : S → A) : st S E A := λ s, (Ret (f s), s).
Definition modify (f : S → S) : st S E unit := λ s, (Ret tt, f s).

(** [catch]: the handler runs in the state the exception left. *)
Definition catch {E' A} (m : st S E A) (h : E → st S E' A) : st S E' A := λ s,
  match m s with
  | (Ret a, s') => (Ret a, s')
  | (Throw e, s') => h e s'
  | (Undef, s') => (Undef, s')
  | (OutOfFuel, s') => (OutOfFuel, s')
  end.

(** The [std::expected] result as a value, to be inspected by the caller. *)
Definition attempt {E' A} (m : st S E A) : st S E' (E + A) := λ s,
  match m s with
  | (Ret a, s') => (Ret (inr a), s')
  | (Throw e, s') => (Ret (inl e), s')
  | (Undef, s') => (Undef, s')
  | (OutOfFuel, s') => (OutOfFuel, s')
  end.

(** Total correctness from a state. *)
Definition swp {A} (m : st S E A) (Q : A → S → Prop) (T : E → S → Prop) (s : S) : Prop :=
  wp (m s).1 (λ a, Q a (m s).2) (λ e, T e (m s).2).

Lemma swp_ret {A} (a : A) Q T s : Q a s → swp (mret a) Q T s.
Proof. done. Qed.

Lemma swp_throw {A} e (Q : A → S → Prop) T s : T e s → swp (throw e) Q T s.
Proof. done. Qed.

Lemma swp_lift {A} (m : outcome E A) Q T s :
  wp m (λ a, Q a s) (λ e, T e s) → swp (lift m) Q T s.
Proof. done. Qed.

Lemma swp_gets {A} (f : S → A) Q T s : Q (f s) s → swp (gets f) Q T s.
Proof. done. Qed.

Lemma swp_modify f Q T s : Q tt (f s) → swp (modify f) Q T s.
Proof. done. Qed.

Lemma swp_bind {A B} (m : st S E A) (f : A → st S E B) Q T s :
  swp m (λ a, swp (f a) Q T) T s → swp (m ≫= f) Q T s.
Proof.
  unfold swp. unfold mbind, st_bind. by destruct (m s) as [[| | |] s'].
Qed.

Lemma swp_mono {A} (m : st S E A) (Q Q' : A → S → Prop) (T T' : E → S → Prop) s :
  swp m Q T s → (∀ a s', Q a s' → Q' a s') → (∀ e s', T e s' → T' e s') → swp m Q' T' s.
Proof. unfold swp. intros H HQ HT. eapply wp_mono; [exact H|auto|auto]. Qed.

(** A call whose own assertion is known. *)
Lemma swp_call {A B} (m : st S E A) (f : A → st S E B) P R Q T s :
  swp m P R s → (∀ a s', P a s' → swp (f a) Q T s') → (∀ e s', R e s' → T e s') →
  swp (m ≫= f) Q T s.
Proof. intros Hm Hf Hr. apply swp_bind. eapply swp_mono; [exact Hm|exact Hf|exact Hr]. Qed.

(** The outcome itself, beside what is said of it. *)
Lemma swp_with_eq {A} (m : st S E A) Q T s :
  swp m Q T s → swp m (λ a s', (m s).1 = Ret a ∧ Q a s') (λ e s', (m s).1 = Throw e ∧ T e s') s.
Proof. unfold swp. destruct (m s) as [[a|e| |] s']; simpl; auto. Qed.

Lemma swp_cases {A} (m : st S E A) Q T s :
  swp m Q T s → (∃ a s', m s = (Ret a, s') ∧ Q a s') ∨ (∃ e s', m s = (Throw e, s') ∧ T e s').
Proof.
  unfold swp. destruct (m s) as [[a|e| |] s']; simpl; [left; eauto|right; eauto|done|done].
Qed.
End st.

Lemma swp_catch {S E E' A} (m : st S E A) (h : E → st S E' A) Q T s :
  swp m Q (λ e, swp (h e) Q T) s → swp (catch m h) Q T s.
Proof. unfold swp, catch. by destruct (m s) as [[a|e| |] s']. Qed.

Lemma swp_attempt {S E E' A} (m : st S E A) (Q : E + A → S → Prop) (T : E' → S → Prop) s :
  swp m (λ a, Q (inr a)) (λ e, Q (inl e)) s → swp (attempt m) Q T s.
Proof. unfold swp, attempt. by destruct (m s) as [[a|e| |] s']. Qed.

Lemma swp_attempt_bind {S E E' A B} (m : st S E A) (f : E + A → st S E' B) P R Q T s :
  swp m P R s → (∀ a s', P a s' → swp (f (inr a)) Q T s') →
  (∀ e s', R e s' → swp (f (inl e)) Q T s') → swp (attempt m ≫= f) Q T s.
Proof.
  intros Hm Ha He. apply swp_bind, swp_attempt. eapply swp_mono; [exact Hm|exact Ha|exact He].
Qed.

(** * The interfaces *)

(* @fn src/src/network/tls_connection.h | enum class IoStatus { | TlsConnectionBase::IoStatus *)
Inductive IoStatus := IO_OK | IO_TIMEOUT | IO_ERROR | IO_CANCELLED.

#[global] Instance IoStatus_eq_dec : EqDecision IoStatus.
Proof. solve_decision. Defined.

(** The connection object and its peer are part of the world [W]; the
    cancellation token is too. *)
(* @src src/src/network/tls_connection.h 92 144 TlsConnectionBase *)
Class TlsConnectionBase (W : Type) := {
  tls_connect : W → (IoStatus + unit) * W;
  tls_close : W → W;
  tls_is_connected : W → bool;
  tls_is_healthy : W → bool;
  tls_send_all : bytes → W → (IoStatus + unit) * W;
  (** a success fills the whole buffer *)
  tls_read_exact : nat → W → (IoStatus + bytes) * W;
  (** at most as many bytes as the buffer holds *)
  tls_read_some : nat → W → (IoStatus + bytes) * W;
  tls_shutdown : W → (IoStatus + unit) * W;
  tls_negotiated_alpn : W → bytes
}.

(** What an implementation promises about the buffers it fills. *)
Class TlsConnectionOk (W : Type) `{TlsConnectionBase W} := {
  tls_read_exact_length n w b w' :
    tls_read_exact n w = (inr b, w') → length b = n ∧ Forall is_byte b;
  tls_read_some_length n w b w' :
    tls_read_some n w = (inr b, w') → length b ≤ n ∧ Forall is_byte b
}.

(** [std::chrono::steady_clock::now()], in nanoseconds. *)
Class SteadyClock (W : Type) := steady_now : W → Z.

(** [Utils::Random::engine()()]: a non-negative number and the engine's next state. *)
Class RandomEngine (W : Type) := random_draw : W → Z * W.

(** [duration_cast<seconds>(d)]: truncation towards zero. *)
Definition to_seconds (nanoseconds : Z) : Z := Z.quot nanoseconds 1000000000.

(** A status as the error side of a computation. *)
Definition of_status {S A} (r : S → (IoStatus + A) * S) : st S IoStatus A := λ s,
  match r s with
  | (inr a, s') => (Ret a, s')
  | (inl e, s') => (Throw e, s')
  end.
