(* ===== verification/SystemParser.v ===== *)
(** [src/dns/parser/parser_system.cpp]: the response parser of builds over
    libresolv, whose [ns_*] functions do the parsing. *)
From S2P Require Import Prelude CppString Address DnsTypes.

(** A resource record as [ns_parserr] leaves it; the data is a part of the message. *)
Record ns_rr := {
  ns_rr_name : bytes;
  ns_rr_type : Z;
  ns_rr_class : Z;
  ns_rr_ttl : Z;
  ns_rr_rdlen : nat;
  ns_rr_rdata : nat
}.

(** What is used of <arpa/nameser.h>: a parsed message, the number of its
    answers and each of them, or an error number; and the text of the name at
    an offset of a message. *)
Class NsParser := {
  ns_msg : Type;
  ns_initparse : bytes → option ns_msg;
  ns_msg_count : ns_msg → nat;
  ns_parserr : ns_msg → nat → Z + ns_rr;
  ns_name_uncompress : bytes → nat → option bytes
}.

(** A record's data lies in the message. *)
Class NsParserOk `{NsParser} :=
  ns_rdata_inside data msg i rr : ns_initparse data = Some msg → ns_parserr msg i = inr rr →
    ns_rr_rdata rr + ns_rr_rdlen rr ≤ length data.

Definition ns_t_a : Z := 1.
Definition ns_t_ns : Z := 2.
Definition ns_t_cname : Z := 5.
Definition ns_t_soa : Z := 6.
Definition ns_t_mx : Z := 15.
Definition ns_t_txt : Z := 16.
Definition ns_t_aaaa : Z := 28.

Module SystemParser.

(** [base] is the buffer the message was parsed from ([ns_msg_base], [ns_msg_end]). *)
(* @src src/src/dns/parser/parser_system.h 126 129 RecordParser (members) *)
Record RecordParser `{NsParser} := { base : bytes; message_ : ns_msg; rcode_ : Z }.

Section parser.
Context `{NsParser} `{IT : InetText}.
(** [std::error_code{...}.message()] and [magic_enum::enum_name] of a record type. *)
Context (error_message type_name : Z → bytes).

(** A [DnsLookupException]: its text and its code, which is UNKNOWN unless given. *)
Abbreviation result := (outcome DnsErrorInfo).

Definition failed {A} (code : DnsError) (what : bytes) : result A :=
  Throw {| ei_code := code; ei_message := what |}.

(* @fn src/src/dns/parser/parser_system.cpp | DNS::RecordParser::RecordParser( | RecordParser::RecordParser *)
Definition create (data : bytes) : result RecordParser :=
  match ns_initparse data with
  | None => failed PARSE (str "Failed to parse DNS response message")
  | Some msg =>
      Ret {| base := data; message_ := msg;
             rcode_ := if HEADER_SIZE <=? length data then Z.land (nth 3 data 0%Z) 0x0F else 0%Z |}
  end.

(* @fn src/src/dns/parser/parser_system.cpp | size_t DNS::RecordParser::record_count() | RecordParser::record_count *)
Definition record_count (p : RecordParser) : nat := ns_msg_count (message_ p).

(** [inet_ntop] reads the octets of an address from the data on, however short
    the data is. *)
Definition octets_at (msg : bytes) (rdata n : nat) : result bytes :=
  if rdata + n <=? length msg then Ret (sub msg rdata n) else Undef.

(* @fn src/src/dns/parser/parser_system.cpp | std::string DNS::RecordParser::parse_a_record( | RecordParser::parse_a_record *)
Definition parse_a_record (msg : bytes) (rdata : nat) : result bytes :=
  addr ← octets_at msg rdata 4;
  Ret (inet_ntop4 addr).

(* @fn src/src/dns/parser/parser_system.cpp | std::string DNS::RecordParser::parse_aaaa_record( | RecordParser::parse_aaaa_record *)
Definition parse_aaaa_record (msg : bytes) (rdata : nat) : result bytes :=
  addr ← octets_at msg rdata 16;
  Ret (inet_ntop6 addr).

(** The first character-string. *)
(* @fn src/src/dns/parser/parser_system.cpp | std::string DNS::RecordParser::parse_txt_record( | RecordParser::parse_txt_record *)
Definition parse_txt_record (rdata : bytes) : result bytes :=
  if length rdata <? 1 then failed UNKNOWN (str "Invalid TXT record (no data)") else
  len ← rd rdata 0;
  if length rdata <? 1 + Z.to_nat len then
    failed UNKNOWN (str "Invalid TXT record: declared length " ++ dec len
      ++ str " exceeds remaining data length " ++ dec (Z.of_nat (length rdata - 1)))
  else Ret (sub rdata 1 (Z.to_nat len)).

(* @fn src/src/dns/parser/parser_system.cpp | std::string DNS::RecordParser::parse_domain_name_record( | RecordParser::parse_domain_name_record *)
Definition parse_domain_name_record (msg : bytes) (rdata : nat) : result bytes :=
  match ns_name_uncompress msg rdata with
  | None => failed UNKNOWN (str "ns_name_uncompress failed")
  | Some nsname => Ret nsname
  end.

(* @fn src/src/dns/parser/parser_system.cpp | std::string DNS::RecordParser::parse_mx_record( | RecordParser::parse_mx_record *)
Definition parse_mx_record (msg : bytes) (rdata : nat) : result bytes :=
  match ns_name_uncompress msg (rdata + 2) with
  | None => failed UNKNOWN (str "ns_name_uncompress failed")
  | Some nsname => Ret nsname
  end.

(* @fn src/src/dns/parser/parser_system.cpp | switch (rr_type) { | RecordParser::parse_record (by type) *)
Definition rr_value (msg : bytes) (rr : ns_rr) : result bytes :=
  let type := ns_rr_type rr in
  if (type =? ns_t_a)%Z then parse_a_record msg (ns_rr_rdata rr)
  else if (type =? ns_t_aaaa)%Z then parse_aaaa_record msg (ns_rr_rdata rr)
  else if (type =? ns_t_txt)%Z then parse_txt_record (sub msg (ns_rr_rdata rr) (ns_rr_rdlen rr))
  else if (type =? ns_t_ns)%Z || (type =? ns_t_soa)%Z || (type =? ns_t_cname)%Z then
    parse_domain_name_record msg (ns_rr_rdata rr)
  else if (type =? ns_t_mx)%Z then parse_mx_record msg (ns_rr_rdata rr)
  else failed UNKNOWN (str "DNS parsing: record type "
    ++ (if bool_decide (type_name type = []) then str "?" else type_name type)
    ++ str " (" ++ type_name type ++ str ") is not supported yet").

(* @fn src/src/dns/parser/parser_system.cpp | std::string DNS::RecordParser::parse_record(size_t index) const { | RecordParser::parse_record *)
Definition parse_record (p : RecordParser) (index : nat) : result bytes :=
  match ns_parserr (message_ p) index with
  | inl errno => failed PARSE (str "An error occurred when parsing DNS resource at index "
      ++ dec (Z.of_nat index) ++ str ", detail: " ++ error_message errno)
  | inr rr => rr_value (base p) rr
  end.

(** The answers from index [i] on, [n] of them. *)
(* @fn src/src/dns/parser/parser_system.cpp | for (size_t i = 0; i < parser.record_count(); ++i) { | RecordParser::parse_strings (loop) *)
Fixpoint records_from (p : RecordParser) (i n : nat) : result (list bytes) :=
  match n with
  | O => Ret []
  | S n =>
      record ← parse_record p i;
      records ← records_from p (S i) n;
      Ret (record :: records)
  end.

(* @fn src/src/dns/parser/parser_system.cpp | DNS::FormattedResponse DNS::RecordParser::parse_strings( | RecordParser::parse_strings *)
Definition parse_strings (data : bytes) : result FormattedResponse :=
  parser ← create data;
  records ← (if (rcode_ parser =? NOERROR)%Z then records_from parser 0 (record_count parser) else Ret []);
  Ret {| fmt_rcode := rcode_ parser; fmt_records := records |}.

(* @fn src/src/dns/parser/parser_system.cpp | for (size_t i = 0; i < count; ++i) { | RecordParser::parse_response (loop) *)
Fixpoint answers_from (p : RecordParser) (i n : nat) : result (list ResourceRecord) :=
  match n with
  | O => Ret []
  | S n =>
      rr ← (match ns_parserr (message_ p) i with
            | inl _ => failed PARSE (str "An error occurred when parsing DNS resource at index " ++ dec (Z.of_nat i))
            | inr rr => Ret rr
            end);
      answers ← answers_from p (S i) n;
      Ret ({| rr_name := ns_rr_name rr; rr_type := u16 (ns_rr_type rr); rr_qclass := u16 (ns_rr_class rr);
              rr_ttl := ns_rr_ttl rr; rr_rdata := sub (base p) (ns_rr_rdata rr) (ns_rr_rdlen rr);
              rr_rdata_offset := 0 |} :: answers)
  end.

(* @fn src/src/dns/parser/parser_system.cpp | DNS::ParsedResponse DNS::RecordParser::parse_response( | RecordParser::parse_response *)
Definition parse_response (data : bytes) : result ParsedResponse :=
  parser ← create data;
  answers ← (if (rcode_ parser =? NOERROR)%Z then answers_from parser 0 (record_count parser) else Ret []);
  Ret {| resp_rcode := rcode_ parser; resp_answers := answers |}.
End parser.
End SystemParser.
Import SystemParser.

(** * Where formatting is defined *)

(** The data of an address record holds an address. *)
Definition rdata_long_enough (rr : ns_rr) : Prop :=
  (ns_rr_type rr = ns_t_a → 4 ≤ ns_rr_rdlen rr) ∧ (ns_rr_type rr = ns_t_aaaa → 16 ≤ ns_rr_rdlen rr).

Section proofs.
Context `{NsParserOk} `{IT : InetText} (error_message type_name : Z → bytes).

Lemma rr_value_defined data rr :
  ns_rr_rdata rr + ns_rr_rdlen rr ≤ length data → rdata_long_enough rr → defined (rr_value type_name data rr).
Proof using Type.
  intros Hin [H4 H16]. unfold rr_value, defined.
  destruct (ns_rr_type rr =? ns_t_a)%Z eqn:Ha; prop_of_bool.
  { unfold parse_a_record, octets_at. specialize (H4 Ha). by rewrite (proj2 (Nat.leb_le _ _)) by lia. }
  destruct (ns_rr_type rr =? ns_t_aaaa)%Z eqn:H6; prop_of_bool.
  { unfold parse_aaaa_record, octets_at. specialize (H16 H6). by rewrite (proj2 (Nat.leb_le _ _)) by lia. }
  destruct (_ =? ns_t_txt)%Z.
  { unfold parse_txt_record. destruct (length _ <? 1) eqn:Hl; [done|]; prop_of_bool.
    apply wp_rd_bind; [lia|]. intros b _. by destruct (_ <? _). }
  destruct (_ || _); [unfold parse_domain_name_record; by destruct (ns_name_uncompress _ _)|].
  destruct (_ =? ns_t_mx)%Z; [|done]. unfold parse_mx_record. by destruct (ns_name_uncompress _ _).
Qed.

Lemma records_from_defined data msg rcode i n :
  ns_initparse data = Some msg → (∀ i rr, ns_parserr msg i = inr rr → rdata_long_enough rr) →
  defined (records_from error_message type_name {| base := data; message_ := msg; rcode_ := rcode |} i n).
Proof using Type*.
  intros Hmsg Hlong. revert i. induction n as [|n IH]; intros i; [done|]. cbn [records_from].
  apply wp_call with (P := λ _, True).
  - unfold parse_record. cbn [message_ base]. destruct (ns_parserr msg i) as [errno|rr] eqn:Hrr; [done|].
    apply rr_value_defined; [by eapply ns_rdata_inside|by eapply Hlong].
  - intros record _ _. apply wp_call with (P := λ _, True); [apply IH|done].
Qed.

(** The parser is defined on a message whose address records hold addresses. *)
Lemma parse_strings_system_defined data :
  (∀ msg i rr, ns_initparse data = Some msg → ns_parserr msg i = inr rr → rdata_long_enough rr) →
  defined (parse_strings error_message type_name data).
Proof using Type*.
  intros Hlong. unfold parse_strings, create. destruct (ns_initparse data) as [msg|] eqn:Hmsg; [|done].
  unfold defined. apply wp_bind. cbn [wp]. apply wp_call with (P := λ _, True); [|done].
  destruct (_ =? NOERROR)%Z; [|done]. apply records_from_defined; [done|]. intros i rr. by apply Hlong.
Qed.
End proofs.
