(* ===== verification/Posix.v ===== *)
(** The system calls that [src/network] makes: an interface to the kernel, and
    what POSIX documents of it.  A call returns its C result and leaves the
    kernel in a new state, of which [errno] is a part; retrying a call that a
    signal has interrupted is a loop that ends because the signals are finitely
    many. *)
From S2P Require Import Prelude Io Address.
Local Open Scope Z_scope.

(** * Linux's numbers *)

Definition EINTR : Z := 4.
Definition EAGAIN : Z := 11.
Definition EWOULDBLOCK : Z := 11.
Definition ENOPROTOOPT : Z := 92.
Definition ENETUNREACH : Z := 101.
Definition ETIMEDOUT : Z := 110.
Definition ECONNREFUSED : Z := 111.
Definition EHOSTUNREACH : Z := 113.
Definition EINPROGRESS : Z := 115.
Definition ECANCELED : Z := 125.

Definition F_GETFD : Z := 1.
Definition F_SETFD : Z := 2.
Definition F_GETFL : Z := 3.
Definition F_SETFL : Z := 4.
Definition FD_CLOEXEC : Z := 1.
Definition O_NONBLOCK : Z := 2048.

Definition POLLIN : Z := 1.
Definition POLLOUT : Z := 4.
Definition POLLERR : Z := 8.
Definition POLLHUP : Z := 16.
Definition POLLNVAL : Z := 32.

Definition SOL_SOCKET : Z := 1.
Definition SO_REUSEADDR : Z := 2.
Definition SO_ERROR : Z := 4.
Definition SO_BROADCAST : Z := 6.
Definition SO_KEEPALIVE : Z := 9.
Definition SO_LINGER : Z := 13.
Definition SO_REUSEPORT : Z := 15.
Definition SO_BINDTODEVICE : Z := 25.
Definition IPPROTO_IP : Z := 0.
Definition IPPROTO_TCP : Z := 6.
Definition IPPROTO_IPV6 : Z := 41.
Definition TCP_NODELAY : Z := 1.
Definition IPV6_V6ONLY : Z := 26.

Definition SOCK_STREAM : Z := 1.
Definition SOCK_DGRAM : Z := 2.
Definition DOMAIN_INET : Z := 2.
Definition DOMAIN_INET6 : Z := 10.
Definition SHUT_RD : Z := 0.
Definition SHUT_WR : Z := 1.
Definition SHUT_RDWR : Z := 2.
Definition MSG_OOB : Z := 1.
Definition MSG_PEEK : Z := 2.
Definition MSG_DONTWAIT : Z := 64.
Definition MSG_WAITALL : Z := 256.
Definition MSG_NOSIGNAL : Z := 16384.

(** The octets of an [int] of a little-endian machine, as [setsockopt] is given them. *)
Definition int_octets (v : Z) : bytes :=
  map (λ i, u8 (Z.shiftr v (8 * i))) [0; 1; 2; 3].

(** * The calls *)

(** [revents] comes back beside the result of [poll]; a receiving call fills a
    buffer of the given size or fails. *)
Class Posix (K : Type) := {
  errno : K → Z;
  sys_socket : Z → Z → Z → K → Z * K;
  sys_close : Z → K → Z * K;
  sys_fcntl : Z → Z → Z → K → Z * K;
  sys_setsockopt : Z → Z → Z → bytes → K → Z * K;
  (** an option whose value is an [int] *)
  sys_getsockopt : Z → Z → Z → K → (Z * Z) * K;
  sys_bind : Z → SocketAddr → K → Z * K;
  sys_getsockname : Z → K → (Z * SocketAddr) * K;
  sys_getpeername : Z → K → (Z * SocketAddr) * K;
  sys_connect : Z → SocketAddr → K → Z * K;
  sys_listen : Z → Z → K → Z * K;
  sys_accept : Z → K → (Z * SocketAddr) * K;
  sys_send : Z → bytes → Z → K → Z * K;
  sys_sendto : Z → bytes → Z → SocketAddr → K → Z * K;
  sys_recv : Z → nat → Z → K → option bytes * K;
  sys_recvfrom : Z → nat → Z → K → option (bytes * SocketAddr) * K;
  (** the descriptors with their events, and the timeout in milliseconds *)
  sys_poll : list (Z * Z) → Z → K → (Z * list Z) * K;
  sys_read : Z → nat → K → option bytes * K;
  sys_shutdown : Z → Z → K → Z * K;

  (** ghost state: the signals that will interrupt a call, the descriptors that
      are open and their status flags *)
  signals : K → nat;
  open_fds : K → gset Z;
  status_flags : K → Z → Z
}.

(** A [msghdr]: the peer's address and the buffers.  Receiving fills buffers of
    given sizes. *)
Record msghdr := { msg_name : SocketAddr; msg_iov : list bytes }.

Class PosixMsg (K : Type) := {
  sys_sendmsg : Z → msghdr → Z → K → Z * K;
  sys_recvmsg : Z → list nat → Z → K → option msghdr * K
}.

Section interruption.
Context {K E : Type} `{Posix K}.

Definition syscall {A} (f : K → A * K) : st K E A := λ k, let '(a, k') := f k in (Ret a, k').

(** [do { r = f(); } while (r < 0 && errno == EINTR);] *)
Fixpoint retry {A} (fuel : nat) (failed : A → bool) (f : K → A * K) : st K E A := λ k,
  let '(a, k') := f k in
  if failed a && (errno k' =? EINTR) then
    match fuel with
    | O => (OutOfFuel, k')
    | S fuel => retry fuel failed f k'
    end
  else (Ret a, k').

Definition eintr {A} (failed : A → bool) (f : K → A * K) : st K E A := λ k,
  retry (signals k) failed f k.

Definition negative (r : Z) : bool := r <? 0.
Definition is_none {A} (r : option A) : bool := match r with Some _ => false | None => true end.
Definition first_negative {A} (r : Z * A) : bool := r.1 <? 0.
End interruption.

(** * What POSIX documents *)

Section laws.
Context {K : Type} `{Posix K}.

(** A call that opens no descriptor, closes none and sets no status flag. *)
Definition frame (k k' : K) : Prop :=
  open_fds k' = open_fds k ∧ (∀ fd, status_flags k' fd = status_flags k fd)
  ∧ (signals k' ≤ signals k)%nat.

(** An interruption is by a signal that is delivered then. *)
Definition interruptible {A} (failed : A → bool) (f : K → A * K) : Prop :=
  ∀ k, failed (f k).1 = true → errno (f k).2 = EINTR → (signals (f k).2 < signals k)%nat.

(** The commands of [fcntl] that read or set the flags of a descriptor. *)
Definition flag_command (c : Z) : bool := (F_GETFD <=? c) && (c <=? F_SETFL).

(** Flags of [send] and [recv] that change when a call returns and whether it raises
    a signal, not what it transfers: neither out-of-band data nor a look at data
    that stays. *)
Definition plain_flags (flags : Z) : Prop :=
  Z.land flags (Z.lnot (Z.lor MSG_DONTWAIT (Z.lor MSG_WAITALL MSG_NOSIGNAL))) = 0.

#[global] Instance frame_preorder : PreOrder frame.
Proof.
  split; [by intros k|]. intros a b c (Ho & Hf & Hs) (Ho' & Hf' & Hs').
  split; [congruence|]. split; [|lia]. intros fd. by rewrite Hf', Hf.
Qed.
End laws.

Class PosixOk (K : Type) `{Posix K} := {
  setsockopt_frame fd l o v k : frame k (sys_setsockopt fd l o v k).2;
  getsockopt_frame fd l o k : frame k (sys_getsockopt fd l o k).2;
  bind_frame fd a k : frame k (sys_bind fd a k).2;
  connect_frame fd a k : frame k (sys_connect fd a k).2;
  listen_frame fd n k : frame k (sys_listen fd n k).2;
  send_frame fd b fl k : frame k (sys_send fd b fl k).2;
  sendto_frame fd b fl a k : frame k (sys_sendto fd b fl a k).2;
  recv_frame fd n fl k : frame k (sys_recv fd n fl k).2;
  recvfrom_frame fd n fl k : frame k (sys_recvfrom fd n fl k).2;
  poll_frame p t k : frame k (sys_poll p t k).2;
  read_frame fd n k : frame k (sys_read fd n k).2;
  shutdown_frame fd how k : frame k (sys_shutdown fd how k).2;

  connect_interrupted fd a : interruptible negative (sys_connect fd a);
  accept_interrupted fd : interruptible first_negative (sys_accept fd);
  send_interrupted fd b fl : interruptible negative (sys_send fd b fl);
  sendto_interrupted fd b fl a : interruptible negative (sys_sendto fd b fl a);
  recv_interrupted fd n fl : interruptible is_none (sys_recv fd n fl);
  recvfrom_interrupted fd n fl : interruptible is_none (sys_recvfrom fd n fl);
  poll_interrupted p t : interruptible first_negative (sys_poll p t);

  (** a new descriptor is one that was not open *)
  socket_opens d t p k r k' : sys_socket d t p k = (r, k') →
    (signals k' ≤ signals k)%nat ∧
    (if 0 <=? r then r ∉ open_fds k ∧ open_fds k' = {[r]} ∪ open_fds k else open_fds k' = open_fds k);
  accept_opens fd k r a k' : sys_accept fd k = ((r, a), k') →
    (signals k' ≤ signals k)%nat ∧
    (if 0 <=? r then r ∉ open_fds k ∧ open_fds k' = {[r]} ∪ open_fds k else open_fds k' = open_fds k);
  (** the descriptor is released, also when [close] fails *)
  close_closes_fd fd k : (signals (sys_close fd k).2 ≤ signals k)%nat ∧ open_fds (sys_close fd k).2 = open_fds k ∖ {[fd]};

  (** only a successful [F_SETFL] changes the flags, of its descriptor *)
  fcntl_fds fd c v k : flag_command c = true →
    (signals (sys_fcntl fd c v k).2 ≤ signals k)%nat ∧ open_fds (sys_fcntl fd c v k).2 = open_fds k;
  fcntl_getfl fd v k r k' : sys_fcntl fd F_GETFL v k = (r, k') → 0 ≤ r → r = status_flags k fd;
  fcntl_keeps fd c v k fd' : flag_command c = true → c ≠ F_SETFL → status_flags (sys_fcntl fd c v k).2 fd' = status_flags k fd';
  fcntl_setfl fd v k r k' fd' : sys_fcntl fd F_SETFL v k = (r, k') →
    status_flags k' fd' = if bool_decide (fd' = fd) && (0 <=? r) then v else status_flags k fd';

  (** a successful call sends something, if there is anything to send *)
  send_progress fd b fl k : b ≠ [] → (sys_send fd b fl k).1 ≠ 0;
  sendto_progress fd b fl a k : b ≠ [] → (sys_sendto fd b fl a k).1 ≠ 0;
  (** a buffer is filled to its size at most *)
  recv_fits fd n fl k b : (sys_recv fd n fl k).1 = Some b → (length b ≤ n)%nat ∧ Forall is_byte b;
  recvfrom_fits fd n fl k b a : (sys_recvfrom fd n fl k).1 = Some (b, a) → (length b ≤ n)%nat ∧ Forall is_byte b
}.

Class PosixMsgOk (K : Type) `{Posix K} `{PosixMsg K} := {
  sendmsg_frame fd m fl k : frame k (sys_sendmsg fd m fl k).2;
  recvmsg_frame fd n fl k : frame k (sys_recvmsg fd n fl k).2;
  sendmsg_interrupted fd m fl : interruptible negative (sys_sendmsg fd m fl);
  recvmsg_interrupted fd n fl : interruptible is_none (sys_recvmsg fd n fl);
  (** buffers are filled in their order and to their size at most *)
  recvmsg_fits fd n fl k m : (sys_recvmsg fd n fl k).1 = Some m →
    Forall2 (λ b size, (length b ≤ size)%nat ∧ Forall is_byte b) (msg_iov m) n
}.

(** A connected stream socket: what is sent arrives at the end of what was sent
    before, what is received is the beginning of what is still to come, and only
    at its end nothing is received.  That is for plain flags: [MSG_PEEK] takes
    nothing, [MSG_OOB] is another stream. *)
Class StreamFd {K : Type} `{Posix K} (fd : Z) (outgoing incoming : K → bytes) := {
  send_appends b fl k r k' : plain_flags fl → sys_send fd b fl k = (r, k') →
    incoming k' = incoming k ∧
    (if 0 <=? r then (Z.to_nat r ≤ length b)%nat ∧ outgoing k' = outgoing k ++ take (Z.to_nat r) b
     else outgoing k' = outgoing k);
  recv_takes n fl k r k' : plain_flags fl → sys_recv fd n fl k = (r, k') →
    outgoing k' = outgoing k ∧ incoming k = default [] r ++ incoming k';
  recv_end n fl k : plain_flags fl → n ≠ 0%nat → (sys_recv fd n fl k).1 = Some [] → incoming k = []
}.

Lemma plain_flags_lor a b : plain_flags a → plain_flags b → plain_flags (Z.lor a b).
Proof. unfold plain_flags. intros Ha Hb. by rewrite Z.land_lor_distr_l, Ha, Hb. Qed.

(** * The retry loop *)

Section retry.
Context {K E : Type} `{Posix K}.

Lemma swp_call_sys {A} (f : K → A * K) (Q : A → K → Prop) (T : E → K → Prop) k :
  Q (f k).1 (f k).2 → swp (syscall f) Q T k.
Proof. unfold swp, syscall. by destruct (f k). Qed.

(** [J] is kept by interrupted calls; a call that is not interrupted meets [Q]. *)
Lemma swp_eintr {A} (failed : A → bool) (f : K → A * K) (J : K → Prop) (Q : A → K → Prop) (T : E → K → Prop) k :
  interruptible failed f → J k →
  (∀ k, J k → failed (f k).1 = true → errno (f k).2 = EINTR → J (f k).2) →
  (∀ k, J k → (failed (f k).1 = true → errno (f k).2 ≠ EINTR) → Q (f k).1 (f k).2) →
  swp (eintr failed f) Q T k.
Proof.
  intros Hint Hk HJ HQ. unfold eintr.
  assert (∀ fuel k, (signals k ≤ fuel)%nat → J k → swp (retry (E:=E) fuel failed f) Q T k) as Hloop.
  2:{ by apply Hloop. }
  clear k Hk. induction fuel as [|fuel IH]; intros k Hfuel Hk; unfold swp; cbn [retry];
    specialize (Hint k); specialize (HJ k Hk); specialize (HQ k Hk);
    destruct (f k) as [a k'] eqn:Hf; simpl in Hint, HJ, HQ;
    (destruct (failed a) eqn:Ha; [destruct (errno k' =? EINTR) eqn:He; prop_of_bool|]); simpl;
    try (apply HQ; congruence); specialize (Hint eq_refl He).
  - lia.
  - specialize (IH k' ltac:(lia) (HJ eq_refl He)). exact IH.
Qed.
End retry.

(** * A kernel for the examples

    Its signals interrupt the next calls; a connected socket sends three octets
    at a time and receives what is in [sk_in]. *)
Record sample_kernel := {
  sk_errno : Z; sk_signals : nat; sk_fds : gset Z; sk_flags : Z → Z; sk_next : Z;
  sk_in : bytes; sk_out : bytes
}.

Definition sk_with (k : sample_kernel) (fds : gset Z) (flags : Z → Z) (i o : bytes) : sample_kernel :=
  {| sk_errno := sk_errno k; sk_signals := sk_signals k; sk_fds := fds; sk_flags := flags;
     sk_next := sk_next k + 1; sk_in := i; sk_out := o |}.

Definition interrupting {A} (failed : A) (f : sample_kernel → A * sample_kernel) (k : sample_kernel) :
    A * sample_kernel :=
  match sk_signals k with
  | O => f k
  | S n => (failed, {| sk_errno := EINTR; sk_signals := n; sk_fds := sk_fds k; sk_flags := sk_flags k;
                       sk_next := sk_next k; sk_in := sk_in k; sk_out := sk_out k |})
  end.

Definition sk_open (k : sample_kernel) : Z * sample_kernel :=
  if bool_decide (0 ≤ sk_next k ∧ sk_next k ∉ sk_fds k)
  then (sk_next k, sk_with k ({[sk_next k]} ∪ sk_fds k) (sk_flags k) (sk_in k) (sk_out k))
  else (-1, k).

Definition sk_send (b : bytes) (k : sample_kernel) : Z * sample_kernel :=
  (Z.of_nat (length (take 3 b)), sk_with k (sk_fds k) (sk_flags k) (sk_in k) (sk_out k ++ take 3 b)).

#[global] Instance sample_posix : Posix sample_kernel := {
  errno := sk_errno;
  sys_socket _ _ _ := sk_open;
  sys_close fd k := (0, sk_with k (sk_fds k ∖ {[fd]}) (sk_flags k) (sk_in k) (sk_out k));
  sys_fcntl fd c v k :=
    if c =? F_SETFL then
      (0, sk_with k (sk_fds k) (λ fd', if bool_decide (fd' = fd) then v else sk_flags k fd') (sk_in k) (sk_out k))
    else (sk_flags k fd, k);
  sys_setsockopt _ _ _ _ k := (0, k);
  sys_getsockopt _ _ _ k := ((0, 0), k);
  sys_bind _ _ k := (0, k);
  sys_getsockname _ k := ((0, AF_UNSPEC), k);
  sys_getpeername _ k := ((0, AF_UNSPEC), k);
  sys_connect _ _ := interrupting (-1) (λ k, (0, k));
  sys_listen _ _ k := (0, k);
  sys_accept _ := interrupting (-1, AF_UNSPEC) (λ k, ((-1, AF_UNSPEC),
    {| sk_errno := EAGAIN; sk_signals := sk_signals k; sk_fds := sk_fds k; sk_flags := sk_flags k;
       sk_next := sk_next k; sk_in := sk_in k; sk_out := sk_out k |}));
  sys_send _ b _ := interrupting (-1) (sk_send b);
  sys_sendto _ b _ _ := interrupting (-1) (λ k, (Z.of_nat (length b), k));
  sys_recv _ n _ := interrupting None (λ k,
    (Some (take n (map u8 (sk_in k))), sk_with k (sk_fds k) (sk_flags k) (drop n (sk_in k)) (sk_out k)));
  sys_recvfrom _ n _ := interrupting None (λ k, (Some (take n (map u8 (sk_in k)), AF_UNSPEC), k));
  sys_poll p _ := interrupting (-1, []) (λ k, ((Z.of_nat (length p), p.*2), k));
  sys_read _ _ k := (Some [], k);
  sys_shutdown _ _ k := (0, k);
  signals := sk_signals;
  open_fds := sk_fds;
  status_flags := sk_flags
}.

#[local] Arguments firstn : simpl never.

(** Case analysis on whether the call of the goal is interrupted. *)
Ltac sample_call :=
  simpl; unfold interrupting;
  repeat match goal with |- context [match sk_signals ?k with _ => _ end] =>
    let Hs := fresh "Hs" in destruct (sk_signals k) eqn:Hs end.

(** A call of the sample kernel keeps the frame: neither way out touches it. *)
Ltac sample_frame := intros; sample_call; repeat split; simpl; lia.

Lemma map_u8_bytes b : Forall is_byte (map u8 b).
Proof. apply Forall_map, Forall_true. intros z. apply u8_is_byte. Qed.

Lemma sk_open_spec k r k' : sk_open k = (r, k') →
  (sk_signals k' ≤ sk_signals k)%nat ∧
  (if 0 <=? r then r ∉ sk_fds k ∧ sk_fds k' = {[r]} ∪ sk_fds k else sk_fds k' = sk_fds k).
Proof.
  unfold sk_open. case_bool_decide as Hn; intros [= <- <-]; simpl; split; [lia| |lia|done].
  destruct Hn as [Hn Hf]. by rewrite (proj2 (Z.leb_le 0 _)).
Qed.

#[global] Instance sample_posix_ok : PosixOk sample_kernel.
Proof.
  split.
  all: try sample_frame.
  - intros fd a k. sample_call; simpl; [done|lia].
  - intros fd k. sample_call; simpl; [done|lia].
  - intros fd b fl k. sample_call; simpl; [|lia]. unfold negative. intros Hn; prop_of_bool. lia.
  - intros fd b fl a k. sample_call; simpl; [|lia]. unfold negative. intros Hn; prop_of_bool. lia.
  - intros fd n fl k. sample_call; simpl; [done|lia].
  - intros fd n fl k. sample_call; simpl; [done|lia].
  - intros p t k. sample_call; simpl; [|lia]. unfold first_negative. simpl. intros Hn; prop_of_bool. lia.
  - intros d t p k r k' Hk. by apply sk_open_spec.
  - intros fd k r a k'. sample_call; intros [= <- <- <-]; simpl; split; [lia|done|lia|done].
  - intros fd c v k _. simpl. destruct (c =? F_SETFL); simpl; split; [lia|done|lia|done].
  - intros fd v k r k'. simpl. by intros [= <- <-].
  - intros fd c v k fd' _ Hc. simpl. by rewrite (proj2 (Z.eqb_neq c F_SETFL)).
  - intros fd v k r k' fd'. simpl. intros [= <- <-]. simpl. by case_bool_decide.
  - intros fd [|x b] fl k Hb; [done|]. sample_call; simpl; rewrite ?length_take; simpl; lia.
  - intros fd [|x b] fl a k Hb; [done|]. sample_call; simpl; lia.
  - intros fd n fl k b. sample_call; [|done]. simpl. intros [= <-].
    rewrite length_take, length_map. split; [lia|]. apply Forall_take, map_u8_bytes.
  - intros fd n fl k b a. sample_call; [|done]. simpl. intros [= <- <-].
    rewrite length_take, length_map. split; [lia|]. apply Forall_take, map_u8_bytes.
Qed.

#[global] Instance sample_stream fd : StreamFd fd sk_out (λ k, map u8 (sk_in k)).
Proof.
  split.
  - intros b fl k r k' _. sample_call; intros [= <- <-]; simpl; [|done].
    rewrite (proj2 (Z.leb_le 0 _)) by lia. rewrite Nat2Z.id, length_take.
    split; [done|]. split; [lia|]. f_equal.
    destruct (Nat.min_spec 3 (length b)) as [[_ ->]|[Hl ->]]; [done|]. by rewrite !take_ge.
  - intros n fl k r k' _. sample_call; intros [= <- <-]; simpl; [|done].
    split; [done|]. by rewrite <- skipn_map, take_drop.
  - intros n fl k _ Hn. sample_call; [|done]. simpl. intros [= Ht].
    by destruct (map u8 (sk_in k)), n.
Qed.

(** * A kernel beside other state *)

Section beside.
Context {K X : Type} `{PosixOk K}.

Definition beside {A} (f : K → A * K) (k : K * X) : A * (K * X) := ((f k.1).1, ((f k.1).2, k.2)).

#[global] Instance beside_posix : Posix (K * X) := {
  errno k := errno k.1;
  sys_socket d t p := beside (sys_socket d t p);
  sys_close fd := beside (sys_close fd);
  sys_fcntl fd c v := beside (sys_fcntl fd c v);
  sys_setsockopt fd l o v := beside (sys_setsockopt fd l o v);
  sys_getsockopt fd l o := beside (sys_getsockopt fd l o);
  sys_bind fd a := beside (sys_bind fd a);
  sys_getsockname fd := beside (sys_getsockname fd);
  sys_getpeername fd := beside (sys_getpeername fd);
  sys_connect fd a := beside (sys_connect fd a);
  sys_listen fd n := beside (sys_listen fd n);
  sys_accept fd := beside (sys_accept fd);
  sys_send fd b fl := beside (sys_send fd b fl);
  sys_sendto fd b fl a := beside (sys_sendto fd b fl a);
  sys_recv fd n fl := beside (sys_recv fd n fl);
  sys_recvfrom fd n fl := beside (sys_recvfrom fd n fl);
  sys_poll p t := beside (sys_poll p t);
  sys_read fd n := beside (sys_read fd n);
  sys_shutdown fd how := beside (sys_shutdown fd how);
  signals k := signals k.1;
  open_fds k := open_fds k.1;
  status_flags k := status_flags k.1
}.

(** A call beside other state has the law of the call. *)
Lemma beside_inv {A} (f : K → A * K) k a k' : beside f k = (a, k') → f k.1 = (a, k'.1).
Proof. unfold beside. destruct (f k.1) as [a1 k1] eqn:Hf. by intros [= <- <-]. Qed.

#[global] Instance beside_posix_ok : PosixOk (K * X).
Proof.
  split.
  all: try (intros; match goal with k : K * X |- _ => first
    [exact (setsockopt_frame _ _ _ _ k.1)|exact (getsockopt_frame _ _ _ k.1)|exact (bind_frame _ _ k.1)
    |exact (connect_frame _ _ k.1)|exact (listen_frame _ _ k.1)|exact (send_frame _ _ _ k.1)
    |exact (sendto_frame _ _ _ _ k.1)|exact (recv_frame _ _ _ k.1)|exact (recvfrom_frame _ _ _ k.1)
    |exact (poll_frame _ _ k.1)|exact (read_frame _ _ k.1)|exact (shutdown_frame _ _ k.1)] end).
  all: try (intros; intros k; first
    [exact (connect_interrupted _ _ k.1)|exact (accept_interrupted _ k.1)|exact (send_interrupted _ _ _ k.1)
    |exact (sendto_interrupted _ _ _ _ k.1)|exact (recv_interrupted _ _ _ k.1)
    |exact (recvfrom_interrupted _ _ _ k.1)|exact (poll_interrupted _ _ k.1)]).
  - intros d t p k r k' Hk%beside_inv. exact (socket_opens _ _ _ _ _ _ Hk).
  - intros fd k r a k' Hk%beside_inv. exact (accept_opens _ _ _ _ _ Hk).
  - intros fd k. exact (close_closes_fd fd k.1).
  - intros fd c v k. exact (fcntl_fds fd c v k.1).
  - intros fd v k r k' Hk%beside_inv. exact (fcntl_getfl _ _ _ _ _ Hk).
  - intros fd c v k fd'. exact (fcntl_keeps fd c v k.1 fd').
  - intros fd v k r k' fd' Hk%beside_inv. exact (fcntl_setfl _ _ _ _ _ fd' Hk).
  - intros fd b fl k. exact (send_progress fd b fl k.1).
  - intros fd b fl a k. exact (sendto_progress fd b fl a k.1).
  - intros fd n fl k b. exact (recv_fits fd n fl k.1 b).
  - intros fd n fl k b a. exact (recvfrom_fits fd n fl k.1 b a).
Qed.
End beside.
