(* ===== verification/Socket.v ===== *)
(** [src/network/socket.{h,cpp}] and [src/util/cancellation_token.hpp]: the
    interface of sockets, and the sockets over the system calls that implement
    it.  A log call is left out; [HAVE_MSG_NOSIGNAL] is set, as on Linux. *)
From S2P Require Import Prelude CppString Io Posix Address.

(** * The interface *)

(* @fn src/src/network/socket.h | enum class ConnectError { | ConnectError *)
Inductive ConnectError := TIMED_OUT | REFUSED | UNREACHABLE | CE_CANCELLED | INTERNAL.

Inductive sock_type := SOCK_DGRAM | SOCK_STREAM.

(** The operations on the one socket in scope; the world holds its state, the
    peer, [errno] and the cancellation token. *)
(* @fn src/src/network/socket.h | class SocketBase { | SocketBase *)
Class SocketBase (W : Type) := {
  (** the constructor: an exception's text, or a new socket *)
  sock_open : AddressFamily → sock_type → W → (bytes + unit) * W;
  (** the destructor *)
  sock_close : W → W;
  sock_connect : SocketAddr → Z → W → (ConnectError + unit) * W;
  (** [set_option(IPPROTO_TCP, TCP_NODELAY, 1)]: an error number or nothing *)
  sock_set_nodelay : W → (Z + unit) * W;
  (** what [send] and [send_to] return *)
  sock_send : bytes → W → Z * W;
  sock_send_to : bytes → SocketAddr → W → Z * W;
  (** the octets received into a buffer of the given size, [None] for a negative result *)
  sock_recv : nat → W → option bytes * W;
  sock_recv_from : nat → W → option bytes * W;
  (** an error number, or whether the socket is readable *)
  sock_wait_for : Z → W → (Z + Z) * W;
  sock_errno : W → Z;
  (** the number of open sockets: ghost state *)
  open_sockets : W → nat
}.

(** What the operations promise about buffers and about open sockets. *)
Class SocketOk (W : Type) `{SocketBase W} := {
  recv_length n w b w' : sock_recv n w = (Some b, w') → length b ≤ n ∧ Forall is_byte b;
  recv_from_length n w b w' : sock_recv_from n w = (Some b, w') → length b ≤ n ∧ Forall is_byte b;
  open_fails f t w e w' : sock_open f t w = (inl e, w') → open_sockets w' = open_sockets w;
  open_opens f t w w' : sock_open f t w = (inr tt, w') → open_sockets w' = S (open_sockets w);
  close_closes w : open_sockets (sock_close w) = open_sockets w - 1;
  connect_open a t w : open_sockets (sock_connect a t w).2 = open_sockets w;
  nodelay_open w : open_sockets (sock_set_nodelay w).2 = open_sockets w;
  send_open b w : open_sockets (sock_send b w).2 = open_sockets w;
  send_to_open b a w : open_sockets (sock_send_to b a w).2 = open_sockets w;
  recv_open n w : open_sockets (sock_recv n w).2 = open_sockets w;
  recv_from_open n w : open_sockets (sock_recv_from n w).2 = open_sockets w;
  wait_open t w : open_sockets (sock_wait_for t w).2 = open_sockets w
}.

Local Open Scope Z_scope.

Module Sock.

(** * Local helpers *)

(* @fn src/src/network/socket.cpp | ConnectError to_connect_error( | to_connect_error *)
Definition to_connect_error (errnum : Z) : ConnectError :=
  if errnum =? ETIMEDOUT then TIMED_OUT
  else if errnum =? ECONNREFUSED then REFUSED
  else if (errnum =? ENETUNREACH) || (errnum =? EHOSTUNREACH) then UNREACHABLE
  else if errnum =? ECANCELED then CE_CANCELLED
  else INTERNAL.

(* @fn src/src/network/socket.cpp | #ifdef HAVE_MSG_NOSIGNAL ==> constexpr int YADDNSC_NO_SIGPIPE | YADDNSC_NO_SIGPIPE *)
Definition YADDNSC_NO_SIGPIPE : Z := MSG_NOSIGNAL.

(* @src src/src/network/socket.h 241 242 Socket (members) *)
Record Socket := { fd_ : Z; type_ : Z }.

(* @src src/src/util/cancellation_token.hpp 56 56 CancellationToken (members) *)
Record CancellationToken := { token_fd : Z }.

(* @fn src/src/util/cancellation_token.hpp | explicit operator bool() const noexcept | CancellationToken::operator bool *)
Definition token_linked (t : CancellationToken) : bool := 0 <=? token_fd t.

(* @src src/src/network/socket.cpp 110 111 FcntlGuard (members) *)
Record FcntlGuard := { guard_fd : Z; saved_flags : Z }.

Section sockets.
Context {K : Type} `{Posix K}.
(** [std::error_code{errnum, std::generic_category()}.message()] *)
Context (error_message : Z → bytes).

(** A constructor throws a [SocketException] with this text; nothing else throws. *)
Abbreviation io := (st K bytes).

(** The error number of a call that has failed, [std::unexpected(errno)]. *)
Definition unexpected_errno {A} : io (Z + A) := e ← gets errno; mret (inl e).

(* @fn src/src/network/socket.cpp | size_t total = 0; ==> while (total < len) { | send_loop (stream) *)
Fixpoint send_stream (fuel : nat) (fn : bytes → K → Z * K) (buf : bytes) (total : nat) : io Z :=
  if (total <? length buf)%nat then
    match fuel with
    | O => lift OutOfFuel
    | S fuel =>
        n ← eintr negative (fn (drop total buf));
        if n <? 0 then mret (-1) else send_stream fuel fn buf (total + Z.to_nat n)
    end
  else mret (Z.of_nat (length buf)).

(* @fn src/src/network/socket.cpp | ssize_t send_loop( | send_loop *)
Definition send_loop (data : bytes) (stream : bool) (fn : bytes → K → Z * K) : io Z :=
  if negb stream then eintr negative (fn data)
  else send_stream (length data) fn data 0.

(** Restores the flags and disarms the guard. *)
(* @fn src/src/network/socket.cpp | bool restore() noexcept { | FcntlGuard::restore *)
Definition restore (g : FcntlGuard) : io (bool * FcntlGuard) :=
  if guard_fd g <? 0 then mret (true, g) else
  rc ← syscall (sys_fcntl (guard_fd g) F_SETFL (saved_flags g));
  mret (rc =? 0, {| guard_fd := -1; saved_flags := saved_flags g |}).

(** The scope of a guard: its destructor restores, if nothing has before. *)
(* @fn src/src/network/socket.cpp | ~FcntlGuard() { | FcntlGuard::~FcntlGuard *)
Definition with_guard {A} (body : io (A * FcntlGuard)) : io A :=
  r ← body;
  _ ← restore r.2;
  mret r.1.

(** * Construction and destruction *)

(* @fn src/src/network/socket.cpp | Socket::Socket(int domain | Socket::Socket *)
Definition create (domain type protocol : Z) : io Socket :=
  fd ← syscall (sys_socket domain type protocol);
  if fd <? 0 then
    e ← gets errno;
    throw (str "socket: " ++ error_message e)
  else
    fd_flags ← syscall (sys_fcntl fd F_GETFD 0);
    _ ← (if 0 <=? fd_flags then syscall (sys_fcntl fd F_SETFD (Z.lor fd_flags FD_CLOEXEC)) else mret 0);
    mret {| fd_ := fd; type_ := type |}.

(* @fn src/src/network/socket.cpp | void Socket::close() noexcept { | Socket::close *)
Definition close (s : Socket) : io Socket :=
  if fd_ s <? 0 then mret s else
  _ ← syscall (sys_close (fd_ s));
  mret {| fd_ := -1; type_ := type_ s |}.

(* @fn src/src/network/socket.cpp | Socket::~Socket() { | Socket::~Socket *)
Definition destroy (s : Socket) : io unit := _ ← close s; mret tt.

(** The new object and the one that has been moved from. *)
(* @fn src/src/network/socket.cpp | Socket::Socket(Socket &&other) | Socket::Socket (move) *)
Definition move (other : Socket) : Socket * Socket :=
  (other, {| fd_ := -1; type_ := -1 |}).

(** [self] says that both are the same object. *)
(* @fn src/src/network/socket.cpp | Socket &Socket::operator=(Socket &&other) | Socket::operator= *)
Definition move_assign (self : bool) (this other : Socket) : io (Socket * Socket) :=
  if self then mret (this, other) else
  _ ← close this;
  mret (other, {| fd_ := -1; type_ := -1 |}).

(** * Options *)

(* @fn src/src/network/socket.cpp | Socket::set_option_raw( | Socket::set_option_raw *)
Definition set_option_raw (s : Socket) (level optname : Z) (val : bytes) : io (Z + unit) :=
  rc ← syscall (sys_setsockopt (fd_ s) level optname val);
  if rc =? 0 then mret (inr tt) else unexpected_errno.

(** Of an [int]. *)
(* @fn src/src/network/socket.h | std::expected<void, int> set_option(int level | SocketBase::set_option *)
Definition set_option (s : Socket) (level optname val : Z) : io (Z + unit) :=
  set_option_raw s level optname (int_octets val).

(* @fn src/src/network/socket.h | std::expected<void, int> get_option(int level | SocketBase::get_option *)
Definition get_option (s : Socket) (level optname : Z) : io (Z + Z) :=
  r ← syscall (sys_getsockopt (fd_ s) level optname);
  if r.1 =? 0 then mret (inr r.2) else unexpected_errno.

(* @fn src/src/network/socket.cpp | Socket::set_nonblocking( | Socket::set_nonblocking *)
Definition set_nonblocking (s : Socket) (enable : bool) : io (Z + unit) :=
  flags ← syscall (sys_fcntl (fd_ s) F_GETFL 0);
  if flags <? 0 then unexpected_errno else
  rc ← syscall (sys_fcntl (fd_ s) F_SETFL
    (if enable then Z.lor flags O_NONBLOCK else Z.land flags (Z.lnot O_NONBLOCK)));
  if rc <? 0 then unexpected_errno else mret (inr tt).

Definition int_of_bool (b : bool) : Z := if b then 1 else 0.

(* @fn src/src/network/socket.cpp | Socket::set_reuseaddr( | Socket::set_reuseaddr *)
Definition set_reuseaddr (s : Socket) (enable : bool) : io (Z + unit) :=
  set_option s SOL_SOCKET SO_REUSEADDR (int_of_bool enable).

(* @fn src/src/network/socket.cpp | Socket::set_broadcast( | Socket::set_broadcast *)
Definition set_broadcast (s : Socket) (enable : bool) : io (Z + unit) :=
  set_option s SOL_SOCKET SO_BROADCAST (int_of_bool enable).

(* @fn src/src/network/socket.cpp | Socket::set_keepalive( | Socket::set_keepalive *)
Definition set_keepalive (s : Socket) (enable : bool) : io (Z + unit) :=
  set_option s SOL_SOCKET SO_KEEPALIVE (int_of_bool enable).

(** A [struct linger] is two [int]s. *)
(* @fn src/src/network/socket.cpp | Socket::set_linger( | Socket::set_linger *)
Definition set_linger (s : Socket) (enable : bool) (timeout_sec : Z) : io (Z + unit) :=
  set_option_raw s SOL_SOCKET SO_LINGER (int_octets (int_of_bool enable) ++ int_octets timeout_sec).

(* @fn src/src/network/socket.cpp | Socket::set_ipv6_only( | Socket::set_ipv6_only *)
Definition set_ipv6_only (s : Socket) (enable : bool) : io (Z + unit) :=
  set_option s IPPROTO_IPV6 IPV6_V6ONLY (int_of_bool enable).

(** Linux has [SO_REUSEPORT]. *)
(* @fn src/src/network/socket.cpp | Socket::set_reuseport( | Socket::set_reuseport *)
Definition set_reuseport (s : Socket) (enable : bool) : io (Z + unit) :=
  set_option s SOL_SOCKET SO_REUSEPORT (int_of_bool enable).

(** * Binding *)

(* @fn src/src/network/socket.cpp | Socket::bind( | Socket::bind *)
Definition bind (s : Socket) (addr : SocketAddr) : io (Z + unit) :=
  rc ← syscall (sys_bind (fd_ s) addr);
  if rc <? 0 then unexpected_errno else mret (inr tt).

(* @fn src/src/network/socket.cpp | SocketAddr Socket::get_sockname() | Socket::get_sockname *)
Definition get_sockname (s : Socket) : io SocketAddr :=
  r ← syscall (sys_getsockname (fd_ s));
  if r.1 <? 0 then e ← gets errno; throw (str "getsockname: " ++ error_message e)
  else mret r.2.

(* @fn src/src/network/socket.cpp | SocketAddr Socket::get_peername() | Socket::get_peername *)
Definition get_peername (s : Socket) : io SocketAddr :=
  r ← syscall (sys_getpeername (fd_ s));
  if r.1 <? 0 then e ← gets errno; throw (str "getpeername: " ++ error_message e)
  else mret r.2.

(** * Connecting *)

Definition INT_MAX : Z := 2147483647.

(** After [poll]: whether the connection has been made. *)
(* @src src/src/network/socket.cpp 344 360 Socket::connect (status) *)
Definition connect_status (s : Socket) (guard : FcntlGuard) : io ((ConnectError + unit) * FcntlGuard) :=
  error ← syscall (sys_getsockopt (fd_ s) SOL_SOCKET SO_ERROR);
  if error.1 <? 0 then mret (inl INTERNAL, guard) else
  if negb (error.2 =? 0) then mret (inl (to_connect_error error.2), guard) else
  restored ← restore guard;
  if negb restored.1 then mret (inl INTERNAL, restored.2) else mret (inr tt, restored.2).

(** Under the guard: the attempt, and the wait for its end. *)
(* @src src/src/network/socket.cpp 311 342 Socket::connect (attempt) *)
Definition connect_attempt (s : Socket) (addr : SocketAddr) (timeout_sec : Z) (guard : FcntlGuard) :
    io ((ConnectError + unit) * FcntlGuard) :=
  rc ← eintr negative (sys_connect (fd_ s) addr);
  if rc =? 0 then
    restored ← restore guard;
    if negb restored.1 then mret (inl INTERNAL, restored.2) else mret (inr tt, restored.2)
  else
  e ← gets errno;
  if negb (e =? EINPROGRESS) then mret (inl (to_connect_error e), guard) else
  if INT_MAX <? timeout_sec * 1000 then lift Undef else
  polled ← eintr first_negative (sys_poll [(fd_ s, POLLOUT)] (timeout_sec * 1000));
  if polled.1 =? 0 then mret (inl TIMED_OUT, guard) else
  if polled.1 <? 0 then mret (inl INTERNAL, guard) else
  connect_status s guard.

(* @fn src/src/network/socket.cpp | Socket::connect(const SocketAddr | Socket::connect *)
Definition connect (s : Socket) (addr : SocketAddr) (timeout_sec : Z) : io (ConnectError + unit) :=
  if timeout_sec <? 0 then
    rc ← eintr negative (sys_connect (fd_ s) addr);
    if rc <? 0 then e ← gets errno; mret (inl (to_connect_error e)) else mret (inr tt)
  else
  orig_flags ← syscall (sys_fcntl (fd_ s) F_GETFL 0);
  if orig_flags <? 0 then mret (inl INTERNAL) else
  rc ← syscall (sys_fcntl (fd_ s) F_SETFL (Z.lor orig_flags O_NONBLOCK));
  if rc <? 0 then mret (inl INTERNAL) else
  with_guard (connect_attempt s addr timeout_sec {| guard_fd := fd_ s; saved_flags := orig_flags |}).

(** * Listening *)

(* @fn src/src/network/socket.cpp | void Socket::listen(int backlog) | Socket::listen *)
Definition listen (s : Socket) (backlog : Z) : io unit :=
  rc ← syscall (sys_listen (fd_ s) backlog);
  if rc <? 0 then e ← gets errno; throw (str "listen: " ++ error_message e) else mret tt.

(** The client's address comes back beside the socket. *)
(* @fn src/src/network/socket.cpp | Socket::accept(SocketAddr | Socket::accept *)
Definition accept (s : Socket) : io (Z + (Socket * SocketAddr)) :=
  client ← eintr first_negative (sys_accept (fd_ s));
  if client.1 <? 0 then unexpected_errno else
  fd_flags ← syscall (sys_fcntl client.1 F_GETFD 0);
  _ ← (if 0 <=? fd_flags then syscall (sys_fcntl client.1 F_SETFD (Z.lor fd_flags FD_CLOEXEC)) else mret 0);
  mret (inr ({| fd_ := client.1; type_ := type_ s |}, client.2)).

(** * Input and output *)

Definition is_stream (s : Socket) : bool := type_ s =? Posix.SOCK_STREAM.

(* @fn src/src/network/socket.cpp | ssize_t Socket::send(std::span<const std::byte> data, int flags) | Socket::send *)
Definition send (s : Socket) (data : bytes) (flags : Z) : io Z :=
  send_loop data (is_stream s) (λ p, sys_send (fd_ s) p (Z.lor flags YADDNSC_NO_SIGPIPE)).

(* @fn src/src/network/socket.cpp | ssize_t Socket::send_to(std::span<const std::byte> data, const SocketAddr &dest, int flags) | Socket::send_to *)
Definition send_to (s : Socket) (data : bytes) (dest : SocketAddr) (flags : Z) : io Z :=
  send_loop data (is_stream s) (λ p, sys_sendto (fd_ s) p (Z.lor flags YADDNSC_NO_SIGPIPE) dest).

(* @fn src/src/network/socket.cpp | ssize_t Socket::recv(std::span<std::byte> buf, int flags) | Socket::recv *)
Definition recv (s : Socket) (size : nat) (flags : Z) : io (option bytes) :=
  eintr is_none (sys_recv (fd_ s) size flags).

(* @fn src/src/network/socket.cpp | ssize_t recv_from_impl( | recv_from_impl *)
Definition recv_from (s : Socket) (size : nat) (flags : Z) : io (option (bytes * SocketAddr)) :=
  eintr is_none (sys_recvfrom (fd_ s) size flags).

(** What [recv_exact] returns and what it has written to the buffer. *)
(* @fn src/src/network/socket.cpp | const int effective_flags = ==> while (total < buf.size()) { | Socket::recv_exact (stream) *)
Fixpoint recv_stream (fuel : nat) (s : Socket) (size : nat) (flags : Z) (have : bytes) : io (Z * bytes) :=
  if (length have <? size)%nat then
    match fuel with
    | O => lift OutOfFuel
    | S fuel =>
        n ← recv s (size - length have) flags;
        match n with
        | None => mret (-1, have)
        | Some [] => mret (Z.of_nat (length have), have)
        | Some b => recv_stream fuel s size flags (have ++ b)
        end
    end
  else mret (Z.of_nat size, have).

(* @fn src/src/network/socket.cpp | ssize_t Socket::recv_exact(std::span<std::byte> buf, int flags) | Socket::recv_exact *)
Definition recv_exact (s : Socket) (size : nat) (flags : Z) : io (Z * bytes) :=
  if negb (is_stream s) then
    n ← recv s size flags;
    mret (match n with None => (-1, []) | Some b => (Z.of_nat (length b), b) end)
  else recv_stream size s size (Z.lor flags MSG_WAITALL) [].

(** * Control *)

(* @fn src/src/network/socket.cpp | void Socket::shutdown(int how) noexcept { | Socket::shutdown *)
Definition shutdown (s : Socket) (how : Z) : io unit :=
  if fd_ s <? 0 then mret tt else
  _ ← syscall (sys_shutdown (fd_ s) how);
  mret tt.

(** Takes one notification out of the pipe. *)
(* @fn src/src/util/cancellation_token.hpp | void drain() const noexcept { | CancellationToken::drain *)
Definition drain (t : CancellationToken) : io unit :=
  if 0 <=? token_fd t then _ ← syscall (sys_read (token_fd t) 8); mret tt else mret tt.

(* @fn src/src/network/socket.cpp | std::expected<int, int> Socket::wait_for(short events, int timeout_ms, | Socket::wait_for *)
Definition wait_for (s : Socket) (events timeout_ms : Z) (cancel_token : CancellationToken) : io (Z + Z) :=
  let pfds := (fd_ s, events) :: (if token_linked cancel_token then [(token_fd cancel_token, POLLIN)] else []) in
  polled ← eintr first_negative (sys_poll pfds timeout_ms);
  let '(rc, revents) := polled in
  if rc <? 0 then unexpected_errno else
  if token_linked cancel_token && negb (Z.land (nth 1 revents 0) POLLIN =? 0) then
    _ ← drain cancel_token;
    mret (inl ECANCELED)
  else mret (inr (if Z.land (nth 0 revents 0) events =? 0 then 0 else 1)).

(* @fn src/src/network/socket.h | bool is_closed() const noexcept override { | Socket::is_closed *)
Definition is_closed (s : Socket) : bool := fd_ s <? 0.

(* @fn src/src/network/socket.h | [[nodiscard]] int native_handle() const noexcept override { | Socket::native_handle *)
Definition native_handle (s : Socket) : Z := fd_ s.

(** ** Overloads without flags, and shorthands *)

(* @fn src/src/network/socket.cpp | ssize_t Socket::send(std::span<const std::byte> data) const { | Socket::send (no flags) *)
Definition send_plain (s : Socket) (data : bytes) : io Z :=
  send_loop data (is_stream s) (λ p, sys_send (fd_ s) p YADDNSC_NO_SIGPIPE).

(* @fn src/src/network/socket.cpp | ssize_t Socket::send_to(std::span<const std::byte> data, const SocketAddr &dest) const { | Socket::send_to (no flags) *)
Definition send_to_plain (s : Socket) (data : bytes) (dest : SocketAddr) : io Z :=
  send_loop data (is_stream s) (λ p, sys_sendto (fd_ s) p YADDNSC_NO_SIGPIPE dest).

(* @fn src/src/network/socket.cpp | ssize_t Socket::recv(std::span<std::byte> buf) const { | Socket::recv (no flags) *)
Definition recv_plain (s : Socket) (size : nat) : io (option bytes) :=
  eintr is_none (sys_recv (fd_ s) size 0).

(* @fn src/src/network/socket.cpp | ssize_t Socket::recv_from(std::span<std::byte> buf, SocketAddr *src) const { | Socket::recv_from (no flags) *)
Definition recv_from_plain (s : Socket) (size : nat) : io (option (bytes * SocketAddr)) := recv_from s size 0.

(* @fn src/src/network/socket.cpp | ssize_t Socket::recv_exact(std::span<std::byte> buf) const { | Socket::recv_exact (no flags) *)
Definition recv_exact_plain (s : Socket) (size : nat) : io (Z * bytes) := recv_exact s size 0.

(* @fn src/src/network/socket.cpp | std::expected<int, int> Socket::wait_for(short events, int timeout_ms) const noexcept { | Socket::wait_for (no token) *)
Definition wait_for_plain (s : Socket) (events timeout_ms : Z) : io (Z + Z) :=
  wait_for s events timeout_ms {| token_fd := -1 |}.

(* @fn src/src/network/socket.h | void shutdown_read() noexcept { | Socket::shutdown_read *)
Definition shutdown_read (s : Socket) : io unit := shutdown s SHUT_RD.
(* @fn src/src/network/socket.h | void shutdown_write() noexcept { | Socket::shutdown_write *)
Definition shutdown_write (s : Socket) : io unit := shutdown s SHUT_WR.
(* @fn src/src/network/socket.h | void shutdown_both() noexcept { | Socket::shutdown_both *)
Definition shutdown_both (s : Socket) : io unit := shutdown s SHUT_RDWR.

(** ** Messages *)

(* @fn src/src/network/socket.cpp | ssize_t Socket::sendmsg( | Socket::sendmsg *)
Definition sendmsg `{!PosixMsg K} (s : Socket) (msg : msghdr) (flags : Z) : io Z :=
  eintr negative (sys_sendmsg (fd_ s) msg (Z.lor flags YADDNSC_NO_SIGPIPE)).

(* @fn src/src/network/socket.cpp | ssize_t Socket::recvmsg( | Socket::recvmsg *)
Definition recvmsg `{!PosixMsg K} (s : Socket) (sizes : list nat) (flags : Z) : io (option msghdr) :=
  eintr is_none (sys_recvmsg (fd_ s) sizes flags).
End sockets.
End Sock.
Import Sock.

(** * Proofs *)

Section socket_proofs.
Context {K : Type} `{PosixOk K}.

Abbreviation io := (st K bytes).

(** [m] returns, and its end is related to its start by [R]. *)
Definition moves {A} (R : K → K → Prop) (m : io A) : Prop :=
  ∀ k, swp m (λ _ k', R k k') (λ _ _, False) k.

(** The same descriptors are open. *)
Definition same_fds (k k' : K) : Prop := open_fds k' = open_fds k.

#[local] Instance same_fds_preorder : PreOrder same_fds.
Proof. split; [done|]. intros a b c Hab Hbc. unfold same_fds in *. congruence. Qed.

Lemma frame_same_fds k k' : frame k k' → same_fds k k'.
Proof using All. by intros [Ho _]. Qed.

Section rules.
Context (R : K → K → Prop) `{!PreOrder R}.

Lemma moves_ret {A} (a : A) : moves R (mret a).
Proof using All. intros k. by apply swp_ret. Qed.

Lemma moves_gets {A} (f : K → A) : moves R (gets f).
Proof using All. intros k. by apply swp_gets. Qed.

Lemma moves_bind {A B} (m : io A) (f : A → io B) :
  moves R m → (∀ a, moves R (f a)) → moves R (m ≫= f).
Proof using All.
  intros Hm Hf k. eapply swp_call; [apply Hm| |done]. intros a k1 H1. simpl in H1.
  eapply swp_mono; [apply Hf| |done]. intros b k2 H2. by transitivity k1.
Qed.

Lemma moves_syscall {A} (f : K → A * K) : (∀ k, R k (f k).2) → moves R (syscall f).
Proof using All. intros Hf k. by apply swp_call_sys. Qed.

Lemma moves_eintr {A} (failed : A → bool) (f : K → A * K) :
  interruptible failed f → (∀ k, R k (f k).2) → moves R (eintr failed f).
Proof using All.
  intros Hi Hf k. apply (swp_eintr _ _ (R k)); [done|done|..].
  - intros k1 H1 _ _. by transitivity k1.
  - intros k1 H1 _. by transitivity k1.
Qed.
End rules.

Lemma moves_errno {A} : moves same_fds (unexpected_errno (A:=A)).
Proof using All. apply (moves_bind same_fds); [apply moves_gets, _|]. intros e. apply moves_ret, _. Qed.

Lemma fcntl_same fd c v k : flag_command c = true → same_fds k (sys_fcntl fd c v k).2.
Proof using All. apply fcntl_fds. Qed.

(** The rules for the operations that open no descriptor and close none. *)
Ltac moves_step :=
  first
  [ apply (moves_ret same_fds) | apply (moves_gets same_fds) | apply moves_errno
  | apply (moves_syscall same_fds); intros ?;
      first [by apply fcntl_same | apply frame_same_fds; first
        [apply setsockopt_frame|apply getsockopt_frame|apply bind_frame|apply read_frame|apply shutdown_frame]]
  | apply (moves_eintr same_fds);
      [ first [apply connect_interrupted|apply send_interrupted|apply sendto_interrupted
              |apply recv_interrupted|apply recvfrom_interrupted|apply poll_interrupted]
      | intros ?; apply frame_same_fds; first
        [apply connect_frame|apply send_frame|apply sendto_frame|apply recv_frame|apply recvfrom_frame|apply poll_frame] ]
  | apply (moves_bind same_fds); [|intros ?]
  | match goal with |- moves same_fds (if ?b then _ else _) => destruct b end
  | match goal with |- moves same_fds (match ?b with _ => _ end) => destruct b end ].
Ltac moves_tac := repeat moves_step.

Lemma set_option_moves s l o v : moves same_fds (set_option s l o v).
Proof using All. unfold set_option, set_option_raw. moves_tac. Qed.

Lemma set_option_raw_moves s l o v : moves same_fds (set_option_raw s l o v).
Proof using All. unfold set_option_raw. moves_tac. Qed.

Lemma bind_moves s a : moves same_fds (bind s a).
Proof using All. unfold bind. moves_tac. Qed.

Lemma recv_moves s n fl : moves same_fds (recv s n fl).
Proof using All. unfold recv. moves_tac. Qed.

Lemma recv_from_moves s n fl : moves same_fds (recv_from s n fl).
Proof using All. unfold recv_from. moves_tac. Qed.

Lemma recv_bounded s n fl k :
  swp (recv s n fl) (λ r _, ∀ b, r = Some b → (length b ≤ n)%nat ∧ Forall is_byte b) (λ _ _, False) k.
Proof using All.
  apply (swp_eintr _ _ (λ _, True)); [apply recv_interrupted|done|done|]. intros k1 _ _ b. apply recv_fits.
Qed.

Lemma recv_from_bounded s n fl k :
  swp (recv_from s n fl) (λ r _, ∀ b, fst <$> r = Some b → (length b ≤ n)%nat ∧ Forall is_byte b)
    (λ _ _, False) k.
Proof using All.
  apply (swp_eintr _ _ (λ _, True)); [apply recvfrom_interrupted|done|done|]. intros k1 _ _ b.
  destruct (sys_recvfrom (fd_ s) n fl k1).1 as [[b' a]|] eqn:Hr; [|done]. intros [= <-].
  by apply recvfrom_fits in Hr.
Qed.

(** What is received, and the state it leaves, are the last call's. *)
Lemma recv_from_last s n fl k :
  swp (recv_from s n fl) (λ r k', ∃ k1, sys_recvfrom (fd_ s) n fl k1 = (r, k')) (λ _ _, False) k.
Proof using All.
  apply (swp_eintr _ _ (λ _, True)); [apply recvfrom_interrupted|done|done|]. intros k1 _ _.
  exists k1. apply surjective_pairing.
Qed.

(** An overload without flags or token is the other one with none. *)
Lemma overloads_agree s data dest size ev t :
  send_plain s data = send s data 0 ∧ send_to_plain s data dest = send_to s data dest 0
  ∧ recv_plain s size = recv s size 0
  ∧ ∀ k, wait_for_plain s ev t k
    = (polled ← eintr first_negative (sys_poll [(fd_ s, ev)] t);
       if polled.1 <? 0 then unexpected_errno
       else mret (inr (if Z.land (nth 0 polled.2 0) ev =? 0 then 0 else 1))) k.
Proof using All.
  repeat split. intros k. unfold wait_for_plain, wait_for, mbind, st_bind. cbn [token_linked token_fd].
  change (token_linked {| token_fd := -1 |}) with false. cbn [andb].
  by destruct (eintr _ _ k) as [[[rc rev]|e| |] k'].
Qed.

Lemma messages_move `{!PosixMsg K} `{!PosixMsgOk K} s msg sizes fl :
  moves same_fds (sendmsg s msg fl) ∧ moves same_fds (recvmsg s sizes fl).
Proof using All.
  split; apply (moves_eintr same_fds);
    first [apply sendmsg_interrupted|apply recvmsg_interrupted|intros k; apply frame_same_fds];
    first [apply sendmsg_frame|apply recvmsg_frame].
Qed.

Lemma wait_for_moves s ev t c : moves same_fds (wait_for s ev t c).
Proof using All. unfold wait_for, drain. moves_tac. Qed.

Lemma restore_moves g : moves same_fds (restore g).
Proof using All. unfold restore. moves_tac. Qed.

(** ** Sending

    [P total k]: the state of the transfer when [total] octets are gone. *)
Section sending.
Context (fn : bytes → K → Z * K) (buf : bytes) (P : nat → K → Prop).
Context (fn_interrupted : ∀ b, interruptible negative (fn b)).
Context (fn_progress : ∀ b k, b ≠ [] → (fn b k).1 ≠ 0).
Context (fn_step : ∀ total k, P total k →
  if 0 <=? (fn (drop total buf) k).1
  then P (total + Z.to_nat (fn (drop total buf) k).1)%nat (fn (drop total buf) k).2
  else P total (fn (drop total buf) k).2).

Lemma fn_keeps total k : P total k → negative (fn (drop total buf) k).1 = true →
  P total (fn (drop total buf) k).2.
Proof using fn_step.
  intros Hk Hn. apply fn_step in Hk. unfold negative in Hn. prop_of_bool.
  by rewrite (proj2 (Z.leb_gt 0 _)) in Hk by lia.
Qed.

(** Every turn that does not fail sends something. *)
Lemma send_stream_spec fuel total k :
  (length buf - total ≤ fuel)%nat → P total k →
  swp (send_stream fuel fn buf total)
    (λ r k', r = Z.of_nat (length buf) ∧ (∃ t, (length buf ≤ t)%nat ∧ P t k')
             ∨ r = -1 ∧ (∃ t, (t < length buf)%nat ∧ P t k')) (λ _ _, False) k.
Proof using fn_interrupted fn_progress fn_step.
  revert total k. induction fuel as [|fuel IH]; intros total k Hfuel Hk; cbn [send_stream];
    destruct (total <? length buf)%nat eqn:Hlt; prop_of_bool; try lia;
    try (apply swp_ret; left; eauto).
  eapply swp_call; [apply (swp_eintr _ _ (P total) (λ r k', r ≠ 0 ∧
    if 0 <=? r then P (total + Z.to_nat r)%nat k' else P total k') (λ _ _, False)); [done|exact Hk|..]| |done].
  - intros k1 H1 Hn _. by apply fn_keeps.
  - intros k1 H1 _. split; [|by apply fn_step]. apply fn_progress.
    intros Hd. apply (f_equal length) in Hd. rewrite length_drop in Hd. simpl in Hd. lia.
  - intros r k1 [Hr H1]. destruct (r <? 0) eqn:Hneg; prop_of_bool.
    + apply swp_ret. right. rewrite (proj2 (Z.leb_gt 0 r)) in H1 by lia. eauto.
    + rewrite (proj2 (Z.leb_le 0 r)) in H1 by lia. apply IH; [lia|done].
Qed.

Lemma send_loop_spec k :
  P 0%nat k →
  swp (send_loop buf true fn)
    (λ r k', r = Z.of_nat (length buf) ∧ (∃ t, (length buf ≤ t)%nat ∧ P t k')
             ∨ r = -1 ∧ (∃ t, (t < length buf)%nat ∧ P t k')) (λ _ _, False) k.
Proof using fn_interrupted fn_progress fn_step. apply send_stream_spec. lia. Qed.
End sending.

Lemma send_loop_moves R `{!PreOrder R} data stream (fn : bytes → K → Z * K) :
  (∀ b, interruptible negative (fn b)) → (∀ b k, b ≠ [] → (fn b k).1 ≠ 0) →
  (∀ b k, R k (fn b k).2) → moves R (send_loop data stream fn).
Proof using All.
  intros Hi Hp Hf k. destruct stream.
  - eapply swp_mono; [apply (send_loop_spec fn data (λ _, R k)); [done|done| |done]| |done].
    + intros total k1 H1. pose proof (Hf (drop total data) k1) as H2. destruct (0 <=? _); by transitivity k1.
    + by intros r k' [[_ (? & _ & H')]|[_ (? & _ & H')]].
  - by apply (moves_eintr R).
Qed.

Lemma send_moves s data fl : moves same_fds (send s data fl).
Proof using All.
  apply (send_loop_moves same_fds); intros; [apply send_interrupted|by apply send_progress|apply frame_same_fds, send_frame].
Qed.

Lemma send_to_moves s data dest fl : moves same_fds (send_to s data dest fl).
Proof using All.
  apply (send_loop_moves same_fds); intros; [apply sendto_interrupted|by apply sendto_progress|apply frame_same_fds, sendto_frame].
Qed.

(** ** Streams *)

Section stream.
Context (s : Socket) (outgoing incoming : K → bytes) `{!StreamFd (fd_ s) outgoing incoming}.
Context (Hs : type_ s = Posix.SOCK_STREAM).

Lemma send_ok data fl k :
  plain_flags fl →
  swp (send s data fl)
    (λ r k', r = Z.of_nat (length data) ∧ outgoing k' = outgoing k ++ data
             ∨ r = -1 ∧ ∃ n, (n < length data)%nat ∧ outgoing k' = outgoing k ++ take n data)
    (λ _ _, False) k.
Proof using All.
  intros Hfl. unfold send, is_stream. rewrite Hs, Z.eqb_refl.
  eapply swp_mono; [apply (send_loop_spec _ data (λ t k', outgoing k' = outgoing k ++ take t data)); intros| |done].
  - apply send_interrupted.
  - by apply send_progress.
  - destruct (sys_send _ _ _ k0) as [r k1] eqn:Hr. apply send_appends in Hr as [_ Hr]; [|by apply plain_flags_lor]. simpl.
    destruct (0 <=? r); [|congruence]. destruct Hr as [_ Hr].
    rewrite Hr, H1, <- app_assoc. f_equal. by rewrite take_take_drop.
  - by rewrite take_0, app_nil_r.
  - simpl. intros r k' [[-> (t & Ht & Hk)]|[-> (t & Ht & Hk)]]; [left|right; eauto].
    by rewrite take_ge in Hk by done.
Qed.

Lemma recv_ok n fl k :
  plain_flags fl →
  swp (recv s n fl)
    (λ r k', outgoing k' = outgoing k ∧ incoming k = default [] r ++ incoming k'
      ∧ (∀ b, r = Some b → (length b ≤ n)%nat ∧ Forall is_byte b)
      ∧ (n ≠ 0%nat → r = Some [] → incoming k' = []))
    (λ _ _, False) k.
Proof using All.
  intros Hfl. apply (swp_eintr _ _ (λ k', outgoing k' = outgoing k ∧ incoming k' = incoming k)); [apply recv_interrupted|done|..];
    intros k1 [Ho Hi]; pose proof (recv_takes n fl k1) as Ht; pose proof (recv_end n fl k1 Hfl) as He;
    pose proof (recv_fits (fd_ s) n fl k1) as Hb;
    destruct (sys_recv (fd_ s) n fl k1) as [r k2]; specialize (Ht r k2 Hfl eq_refl) as [Ho2 Hi2]; simpl in *.
  - intros Hn _. destruct r; [done|]. simpl in Hi2. split; congruence.
  - intros _. split; [congruence|]. split; [congruence|]. split; [by intros b ->; apply Hb|].
    intros Hn ->. simpl in *. specialize (He Hn eq_refl). congruence.
Qed.

(** The octets received are the next ones of the stream, as many as asked for
    unless the stream has ended or the call has failed. *)
Lemma recv_stream_ok fuel size fl have k :
  plain_flags fl → (length have ≤ size)%nat → (size - length have ≤ fuel)%nat → Forall is_byte have →
  swp (recv_stream fuel s size fl have)
    (λ r k', outgoing k' = outgoing k ∧ have ++ incoming k = r.2 ++ incoming k' ∧ Forall is_byte r.2
      ∧ (r.1 = Z.of_nat size ∧ length r.2 = size
         ∨ r.1 = Z.of_nat (length r.2) ∧ (length r.2 < size)%nat ∧ incoming k' = []
         ∨ r.1 = -1 ∧ (length r.2 < size)%nat))
    (λ _ _, False) k.
Proof using All.
  intros Hfl. revert have k. induction fuel as [|fuel IH]; intros have k Hsize Hfuel Hb; cbn [recv_stream];
    destruct (length have <? size)%nat eqn:Hlt; prop_of_bool; try lia;
    try (apply swp_ret; simpl; split; [done|]; split; [done|]; split; [done|]; left; lia).
  eapply swp_call; [by apply recv_ok| |done]. intros r k1 (Ho & Hi & Hfit & Hend).
  destruct r as [[|x b]|]; simpl in Hi.
  - apply swp_ret. simpl. rewrite Hi. repeat split; [done..|]. right; left. repeat split; [lia|].
    apply Hend; [lia|done].
  - destruct (Hfit _ eq_refl) as [Hl Hbb]. simpl in Hl. eapply swp_mono; [apply IH| |done].
    + rewrite length_app. simpl. lia.
    + rewrite length_app. simpl. lia.
    + by apply Forall_app_2.
    + intros r k2 (Ho2 & Hi2 & Hrest). rewrite Hi. split; [congruence|]. split; [|done].
      rewrite <- Hi2, <- app_assoc. done.
  - apply swp_ret. simpl. rewrite Hi. repeat split; [done..|]. right; right. done.
Qed.

Lemma recv_exact_ok size fl k :
  plain_flags fl →
  swp (recv_exact s size fl)
    (λ r k', outgoing k' = outgoing k ∧ incoming k = r.2 ++ incoming k' ∧ Forall is_byte r.2
      ∧ (r.1 = Z.of_nat size ∧ length r.2 = size
         ∨ r.1 = Z.of_nat (length r.2) ∧ (length r.2 < size)%nat ∧ incoming k' = []
         ∨ r.1 = -1 ∧ (length r.2 < size)%nat))
    (λ _ _, False) k.
Proof using All.
  intros Hfl. unfold recv_exact, is_stream. rewrite Hs, Z.eqb_refl.
  apply (recv_stream_ok size size _ []); [by apply plain_flags_lor|simpl; lia..|done].
Qed.
End stream.

(** ** Connecting

    The status flags of the socket are [v], those of the others are as in [k0]. *)
Section connecting.
Context (s : Socket) (k0 : K).

Definition flagged (v : Z) (k : K) : Prop :=
  open_fds k = open_fds k0
  ∧ ∀ fd, status_flags k fd = if bool_decide (fd = fd_ s) then v else status_flags k0 fd.

Lemma flagged_frame v k k' : frame k k' → flagged v k → flagged v k'.
Proof using All. intros (Ho & Hf & _) [H1 H2]. split; [congruence|]. intros fd. by rewrite Hf. Qed.

Lemma flagged_0 : flagged (status_flags k0 (fd_ s)) k0.
Proof using All. split; [done|]. intros fd. by case_bool_decide; subst. Qed.

Lemma flagged_setfl v w r k k' :
  flagged v k → sys_fcntl (fd_ s) F_SETFL w k = (r, k') → flagged (if 0 <=? r then w else v) k'.
Proof using All.
  intros [Ho Hf] Hc. split.
  - rewrite <- Ho. change k' with (r, k').2. rewrite <- Hc. by apply fcntl_fds.
  - intros fd. rewrite (fcntl_setfl _ _ _ _ _ fd Hc), Hf. case_bool_decide; by destruct (0 <=? r).
Qed.

(** Waiting and asking under a condition that is stable. *)
Lemma stable_eintr {A} (failed : A → bool) (f : K → A * K) v k :
  interruptible failed f → (∀ k, frame k (f k).2) → flagged v k →
  swp (E:=bytes) (eintr failed f) (λ _ k', flagged v k') (λ _ _, False) k.
Proof using All.
  intros Hi Hf Hk. apply (swp_eintr _ _ (flagged v)); [done|done|..];
    intros; by eapply flagged_frame; [apply Hf|].
Qed.

Context (orig := status_flags k0 (fd_ s)).
Context (Hrestore : ∀ k, (sys_fcntl (fd_ s) F_SETFL orig k).1 = 0).

(** A guard that is armed in a state with other flags, or spent in one with the
    original flags. *)
Definition guarded (v : Z) (g : FcntlGuard) (k : K) : Prop :=
  (g = {| guard_fd := fd_ s; saved_flags := orig |} ∧ 0 <= fd_ s ∧ flagged v k)
  ∨ (guard_fd g < 0 ∧ flagged orig k).

Lemma restore_ok v g k :
  guarded v g k →
  swp (restore g) (λ r k', r.1 = true ∧ guarded v r.2 k' ∧ flagged orig k') (λ _ _, False) k.
Proof using All.
  unfold restore. intros [(-> & Hfd & Hk)|[Hg Hk]]; simpl.
  - rewrite (proj2 (Z.ltb_ge (fd_ s) 0)) by lia. apply swp_bind, swp_call_sys, swp_ret.
    pose proof (Hrestore k) as Hr. destruct (sys_fcntl _ _ _ _) as [r k'] eqn:Hc. simpl in *. subst r.
    pose proof (flagged_setfl _ _ _ _ _ Hk Hc) as Hk'. simpl in Hk'.
    split; [done|]. split; [right; split; [simpl; lia|done]|done].
  - rewrite (proj2 (Z.ltb_lt (guard_fd g) 0)) by done. apply swp_ret. split; [done|]. split; [by right|done].
Qed.

Lemma with_guard_ok {A} v (body : io (A * FcntlGuard)) k :
  swp body (λ r, guarded v r.2) (λ _ _, False) k →
  swp (with_guard body) (λ _, flagged orig) (λ _ _, False) k.
Proof using All.
  intros Hb. eapply swp_call; [exact Hb| |done]. intros [a g] k1 H1.
  eapply swp_call; [by apply (restore_ok v)| |done]. intros r k2 (_ & _ & H2). by apply swp_ret.
Qed.

(** Every way out of the attempt leaves the guard in order. *)
Lemma connect_status_ok v g k :
  guard_fd g = fd_ s → 0 <= fd_ s → guarded v g k →
  swp (connect_status s g) (λ r, guarded v r.2) (λ _ _, False) k.
Proof using All.
  intros Hg Hfd Hk. unfold connect_status. apply swp_bind, swp_call_sys.
  assert (guarded v g (sys_getsockopt (fd_ s) SOL_SOCKET SO_ERROR k).2) as H1.
  { pose proof (getsockopt_frame (fd_ s) SOL_SOCKET SO_ERROR k) as Hfr.
    destruct Hk as [(? & ? & ?)|[? ?]]; [left|right]; eauto using flagged_frame. }
  destruct (_ <? 0); [by apply swp_ret|]. destruct (negb _); [by apply swp_ret|].
  eapply swp_call; [by apply (restore_ok v)| |done]. intros [b g'] k2 (Hb & H2 & _).
  simpl in *. subst b. by apply swp_ret.
Qed.

Lemma connect_attempt_ok v addr t k :
  t * 1000 <= INT_MAX → 0 <= fd_ s → flagged v k →
  swp (connect_attempt s addr t {| guard_fd := fd_ s; saved_flags := orig |})
    (λ r, guarded v r.2) (λ _ _, False) k.
Proof using All.
  intros Ht Hfd Hk. unfold connect_attempt.
  eapply swp_call; [apply stable_eintr; [apply connect_interrupted|intros; apply connect_frame|exact Hk]| |done].
  intros rc k1 H1. assert (guarded v {| guard_fd := fd_ s; saved_flags := orig |} k1) as Hg by (left; done).
  destruct (rc =? 0).
  { eapply swp_call; [by apply (restore_ok v)| |done]. intros [b g'] k2 (Hb & H2 & _).
    simpl in *. subst b. by apply swp_ret. }
  apply swp_bind, swp_gets. destruct (negb _); [by apply swp_ret|].
  rewrite (proj2 (Z.ltb_ge INT_MAX (t * 1000))) by lia.
  eapply swp_call; [apply stable_eintr; [apply poll_interrupted|intros; apply poll_frame|exact H1]| |done].
  intros [rc2 re] k2 H2. simpl.
  assert (guarded v {| guard_fd := fd_ s; saved_flags := orig |} k2) as Hg2 by (left; done).
  destruct (rc2 =? 0); [by apply swp_ret|]. destruct (rc2 <? 0); [by apply swp_ret|].
  by apply connect_status_ok.
Qed.

Lemma connect_flagged addr t :
  t * 1000 <= INT_MAX → 0 <= fd_ s →
  swp (connect s addr t) (λ _, flagged orig) (λ _ _, False) k0.
Proof using All.
  intros Ht Hfd. unfold connect. destruct (t <? 0).
  - eapply swp_call; [apply stable_eintr; [apply connect_interrupted|intros; apply connect_frame|apply flagged_0]| |done].
    intros rc k1 H1. destruct (rc <? 0); [apply swp_bind, swp_gets|]; by apply swp_ret.
  - apply swp_bind, swp_call_sys.
    destruct (sys_fcntl (fd_ s) F_GETFL 0 k0) as [fl k1] eqn:Hget. simpl.
    assert (flagged orig k1) as H1.
    { split; [change k1 with (fl, k1).2; rewrite <- Hget; by apply fcntl_fds|]. intros fd.
      change k1 with (fl, k1).2. rewrite <- Hget, fcntl_keeps by done. unfold orig. by case_bool_decide; subst. }
    destruct (fl <? 0) eqn:Hneg; prop_of_bool; [by apply swp_ret|].
    apply fcntl_getfl in Hget; [|done]. subst fl.
    apply swp_bind, swp_call_sys.
    destruct (sys_fcntl (fd_ s) F_SETFL _ k1) as [rc k2] eqn:Hset. simpl.
    apply (flagged_setfl _ _ _ _ _ H1) in Hset.
    destruct (rc <? 0) eqn:Hrc; prop_of_bool; [apply swp_ret; by rewrite (proj2 (Z.leb_gt 0 rc)) in Hset by done|].
    rewrite (proj2 (Z.leb_le 0 rc)) in Hset by done.
    eapply with_guard_ok, connect_attempt_ok; [done|done|exact Hset].
Qed.
End connecting.

Lemma connect_moves s addr t : t * 1000 <= INT_MAX → moves same_fds (connect s addr t).
Proof using All.
  intros Ht. unfold connect, connect_attempt, connect_status. rewrite (proj2 (Z.ltb_ge INT_MAX (t * 1000))) by lia.
  destruct (t <? 0); moves_tac; apply restore_moves.
Qed.

(** ** Descriptors *)

Lemma socket_create_ok error_message domain type protocol k :
  swp (create error_message domain type protocol)
    (λ s k', 0 <= fd_ s ∧ type_ s = type ∧ fd_ s ∉ open_fds k ∧ open_fds k' = {[fd_ s]} ∪ open_fds k)
    (λ _ k', open_fds k' = open_fds k) k.
Proof using All.
  unfold create. apply swp_bind, swp_call_sys.
  destruct (sys_socket domain type protocol k) as [fd k1] eqn:Hs. apply socket_opens in Hs as [_ Hs]. simpl.
  destruct (fd <? 0) eqn:Hneg; prop_of_bool.
  - rewrite (proj2 (Z.leb_gt 0 fd)) in Hs by done. apply swp_bind, swp_gets. by apply swp_throw.
  - rewrite (proj2 (Z.leb_le 0 fd)) in Hs by done. destruct Hs as [Hn Ho].
    assert (moves same_fds (fd_flags ← syscall (sys_fcntl fd F_GETFD 0);
      if 0 <=? fd_flags then syscall (sys_fcntl fd F_SETFD (Z.lor fd_flags FD_CLOEXEC)) else mret 0 : io Z)) as Hm
      by moves_tac.
    apply swp_bind, swp_call_sys. eapply swp_call with (P := λ _ k', open_fds k' = open_fds k1) (R := λ _ _, False);
      [|intros r k2 Hk2|done].
    + pose proof (fcntl_same fd F_GETFD 0 k1 eq_refl) as H1.
      destruct (0 <=? _); [apply swp_call_sys|apply swp_ret; exact H1].
      etransitivity; [by apply fcntl_same|exact H1].
    + apply swp_ret. simpl. repeat split; [done..|]. congruence.
Qed.

Lemma close_ok s k :
  0 <= fd_ s → swp (close s) (λ s' k', fd_ s' < 0 ∧ open_fds k' = open_fds k ∖ {[fd_ s]}) (λ _ _, False) k.
Proof using All.
  intros Hs. unfold close. rewrite (proj2 (Z.ltb_ge (fd_ s) 0)) by done.
  apply swp_bind, swp_call_sys, swp_ret. split; [simpl; lia|]. apply close_closes_fd.
Qed.

(** The wait retries until a poll is not interrupted; what that poll reports
    decides, cancellation first. *)
Lemma wait_for_ok s events t token k :
  swp (wait_for s events t token)
    (λ r k', ∃ k1 rc revents k2,
      sys_poll ((fd_ s, events) :: (if token_linked token then [(token_fd token, POLLIN)] else [])) t k1
        = ((rc, revents), k2)
      ∧ (if rc <? 0 then r = inl (errno k2) ∧ errno k2 ≠ EINTR
         else if token_linked token && negb (Z.land (nth 1 revents 0) POLLIN =? 0)
         then r = inl ECANCELED ∧ k' = (sys_read (token_fd token) 8 k2).2
         else r = inr (if Z.land (nth 0 revents 0) events =? 0 then 0 else 1) ∧ k' = k2))
    (λ _ _, False) k.
Proof using All.
  unfold wait_for. cbv zeta.
  eapply swp_call; [apply (swp_eintr _ _ (λ _, True) (λ a k2, ∃ k1, sys_poll
      ((fd_ s, events) :: (if token_linked token then [(token_fd token, POLLIN)] else [])) t k1 = (a, k2)
      ∧ (first_negative a = true → errno k2 ≠ EINTR)) (λ _ _, False)); [apply poll_interrupted|done|done|]| |done].
  - intros k1 _ Hn. exists k1. split; [apply surjective_pairing|exact Hn].
  - intros [rc revents] k2 (k1 & Hp & Hn). unfold first_negative in Hn. simpl in Hn.
    destruct (rc <? 0) eqn:Hrc.
    { apply swp_bind, swp_gets, swp_ret. exists k1, rc, revents, k2. rewrite Hrc. auto. }
    destruct (token_linked token) eqn:Hl; simpl.
    2:{ apply swp_ret. exists k1, rc, revents, k2. rewrite Hrc. auto. }
    destruct (negb _) eqn:Hc; [|apply swp_ret; exists k1, rc, revents, k2; rewrite Hrc, Hc; auto].
    unfold drain. unfold token_linked in Hl. rewrite Hl. apply swp_bind, swp_bind, swp_call_sys, swp_ret, swp_ret.
    exists k1, rc, revents, k2. rewrite Hrc, Hc. auto.
Qed.
End socket_proofs.

(** * The interface over the system calls

    The sockets in scope are a stack: a constructor pushes, and the destructor
    that runs at the end of a scope pops.  In a world of descriptors [base] that
    belong to others, the open descriptors are those and the stack's. *)
Record machine (K R : Type) := { kernel : K; scopes : list Socket; rest : R }.
Arguments kernel {K R} _.
Arguments scopes {K R} _.
Arguments rest {K R} _.

Definition accounted {K R} `{Posix K} (base : gset Z) (m : machine K R) : Prop :=
  open_fds (kernel m) = base ∪ list_to_set (fd_ <$> scopes m)
  ∧ NoDup (fd_ <$> scopes m)
  ∧ Forall (λ s, 0 <= fd_ s ∧ fd_ s ∉ base) (scopes m).

Record world (K R : Type) `{Posix K} (base : gset Z) := {
  contents : machine K R;
  contents_accounted : accounted base contents
}.
Arguments contents {K R _ base} _.
Arguments contents_accounted {K R _ base} _.
Arguments Build_world {K R _ base} _ _.

Section interface.
Context {K R : Type} `{PosixOk K}.
Context (base : gset Z).

Abbreviation io := (st K bytes).

(** The value of a computation that returns. *)
Definition result {A} (m : io A) (k : K) : swp m (λ _ _, True) (λ _ _, False) k → A :=
  match (m k).1 as o return wp o (λ _, True) (λ _, False) → A with
  | Ret a => λ _, a
  | Throw _ | Undef | OutOfFuel => λ f, match f with end
  end.

Lemma result_spec {A} (m : io A) k Hm (Q : A → K → Prop) (T : bytes → K → Prop) :
  swp m Q T k → Q (result m k Hm) (m k).2.
Proof using All.
  unfold result, swp in *. by destruct (m k) as [[a|e| |] k'].
Qed.

(** The innermost socket; without one, a closed one. *)
Definition top (w : world K R base) : Socket :=
  match scopes (contents w) with s :: _ => s | [] => {| fd_ := -1; type_ := -1 |} end.

Lemma accounted_same (m : machine K R) k :
  same_fds (kernel m) k → accounted base m → accounted base {| kernel := k; scopes := scopes m; rest := rest m |}.
Proof using All. intros Hk (Ho & Hrest). split; [|done]. simpl. by rewrite Hk. Qed.

Lemma moves_total {A} (m : io A) k : moves same_fds m → swp m (λ _ _, True) (λ _ _, False) k.
Proof using All. intros Hm. by eapply swp_mono; [apply Hm| |]. Qed.

Lemma moves_fds {A} (m : io A) k : moves same_fds m → same_fds k (m k).2.
Proof using All. intros Hm. exact (result_spec m k (moves_total m k Hm) _ _ (Hm k)). Qed.

(** A member function of the innermost socket. *)
Definition member {A} (m : io A) (Hm : moves same_fds m) (w : world K R base) : A * world K R base :=
  let k := kernel (contents w) in
  (result m k (moves_total m k Hm),
   Build_world {| kernel := (m k).2; scopes := scopes (contents w); rest := rest (contents w) |}
     (accounted_same _ _ (moves_fds m k Hm) (contents_accounted w))).

Lemma accounted_push (m : machine K R) s k' :
  0 <= fd_ s → fd_ s ∉ open_fds (kernel m) → open_fds k' = {[fd_ s]} ∪ open_fds (kernel m) →
  accounted base m → accounted base {| kernel := k'; scopes := s :: scopes m; rest := rest m |}.
Proof using All.
  intros Hs Hn Ho (Hm & Hd & Hb). rewrite Hm in Hn, Ho. split; [|split]; simpl.
  - rewrite Ho. clear. set_solver.
  - apply NoDup_cons. split; [|done]. intros Hin. apply Hn, elem_of_union_r. by apply elem_of_list_to_set.
  - constructor; [split; [done|set_solver]|done].
Qed.

Lemma accounted_pop k s ss (r : R) k' :
  open_fds k' = open_fds k ∖ {[fd_ s]} →
  accounted base {| kernel := k; scopes := s :: ss; rest := r |} →
  accounted base {| kernel := k'; scopes := ss; rest := r |}.
Proof using All.
  intros Hk (Ho & Hd & Hb). simpl in *. apply NoDup_cons in Hd as [Hn Hd].
  inversion Hb as [|x l [H0' Hs] Hb']; subst. split; [|by split]. simpl. rewrite Hk, Ho.
  change (list_fmap _ _ fd_ ss) with (fd_ <$> ss) in *.
  clear - Hn Hs. revert Hn. generalize (fd_ <$> ss). set_solver.
Qed.

Context (error_message : Z → bytes) (token : CancellationToken).

(** [AF_INET] or [AF_INET6]. *)
Definition domain_of (f : AddressFamily) : Z :=
  match f with IPV4 => DOMAIN_INET | _ => DOMAIN_INET6 end.
Definition type_of (t : sock_type) : Z :=
  match t with SOCK_STREAM => Posix.SOCK_STREAM | SOCK_DGRAM => Posix.SOCK_DGRAM end.

Definition opened (m : machine K R) (s : Socket) (k' : K) : machine K R :=
  {| kernel := k'; scopes := s :: scopes m; rest := rest m |}.
Definition unopened (m : machine K R) (k' : K) : machine K R :=
  {| kernel := k'; scopes := scopes m; rest := rest m |}.

Lemma create_accounted domain type (m : machine K R) s k' :
  create error_message domain type 0 (kernel m) = (Ret s, k') → accounted base m → accounted base (opened m s k').
Proof using All.
  intros Hc. pose proof (socket_create_ok error_message domain type 0 (kernel m)) as Hs.
  unfold swp in Hs. rewrite Hc in Hs. destruct Hs as (? & _ & ? & ?). by apply accounted_push.
Qed.

Lemma create_throws_accounted domain type (m : machine K R) e k' :
  create error_message domain type 0 (kernel m) = (Throw e, k') → accounted base m → accounted base (unopened m k').
Proof using All.
  intros Hc. pose proof (socket_create_ok error_message domain type 0 (kernel m)) as Hs.
  unfold swp in Hs. rewrite Hc in Hs. by apply accounted_same.
Qed.

Lemma create_ends domain type k o k' :
  create error_message domain type 0 k = (o, k') → o = Undef ∨ o = OutOfFuel → False.
Proof using All.
  intros Hc Ho. pose proof (socket_create_ok error_message domain type 0 k) as Hs.
  unfold swp in Hs. rewrite Hc in Hs. by destruct Ho as [-> | ->].
Qed.

(** A constructor that has ended so. *)
Definition opening (f : AddressFamily) (t : sock_type) (w : world K R base) (o : outcome bytes Socket * K) :
    create error_message (domain_of f) (type_of t) 0 (kernel (contents w)) = o → (bytes + unit) * world K R base :=
  match o with
  | (Ret s, k') => λ Hc, (inr tt, Build_world _ (create_accounted _ _ _ _ _ Hc (contents_accounted w)))
  | (Throw e, k') => λ Hc, (inl e, Build_world _ (create_throws_accounted _ _ _ _ _ Hc (contents_accounted w)))
  | (Undef, k') => λ Hc, False_rect _ (create_ends _ _ _ _ _ Hc (or_introl eq_refl))
  | (OutOfFuel, k') => λ Hc, False_rect _ (create_ends _ _ _ _ _ Hc (or_intror eq_refl))
  end.

Definition open_top (f : AddressFamily) (t : sock_type) (w : world K R base) : (bytes + unit) * world K R base :=
  opening f t w _ eq_refl.

Lemma opening_scopes f t w o Hc :
  length (scopes (contents (opening f t w o Hc).2))
  = match (opening f t w o Hc).1 with inr _ => S (length (scopes (contents w))) | inl _ => length (scopes (contents w)) end.
Proof using All.
  destruct o as [[s|e| |] k']; [done|done|..]; by destruct (create_ends _ _ _ _ _ Hc); auto.
Qed.

Lemma close_top_accounted k s ss (r : R) :
  accounted base {| kernel := k; scopes := s :: ss; rest := r |} →
  accounted base {| kernel := (close s k).2; scopes := ss; rest := r |}.
Proof using All.
  intros Ha. pose proof Ha as (_ & _ & Hb). simpl in Hb. inversion Hb as [|x l [Hs _] _]; subst.
  eapply accounted_pop; [|exact Ha].
  pose proof (close_ok s k Hs) as Hc. unfold swp in Hc.
  destruct (close s k) as [[s'|e| |] k']; simpl in *; [by destruct Hc|done..].
Qed.

Definition close_top (w : world K R base) : world K R base :=
  match w with
  | Build_world {| kernel := k; scopes := s :: ss; rest := r |} Ha =>
      Build_world {| kernel := (close s k).2; scopes := ss; rest := r |} (close_top_accounted k s ss r Ha)
  | w => w
  end.

(** A timeout whose product with 1000 is no [int] is not passed by the program. *)
Definition connect_top (addr : SocketAddr) (t : Z) (w : world K R base) : (ConnectError + unit) * world K R base :=
  match decide (t * 1000 <= INT_MAX) with
  | left Ht => member (connect (top w) addr t) (connect_moves (top w) addr t Ht) w
  | right _ => (inl INTERNAL, w)
  end.

#[local] Instance socket_interface : SocketBase (world K R base) := {
  sock_open := open_top;
  sock_close := close_top;
  sock_connect := connect_top;
  sock_set_nodelay w := member (set_option (top w) IPPROTO_TCP TCP_NODELAY 1) (set_option_moves _ _ _ _) w;
  sock_send b w := member (send (top w) b 0) (send_moves _ _ _) w;
  sock_send_to b a w := member (send_to (top w) b a 0) (send_to_moves _ _ _ _) w;
  sock_recv n w := member (recv (top w) n 0) (recv_moves _ _ _) w;
  sock_recv_from n w :=
    let '(r, w') := member (recv_from (top w) n 0) (recv_from_moves _ _ _) w in (fst <$> r, w');
  sock_wait_for t w := member (wait_for (top w) POLLIN t token) (wait_for_moves _ _ _ _) w;
  sock_errno w := errno (kernel (contents w));
  open_sockets w := length (scopes (contents w))
}.

#[local] Instance socket_interface_ok : SocketOk (world K R base).
Proof using All.
  split; try done.
  - intros n w b w' Hr. injection Hr as Hr _.
    exact (result_spec _ _ _ _ _ (recv_bounded (top w) n 0 (kernel (contents w))) b Hr).
  - intros n w b w' Hr. injection Hr as Hr _.
    exact (result_spec _ _ _ _ _ (recv_from_bounded (top w) n 0 (kernel (contents w))) b Hr).
  - intros f t w e w' Ho. pose proof (opening_scopes f t w _ eq_refl) as Hs.
    change (opening f t w _ eq_refl) with (sock_open f t w) in Hs. by rewrite Ho in Hs.
  - intros f t w w' Ho. pose proof (opening_scopes f t w _ eq_refl) as Hs.
    change (opening f t w _ eq_refl) with (sock_open f t w) in Hs. by rewrite Ho in Hs.
  - intros [[k [|s ss] r] Ha]; simpl; lia.
  - intros a t w. simpl. unfold connect_top. by destruct (decide _).
Qed.
End interface.

(** * Properties *)

(** C22: A connected stream socket transfers octets in order and without loss,
    however often signals interrupt it and however short its writes are: [send]
    returns the length of its data, all of which has been appended to what was
    sent before, or -1 after a proper prefix of it; [recv_exact] fills its buffer
    with the next octets, and returns fewer only at the end of the stream or,
    as -1, when receiving has failed.  Both return.  The flags are none, as in
    every call of the program, or of those that change nothing of this
    ([MSG_DONTWAIT], [MSG_WAITALL], [MSG_NOSIGNAL]). *)
Theorem stream_octets {K} `{PosixOk K} (s : Socket) (outgoing incoming : K → bytes)
    `{!StreamFd (fd_ s) outgoing incoming} (data : bytes) (size : nat) (flags : Z) (k : K) :
  type_ s = Posix.SOCK_STREAM → plain_flags flags →
  (∃ r k', send s data flags k = (Ret r, k')
     ∧ (r = Z.of_nat (length data) ∧ outgoing k' = outgoing k ++ data
        ∨ r = -1 ∧ ∃ n, (n < length data)%nat ∧ outgoing k' = outgoing k ++ take n data))
  ∧ (∃ r buf k', recv_exact s size flags k = (Ret (r, buf), k')
     ∧ outgoing k' = outgoing k ∧ incoming k = buf ++ incoming k'
     ∧ (r = Z.of_nat size ∧ length buf = size
        ∨ r = Z.of_nat (length buf) ∧ (length buf < size)%nat ∧ incoming k' = []
        ∨ r = -1 ∧ (length buf < size)%nat)).
Proof.
  intros Hs Hfl. split.
  - destruct (swp_cases _ _ _ _ (send_ok s outgoing incoming Hs data flags k Hfl))
      as [(r & k' & Heq & Hr)|(e & k' & _ & [])]. eauto.
  - destruct (swp_cases _ _ _ _ (recv_exact_ok s outgoing incoming Hs size flags k Hfl))
      as [([r buf] & k' & Heq & Ho & Hi & _ & Hr)|(e & k' & _ & [])].
    exists r, buf, k'. auto.
Qed.

(** A timed [connect] is made on a socket in non-blocking mode, but leaves
    the status flags of every descriptor as it found them, whatever way it ends,
    provided that setting the flags that were set before succeeds; it opens and
    closes no descriptor, and it returns. *)
Theorem connect_restores_flags {K} `{PosixOk K} (s : Socket) (addr : SocketAddr) (t : Z) (k : K) :
  t * 1000 <= INT_MAX → 0 <= fd_ s →
  (∀ k', (sys_fcntl (fd_ s) F_SETFL (status_flags k (fd_ s)) k').1 = 0) →
  ∃ r k', connect s addr t k = (Ret r, k') ∧ open_fds k' = open_fds k
    ∧ ∀ fd, status_flags k' fd = status_flags k fd.
Proof.
  intros Ht Hfd Hr.
  destruct (swp_cases _ _ _ _ (connect_flagged s k Hr addr t Ht Hfd)) as [(r & k' & Heq & Ho & Hf)|(e & k' & _ & [])].
  exists r, k'. split; [done|]. split; [done|]. intros fd. rewrite Hf. by case_bool_decide; subst.
Qed.

(** * Witnesses *)

(** Two signals are pending, nine octets are to come. *)
Definition sample_kernel_state : sample_kernel :=
  {| sk_errno := 0; sk_signals := 2; sk_fds := {[3]}; sk_flags := λ _, 2; sk_next := 4;
     sk_in := str "123456789"; sk_out := str "x" |}.

Definition sample_socket : Socket := {| fd_ := 3; type_ := Posix.SOCK_STREAM |}.

Lemma stream_octets_witness :
  plain_flags 0 ∧
  ∃ k k', send sample_socket (str "abcdefg") 0 sample_kernel_state = (Ret 7, k) ∧ sk_out k = str "xabcdefg"
    ∧ recv_exact sample_socket 12 0 sample_kernel_state = (Ret (9, str "123456789"), k').
Proof.
  split; [reflexivity|].
  destruct (stream_octets sample_socket sk_out (λ k, map u8 (sk_in k)) (str "abcdefg") 12 0 sample_kernel_state eq_refl eq_refl)
    as [(r & k & Hsend & Hr) (n & buf & k' & Hrecv & _)].
  exists k, k'. rewrite Hsend, Hrecv. destruct Hr as [[-> Ho]|[-> _]].
  - split; [done|]. split; [exact Ho|]. vm_compute in Hrecv. injection Hrecv as <- <- _. done.
  - vm_compute in Hsend. discriminate Hsend.
Defined.

Lemma connect_restores_flags_witness :
  ∃ r k', connect sample_socket (AF_INET 53 [192; 0; 2; 1]) 1 sample_kernel_state = (Ret r, k')
    ∧ status_flags k' 3 = 2.
Proof.
  destruct (connect_restores_flags sample_socket (AF_INET 53 [192; 0; 2; 1]) 1 sample_kernel_state)
    as (r & k' & Hc & _ & Hf).
  - vm_compute. discriminate.
  - vm_compute. discriminate.
  - reflexivity.
  - exists r, k'. split; [exact Hc|]. exact (Hf 3).
Defined.
