(* ===== verification/Fd.v ===== *)
(** [src/util/fd.hpp] and [CancellationSource] of [src/util/cancellation_token.hpp]:
    the objects that own descriptors, pipes, and the notification that a pipe
    carries.  Objects have addresses, because moving empties one of them. *)
From S2P Require Import Prelude Io Posix Socket.
From stdpp Require Import gmap.
Local Open Scope Z_scope.

(** Pipes, beside the system calls of Posix.v; [None] is a failure.  The ghost
    state: a write end's read end, and the octets queued before a read end. *)
Class Pipes (K : Type) `{Posix K} := {
  sys_pipe : K → option (Z * Z) * K;
  sys_write : Z → bytes → K → Z * K;
  read_end_of : K → Z → option Z;
  queued : K → Z → bytes
}.

(** What POSIX documents of pipes: both ends are new; a write within the capacity
    (65536 octets on Linux) is queued whole; a poll that does not wait says
    whether anything is queued; a read takes what is queued first. *)
Definition PIPE_CAPACITY : nat := Z.to_nat 65536.

Definition is_pipe {K} `{Pipes K} (r w : Z) (k : K) : Prop :=
  r ∈ open_fds k ∧ w ∈ open_fds k ∧ read_end_of k w = Some r.

Class PipesOk (K : Type) `{Posix K} `{!Pipes K} := {
  pipe_fails k k' : sys_pipe k = (None, k') → open_fds k' = open_fds k;
  pipe_opens k r w k' : sys_pipe k = (Some (r, w), k') →
    0 ≤ r ∧ 0 ≤ w ∧ r ≠ w ∧ r ∉ open_fds k ∧ w ∉ open_fds k ∧ open_fds k' = {[r; w]} ∪ open_fds k
    ∧ read_end_of k' w = Some r ∧ queued k' r = [];
  fcntl_pipes fd c v k fd' :
    read_end_of (sys_fcntl fd c v k).2 fd' = read_end_of k fd' ∧ queued (sys_fcntl fd c v k).2 fd' = queued k fd';
  write_pipe r w b k : is_pipe r w k → (length (queued k r) + length b ≤ PIPE_CAPACITY)%nat →
    queued (sys_write w b k).2 r = queued k r ++ b ∧ read_end_of (sys_write w b k).2 w = Some r;
  write_fds fd b k : open_fds (sys_write fd b k).2 = open_fds k;
  poll_pipe r w k : is_pipe r w k →
    (0 < (sys_poll [(r, POLLIN)] 0 k).1.1 ↔ queued k r ≠ [])
    ∧ queued (sys_poll [(r, POLLIN)] 0 k).2 r = queued k r
    ∧ read_end_of (sys_poll [(r, POLLIN)] 0 k).2 w = Some r;
  read_pipe r w n k : is_pipe r w k → queued k r ≠ [] →
    (sys_read r n k).1 = Some (take n (queued k r)) ∧ queued (sys_read r n k).2 r = drop n (queued k r)
    ∧ read_end_of (sys_read r n k).2 w = Some r
}.

Module Fd.
Section fd.
Context {K : Type} `{Pipes K}.

(** The process: the kernel, and the [fd_] of each [UniqueFd] that is alive. *)
Record process := { kern : K; objs : gmap nat Z }.

Abbreviation io := (st process bytes).

Definition on_kernel {A} (m : st K bytes A) : io A := λ p,
  let '(r, k) := m (kern p) in (r, {| kern := k; objs := objs p |}).

Definition fd_ (l : nat) : io Z := λ p,
  match objs p !! l with Some fd => (Ret fd, p) | None => (Undef, p) end.

Definition set_fd (l : nat) (fd : Z) : io unit :=
  modify (λ p, {| kern := kern p; objs := <[l := fd]> (objs p) |}).

(** [std::exchange(fd_, fd)] *)
Definition exchange (l : nat) (fd : Z) : io Z := old ← fd_ l; _ ← set_fd l fd; mret old.

(** The constructors; without an argument [fd] is -1. *)
(* @fn src/src/util/fd.hpp | explicit UniqueFd(int fd) noexcept | UniqueFd::UniqueFd *)
Definition UniqueFd (l : nat) (fd : Z) : io unit := set_fd l fd.

(* @fn src/src/util/fd.hpp | void close() noexcept { | UniqueFd::close *)
Definition close (l : nat) : io unit :=
  fd ← fd_ l;
  if 0 <=? fd then
    _ ← set_fd l (-1);
    _ ← on_kernel (syscall (sys_close fd));
    mret tt
  else mret tt.

(* @fn src/src/util/fd.hpp | ~UniqueFd() { | UniqueFd::~UniqueFd *)
Definition destroy (l : nat) : io unit :=
  _ ← close l;
  modify (λ p, {| kern := kern p; objs := delete l (objs p) |}).

(* @fn src/src/util/fd.hpp | UniqueFd(UniqueFd &&other) noexcept | UniqueFd::UniqueFd(UniqueFd &&) *)
Definition move (l other : nat) : io unit := fd ← exchange other (-1); set_fd l fd.

(* @fn src/src/util/fd.hpp | UniqueFd &operator=(UniqueFd &&other) noexcept { | UniqueFd::operator=(UniqueFd &&) *)
Definition move_assign (l other : nat) : io unit :=
  if negb (l =? other)%nat then
    _ ← close l;
    fd ← exchange other (-1);
    set_fd l fd
  else mret tt.

(* @fn src/src/util/fd.hpp | void reset(int fd = -1) noexcept { | UniqueFd::reset *)
Definition reset (l : nat) (fd : Z) : io unit := _ ← close l; set_fd l fd.

(* @fn src/src/util/fd.hpp | int release() noexcept { | UniqueFd::release *)
Definition release (l : nat) : io Z := exchange l (-1).

(* @fn src/src/util/fd.hpp | int get() const noexcept { | UniqueFd::get *)
Definition get (l : nat) : io Z := fd_ l.

(* @fn src/src/util/fd.hpp | explicit operator bool() const noexcept { | UniqueFd::operator bool *)
Definition linked (l : nat) : io bool := fd ← fd_ l; mret (0 <=? fd).

(** The pair's two objects are at [l] and [l']. *)
(* @fn src/src/util/fd.hpp | std::pair<UniqueFd, UniqueFd> make_pipe() noexcept { | make_pipe *)
Definition make_pipe (l l' : nat) : io unit :=
  fds ← on_kernel (syscall sys_pipe);
  let '(r, w) := default (-1, -1) fds in
  _ ← (match fds with
       | Some _ =>
           _ ← on_kernel (syscall (sys_fcntl r F_SETFD FD_CLOEXEC));
           _ ← on_kernel (syscall (sys_fcntl w F_SETFD FD_CLOEXEC));
           mret tt
       | None => mret tt
       end);
  _ ← UniqueFd l r;
  UniqueFd l' w.

(** ** Cancellation *)

(** The addresses of the members. *)
(* @src src/src/util/cancellation_token.hpp 97 98 CancellationSource (members) *)
Record CancellationSource := { read_end_ : nat; write_end_ : nat }.

(** The pipe's ends are made at [r] and [w], locals of the constructor. *)
(* @fn src/src/util/cancellation_token.hpp | CancellationSource() { | CancellationSource::CancellationSource *)
Definition construct (c : CancellationSource) (r w : nat) : io unit :=
  _ ← UniqueFd (read_end_ c) (-1);
  _ ← UniqueFd (write_end_ c) (-1);
  _ ← make_pipe r w;
  _ ← move_assign (read_end_ c) r;
  _ ← move_assign (write_end_ c) w;
  _ ← destroy w;
  destroy r.

(* @fn src/src/util/cancellation_token.hpp | CancellationToken token() const noexcept { | CancellationSource::token *)
Definition token (c : CancellationSource) : io Sock.CancellationToken :=
  fd ← get (read_end_ c);
  mret {| Sock.token_fd := fd |}.

(** A [std::uint64_t] 1 in memory. *)
Definition one : bytes := [1; 0; 0; 0; 0; 0; 0; 0].

(* @fn src/src/util/cancellation_token.hpp | void trigger() const noexcept { | CancellationSource::trigger *)
Definition trigger (c : CancellationSource) : io unit :=
  b ← linked (write_end_ c);
  if b : bool then
    fd ← get (write_end_ c);
    _ ← on_kernel (syscall (sys_write fd one));
    mret tt
  else mret tt.

(* @fn src/src/util/cancellation_token.hpp | bool is_triggered() const noexcept { | CancellationSource::is_triggered *)
Definition is_triggered (c : CancellationSource) : io bool :=
  b ← linked (read_end_ c);
  if negb b then mret false else
  fd ← get (read_end_ c);
  polled ← on_kernel (syscall (sys_poll [(fd, POLLIN)] 0));
  mret (0 <? polled.1).

(** The members are destroyed in the reverse of their order. *)
(* @src src/src/util/cancellation_token.hpp 97 98 CancellationSource::~CancellationSource (implicit) *)
Definition destroy_source (c : CancellationSource) : io unit :=
  _ ← destroy (write_end_ c);
  destroy (read_end_ c).
End fd.
Arguments process : clear implicits.
End Fd.
Import Fd.

(** * Who owns a descriptor *)

Section ownership.
Context {K : Type} `{PosixOk K} `{!Pipes K} `{!PipesOk K}.
Implicit Types (p : process K) (o : gmap nat Z) (loose : gset Z).

Definition owned o (fd : Z) : Prop := 0 ≤ fd ∧ ∃ l, o !! l = Some fd.

(** The open descriptors are those that an object owns, none twice, and the
    [loose] ones, which no object owns. *)
Record owns loose p : Prop := {
  owns_open fd : fd ∈ open_fds (kern p) ↔ fd ∈ loose ∨ owned (objs p) fd;
  owns_loose fd : owned (objs p) fd → fd ∉ loose;
  owns_once l l' fd : 0 ≤ fd → objs p !! l = Some fd → objs p !! l' = Some fd → l = l'
}.

(** The descriptor in an object, if it is one. *)
Definition content (fd : option Z) : gset Z :=
  match fd with Some fd => if 0 <=? fd then {[fd]} else ∅ | None => ∅ end.

#[local] Arguments content : simpl never.

Lemma elem_content fd v : fd ∈ content v ↔ v = Some fd ∧ 0 ≤ fd.
Proof using All.
  unfold content. destruct v as [z|]; [|set_solver]. destruct (0 <=? z) eqn:Hz; prop_of_bool; [|set_solver by lia].
  rewrite elem_of_singleton. naive_solver lia.
Qed.

(** An object at [l] is changed from what it was to [v]. *)
Lemma owns_update loose p l (v : option Z) :
  owns loose p → (∀ fd, v = Some fd → 0 ≤ fd → objs p !! l = Some fd ∨ fd ∈ loose) →
  owns ((loose ∪ content (objs p !! l)) ∖ content v)
    {| kern := kern p; objs := partial_alter (λ _, v) l (objs p) |}.
Proof using All.
  intros [Ho Hl Hi] Hv.
  assert (∀ fd, owned (partial_alter (λ _, v) l (objs p)) fd ↔ fd ∈ content v ∨ ∃ l', l' ≠ l ∧ 0 ≤ fd ∧ objs p !! l' = Some fd) as Hown.
  { intros fd. rewrite elem_content. unfold owned. split.
    - intros (Hp & l' & Hfd). destruct (decide (l' = l)) as [->|].
      + rewrite lookup_partial_alter_eq in Hfd. by left.
      + rewrite lookup_partial_alter_ne in Hfd by done. right. by exists l'.
    - intros [[-> Hp]|(l' & Hne & Hp & Hfd)]; (split; [done|]).
      + exists l. by rewrite lookup_partial_alter_eq.
      + exists l'. by rewrite lookup_partial_alter_ne. }
  assert (∀ l' fd, l' ≠ l → 0 ≤ fd → objs p !! l' = Some fd → fd ∉ content v ∧ fd ∉ content (objs p !! l) ∧ fd ∉ loose) as Hother.
  { intros l' fd Hne Hp Hfd. rewrite !elem_content. split_and!.
    - intros [-> _]. destruct (Hv fd eq_refl Hp) as [Hlf|Hlf]; [by apply Hne, (Hi l' l fd)|].
      apply (Hl fd); [|done]. split; [done|by exists l'].
    - intros [Hlf _]. by apply Hne, (Hi l' l fd).
    - apply Hl. split; [done|by exists l']. }
  split; simpl.
  - intros fd. rewrite Ho, Hown, elem_of_difference, elem_of_union. destruct (decide (fd ∈ content v)) as [Hc|Hc].
    + split; [by right; left|]. intros _. apply elem_content in Hc as [Hc Hp].
      destruct (Hv fd Hc Hp) as [?|?]; [right; split; [done|by exists l]|by left].
    + split.
      * intros [Hlo|(Hp & l' & Hfd)]; [tauto|]. destruct (decide (l' = l)) as [->|]; [|right; right; by exists l'].
        left. split; [|done]. right. by apply elem_content.
      * intros [[[Hlo|Hcl] _]|[?|(l' & Hne & Hp & Hfd)]]; [by left| |done|right; split; [done|by exists l']].
        apply elem_content in Hcl as [Hcl Hp]. right. split; [done|by exists l].
  - intros fd [Hc|(l' & Hne & Hp & Hfd)]%Hown; [set_solver|]. destruct (Hother _ _ Hne Hp Hfd) as (? & ? & ?). set_solver.
  - intros l1 l2 fd Hp H1 H2. destruct (decide (l1 = l)) as [->|], (decide (l2 = l)) as [->|]; [done|..];
      rewrite ?lookup_partial_alter_eq, ?lookup_partial_alter_ne in H1 by done;
      rewrite ?lookup_partial_alter_eq, ?lookup_partial_alter_ne in H2 by done.
    + destruct (Hother l2 fd) as [Hc _]; [done..|]. exfalso. apply Hc. by apply elem_content.
    + destruct (Hother l1 fd) as [Hc _]; [done..|]. exfalso. apply Hc. by apply elem_content.
    + by apply (Hi l1 l2 fd).
Qed.

(** The kernel closes a loose descriptor. *)
Lemma owns_closed loose p fd k :
  owns loose p → fd ∈ loose → open_fds k = open_fds (kern p) ∖ {[fd]} →
  owns (loose ∖ {[fd]}) {| kern := k; objs := objs p |}.
Proof using All.
  intros [Ho Hl Hi] Hfd Hk. split; simpl; [|set_solver|done].
  intros fd'. rewrite Hk, !elem_of_difference, Ho. destruct (decide (fd' = fd)) as [->|Hne]; [|set_solver].
  split; [set_solver|]. intros [?|Hown]; [set_solver|]. by apply Hl in Hown.
Qed.

Lemma owns_kernel loose p k : owns loose p → open_fds k = open_fds (kern p) → owns loose {| kern := k; objs := objs p |}.
Proof using All. intros [Ho Hl Hi] Hk. split; simpl; [by rewrite Hk|done|done]. Qed.

(** ** The operations *)

Lemma swp_fd l fd (Q : Z → process K → Prop) (T : bytes → process K → Prop) p :
  objs p !! l = Some fd → Q fd p → swp (fd_ l) Q T p.
Proof using All. intros Hl HQ. unfold swp, fd_. by rewrite Hl. Qed.

Lemma swp_kernel {A} (f : K → A * K) (Q : A → process K → Prop) (T : bytes → process K → Prop) p :
  Q (f (kern p)).1 {| kern := (f (kern p)).2; objs := objs p |} → swp (on_kernel (syscall f)) Q T p.
Proof using All. unfold swp, on_kernel, syscall. by destruct (f (kern p)). Qed.

(** What a set of loose descriptors becomes when the object at [l] gets [fd]. *)
Definition handed loose (old : option Z) (fd : Z) : gset Z := (loose ∪ content old) ∖ content (Some fd).

Lemma owns_set loose p l fd :
  owns loose p → (0 ≤ fd → objs p !! l = Some fd ∨ fd ∈ loose) →
  owns (handed loose (objs p !! l) fd) {| kern := kern p; objs := <[l := fd]> (objs p) |}.
Proof using All. intros Ho Hfd. apply (owns_update loose p l (Some fd) Ho). intros ? [= <-]. done. Qed.

Lemma content_not_loose loose p l : owns loose p → content (objs p !! l) ## loose.
Proof using All.
  intros [_ Hl _] fd [Hfd Hp]%elem_content Hlo. apply (Hl fd); [|done]. split; [done|by exists l].
Qed.

Lemma content_negative fd : fd < 0 → content (Some fd) = ∅.
Proof using All. intros Hfd. unfold content. by rewrite (proj2 (Z.leb_gt _ _) Hfd). Qed.

(** Emptied, and its descriptor closed. *)
Definition closed l (p p' : process K) : Prop :=
  ∃ fd', fd' < 0 ∧ objs p' = <[l := fd']> (objs p).

Lemma unique_close_ok loose l fd p :
  owns loose p → objs p !! l = Some fd → swp (close l) (λ _ p', owns loose p' ∧ closed l p p') (λ _ _, False) p.
Proof using All.
  intros Ho Hl. unfold close. apply swp_bind, (swp_fd l fd); [done|]. destruct (0 <=? fd) eqn:Hfd; prop_of_bool.
  - pose proof (owns_set loose p l (-1) Ho ltac:(lia)) as Hset. pose proof (content_not_loose loose p l Ho) as Hd.
    unfold handed in Hset. rewrite (content_negative (-1)), Hl in Hset by lia.
    assert (content (Some fd) = {[fd]}) as Hc by (unfold content; by rewrite (proj2 (Z.leb_le _ _) Hfd)).
    rewrite Hl in Hd. rewrite Hc in Hset, Hd.
    apply swp_bind, swp_modify, swp_bind, swp_kernel, swp_ret. simpl. split; [|by exists (-1)].
    apply (owns_closed _ _ fd (sys_close fd (kern p)).2) in Hset; [|set_solver|apply close_closes_fd].
    simpl in Hset. assert ((loose ∪ {[fd]}) ∖ ∅ ∖ {[fd]} = loose) as Heq by set_solver. by rewrite Heq in Hset.
  - apply swp_ret. split; [done|]. exists fd. split; [done|]. by rewrite insert_id.
Qed.

(** The objects that are alive stay alive. *)
Lemma destroy_ok loose l fd p :
  owns loose p → objs p !! l = Some fd →
  swp (destroy l) (λ _ p', owns loose p' ∧ objs p' = delete l (objs p)) (λ _ _, False) p.
Proof using All.
  intros Ho Hl. unfold destroy. eapply swp_call; [by apply (unique_close_ok loose l fd)| |done].
  intros ? p1 (Ho1 & fd' & Hneg & Hp1). apply swp_modify. simpl. split.
  - pose proof (owns_update loose p1 l None Ho1 ltac:(done)) as Hd.
    assert (objs p1 !! l = Some fd') as Hl1 by (rewrite Hp1; apply lookup_insert_eq).
    rewrite Hl1, content_negative in Hd by done.
    assert ((loose ∪ ∅) ∖ content None = loose) as Heq by (unfold content; set_solver). rewrite Heq in Hd. exact Hd.
  - rewrite Hp1. apply delete_insert_eq.
Qed.

(** Moving hands the descriptor on; nothing becomes loose. *)
Lemma hand_on loose l other fd p :
  owns loose p → (∃ v, v < 0 ∧ objs p !! l = Some v) ∨ objs p !! l = None → objs p !! other = Some fd → l ≠ other →
  owns loose {| kern := kern p; objs := <[l := fd]> (<[other := -1]> (objs p)) |}.
Proof using All.
  intros Ho Hl Hother Hne. pose proof (content_not_loose loose p other Ho) as Hd. rewrite Hother in Hd.
  assert (content (objs p !! l) = ∅) as Hcl by (by destruct Hl as [(v & Hv & ->)| ->]; [apply content_negative|]).
  pose proof (owns_set loose p other (-1) Ho ltac:(lia)) as H1. unfold handed in H1.
  rewrite (content_negative (-1)), Hother in H1 by lia.
  pose proof (owns_set _ _ l fd H1) as H2. simpl in H2. rewrite lookup_insert_ne in H2 by done. unfold handed in H2.
  rewrite Hcl in H2. assert (((loose ∪ content (Some fd)) ∖ ∅ ∪ ∅) ∖ content (Some fd) = loose) as Heq by set_solver.
  rewrite Heq in H2. apply H2. intros Hp. right. assert (fd ∈ content (Some fd)) by (by apply elem_content). set_solver.
Qed.

Lemma owns_opened loose p fds k :
  owns loose p → fds ## open_fds (kern p) → open_fds k = fds ∪ open_fds (kern p) →
  owns (fds ∪ loose) {| kern := k; objs := objs p |}.
Proof using All.
  intros [Ho Hl Hi] Hd Hk. split; simpl; [| |done].
  - intros fd. rewrite Hk, !elem_of_union, Ho. tauto.
  - intros fd Hown [Hfd|Hfd]%elem_of_union; [|by apply (Hl fd)]. apply (Hd fd Hfd), Ho. by right.
Qed.

Inductive operation :=
| ONew (l : nat) (fd : Z)
| ODestroy (l : nat)
| OMove (l other : nat)
| OAssign (l other : nat)
| OReset (l : nat) (fd : Z)
| ORelease (l : nat)
| OPipe (l l' : nat).

Definition exec (op : operation) : st (process K) bytes unit :=
  match op with
  | ONew l fd => UniqueFd l fd
  | ODestroy l => destroy l
  | OMove l other => move l other
  | OAssign l other => move_assign l other
  | OReset l fd => reset l fd
  | ORelease l => _ ← release l; mret tt
  | OPipe l l' => make_pipe l l'
  end.

(** Objects are made at free addresses and used while they are alive; what they
    are given is loose, or no descriptor. *)
Definition legal loose o (op : operation) : Prop :=
  match op with
  | ONew l fd => o !! l = None ∧ (0 ≤ fd → fd ∈ loose)
  | ODestroy l | ORelease l => is_Some (o !! l)
  | OMove l other => o !! l = None ∧ is_Some (o !! other)
  | OAssign l other => is_Some (o !! l) ∧ is_Some (o !! other)
  | OReset l fd => is_Some (o !! l) ∧ (0 ≤ fd → fd ∈ loose)
  | OPipe l l' => o !! l = None ∧ o !! l' = None ∧ l ≠ l'
  end.

Definition loose_after loose o (op : operation) : gset Z :=
  match op with
  | ONew _ fd | OReset _ fd => loose ∖ content (Some fd)
  | ORelease l => loose ∪ content (o !! l)
  | _ => loose
  end.

Lemma make_pipe_ok loose l l' p :
  owns loose p → objs p !! l = None → objs p !! l' = None → l ≠ l' →
  swp (make_pipe l l') (λ _ p', owns loose p' ∧ ∃ r w, objs p' = <[l' := w]> (<[l := r]> (objs p))
    ∧ ((r < 0 ∧ w < 0) ∨ (0 ≤ r ∧ 0 ≤ w ∧ r ≠ w ∧ is_pipe r w (kern p') ∧ queued (kern p') r = []))) (λ _ _, False) p.
Proof using All.
  intros Ho Hl Hl' Hne. unfold make_pipe. apply swp_bind, swp_kernel.
  destruct (sys_pipe (kern p)) as [[[r w]|] k] eqn:Hpipe; cbn [fst snd default].
  - pose proof (pipe_opens _ _ _ _ Hpipe) as (Hr & Hw & Hrw & Hrf & Hwf & Hk & Hre & Hq).
    apply swp_bind. do 2 (apply swp_bind, swp_kernel). apply swp_ret. cbn [kern].
    set (k1 := (sys_fcntl r _ _ _).2). set (k2 := (sys_fcntl w _ _ _).2).
    assert (open_fds k2 = {[r; w]} ∪ open_fds (kern p)) as Hk2.
    { unfold k2, k1. rewrite !(λ fd k, proj2 (fcntl_fds fd F_SETFD FD_CLOEXEC k eq_refl)). exact Hk. }
    assert (read_end_of k2 w = Some r ∧ queued k2 r = []) as [Hre2 Hq2].
    { unfold k2, k1. rewrite !(proj1 (fcntl_pipes _ _ _ _ _)), !(proj2 (fcntl_pipes _ _ _ _ _)). done. }
    clearbody k2. apply swp_bind, swp_modify, swp_modify. simpl.
    pose proof (owns_opened loose p {[r; w]} k2 Ho ltac:(set_solver) Hk2) as H1.
    assert (r ∉ loose ∧ w ∉ loose) as [Hrl Hwl].
    { destruct Ho as [Hop _ _]. split; intros Hlo; [apply Hrf|apply Hwf]; apply Hop; by left. }
    pose proof (owns_set _ _ l r H1 ltac:(set_solver)) as H2.
    pose proof (owns_set _ _ l' w H2) as H3. simpl in H2, H3. rewrite lookup_insert_ne in H3 by done.
    unfold handed in H3. rewrite Hl, Hl' in H3.
    assert (content (Some r) = {[r]} ∧ content (Some w) = {[w]}) as [Hcr Hcw].
    { unfold content. by rewrite (proj2 (Z.leb_le _ _) Hr), (proj2 (Z.leb_le _ _) Hw). }
    assert (content None = ∅) as Hcn by done. rewrite Hcr, Hcw, Hcn in H3.
    assert (((({[r; w]} ∪ loose ∪ ∅) ∖ {[r]} ∪ ∅) ∖ {[w]}) = loose) as Heq by set_solver.
    rewrite Heq in H3. split; [apply H3; set_solver|]. exists r, w. split; [done|]. right.
    split_and!; [done|done|done| |done]. unfold is_pipe. rewrite Hk2. set_solver.
  - apply pipe_fails in Hpipe. apply swp_bind, swp_ret, swp_bind, swp_modify, swp_modify. simpl.
    pose proof (owns_set _ _ l (-1) (owns_kernel loose p k Ho Hpipe) ltac:(lia)) as H2.
    pose proof (owns_set _ _ l' (-1) H2 ltac:(lia)) as H3. simpl in H3. rewrite lookup_insert_ne in H3 by done.
    unfold handed in H3. rewrite Hl, Hl', (content_negative (-1)) in H3 by lia.
    assert (((loose ∪ content None) ∖ ∅ ∪ content None) ∖ ∅ = loose) as Heq by (unfold content; set_solver).
    rewrite Heq in H3. split; [done|]. exists (-1), (-1). split; [done|]. left. lia.
Qed.

Lemma exec_ok loose p op :
  owns loose p → legal loose (objs p) op →
  swp (exec op) (λ _ p', owns (loose_after loose (objs p) op) p') (λ _ _, False) p.
Proof using All.
  intros Ho. destruct op as [l fd|l|l other|l other|l fd|l|l l']; simpl.
  - intros [Hl Hfd]. apply swp_modify. pose proof (owns_set loose p l fd Ho) as Hs. rewrite Hl in Hs.
    unfold handed in Hs. assert (loose ∪ content None = loose) as Heq by (unfold content; set_solver). rewrite Heq in Hs. auto.
  - intros [fd Hl]. eapply swp_mono; [by apply (destroy_ok loose l fd)| |done]. by intros ? p' [? _].
  - intros [Hl [fd Hother]]. unfold move, exchange. do 2 apply swp_bind. apply (swp_fd other fd); [done|].
    apply swp_bind, swp_modify, swp_ret, swp_modify. simpl. apply (hand_on loose l other fd); [done|by right|done|congruence].
  - intros [[v Hl] [fd Hother]]. unfold move_assign. destruct (l =? other)%nat eqn:Hlo; prop_of_bool; [by apply swp_ret|].
    eapply swp_call; [by apply (unique_close_ok loose l v)| |done]. intros ? p1 (Ho1 & fd' & Hneg & Hp1).
    assert (objs p1 !! other = Some fd) as Hother1 by (by rewrite Hp1, lookup_insert_ne).
    unfold exchange. do 2 apply swp_bind. apply (swp_fd other fd); [done|].
    apply swp_bind, swp_modify, swp_ret, swp_modify. simpl. apply (hand_on loose l other fd); [done| |done|done].
    left. exists fd'. split; [done|]. rewrite Hp1. apply lookup_insert_eq.
  - intros [[v Hl] Hfd]. unfold reset. eapply swp_call; [by apply (unique_close_ok loose l v)| |done].
    intros ? p1 (Ho1 & fd' & Hneg & Hp1). apply swp_modify. pose proof (owns_set loose p1 l fd Ho1) as Hs.
    assert (objs p1 !! l = Some fd') as Hl1 by (rewrite Hp1; apply lookup_insert_eq). rewrite Hl1 in Hs. unfold handed in Hs.
    rewrite (content_negative fd') in Hs by done. assert (loose ∪ ∅ = loose) as Heq by set_solver. rewrite Heq in Hs. auto.
  - intros [fd Hl]. unfold release, exchange. do 2 apply swp_bind. apply (swp_fd l fd); [done|].
    apply swp_bind, swp_modify, swp_ret, swp_ret. simpl. pose proof (owns_set loose p l (-1) Ho ltac:(lia)) as Hs.
    unfold handed in Hs. rewrite (content_negative (-1)) in Hs by lia.
    assert ((loose ∪ content (objs p !! l)) ∖ ∅ = loose ∪ content (objs p !! l)) as Heq by set_solver. by rewrite Heq in Hs.
  - intros (Hl & Hl' & Hne). eapply swp_mono; [by apply (make_pipe_ok loose)| |done]. by intros ? p' [? _].
Qed.

(** A step of the process, beside its loose descriptors. *)
Inductive fd_step : gset Z * process K → gset Z * process K → Prop :=
| step_exec op loose p p' :
    legal loose (objs p) op → exec op p = (Ret tt, p') →
    fd_step (loose, p) (loose_after loose (objs p) op, p').

(** C23: [UniqueFd] owns: in a process that only gives its objects descriptors that
    no other object has, every operation on them succeeds, and at every time the
    open descriptors are those of the objects, none in two of them, and the loose
    ones: those that were given away, or never given to an object.  So none is
    closed twice or by another object than its own, and once no object is left
    exactly the loose ones are open. *)
Theorem unique_fd_owns loose0 p0 loose p :
  owns loose0 p0 → rtc fd_step (loose0, p0) (loose, p) →
  owns loose p
  ∧ (∀ op, legal loose (objs p) op → ∃ p', exec op p = (Ret tt, p'))
  ∧ (objs p = ∅ → open_fds (kern p) = loose).
Proof using All.
  intros Ho Hsteps. assert (owns loose p) as Hp.
  { remember (loose0, p0) as a eqn:Ha. remember (loose, p) as b eqn:Hb. revert loose0 p0 Ho Ha.
    induction Hsteps as [|a a' b Hstep _ IH]; intros l0 q0 Ho ->; [by injection Hb as -> ->|].
    inversion Hstep as [op l q q' Hlegal Hexec]; subst. eapply IH; [done| |reflexivity].
    pose proof (exec_ok _ _ _ Ho Hlegal) as Hok. unfold swp in Hok. rewrite Hexec in Hok. exact Hok. }
  split; [done|]. split.
  - intros op Hlegal. destruct (swp_cases _ _ _ _ (exec_ok _ _ _ Hp Hlegal)) as [([] & p' & Heq & _)|(e & p' & _ & [])].
    by exists p'.
  - intros Hempty. apply set_eq. intros fd. rewrite (owns_open _ _ Hp), Hempty. split; [|by left].
    intros [?|(_ & l & Hl)]; [done|]. by rewrite lookup_empty in Hl.
Qed.

(** * Cancellation *)

(** Closing an object without a descriptor does nothing. *)
Lemma close_empty l fd p : objs p !! l = Some fd → fd < 0 → close l p = (Ret tt, p).
Proof using All.
  intros Hl Hfd. unfold close, fd_, mbind, st_bind. by rewrite Hl, (proj2 (Z.leb_gt _ _) Hfd).
Qed.

Lemma move_assign_empty l other v fd (Q : unit → process K → Prop) T p :
  l ≠ other → objs p !! l = Some v → v < 0 → objs p !! other = Some fd →
  Q tt {| kern := kern p; objs := <[l := fd]> (<[other := -1]> (objs p)) |} → swp (move_assign l other) Q T p.
Proof using All.
  intros Hne Hl Hv Ho HQ. unfold move_assign. rewrite (proj2 (Nat.eqb_neq _ _) Hne). cbn [negb].
  apply swp_bind. unfold swp at 1. rewrite (close_empty l v p) by done. cbn [fst snd wp].
  unfold exchange. do 2 apply swp_bind. apply (swp_fd other fd); [done|].
  by apply swp_bind, swp_modify, swp_ret, swp_modify.
Qed.

Lemma destroy_empty l v (Q : unit → process K → Prop) T p :
  objs p !! l = Some v → v < 0 → Q tt {| kern := kern p; objs := delete l (objs p) |} → swp (destroy l) Q T p.
Proof using All.
  intros Hl Hv HQ. unfold destroy. apply swp_bind. unfold swp at 1. rewrite (close_empty l v p) by done.
  by apply swp_modify.
Qed.

(** The source's pipe, with the octets [q] in it. *)
Definition linked_source (c : CancellationSource) (q : bytes) p : Prop :=
  ∃ r w, objs p !! read_end_ c = Some r ∧ objs p !! write_end_ c = Some w ∧ 0 ≤ r ∧ 0 ≤ w
    ∧ is_pipe r w (kern p) ∧ queued (kern p) r = q.

(** The source of a process without a pipe for it. *)
Definition inert_source (c : CancellationSource) p : Prop :=
  ∃ r w, objs p !! read_end_ c = Some r ∧ objs p !! write_end_ c = Some w ∧ r < 0 ∧ w < 0.

Definition source_members (c : CancellationSource) (o : gmap nat Z) p : Prop :=
  ∃ r w, objs p = <[write_end_ c := w]> (<[read_end_ c := r]> o).

(** Four different addresses, free. *)
Definition fresh_addresses (c : CancellationSource) (r w : nat) o : Prop :=
  NoDup [read_end_ c; write_end_ c; r; w] ∧ o !! read_end_ c = None ∧ o !! write_end_ c = None
  ∧ o !! r = None ∧ o !! w = None.

Lemma owns_delete loose p l v :
  owns loose p → objs p !! l = Some v → v < 0 → owns loose {| kern := kern p; objs := delete l (objs p) |}.
Proof using All.
  intros Ho Hl Hv. pose proof (owns_update loose p l None Ho ltac:(done)) as Hd.
  rewrite Hl, content_negative in Hd by done.
  assert ((loose ∪ ∅) ∖ content None = loose) as Heq by (unfold content; set_solver). rewrite Heq in Hd. exact Hd.
Qed.

Lemma owns_set_empty loose p l :
  owns loose p → objs p !! l = None → owns loose {| kern := kern p; objs := <[l := -1]> (objs p) |}.
Proof using All.
  intros Ho Hl. pose proof (owns_set loose p l (-1) Ho ltac:(lia)) as Hs. unfold handed in Hs.
  rewrite Hl, (content_negative (-1)) in Hs by lia.
  assert ((loose ∪ content None) ∖ ∅ = loose) as Heq by (unfold content; set_solver). by rewrite Heq in Hs.
Qed.

Lemma construct_ok loose c r w p :
  owns loose p → fresh_addresses c r w (objs p) →
  swp (construct c r w) (λ _ p', owns loose p' ∧ source_members c (objs p) p'
    ∧ (inert_source c p' ∨ linked_source c [] p')) (λ _ _, False) p.
Proof using All.
  intros Ho (Hnd & HR & HW & Hr & Hw). destruct c as [R W]. simpl in *.
  assert (R ≠ W ∧ R ≠ r ∧ R ≠ w ∧ W ≠ r ∧ W ≠ w ∧ r ≠ w) as (? & ? & ? & ? & ? & ?).
  { rewrite !NoDup_cons in Hnd. set_solver. }
  pose proof (owns_set_empty _ _ R Ho HR) as Ha.
  pose proof (owns_set_empty _ _ W Ha) as Hb. simpl in Hb. rewrite lookup_insert_ne in Hb by done. specialize (Hb HW).
  unfold construct. cbn [read_end_ write_end_]. apply swp_bind, swp_modify, swp_bind, swp_modify.
  eapply swp_call; [apply (make_pipe_ok loose r w _ Hb); simpl; [by simplify_map_eq..|done]| |done].
  intros ? p1 (Ho1 & fr & fw & Hobjs & Hfds). cbn [objs] in Hobjs.
  apply swp_bind, (move_assign_empty R r (-1) fr); [done|by rewrite Hobjs; simplify_map_eq|lia|by rewrite Hobjs; simplify_map_eq|].
  assert (owns loose {| kern := kern p1; objs := <[R := fr]> (<[r := -1]> (objs p1)) |}) as Ho2.
  { apply hand_on; [done| |by rewrite Hobjs; simplify_map_eq|done]. left. exists (-1). split; [lia|]. rewrite Hobjs. by simplify_map_eq. }
  apply swp_bind, (move_assign_empty W w (-1) fw); cbn [objs kern];
    [done|by rewrite Hobjs; simplify_map_eq|lia|by rewrite Hobjs; simplify_map_eq|].
  assert (owns loose {| kern := kern p1; objs := <[W := fw]> (<[w := -1]> (<[R := fr]> (<[r := -1]> (objs p1)))) |}) as Ho3.
  { apply (hand_on loose W w fw _ Ho2); cbn [objs]; [|by rewrite Hobjs; simplify_map_eq|done].
    left. exists (-1). split; [lia|]. rewrite Hobjs. by simplify_map_eq. }
  apply swp_bind, (destroy_empty w (-1)); [cbn [objs]; by simplify_map_eq|lia|].
  pose proof (owns_delete loose _ w (-1) Ho3) as Ho4. cbn [objs kern] in Ho4.
  apply (destroy_empty r (-1)); [cbn [objs]; by simplify_map_eq|lia|]. cbn [objs kern].
  split; [|split].
  - specialize (Ho4 ltac:(by simplify_map_eq) ltac:(lia)).
    pose proof (owns_delete loose _ r (-1) Ho4) as Ho5. cbn [objs kern] in Ho5. apply Ho5; [by simplify_map_eq|lia].
  - exists fr, fw. simpl. rewrite Hobjs. apply map_eq. intros i.
    destruct (decide (i = r)) as [->|]; [by simplify_map_eq|]. destruct (decide (i = w)) as [->|]; [by simplify_map_eq|].
    destruct (decide (i = W)) as [->|]; [by simplify_map_eq|]. destruct (decide (i = R)) as [->|]; by simplify_map_eq.
  - destruct Hfds as [[Hfr Hfw]|(Hfr & Hfw & _ & Hp & Hq)]; [left|right]; exists fr, fw; simpl;
      (split_and!; [by simplify_map_eq|by simplify_map_eq|done..]).
Qed.

(** ** Notifications *)

(** The octets of [n] notifications. *)
Fixpoint notifications (n : nat) : bytes := match n with O => [] | S n => one ++ notifications n end.

Lemma notifications_length n : length (notifications n) = (8 * n)%nat.
Proof using Type. induction n as [|n IH]; [done|]. cbn [notifications]. rewrite length_app, IH. simpl. lia. Qed.

Lemma notifications_snoc n : notifications n ++ one = notifications (S n).
Proof using Type.
  induction n as [|n IH]; [done|]. cbn [notifications]. rewrite <- app_assoc, IH. done.
Qed.

Fixpoint repeated {A} (n : nat) (m : st (process K) bytes A) : st (process K) bytes unit :=
  match n with O => mret tt | S n => _ ← m; repeated n m end.

(** What keeps the objects and the open descriptors. *)
Definition same_process p p' : Prop := objs p' = objs p ∧ open_fds (kern p') = open_fds (kern p).

Lemma trigger_ok c q p :
  linked_source c q p → (length q + 8 ≤ PIPE_CAPACITY)%nat →
  swp (trigger c) (λ _ p', same_process p p' ∧ linked_source c (q ++ one) p') (λ _ _, False) p.
Proof using All.
  intros (r & w & Hr & Hw & Hr0 & Hw0 & Hpipe & Hq) Hroom. unfold trigger, linked.
  do 2 apply swp_bind. apply (swp_fd _ w); [done|]. apply swp_ret. rewrite (proj2 (Z.leb_le _ _) Hw0).
  apply swp_bind, (swp_fd _ w); [done|]. apply swp_bind, swp_kernel, swp_ret.
  destruct (write_pipe r w one (kern p) Hpipe) as [Hq' Hre]; [by rewrite Hq|].
  split; [split; [done|apply write_fds]|]. exists r, w. destruct Hpipe as (Hor & How & _). unfold is_pipe. simpl.
  rewrite write_fds, Hq', Hq. done.
Qed.

Lemma drain_ok c q p r :
  linked_source c q p → q ≠ [] → objs p !! read_end_ c = Some r →
  swp (on_kernel (Sock.drain {| Sock.token_fd := r |}))
    (λ _ p', same_process p p' ∧ linked_source c (drop 8 q) p') (λ _ _, False) p.
Proof using All.
  intros (r' & w & Hr & Hw & Hr0 & Hw0 & Hpipe & Hq) Hne Hr'. rewrite Hr in Hr'. injection Hr' as ->.
  unfold Sock.drain. cbn [Sock.token_fd]. rewrite (proj2 (Z.leb_le _ _) Hr0).
  destruct (read_pipe r w 8 (kern p) Hpipe) as (_ & Hq' & Hre); [by rewrite Hq|].
  destruct (read_frame r 8 (kern p)) as (Hfds & _).
  unfold swp, on_kernel, syscall, mbind, st_bind. destruct (sys_read r 8 (kern p)) as [b k]. simpl in *.
  split; [done|]. exists r, w. destruct Hpipe as (Hor & How & _). unfold is_pipe. simpl.
  rewrite Hfds, Hq', Hq. done.
Qed.

Lemma is_triggered_ok c q p :
  linked_source c q p →
  swp (is_triggered c) (λ b _, b = bool_decide (q ≠ [])) (λ _ _, False) p.
Proof using All.
  intros (r & w & Hr & Hw & Hr0 & Hw0 & Hpipe & Hq). unfold is_triggered, linked.
  do 2 apply swp_bind. apply (swp_fd _ r); [done|]. apply swp_ret. rewrite (proj2 (Z.leb_le _ _) Hr0). cbn [negb].
  apply swp_bind, (swp_fd _ r); [done|]. apply swp_bind, swp_kernel, swp_ret.
  destruct (poll_pipe r w (kern p) Hpipe) as (Hpoll & _). rewrite Hq in Hpoll.
  destruct (0 <? _) eqn:Hb; prop_of_bool; case_bool_decide; naive_solver lia.
Qed.

Lemma same_process_trans p p' p'' : same_process p p' → same_process p' p'' → same_process p p''.
Proof using Type. intros [? ?] [? ?]. split; congruence. Qed.

Lemma triggers_ok c n m p :
  linked_source c (notifications m) p → (8 * (m + n) ≤ PIPE_CAPACITY)%nat →
  swp (repeated n (trigger c)) (λ _ p', same_process p p' ∧ linked_source c (notifications (m + n)) p') (λ _ _, False) p.
Proof using All.
  revert m p. induction n as [|n IH]; intros m p Hs Hroom; cbn [repeated].
  - rewrite Nat.add_0_r. by apply swp_ret.
  - eapply swp_call; [apply (trigger_ok c _ p Hs); rewrite notifications_length; lia| |done].
    intros ? p1 [H1 H2]. rewrite notifications_snoc in H2. eapply swp_mono; [apply (IH (S m)); [done|lia]| |done].
    intros ? p2 [H3 H4]. split; [by eapply same_process_trans|]. by rewrite Nat.add_succ_r.
Qed.

Lemma drains_ok c n m r p :
  linked_source c (notifications (m + n)) p → objs p !! read_end_ c = Some r →
  swp (repeated n (on_kernel (Sock.drain {| Sock.token_fd := r |})))
    (λ _ p', same_process p p' ∧ linked_source c (notifications m) p') (λ _ _, False) p.
Proof using All.
  revert p. induction n as [|n IH]; intros p Hs Hr; cbn [repeated].
  - rewrite Nat.add_0_r in Hs. by apply swp_ret.
  - rewrite Nat.add_succ_r in Hs. eapply swp_call; [by apply (drain_ok c _ p r Hs)| |done].
    intros ? p1 [[H1 H1'] H2]. change (drop 8 (notifications (S (m + n)))) with (notifications (m + n)) in H2.
    eapply swp_mono; [apply IH; [done|by rewrite H1]| |done].
    intros ? p2 [H3 H4]. split; [|done]. eapply same_process_trans; [|exact H3]. done.
Qed.

Lemma owns_same loose p p' : same_process p p' → owns loose p → owns loose p'.
Proof using All.
  intros [Ho Hk] Hp. pose proof (owns_kernel loose p (kern p') Hp Hk) as Hq. rewrite <- Ho in Hq. by destruct p'.
Qed.

(** Who owns what says what is open. *)
Lemma owns_determines loose p p' :
  owns loose p → owns loose p' → objs p' = objs p → open_fds (kern p') = open_fds (kern p).
Proof using All.
  intros Hp Hp' Ho. apply set_eq. intros fd. rewrite (owns_open _ _ Hp), (owns_open _ _ Hp'). by rewrite Ho.
Qed.

Lemma destroy_source_ok loose c o p :
  owns loose p → read_end_ c ≠ write_end_ c → o !! read_end_ c = None → o !! write_end_ c = None →
  source_members c o p →
  swp (destroy_source c) (λ _ p', owns loose p' ∧ objs p' = o) (λ _ _, False) p.
Proof using All.
  intros Ho Hne HR HW (fr & fw & Hobjs). unfold destroy_source.
  eapply swp_call; [apply (destroy_ok loose _ fw p Ho); by rewrite Hobjs, lookup_insert_eq| |done].
  intros ? p1 [Ho1 Hobjs1]. rewrite Hobjs, delete_insert_id in Hobjs1 by (by rewrite lookup_insert_ne).
  eapply swp_mono; [apply (destroy_ok loose _ fr p1 Ho1); by rewrite Hobjs1, lookup_insert_eq| |done].
  intros ? p2 [Ho2 Hobjs2]. split; [done|]. by rewrite Hobjs2, Hobjs1, delete_insert_id.
Qed.

Lemma swp_returns {A} (m : st (process K) bytes A) Q p :
  swp m Q (λ _ _, False) p → ∃ a p', m p = (Ret a, p') ∧ Q a p'.
Proof using Type. intros Hm. by destruct (swp_cases _ _ _ _ Hm) as [|(? & ? & _ & [])]. Qed.

(** C24: A cancellation source counts.  Where the process cannot make a pipe, the
    source does nothing; otherwise, after [n] triggers and [m] waiters that have
    each drained its token, it is triggered exactly if [m] is less than [n]: a
    trigger cancels one waiter, and the next one does not see it any more.  And
    destroying the source leaves the process with the descriptors and the objects
    it had before the source was made. *)
Theorem cancellation_spec loose (c : CancellationSource) (r w : nat) p (n m : nat) :
  owns loose p → fresh_addresses c r w (objs p) → (m ≤ n)%nat → (8 * n ≤ PIPE_CAPACITY)%nat →
  ∃ p1, construct c r w p = (Ret tt, p1)
    ∧ ((is_triggered c p1 = (Ret false, p1) ∧ trigger c p1 = (Ret tt, p1))
       ∨ ∃ t p2, token c p1 = (Ret t, p1)
           ∧ (_ ← repeated n (trigger c); repeated m (on_kernel (Sock.drain t))) p1 = (Ret tt, p2)
           ∧ (is_triggered c p2).1 = Ret (bool_decide (m < n)%nat)
           ∧ ∃ p3, destroy_source c p2 = (Ret tt, p3) ∧ objs p3 = objs p ∧ open_fds (kern p3) = open_fds (kern p)).
Proof using All.
  intros Ho Hfresh Hmn Hroom. destruct (swp_returns _ _ _ (construct_ok loose c r w p Ho Hfresh)) as ([] & p1 & Hc & Ho1 & Hmem & Hs).
  exists p1. split; [done|]. destruct Hs as [(fr & fw & Hr & Hw & Hr0 & Hw0)|Hs].
  { left. unfold is_triggered, trigger, linked, fd_, mbind, st_bind, mret, st_ret. rewrite Hr, Hw.
    rewrite !(proj2 (Z.leb_gt _ _)) by done. done. }
  right. pose proof Hs as (fr & _ & Hr & _). exists {| Sock.token_fd := fr |}.
  assert (swp (_ ← repeated n (trigger c); repeated m (on_kernel (Sock.drain {| Sock.token_fd := fr |})))
    (λ _ p', same_process p1 p' ∧ linked_source c (notifications (n - m)) p') (λ _ _, False) p1) as Hrun.
  { eapply swp_call; [apply (triggers_ok c n 0 p1 Hs); lia| |done].
    intros ? p2 [H2 Hs2]. replace (0 + n)%nat with (n - m + m)%nat in Hs2 by lia.
    eapply swp_mono; [apply (drains_ok c m (n - m) fr p2 Hs2); by rewrite (proj1 H2)| |done].
    intros ? p3 [H3 Hs3]. split; [by eapply same_process_trans|done]. }
  destruct (swp_returns _ _ _ Hrun) as ([] & p2 & Hrun' & Hsame & Hs2). exists p2.
  split; [unfold token, get, fd_, mbind, st_bind; by rewrite Hr|]. split; [done|]. split.
  - destruct (swp_returns _ _ _ (is_triggered_ok c _ p2 Hs2)) as (b & p3 & -> & ->). simpl. f_equal.
    apply bool_decide_ext. destruct (n - m)%nat eqn:Hd; simpl; [|split; [lia|done]]. split; [done|lia].
  - destruct Hfresh as (Hnd & HR & HW & _). destruct Hmem as (fr' & fw' & Hobjs).
    destruct (swp_returns _ _ _ (destroy_source_ok loose c (objs p) p2 (owns_same _ _ _ Hsame Ho1)
      ltac:(rewrite NoDup_cons in Hnd; set_solver) HR HW ltac:(exists fr', fw'; by rewrite (proj1 Hsame))))
      as ([] & p3 & Hdes & Ho3 & Hobjs3).
    exists p3. split; [done|]. split; [done|]. by apply (owns_determines loose).
Qed.
End ownership.

(** * Witnesses *)

(** A kernel of pipes only: every other call fails. *)
Record pipe_kernel := { pk_fds : gset Z; pk_next : Z; pk_ends : gmap Z Z; pk_queues : gmap Z bytes }.

Definition with_queue (r : Z) (q : bytes) (k : pipe_kernel) : pipe_kernel :=
  {| pk_fds := pk_fds k; pk_next := pk_next k; pk_ends := pk_ends k; pk_queues := <[r := q]> (pk_queues k) |}.

Definition queue_of (k : pipe_kernel) (r : Z) : bytes := default [] (pk_queues k !! r).

#[local] Instance pipe_posix : Posix pipe_kernel := {
  errno _ := 0;
  sys_socket _ _ _ k := (-1, k);
  sys_close fd k := (0, {| pk_fds := pk_fds k ∖ {[fd]}; pk_next := pk_next k; pk_ends := pk_ends k; pk_queues := pk_queues k |});
  sys_fcntl _ _ _ k := (-1, k);
  sys_setsockopt _ _ _ _ k := (-1, k);
  sys_getsockopt _ _ _ k := ((-1, 0), k);
  sys_bind _ _ k := (-1, k);
  sys_getsockname _ k := ((-1, Address.AF_UNSPEC), k);
  sys_getpeername _ k := ((-1, Address.AF_UNSPEC), k);
  sys_connect _ _ k := (-1, k);
  sys_listen _ _ k := (-1, k);
  sys_accept _ k := ((-1, Address.AF_UNSPEC), k);
  sys_send _ _ _ k := (-1, k);
  sys_sendto _ _ _ _ k := (-1, k);
  sys_recv _ _ _ k := (None, k);
  sys_recvfrom _ _ _ k := (None, k);
  sys_poll fds _ k :=
    ((match fds with (fd, _) :: _ => if bool_decide (queue_of k fd = []) then 0 else 1 | [] => 0 end, []), k);
  sys_read fd n k := (Some (take n (queue_of k fd)), with_queue fd (drop n (queue_of k fd)) k);
  sys_shutdown _ _ k := (-1, k);
  signals _ := 0%nat;
  open_fds := pk_fds;
  status_flags _ _ := 0
}.

#[local] Instance pipe_posix_ok : PosixOk pipe_kernel.
Proof.
  split.
  all: try (intros; simpl; reflexivity).
  all: try (intros; intros k Hf He; discriminate He).
  - intros fd n k. by split_and!.
  - intros d t p k r k' [= <- <-]. done.
  - intros fd k r a k' [= <- <- <-]. done.
  - intros fd k. done.
  - intros fd c v k. done.
  - intros fd v k r k' [= <- <-]. done.
  - intros fd v k r k' fd' [= <- <-]. by rewrite andb_false_r.
  - intros fd b fl k _. done.
  - intros fd b fl a k _. done.
  - done.
  - done.
Qed.

#[local] Instance sample_pipes : Pipes pipe_kernel := {
  sys_pipe k :=
    let r := pk_next k in
    if bool_decide (0 ≤ r ∧ (r ∉ pk_fds k) ∧ (r + 1 ∉ pk_fds k)) then
      (Some (r, r + 1), {| pk_fds := {[r; r + 1]} ∪ pk_fds k; pk_next := r + 2;
                           pk_ends := <[(r + 1) := r]> (pk_ends k); pk_queues := <[r := []]> (pk_queues k) |})
    else (None, k);
  sys_write fd b k :=
    match pk_ends k !! fd with
    | Some r => (Z.of_nat (length b), with_queue r (queue_of k r ++ b) k)
    | None => (-1, k)
    end;
  read_end_of k fd := pk_ends k !! fd;
  queued := queue_of
}.

#[local] Instance sample_pipes_ok : PipesOk pipe_kernel.
Proof.
  split.
  - intros k k'. simpl. case_bool_decide; [done|]. by intros [= <-].
  - intros k r w k'. simpl. case_bool_decide as Hc; [|done]. destruct Hc as (Hp & Hr & Hw). intros [= <- <- <-]. simpl.
    unfold queue_of. simpl. split_and!; try done; [lia|lia|by simplify_map_eq|by simplify_map_eq].
  - done.
  - intros r w b k (_ & _ & Hre) _. simpl in *. rewrite Hre. unfold queue_of at 1. simpl. by simplify_map_eq.
  - intros fd b k. simpl. by destruct (pk_ends k !! fd).
  - intros r w k (_ & _ & Hre). simpl in *. split; [|done]. case_bool_decide; naive_solver lia.
  - intros r w n k (_ & _ & Hre) _. simpl in *. split; [done|]. split; [|done].
    unfold with_queue, queue_of. simpl. by rewrite lookup_insert_eq.
Qed.

(** A process with the descriptor 3 open, and nothing else. *)
Definition sample_process : process pipe_kernel :=
  {| kern := {| pk_fds := {[3]}; pk_next := 4; pk_ends := ∅; pk_queues := ∅ |}; objs := ∅ |}.

Lemma sample_owns : owns {[3]} sample_process.
Proof.
  split; simpl.
  - intros fd. split; [by left|]. intros [?|(_ & l & Hl)]; [done|]. by rewrite lookup_empty in Hl.
  - intros fd (_ & l & Hl). by rewrite lookup_empty in Hl.
  - intros l l' fd _ Hl. by rewrite lookup_empty in Hl.
Qed.

(** An object adopts the descriptor 3; when it is destroyed nothing is open. *)
Lemma unique_fd_owns_witness :
  ∃ p', exec (ONew 0 3) sample_process = (Ret tt, p') ∧ owns ∅ p'
    ∧ ∃ p'', exec (ODestroy 0) p' = (Ret tt, p'') ∧ open_fds (kern p'') = ∅.
Proof.
  destruct (unique_fd_owns {[3]} sample_process {[3]} sample_process sample_owns (rtc_refl _ _)) as (_ & Hexec & _).
  destruct (Hexec (ONew 0 3)) as [p' Hp']; [by split; [|set_solver]|]. exists p'. split; [done|].
  assert (rtc fd_step ({[3]}, sample_process) (∅, p')) as Hstep.
  { eapply rtc_once. assert (∅ = loose_after {[3]} (objs sample_process) (ONew 0 3)) as -> by (by vm_compute).
    apply step_exec; [by split; [|set_solver]|done]. }
  destruct (unique_fd_owns _ _ _ _ sample_owns Hstep) as (Howns & Hexec' & _). split; [done|].
  injection Hp' as <-. destruct (Hexec' (ODestroy 0)) as [p'' Hp'']; [by eexists|]. exists p''. split; [done|].
  injection Hp'' as <-. by vm_compute.
Defined.

Lemma cancellation_spec_witness :
  ∃ p1 p2, construct {| read_end_ := 0; write_end_ := 1 |} 2 3 sample_process = (Ret tt, p1)
    ∧ (_ ← repeated 2 (trigger {| read_end_ := 0; write_end_ := 1 |});
       repeated 1 (on_kernel (Sock.drain {| Sock.token_fd := 4 |}))) p1 = (Ret tt, p2)
    ∧ (is_triggered {| read_end_ := 0; write_end_ := 1 |} p2).1 = Ret true.
Proof.
  destruct (cancellation_spec {[3]} {| read_end_ := 0; write_end_ := 1 |} 2 3 sample_process 2 1 sample_owns)
    as (p1 & Hp1 & [[_ Ht]|(t & p2 & Ht & Hp2 & Htrig & _)]).
  - split_and!; try done. apply (bool_decide_unpack _). by vm_compute.
  - lia.
  - unfold PIPE_CAPACITY. lia.
  - exfalso. vm_compute in Hp1. injection Hp1 as <-. vm_compute in Ht. discriminate Ht.
  - exists p1, p2. split; [done|]. assert (t = {| Sock.token_fd := 4 |}) as ->.
    { vm_compute in Hp1. injection Hp1 as <-. vm_compute in Ht. by injection Ht as <-. }
    split; [done|exact Htrig].
Defined.
