(* ===== verification/Retry.v ===== *)
(** [src/util/retry_util.hpp], [src/util/algorithm.hpp]: retrying with linear
    backoff, and deduplication. *)
From S2P Require Import Prelude Io.

(** [std::this_thread::sleep_for], in milliseconds. *)
Class Sleep (W : Type) := sleep_for : Z → W → W.

Definition u64 (z : Z) : Z := (z mod 18446744073709551616)%Z.

Section retry.
Context {W : Type} `{Sleep W} {E R : Type}.
Context (func : st W E R) (error_filter : E → bool) (backoff retry : Z).

(** The [while (true)] loop; the result is paired with the value left in
    [*actual_retries].  [counter] is an [unsigned]. *)
(* @fn src/src/util/retry_util.hpp | while (true) { | Utils::Retry::retry_on_error (loop) *)
Fixpoint retry_loop (fuel : nat) (counter : Z) : st W Empty_set ((E + R) * Z) :=
  match fuel with
  | O => lift OutOfFuel
  | S fuel =>
      result ← attempt func;
      match result with
      | inr _ => mret (result, counter)
      | inl e =>
          if negb (error_filter e) then mret (result, counter) else
          let counter := u32 (counter + 1) in
          if (retry <? counter)%Z then mret (result, u32 (counter - 1)) else
          _ ← modify (sleep_for (u64 (backoff * counter)));
          retry_loop fuel counter
      end
  end.

(** Every iteration but the last increments the counter, up to [retry]. *)
(* @fn src/src/util/retry_util.hpp | retry_on_error(Fn &&func ^4 | Utils::Retry::retry_on_error *)
Definition retry_on_error : st W Empty_set ((E + R) * Z) :=
  retry_loop (S (Z.to_nat retry)) 0.

(** [n] calls failed with errors the filter lets through, each followed by
    its pause. *)
Inductive retried : nat → W → W → Prop :=
| retried_0 w : retried 0 w w
| retried_S n w w1 e w2 :
    retried n w w1 → func w1 = (Throw e, w2) → error_filter e = true →
    retried (S n) w (sleep_for (u64 (backoff * Z.of_nat (S n))) w2).

Definition func_total : Prop :=
  ∀ w, ∃ r w', func w = (r, w') ∧ defined r.

Lemma retry_loop_spec fuel n w w1 :
  func_total → (0 ≤ retry < 4294967295)%Z → retried n w w1 → (Z.of_nat n ≤ retry)%Z →
  (retry - Z.of_nat n < Z.of_nat fuel)%Z →
  ∃ k w2 w3 r, retried k w w2 ∧ n ≤ k ∧ (Z.of_nat k ≤ retry)%Z
    ∧ attempt (E':=Empty_set) func w2 = (Ret r, w3)
    ∧ retry_loop fuel (Z.of_nat n) w1 = (Ret (r, Z.of_nat k), w3)
    ∧ (∀ e, r = inl e → error_filter e = false ∨ Z.of_nat k = retry).
Proof using Type.
  intros Htot Hretry. revert n w1. induction fuel as [|fuel IH]; intros n w1 Hn Hle Hf; [lia|].
  destruct (Htot w1) as (r & w2 & Hfun & Hdef).
  assert (∀ res : E + R, attempt (E':=Empty_set) func w1 = (Ret res, w2) →
    retry_loop (S fuel) (Z.of_nat n) w1 = (match res with
      | inr _ => mret (res, Z.of_nat n)
      | inl e => if negb (error_filter e) then mret (res, Z.of_nat n) else
          let counter := u32 (Z.of_nat n + 1) in
          if (retry <? counter)%Z then mret (res, u32 (counter - 1)) else
          _ ← modify (sleep_for (u64 (backoff * counter))); retry_loop fuel counter
      end : st W Empty_set ((E + R) * Z)) w2) as Hstep.
  { intros res Hres. cbn [retry_loop]. unfold mbind at 1, st_bind at 1. rewrite Hres.
    by destruct res. }
  destruct r as [a|e| |]; try done.
  - assert (attempt (E':=Empty_set) func w1 = (Ret (inr a), w2)) as Hat
      by (unfold attempt; by rewrite Hfun).
    exists n, w1, w2, (inr a). rewrite (Hstep _ Hat). split_and!; try done.
  - assert (attempt (E':=Empty_set) func w1 = (Ret (inl e), w2)) as Hat
      by (unfold attempt; by rewrite Hfun).
    specialize (Hstep _ Hat). cbv beta iota zeta in Hstep.
    destruct (error_filter e) eqn:He; cbv beta iota delta [negb] in Hstep.
    2:{ exists n, w1, w2, (inl e). rewrite Hstep. split_and!; try done; try lia.
        intros e' [= ->]. by left. }
    rewrite (u32_small (Z.of_nat n + 1)) in Hstep by (unfold is_u32; lia).
    replace (Z.of_nat n + 1)%Z with (Z.of_nat (S n)) in Hstep by lia.
    destruct (retry <? Z.of_nat (S n))%Z eqn:Hlast; prop_of_bool.
    + exists n, w1, w2, (inl e). rewrite Hstep.
      rewrite u32_small by (unfold is_u32; lia).
      replace (Z.of_nat (S n) - 1)%Z with (Z.of_nat n) by lia.
      split_and!; try done. right. lia.
    + destruct (IH (S n) (sleep_for (u64 (backoff * Z.of_nat (S n))) w2))
        as (k & w3 & w4 & r & Hk & Hnk & Hkr & Hatt & Hrun & Hr); [by econstructor|lia|lia|].
      exists k, w3, w4, r. rewrite Hstep. split_and!; try done. lia.
Qed.
End retry.

(** The retried call's result is that of one of its calls. *)
Lemma retry_answer {W} `{Sleep W} {E R} (func : st W E R) error_filter backoff retry w result n w' :
  func_total func → (0 ≤ retry < 4294967295)%Z →
  retry_on_error func error_filter backoff retry w = (Ret (result, n), w') →
  ∃ w1 w2, func w1 = (match result with inl e => Throw e | inr r => Ret r end, w2).
Proof.
  intros Htot Hmax Hrun.
  destruct (retry_loop_spec func error_filter backoff retry (S (Z.to_nat retry)) 0 w w)
    as (k & w1 & w2 & r & _ & _ & _ & Hat & Hloop & _); [done|done|constructor|lia|lia|].
  unfold retry_on_error in Hrun. change (Z.of_nat 0) with 0%Z in Hloop. rewrite Hloop in Hrun.
  injection Hrun as -> _ _. exists w1, w2. unfold attempt in Hat.
  destruct (func w1) as [[a|e| |] w3]; try done; by injection Hat as <- <-.
Qed.

(** Retrying depends on what the calls do only. *)
Lemma retry_ext {W} `{Sleep W} {E R} (f g : st W E R) (p q : E → bool) backoff retry w :
  (∀ w, f w = g w) → (∀ e, p e = q e) → retry_on_error f p backoff retry w = retry_on_error g q backoff retry w.
Proof.
  intros Hf Hp. unfold retry_on_error. generalize 0%Z as counter. revert w.
  induction (S (Z.to_nat retry)) as [|fuel IH]; intros w counter; [done|]. cbn [retry_loop].
  unfold mbind, st_bind, attempt. rewrite Hf. destruct (g w) as [[a|e| |] w1]; try done.
  rewrite Hp. destruct (negb (q e)); [done|]. cbv zeta. destruct (_ <? _)%Z; [done|]. unfold modify. apply IH.
Qed.

(** * Deduplication *)

Section dedupe.
Context {T : Type} `{EqDecision T}.

(** [std::erase_if] with the set of elements seen so far. *)
(* @src src/src/util/algorithm.hpp 32 36 Utils::dedupe (erase_if) *)
Fixpoint dedupe_from (seen vec : list T) : list T :=
  match vec with
  | [] => []
  | x :: vec => if decide (x ∈ seen) then dedupe_from seen vec else x :: dedupe_from (x :: seen) vec
  end.

(** The vector left and the number of elements removed. *)
(* @fn src/src/util/algorithm.hpp | std::size_t dedupe( ^1 | Utils::dedupe *)
Definition dedupe (vec : list T) : list T * nat :=
  let vec' := dedupe_from [] vec in (vec', length vec - length vec').

Lemma dedupe_from_elem seen vec x : x ∈ dedupe_from seen vec ↔ (x ∈ vec ∧ x ∉ seen).
Proof using Type.
  revert seen. induction vec as [|y vec IH]; intros seen; simpl; [set_solver|].
  case_decide; [rewrite IH; set_solver|].
  rewrite elem_of_cons, IH. destruct (decide (x = y)); set_solver.
Qed.

Lemma dedupe_from_NoDup seen vec : NoDup (dedupe_from seen vec).
Proof using Type.
  revert seen. induction vec as [|y vec IH]; intros seen; simpl; [constructor|].
  case_decide; [done|]. constructor; [|done]. rewrite dedupe_from_elem. set_solver.
Qed.

Lemma dedupe_from_sublist seen vec : sublist (dedupe_from seen vec) vec.
Proof using Type.
  revert seen. induction vec as [|y vec IH]; intros seen; simpl; [done|].
  case_decide; by constructor.
Qed.

End dedupe.

(** * Properties *)

(** Retrying terminates and calls the function at most [retry + 1] times: some
    number [k <= retry] of calls fail with errors the filter lets through, each
    followed by a pause of [backoff] times its ordinal, and the next call's
    result is returned together with [k]; that result is a success, an error the
    filter rejects, or the error of the last call allowed. *)
Theorem retry_on_error_spec {W} `{Sleep W} {E R} (func : st W E R) (error_filter : E → bool)
    (backoff retry : Z) (w : W) :
  func_total func → (0 ≤ retry < 4294967295)%Z →
  ∃ k w1 w2 r, retried func error_filter backoff k w w1 ∧ (Z.of_nat k ≤ retry)%Z
    ∧ attempt (E':=Empty_set) func w1 = (Ret r, w2)
    ∧ retry_on_error func error_filter backoff retry w = (Ret (r, Z.of_nat k), w2)
    ∧ (∀ e, r = inl e → error_filter e = false ∨ Z.of_nat k = retry).
Proof.
  intros Htot Hretry. unfold retry_on_error.
  destruct (retry_loop_spec func error_filter backoff retry (S (Z.to_nat retry)) 0 w w Htot Hretry)
    as (k & w1 & w2 & r & Hk & _ & Hkr & Hat & Hrun & Hr); [constructor|lia|lia|].
  by exists k, w1, w2, r.
Qed.

(** A function that fails twice and then succeeds; the world counts its calls
    and the milliseconds slept. *)
Definition third_time (w : nat * Z) : outcome bool nat * (nat * Z) :=
  (if w.1 <? 2 then Throw true else Ret w.1, (S w.1, w.2)).
#[local] Instance count_sleep : Sleep (nat * Z) := λ ms w, (w.1, (w.2 + ms)%Z).

Lemma retry_on_error_spec_witness :
  func_total third_time ∧
  retry_on_error third_time id 50 3 (0, 0%Z) = (Ret (inr 2, 2%Z), (3, 150%Z)).
Proof.
  assert (func_total third_time) as Htot.
  { intros w. eexists _, _. split; [reflexivity|]. by destruct (w.1 <? 2). }
  split; [exact Htot|].
  destruct (retry_on_error_spec third_time id 50 3 (0, 0%Z) Htot ltac:(lia))
    as (k & w1 & w2 & r & _ & _ & _ & H & _).
  pose proof H as Hv. vm_compute in Hv. rewrite H. symmetry. exact Hv.
Defined.

(** [dedupe] leaves every element of the vector exactly once, in the original
    relative order, and counts what it removed. *)
Theorem dedupe_spec {T} `{EqDecision T} (vec : list T) :
  NoDup (dedupe vec).1 ∧ (∀ x, x ∈ (dedupe vec).1 ↔ x ∈ vec) ∧ sublist (dedupe vec).1 vec
  ∧ length (dedupe vec).1 + (dedupe vec).2 = length vec.
Proof.
  unfold dedupe. simpl. split; [apply dedupe_from_NoDup|].
  split; [intros x; rewrite dedupe_from_elem; set_solver|].
  pose proof (dedupe_from_sublist [] vec) as Hsub. split; [done|].
  apply sublist_length in Hsub. lia.
Qed.
