(* ===== verification/Http.v ===== *)
(** [src/http/]: the HTTP/1.1 client protocol over a byte stream: building a
    request, reading a response's headers and body, one exchange.  The header
    and chunk syntax is picohttpparser's, a parameter ([PicoHttp]); the stream
    is the interface [Stream], which a TLS connection implements. *)
From S2P Require Import Prelude CppString StringUtil Io.

(** * Types *)

(* @fn src/src/http/types.h | enum class Error { | Http::Error *)
Inductive Error :=
| TIMEOUT | CANCELLED | CONNECTION_FAILED
| HEADER_PARSE_FAILED | INCOMPLETE | CONTENT_TYPE_MISMATCH | HEADERS_TOO_LARGE
| BODY_TOO_LARGE | CHUNK_PARSE_FAILED.

#[global] Instance Error_eq_dec : EqDecision Error.
Proof. solve_decision. Defined.

(* @fn src/src/http/types.h | struct ResponseHeaders { | Http::ResponseHeaders *)
Record ResponseHeaders := {
  status_code : Z;
  content_length : Z;
  header_end : nat;
  has_content_length : bool;
  is_chunked : bool
}.

(* @fn src/src/http/types.h | struct Response { | Http::Response *)
Record Response := { r_status_code : Z; r_body : bytes }.

(* @fn src/src/http/types.h | std::string_view error_name( | Http::error_name *)
Definition error_name (e : Error) : bytes :=
  match e with
  | TIMEOUT => str "TIMEOUT"
  | CANCELLED => str "CANCELLED"
  | CONNECTION_FAILED => str "CONNECTION_FAILED"
  | HEADER_PARSE_FAILED => str "HEADER_PARSE_FAILED"
  | INCOMPLETE => str "INCOMPLETE"
  | CONTENT_TYPE_MISMATCH => str "CONTENT_TYPE_MISMATCH"
  | HEADERS_TOO_LARGE => str "HEADERS_TOO_LARGE"
  | BODY_TOO_LARGE => str "BODY_TOO_LARGE"
  | CHUNK_PARSE_FAILED => str "CHUNK_PARSE_FAILED"
  end.

(* @fn src/include/http_type.h | enum class HttpMethod { | HttpMethod *)
Inductive HttpMethod := GET | POST | PUT | DEL | PATCH | HEAD | OPTIONS.

(** The headers are a multimap: the pairs in the order of iteration, sorted by
    key, equal keys in the order of insertion. *)
(* @fn src/include/http_type.h | struct HttpRequest { | HttpRequest *)
Record HttpRequest := {
  content_type : bytes;
  method : HttpMethod;
  headers : list (bytes * bytes);
  body : option bytes
}.

(** [std::string] comparison. *)
Fixpoint lex_ltb (a b : bytes) : bool :=
  match a, b with
  | _, [] => false
  | [], _ :: _ => true
  | x :: a', y :: b' => (x <? y)%Z || (x =? y)%Z && lex_ltb a' b'
  end.

(** [headers.emplace(key, value)]: behind the entries whose key is not greater. *)
Fixpoint emplace (key value : bytes) (hs : list (bytes * bytes)) : list (bytes * bytes) :=
  match hs with
  | [] => [(key, value)]
  | (k, v) :: hs' => if lex_ltb key k then (key, value) :: hs else (k, v) :: emplace key value hs'
  end.

(** ** The transport *)

Module Transport.

(* @fn src/src/network/transport/stream.h | enum class IoError { | Transport::IoError *)
Inductive IoError := TIMEOUT | CANCELLED | CONNECTION_FAILED.

(** The peer and the cancellation token are part of the world. *)
(* @fn src/src/network/transport/stream.h | class Stream { | Transport::Stream *)
Class Stream (W : Type) := {
  (** at most as many bytes as the buffer holds *)
  read_some : nat → W → (IoError + bytes) * W;
  (** a success fills the whole buffer *)
  read_exact : nat → W → (IoError + bytes) * W;
  send_all : bytes → W → (IoError + unit) * W
}.

Class StreamOk (W : Type) `{Stream W} := {
  read_some_length n w b w' : read_some n w = (inr b, w') → length b ≤ n ∧ Forall is_byte b;
  read_exact_length n w b w' : read_exact n w = (inr b, w') → length b = n ∧ Forall is_byte b
}.

(** What the peer will still send is finite: a measure of it that reading
    decreases by the octets read, and that sending leaves alone. *)
Class FinitePeer (W : Type) `{Stream W} (left : W → nat) := {
  left_read_some n w b w' : read_some n w = (inr b, w') → length b + left w' ≤ left w;
  left_send_all b w : left (send_all b w).2 ≤ left w
}.

(* @fn src/src/network/transport/tls_stream.cpp | TlsStream::read_some( ==> switch (result.error()) { | TlsStream (error mapping) *)
Definition of_tls (e : IoStatus) : IoError :=
  match e with
  | IO_TIMEOUT => TIMEOUT
  | IO_CANCELLED => CANCELLED
  | _ => CONNECTION_FAILED
  end.

Definition map_error {W A} (r : (IoStatus + A) * W) : (IoError + A) * W :=
  (match r.1 with inl e => inl (of_tls e) | inr a => inr a end, r.2).

(* @src src/src/network/transport/tls_stream.cpp 10 58 TlsStream *)
#[global] Instance TlsStream {W} `{TlsConnectionBase W} : Stream W := {
  read_some n w := map_error (tls_read_some n w);
  read_exact n w := map_error (tls_read_exact n w);
  send_all b w := map_error (tls_send_all b w)
}.

#[global] Instance TlsStreamOk {W} `{TlsConnectionOk W} : StreamOk W.
Proof.
  split; intros n w b w' Hr; unfold map_error in Hr; simpl in Hr.
  - destruct (tls_read_some n w) as [[e|x] w1] eqn:Hd; simpl in Hr; [done|]. injection Hr as <- <-.
    by apply tls_read_some_length in Hd.
  - destruct (tls_read_exact n w) as [[e|x] w1] eqn:Hd; simpl in Hr; [done|]. injection Hr as <- <-.
    by apply tls_read_exact_length in Hd.
Qed.
End Transport.
Import Transport (Stream, StreamOk, FinitePeer, read_some, read_exact, send_all,
  read_some_length, read_exact_length, left_read_some, left_send_all).

(** ** picohttpparser *)

Inductive phr_response :=
| PhrFailed
| PhrPartial
| PhrHeaders (consumed : nat) (status : Z) (hs : list (bytes * bytes)).

Inductive phr_chunk := ChunkFailed | ChunkPartial | ChunkDone (left_over : nat).

(** [phr_parse_response] on a whole buffer, with room for 64 headers, and
    [phr_decode_chunked] with [consume_trailer]: the decoder's next state and
    the octets it decoded. *)
Class PicoHttp := {
  phr_parse_response : bytes → phr_response;
  phr_chunked_decoder : Type;
  phr_decoder_init : phr_chunked_decoder;
  phr_decode_chunked : phr_chunked_decoder → bytes → phr_chunk * phr_chunked_decoder * bytes
}.

(** Its documentation: the headers end inside the buffer, and decoding is in
    place, so it does not grow the data; octets stay octets. *)
Class PicoHttpOk `{PicoHttp} := {
  phr_consumed buf n status hs : phr_parse_response buf = PhrHeaders n status hs → n ≤ length buf;
  phr_decoded d buf ret d' out :
    phr_decode_chunked d buf = (ret, d', out) →
    length out ≤ length buf ∧ (Forall is_byte buf → Forall is_byte out)
}.

(** * Building a request *)

Definition crlf : bytes := [13; 10]%Z.

(* @fn src/src/http/request.cpp | bool is_host_key( | is_host_key *)
Definition is_host_key (key : bytes) : bool := iequals key (str "Host").

(* @fn src/src/http/request.cpp | std::string sanitize_crlf( | sanitize_crlf *)
Definition sanitize_crlf {E} (s : bytes) : outcome E bytes :=
  if negb (su_contains s [13%Z]) && negb (su_contains s [10%Z]) then Ret s else
  result ← replace_all_copy s [13%Z] [];
  replace_all result [10%Z] [].

(** [magic_enum::enum_name], and the method's name on the wire. *)
(* @src src/src/http/request.cpp 59 62 Http::build_request (method name) *)
Definition method_name (m : HttpMethod) : bytes :=
  match m with
  | GET => str "GET" | POST => str "POST" | PUT => str "PUT" | DEL => str "DELETE"
  | PATCH => str "PATCH" | HEAD => str "HEAD" | OPTIONS => str "OPTIONS"
  end.

(* @src src/src/http/request.cpp 68 75 Http::build_request (has_host) *)
Fixpoint find_host {E} (hs : list (bytes * bytes)) : outcome E bool :=
  match hs with
  | [] => Ret false
  | kv :: hs' =>
      k ← sanitize_crlf kv.1;
      if is_host_key k then Ret true else find_host hs'
  end.

(** The custom headers; a Host header is skipped if the default was written,
    which only happens when there is none. *)
(* @src src/src/http/request.cpp 95 102 Http::build_request (custom headers) *)
Fixpoint custom_headers {E} (has_host : bool) (hs : list (bytes * bytes)) : outcome E bytes :=
  match hs with
  | [] => Ret []
  | kv :: hs' =>
      safe_key ← sanitize_crlf kv.1;
      if negb has_host && is_host_key safe_key then custom_headers has_host hs'
      else
        safe_value ← sanitize_crlf kv.2;
        rest ← custom_headers has_host hs';
        Ret (safe_key ++ str ": " ++ safe_value ++ crlf ++ rest)
  end.

(* @fn src/src/http/request.cpp | std::vector<std::uint8_t> build_request( | Http::build_request *)
Definition build_request {E} (req : HttpRequest) (path host_header user_agent : bytes)
    : outcome E bytes :=
  safe_path ← sanitize_crlf path;
  safe_host ← sanitize_crlf host_header;
  safe_ua ← sanitize_crlf user_agent;
  safe_ct ← sanitize_crlf (content_type req);
  let payload := default [] (body req) in
  let has_body := negb (bool_decide (payload = [])) in
  let line := method_name (method req) ++ str " " ++ safe_path ++ str " HTTP/1.1" ++ crlf in
  has_host ← find_host (headers req);
  let host := if negb has_host then str "Host: " ++ safe_host ++ crlf else [] in
  let ua := str "User-Agent: " ++ safe_ua ++ crlf in
  let ct := if has_body && negb (bool_decide (safe_ct = []))
            then str "Content-Type: " ++ safe_ct ++ crlf else [] in
  let cl := if has_body then str "Content-Length: " ++ dec (Z.of_nat (length payload)) ++ crlf else [] in
  custom ← custom_headers has_host (headers req);
  Ret (line ++ host ++ ua ++ ct ++ cl ++ custom ++ crlf ++ payload).

(** * Parsing a response *)

(** What the loop over the headers has found. *)
(* @src src/src/http/header_parser.cpp 39 42 Http::parse_response (locals) *)
Record found := {
  f_length : option Z;
  f_content_type : bool;
  f_chunked : bool
}.

Section parse.
Context `{PicoHttp}.

(* @fn src/src/http/header_parser.cpp | for (size_t i = 0; i < num_headers; ++i) { | Http::parse_response (headers) *)
Fixpoint scan_headers (expected_content_type : bytes) (hs : list (bytes * bytes)) (f : found)
    : outcome Error found :=
  match hs with
  | [] => Ret f
  | (hname, hvalue) :: hs' =>
      if iequals hname (str "content-length") && negb (bool_decide (is_Some (f_length f))) then
        match from_chars_unsigned 10 SIZE_MAX hvalue with
        | None => Throw HEADER_PARSE_FAILED
        | Some (v, _) => scan_headers expected_content_type hs'
            {| f_length := Some v; f_content_type := f_content_type f; f_chunked := f_chunked f |}
        end
      else if iequals hname (str "content-type") then
        scan_headers expected_content_type hs'
          {| f_length := f_length f;
             f_content_type := f_content_type f || icontains hvalue expected_content_type;
             f_chunked := f_chunked f |}
      else if iequals hname (str "transfer-encoding") then
        scan_headers expected_content_type hs'
          {| f_length := f_length f; f_content_type := f_content_type f;
             f_chunked := f_chunked f || icontains hvalue (str "chunked") |}
      else scan_headers expected_content_type hs' f
  end.

(* @fn src/src/http/header_parser.cpp | Error> parse_response( | Http::parse_response *)
Definition parse_response (buf expected_content_type : bytes) (max_body_size : Z)
    : outcome Error ResponseHeaders :=
  match phr_parse_response buf with
  | PhrPartial => Throw INCOMPLETE
  | PhrFailed => Throw HEADER_PARSE_FAILED
  | PhrHeaders pret status hs =>
      f ← scan_headers expected_content_type hs
            {| f_length := None; f_content_type := false; f_chunked := false |};
      _ ← throw_if (negb (f_content_type f) && negb (bool_decide (expected_content_type = [])))
            CONTENT_TYPE_MISMATCH;
      _ ← throw_if (match f_length f with Some n => max_body_size <? n | None => false end)%Z
            BODY_TOO_LARGE;
      Ret {| status_code := status; content_length := default 0%Z (f_length f); header_end := pret;
             has_content_length := bool_decide (is_Some (f_length f)); is_chunked := f_chunked f |}
  end.

(** * Reading from the stream *)

Context {W : Type} `{Stream W}.

(** The errors of the two reads of [read_body], as [map_io_error] for the headers. *)
(* @fn src/src/http/http.cpp | Http::Error map_io_error( | map_io_error *)
Definition map_io_error (e : Transport.IoError) : Error :=
  match e with
  | Transport.TIMEOUT => TIMEOUT
  | Transport.CANCELLED => CANCELLED
  | Transport.CONNECTION_FAILED => CONNECTION_FAILED
  end.

Definition on_stream {A} (f : W → (Transport.IoError + A) * W) : st W Error A := λ w,
  match f w with
  | (inr a, w') => (Ret a, w')
  | (inl e, w') => (Throw (map_io_error e), w')
  end.

(** The loop over the chunks; each turn but the last reads at least one octet. *)
(* @fn src/src/http/body_parser.cpp | for (;;) { | Http::read_body (chunks) *)
Fixpoint chunk_loop (fuel : nat) (decoder : phr_chunked_decoder) (raw body : bytes)
    (max_body_size : Z) : st W Error bytes :=
  let '(ret, decoder, out) := phr_decode_chunked decoder raw in
  match ret with
  | ChunkFailed => throw CHUNK_PARSE_FAILED
  | _ =>
      if negb (bool_decide (out = [])) && (max_body_size <? Z.of_nat (length body + length out))%Z
      then throw BODY_TOO_LARGE else
      let body := body ++ out in
      match ret with
      | ChunkPartial =>
          match fuel with
          | O => lift OutOfFuel
          | S fuel =>
              raw ← on_stream (read_some 4096);
              if bool_decide (raw = []) then throw CONNECTION_FAILED
              else chunk_loop fuel decoder raw body max_body_size
          end
      | _ => mret body
      end
  end.

(* @fn src/src/http/body_parser.cpp | Error> read_body( | Http::read_body *)
Definition read_body (fuel : nat) (hs : ResponseHeaders) (header_buf : bytes) (max_body_size : Z)
    : st W Error bytes :=
  let buffered := drop (header_end hs) header_buf in
  if has_content_length hs then
    if (Z.of_nat (length buffered) <? content_length hs)%Z then
      rest ← on_stream (read_exact (Z.to_nat (content_length hs) - length buffered));
      mret (buffered ++ rest)
    else mret (take (Z.to_nat (content_length hs)) buffered)
  else if negb (is_chunked hs) then mret []
  else chunk_loop fuel phr_decoder_init buffered [] max_body_size.

(* @fn src/src/http/http.cpp | MAX_HEADER_SIZE = | MAX_HEADER_SIZE *)
Definition MAX_HEADER_SIZE : Z := 8192.
(* @fn src/src/http/http.cpp | MAX_BODY_SIZE = | MAX_BODY_SIZE *)
Definition MAX_BODY_SIZE : Z := 65536.
(* @fn src/src/http/http.cpp | INITIAL_BUF_SIZE = | INITIAL_BUF_SIZE *)
Definition INITIAL_BUF_SIZE : Z := 4096.

(** [data] is the part of the buffer that has been read, [buf_size] its size. *)
(* @fn src/src/http/http.cpp | for (;;) { | read_response (loop) *)
Fixpoint header_loop (fuel chunk_fuel : nat) (data : bytes) (buf_size : Z) : st W Error Response :=
  match parse_response data [] MAX_BODY_SIZE with
  | Ret hs =>
      b ← read_body chunk_fuel hs data MAX_BODY_SIZE;
      mret {| r_status_code := status_code hs; r_body := b |}
  | Throw err =>
      if negb (bool_decide (err = INCOMPLETE)) then throw err else
      let total_read := Z.of_nat (length data) in
      if (MAX_HEADER_SIZE <=? total_read)%Z then throw HEADERS_TOO_LARGE else
      match fuel with
      | O => lift OutOfFuel
      | S fuel =>
          let buf_size := if (total_read =? buf_size)%Z
                          then Z.min (buf_size * 2) MAX_HEADER_SIZE else buf_size in
          b ← on_stream (read_some (Z.to_nat (buf_size - total_read)));
          if bool_decide (b = []) then throw CONNECTION_FAILED
          else header_loop fuel chunk_fuel (data ++ b) buf_size
      end
  | Undef => lift Undef
  | OutOfFuel => lift OutOfFuel
  end.

(** At most [MAX_HEADER_SIZE] reads of the headers; [fuel] bounds the reads of
    a chunked body. *)
(* @fn src/src/http/http.cpp | Http::Error> read_response( | read_response *)
Definition read_response (fuel : nat) : st W Error Response :=
  header_loop (Z.to_nat MAX_HEADER_SIZE) fuel [] (Z.min INITIAL_BUF_SIZE MAX_HEADER_SIZE).

(* @fn src/src/http/http.cpp | std::expected<Response, Error> exchange( | Http::exchange *)
Definition exchange (fuel : nat) (path : bytes) (req : HttpRequest) (host_header user_agent : bytes)
    : st W Error Response :=
  wire ← lift (build_request req path host_header user_agent);
  _ ← on_stream (send_all wire);
  read_response fuel.
End parse.

(** * Requests cannot be injected into *)

(** A text without its CR and LF characters. *)
Definition strip_crlf (s : bytes) : bytes := filter (λ c, c ≠ 13%Z ∧ c ≠ 10%Z) s.

Definition no_crlf (s : bytes) : Prop := 13%Z ∉ s ∧ 10%Z ∉ s.

Lemma subst_remove c s : subst [c] [] s 0 = filter (λ x, x ≠ c) s.
Proof.
  induction s as [|x s IH]; [done|]. cbn [subst starts_with length Nat.sub app].
  destruct (Z.eqb_spec x c) as [->|Hx]; simpl.
  - rewrite filter_cons_False by naive_solver. exact IH.
  - rewrite filter_cons_True by done. by rewrite IH.
Qed.

Lemma su_contains_false s c : su_contains s [c] = false → c ∉ s.
Proof.
  unfold su_contains, contains. destruct (find s [c] 0) eqn:Hf; [done|]. intros _.
  by apply find_char_None in Hf.
Qed.

Lemma strip_crlf_id s : no_crlf s → strip_crlf s = s.
Proof.
  intros [H1 H2]. apply filter_all. apply Forall_forall. intros x Hx.
  split; intros ->; contradiction.
Qed.

Lemma sanitize_crlf_eq {E} s : sanitize_crlf (E:=E) s = Ret (strip_crlf s).
Proof.
  unfold sanitize_crlf. destruct (negb _ && negb _) eqn:Hc.
  - prop_of_bool. rewrite strip_crlf_id; [done|]. split; by apply su_contains_false.
  - unfold replace_all_copy. rewrite replace_all_eq. cbn [mbind outcome_bind].
    rewrite replace_all_eq, !decide_False, !subst_remove by done. f_equal. unfold strip_crlf. rewrite list_filter_filter.
    apply list_filter_iff. naive_solver.
Qed.

Lemma strip_crlf_no_crlf s : no_crlf (strip_crlf s).
Proof. split; intros Hin; apply list_elem_of_filter in Hin as [[? ?] _]; done. Qed.

Lemma no_crlf_app s k : no_crlf (s ++ k) ↔ no_crlf s ∧ no_crlf k.
Proof. unfold no_crlf. rewrite !not_elem_of_app. naive_solver. Qed.

#[local] Instance no_crlf_dec s : Decision (no_crlf s).
Proof. unfold no_crlf. apply _. Defined.

Lemma no_crlf_dec_text n : (0 ≤ n)%Z → no_crlf (dec n).
Proof.
  intros Hn. pose proof (dec_isdigit n Hn) as Hd. rewrite Forall_forall in Hd.
  split; intros Hin; by specialize (Hd _ Hin).
Qed.

(** A literal, a cleaned text, a number. *)
Ltac no_crlf_text :=
  repeat (rewrite no_crlf_app; split);
  first [apply strip_crlf_no_crlf|apply no_crlf_dec_text; lia|apply (bool_decide_unpack _); vm_compute; exact I].

Definition has_host_header (req : HttpRequest) : bool :=
  existsb (λ kv, is_host_key (strip_crlf kv.1)) (headers req).

(** The lines of the request's head. *)
Definition header_lines (req : HttpRequest) (path host_header user_agent : bytes) : list bytes :=
  let payload := default [] (body req) in
  [method_name (method req) ++ str " " ++ strip_crlf path ++ str " HTTP/1.1"]
  ++ (if has_host_header req then [] else [str "Host: " ++ strip_crlf host_header])
  ++ [str "User-Agent: " ++ strip_crlf user_agent]
  ++ (if bool_decide (payload = []) then []
      else (if bool_decide (strip_crlf (content_type req) = []) then []
            else [str "Content-Type: " ++ strip_crlf (content_type req)])
           ++ [str "Content-Length: " ++ dec (Z.of_nat (length payload))])
  ++ map (λ kv, strip_crlf kv.1 ++ str ": " ++ strip_crlf kv.2) (headers req).

(** Every line ended by CR LF. *)
Definition lines_text (ls : list bytes) : bytes := flat_map (λ l, l ++ crlf) ls.

Lemma find_host_eq {E} hs :
  find_host (E:=E) hs = Ret (existsb (λ kv, is_host_key (strip_crlf kv.1)) hs).
Proof.
  induction hs as [|kv hs IH]; simpl; [done|]. rewrite sanitize_crlf_eq. simpl.
  by destruct (is_host_key _).
Qed.

Lemma custom_headers_eq {E} hs b :
  (b = false → existsb (λ kv, is_host_key (strip_crlf kv.1)) hs = false) →
  custom_headers (E:=E) b hs
  = Ret (lines_text (map (λ kv, strip_crlf kv.1 ++ str ": " ++ strip_crlf kv.2) hs)).
Proof.
  induction hs as [|kv hs IH]; intros Hb; cbn [custom_headers]; [done|]. rewrite !sanitize_crlf_eq.
  cbn [mbind outcome_bind].
  destruct (negb b && is_host_key (strip_crlf kv.1)) eqn:Hh.
  - exfalso. apply andb_true_iff in Hh as [Hnb Hk]. apply negb_true_iff in Hnb.
    specialize (Hb Hnb). simpl in Hb. by rewrite Hk in Hb.
  - rewrite IH; [simpl; by rewrite <- !app_assoc|]. intros Hf. specialize (Hb Hf). simpl in Hb.
    by apply orb_false_iff in Hb as [_ Hb].
Qed.

Lemma lines_text_app a b : lines_text (a ++ b) = lines_text a ++ lines_text b.
Proof. apply flat_map_app. Qed.

Lemma lines_text_one l : lines_text [l] = l ++ crlf.
Proof. unfold lines_text. simpl. by rewrite app_nil_r. Qed.

Lemma lines_text_nil : lines_text [] = [].
Proof. done. Qed.

Lemma header_lines_no_crlf req path host ua : Forall no_crlf (header_lines req path host ua).
Proof.
  unfold header_lines.
  apply Forall_app_2; [apply Forall_cons_2; [destruct (method req); no_crlf_text|constructor]|].
  apply Forall_app_2.
  { destruct (has_host_header req); [constructor|apply Forall_cons_2; [no_crlf_text|constructor]]. }
  apply Forall_app_2; [apply Forall_cons_2; [no_crlf_text|constructor]|]. apply Forall_app_2.
  - case_bool_decide; [constructor|]. apply Forall_app_2; [|apply Forall_cons_2; [no_crlf_text|constructor]].
    case_bool_decide; [constructor|]. apply Forall_cons_2; [no_crlf_text|constructor].
  - apply Forall_map, Forall_true. intros kv. no_crlf_text.
Qed.

Lemma build_request_text {E} req path host_header user_agent :
  build_request (E:=E) req path host_header user_agent
  = Ret (lines_text (header_lines req path host_header user_agent) ++ crlf ++ default [] (body req)).
Proof.
  unfold build_request. rewrite !sanitize_crlf_eq.
  cbn [mbind outcome_bind]. rewrite find_host_eq. cbn [mbind outcome_bind].
  fold (has_host_header req).
  rewrite custom_headers_eq by (by unfold has_host_header). cbn [mbind outcome_bind].
  unfold header_lines. f_equal.
  destruct (has_host_header req), (bool_decide (default [] (body req) = [])),
    (bool_decide (strip_crlf (content_type req) = [])); cbn [negb andb];
    rewrite ?lines_text_app, ?lines_text_one, ?lines_text_nil, <- ?app_assoc, ?app_nil_l; done.
Qed.

Lemma build_request_eq {E} req path host_header user_agent :
  ∃ wire, build_request (E:=E) req path host_header user_agent = Ret wire.
Proof. eexists. apply build_request_text. Qed.

(** C35: No input can inject a header or end the head early: a request is its
    lines, each ended by CR LF, an empty line and the unchanged body; the lines
    (request line, Host unless given, User-Agent, Content-Type and
    Content-Length when there is a body, then the custom headers one by one)
    hold no CR and no LF, whatever the path, the host, the user agent, the
    content type and the custom headers were. *)
Theorem build_request_lines {E} (req : HttpRequest) (path host_header user_agent : bytes) :
  build_request (E:=E) req path host_header user_agent
  = Ret (lines_text (header_lines req path host_header user_agent) ++ crlf ++ default [] (body req))
  ∧ Forall no_crlf (header_lines req path host_header user_agent).
Proof. split; [apply build_request_text|apply header_lines_no_crlf]. Qed.

(** * Responses are bounded *)

Section bounded.
Context `{PicoHttpOk}.
Context {W : Type} `{!Stream W, !StreamOk W} (left : W → nat) `{!FinitePeer W left}.

(** The announced length, when there is one, is at most the allowed one. *)
Definition length_ok (hs : ResponseHeaders) : Prop :=
  has_content_length hs = true → (0 ≤ content_length hs ≤ MAX_BODY_SIZE)%Z.

(** The errors the exchange reports: the incomplete header is not one of them. *)
Definition exchange_error (e : Error) : Prop :=
  e ∈ [TIMEOUT; CANCELLED; CONNECTION_FAILED; HEADER_PARSE_FAILED; HEADERS_TOO_LARGE;
       BODY_TOO_LARGE; CHUNK_PARSE_FAILED].

Lemma scan_headers_spec ct hs f :
  (∀ n, f_length f = Some n → (0 ≤ n)%Z) →
  wp (scan_headers ct hs f) (λ f', ∀ n, f_length f' = Some n → (0 ≤ n)%Z)
    (λ e, e = HEADER_PARSE_FAILED).
Proof using All.
  revert f. induction hs as [|[k v] hs IH]; intros f Hf; cbn [scan_headers]; [done|].
  destruct (_ && _).
  { destruct (from_chars_unsigned 10 SIZE_MAX v) as [[n m]|] eqn:Hn; [|done].
    apply IH. intros ? [= <-]. apply (from_chars_unsigned_range 10 _ _ _ _ ltac:(lia) Hn). }
  do 2 (destruct (iequals k _); [by apply IH|]). by apply IH.
Qed.

Lemma parse_response_spec buf :
  wp (parse_response buf [] MAX_BODY_SIZE) (λ hs, header_end hs ≤ length buf ∧ length_ok hs)
    (λ e, e ∈ [INCOMPLETE; HEADER_PARSE_FAILED; BODY_TOO_LARGE]).
Proof using All.
  unfold parse_response. destruct (phr_parse_response buf) as [| |n status hs] eqn:Hp; simpl; [set_solver..|].
  apply wp_bind. eapply wp_mono; [by apply scan_headers_spec| |intros e ->; set_solver].
  intros f Hf. apply wp_throw_if_bind; [rewrite andb_false_r; done|intros _].
  apply wp_throw_if_bind; [set_solver|]. intros Hl. simpl.
  split; [by apply phr_consumed in Hp|]. unfold length_ok. simpl.
  case_bool_decide as Hs; [|done]. destruct (f_length f) as [m|] eqn:Hfl; [|by destruct Hs].
  prop_of_bool. intros _. simpl. split; [by apply Hf|done].
Qed.

Lemma on_stream_spec {A} (f : W → (Transport.IoError + A) * W) (Q : A → W → Prop) (T : Error → W → Prop) w :
  (∀ a w', f w = (inr a, w') → Q a w') →
  (∀ e w', e ∈ [TIMEOUT; CANCELLED; CONNECTION_FAILED] → T e w') →
  swp (on_stream f) Q T w.
Proof using All.
  intros HQ HT. unfold swp, on_stream. destruct (f w) as [[e|a] w'] eqn:Hf; simpl; [|auto].
  apply HT. destruct e; simpl; set_solver.
Qed.

Lemma chunk_loop_spec fuel decoder raw body w :
  Forall is_byte raw → Forall is_byte body → (Z.of_nat (length body) ≤ MAX_BODY_SIZE)%Z → left w < fuel →
  swp (chunk_loop fuel decoder raw body MAX_BODY_SIZE)
    (λ r _, (Z.of_nat (length r) ≤ MAX_BODY_SIZE)%Z ∧ Forall is_byte r)
    (λ e _, exchange_error e) w.
Proof using All.
  revert decoder raw body w. induction fuel as [|fuel IH]; intros decoder raw body w Hraw Hbody Hmax Hfuel; [lia|].
  cbn [chunk_loop]. destruct (phr_decode_chunked decoder raw) as [[ret decoder'] out] eqn:Hd.
  apply phr_decoded in Hd as [_ Hout]. specialize (Hout Hraw).
  assert (Forall is_byte (body ++ out)) as Hb by (by apply Forall_app_2).
  unfold exchange_error in *.
  destruct ret; [apply swp_throw; set_solver| |];
    (destruct (negb _ && _) eqn:Hbig; [apply swp_throw; set_solver|]);
    (assert (Z.of_nat (length (body ++ out)) ≤ MAX_BODY_SIZE)%Z as Hlen;
     [rewrite length_app; apply andb_false_iff in Hbig as [Hbig|Hbig]; prop_of_bool;
        [subst; simpl; lia|lia]|]).
  - apply swp_bind, on_stream_spec; [|set_solver]. intros b w' Hread.
    pose proof (read_some_length _ _ _ _ Hread) as [_ Hbytes].
    pose proof (left_read_some _ _ _ _ Hread) as Hleft.
    destruct (bool_decide (b = [])) eqn:Hne; [apply swp_throw; set_solver|]. apply bool_decide_eq_false_1 in Hne.
    apply IH; [done|done|done|]. destruct b; [done|]. simpl in Hleft. lia.
  - by apply swp_ret.
Qed.

(** The body: exactly as long as announced, or decoded from chunks. *)
Lemma read_body_spec fuel hs buf w :
  Forall is_byte buf → length_ok hs → left w < fuel →
  swp (read_body fuel hs buf MAX_BODY_SIZE)
    (λ r _, (Z.of_nat (length r) ≤ MAX_BODY_SIZE)%Z ∧ Forall is_byte r
      ∧ (has_content_length hs = true → Z.of_nat (length r) = content_length hs))
    (λ e _, exchange_error e) w.
Proof using All.
  intros Hbuf Hl Hfuel. unfold read_body, exchange_error in *.
  assert (Forall is_byte (drop (header_end hs) buf)) as Hdrop by (by apply Forall_drop).
  destruct (has_content_length hs) eqn:Hhas.
  - specialize (Hl Hhas). set (buffered := drop _ _) in *.
    destruct (_ <? _)%Z eqn:Hlt; prop_of_bool.
    + apply swp_bind, on_stream_spec; [|set_solver]. intros b w' Hread.
      apply read_exact_length in Hread as [Hlen Hb]. apply swp_ret.
      rewrite length_app. split; [lia|]. split; [by apply Forall_app_2|lia].
    + apply swp_ret. rewrite length_take. split; [lia|]. split; [by apply Forall_take|lia].
  - destruct (is_chunked hs); simpl.
    + eapply swp_mono; [apply chunk_loop_spec; [done|constructor|done|done]|naive_solver|done].
    + apply swp_ret. done.
Qed.

Lemma header_loop_spec fuel chunk_fuel data buf_size w :
  Forall is_byte data → (0 < buf_size)%Z → (Z.of_nat (length data) ≤ buf_size ≤ MAX_HEADER_SIZE)%Z →
  (MAX_HEADER_SIZE - Z.of_nat (length data) ≤ Z.of_nat fuel)%Z → left w < chunk_fuel →
  swp (header_loop fuel chunk_fuel data buf_size)
    (λ r _, (Z.of_nat (length (r_body r)) ≤ MAX_BODY_SIZE)%Z ∧ Forall is_byte (r_body r))
    (λ e _, exchange_error e) w.
Proof using All.
  revert data buf_size w.
  induction fuel as [|fuel IH]; intros data buf_size w Hdata Hpos Hbuf Hfuel Hleft; cbn [header_loop];
    pose proof (parse_response_spec data) as Hp;
    (destruct (parse_response data [] MAX_BODY_SIZE) as [hs|err| |]; [|..|done|done]);
    unfold exchange_error in *; simpl in Hp.
  1,3: destruct Hp as [Hend Hl]; eapply swp_call; [by apply read_body_spec| |done];
    intros b w' (Hlen & Hb & _); by apply swp_ret.
  all: (case_bool_decide as He; [|apply swp_throw; set_solver]); cbn [negb];
    (destruct (MAX_HEADER_SIZE <=? _)%Z eqn:Hmax; [apply swp_throw; set_solver|]); prop_of_bool.
  { lia. }
  set (size := if (_ =? _)%Z then _ else _).
  assert (Z.of_nat (length data) < size ≤ MAX_HEADER_SIZE)%Z as Hsize.
  { subst size. destruct (_ =? _)%Z eqn:Hfull; prop_of_bool; lia. }
  apply swp_bind, on_stream_spec; [|set_solver]. intros b w' Hread.
  pose proof (read_some_length _ _ _ _ Hread) as [Hlen Hbytes].
  pose proof (left_read_some _ _ _ _ Hread) as Hl.
  case_bool_decide as Hne; [apply swp_throw; set_solver|].
  assert (0 < length b) by (destruct b; [done|simpl; lia]).
  apply IH; [by apply Forall_app_2|lia|rewrite length_app; lia|rewrite length_app; lia|lia].
Qed.

Lemma exchange_spec fuel path req host ua w :
  left w < fuel →
  swp (exchange fuel path req host ua)
    (λ r _, (Z.of_nat (length (r_body r)) ≤ MAX_BODY_SIZE)%Z ∧ Forall is_byte (r_body r))
    (λ e _, exchange_error e) w.
Proof using All.
  intros Hfuel. unfold exchange. apply swp_bind, swp_lift.
  destruct (build_request_eq (E:=Error) req path host ua) as [wire ->]. cbn [wp].
  apply swp_bind, on_stream_spec.
  2:{ unfold exchange_error. set_solver. }
  intros [] w' Hsend. pose proof (left_send_all wire w) as Hl. rewrite Hsend in Hl. simpl in Hl.
  unfold read_response. apply header_loop_spec; unfold MAX_HEADER_SIZE, INITIAL_BUF_SIZE; simpl; try lia.
  constructor.
Qed.
End bounded.

(** ** What an exchange takes off the stream *)

(** [arriving w] is all that the peer will send.  A read takes what it returns; one
    that fails may have taken something when it was to fill its buffer, never more
    than that. *)
Class ArrivingStream (W : Type) `{Stream W} (arriving : W → bytes) := {
  arrives_some n w r w' : read_some n w = (r, w') →
    arriving w = match r with inr b => b | inl _ => [] end ++ arriving w';
  arrives_exact n w r w' : read_exact n w = (r, w') →
    ∃ taken, arriving w = taken ++ arriving w' ∧ length taken ≤ n;
  arrives_send b w : arriving (send_all b w).2 = arriving w
}.

(** Then the peer is finite. *)
#[global] Instance arriving_finite {W} `{ArrivingStream W arriving} : FinitePeer W (λ w, length (arriving w)).
Proof.
  split.
  - intros n w b w' Hr. apply arrives_some in Hr. rewrite Hr, length_app. lia.
  - intros b w. by rewrite arrives_send.
Qed.

(** The limits: a head of at most 8192 octets and, when it announces a length, a
    rest of at most 65536; none when it announces no body.  A body in chunks is
    decoded until its end: the limit of 65536 is on what it decodes to, and there is
    none on what is taken off the stream for it. *)
Definition rest_within (head : outcome Error ResponseHeaders) (rest : bytes) : Prop :=
  match head with
  | Ret hs => if has_content_length hs then (Z.of_nat (length rest) ≤ content_length hs ≤ 65536)%Z
              else if is_chunked hs then True else rest = []
  | _ => rest = []
  end.

Definition within_limits `{PicoHttp} (taken : bytes) : Prop :=
  ∃ head rest, taken = head ++ rest ∧ (Z.of_nat (length head) ≤ 8192)%Z
    ∧ rest_within (parse_response head [] 65536) rest.

Section takes.
Context `{PicoHttpOk} {W : Type} `{!Stream W, !StreamOk W} (arriving : W → bytes) `{!ArrivingStream W arriving}.

(** Whatever [m] ends with, it has taken octets off the stream of which [R] holds. *)
Definition takes {A} (m : st W Error A) (R : bytes → Prop) : Prop :=
  ∀ w, ∃ taken, arriving w = taken ++ arriving (m w).2 ∧ R taken.

Lemma takes_nothing {A} (m : st W Error A) (R : bytes → Prop) : (∀ w, (m w).2 = w) → R [] → takes m R.
Proof using All. intros Hm HR w. exists []. by rewrite Hm. Qed.

Lemma takes_then {A B} (m : st W Error A) (f : A → st W Error B) R :
  takes m R → (∀ a w, (f a w).2 = w) → takes (m ≫= f) R.
Proof using All.
  intros Hm Hf w. destruct (Hm w) as (t & Ht & HR). exists t. split; [|done].
  unfold mbind, st_bind. destruct (m w) as [[a|e| |] w'] eqn:Hw; simpl in *; try done. by rewrite Hf.
Qed.

Lemma takes_some {B} n (f : bytes → st W Error B) (R : bytes → Prop) :
  R [] → (∀ b, length b ≤ n → takes (f b) (λ t, R (b ++ t))) → takes (b ← on_stream (read_some n); f b) R.
Proof using All.
  intros Hr0 Hf w. unfold mbind, st_bind, on_stream. destruct (read_some n w) as [[e|b] w'] eqn:Hr; simpl.
  - exists []. by rewrite (arrives_some _ _ _ _ Hr).
  - destruct (Hf b (proj1 (read_some_length _ _ _ _ Hr)) w') as (t & Ht & HR). exists (b ++ t). split; [|done].
    by rewrite (arrives_some _ _ _ _ Hr), Ht, <- app_assoc.
Qed.

Lemma takes_exact n (R : bytes → Prop) : (∀ t, length t ≤ n → R t) → takes (on_stream (read_exact n)) R.
Proof using All.
  intros HR w. unfold on_stream. destruct (read_exact n w) as [r w'] eqn:Hr.
  destruct (arrives_exact _ _ _ _ Hr) as (t & Ht & Hl). exists t. split; [|auto]. by destruct r.
Qed.

Lemma chunk_loop_takes fuel decoder raw body max : takes (chunk_loop fuel decoder raw body max) (λ _, True).
Proof using All.
  revert decoder raw body. induction fuel as [|fuel IH]; intros decoder raw body; cbn [chunk_loop];
    destruct (phr_decode_chunked decoder raw) as [[[| |] d] out]; try destruct (_ && _); try by apply takes_nothing.
  apply takes_some; [done|]. intros b _. case_bool_decide; [by apply takes_nothing|]. by apply IH.
Qed.

Lemma read_body_takes fuel hs buf :
  length_ok hs →
  takes (read_body fuel hs buf MAX_BODY_SIZE)
    (λ t, if has_content_length hs then (Z.of_nat (length t) ≤ content_length hs ≤ MAX_BODY_SIZE)%Z
          else if is_chunked hs then True else t = []).
Proof using All.
  intros Hl. unfold read_body, length_ok in *. destruct (has_content_length hs).
  - specialize (Hl eq_refl). destruct (_ <? _)%Z; [|apply takes_nothing; simpl; [done|lia]].
    apply takes_then; [|done]. apply takes_exact. intros t Ht. lia.
  - destruct (is_chunked hs); simpl; [apply chunk_loop_takes|by apply takes_nothing].
Qed.

(** Behind [data], which has been read before. *)
Definition headed (data taken : bytes) : Prop :=
  ∃ head rest, taken = head ++ rest ∧ (Z.of_nat (length (data ++ head)) ≤ MAX_HEADER_SIZE)%Z
    ∧ rest_within (parse_response (data ++ head) [] MAX_BODY_SIZE) rest.

Lemma headed_now data t :
  (Z.of_nat (length data) ≤ MAX_HEADER_SIZE)%Z → rest_within (parse_response data [] MAX_BODY_SIZE) t → headed data t.
Proof using All. intros Hl Ht. exists [], t. by rewrite (app_nil_r data). Qed.

Lemma headed_later data b t : headed (data ++ b) t → headed data (b ++ t).
Proof using All.
  intros (head & rest & -> & Hl & HR). exists (b ++ head), rest. rewrite (app_assoc data b head), <- app_assoc. by split_and!.
Qed.

Lemma header_loop_takes fuel chunk_fuel data buf_size :
  (Z.of_nat (length data) ≤ buf_size ≤ MAX_HEADER_SIZE)%Z →
  takes (header_loop fuel chunk_fuel data buf_size) (headed data).
Proof using All.
  revert data buf_size. induction fuel as [|fuel IH]; intros data buf_size Hbuf; cbn [header_loop];
    pose proof (parse_response_spec (λ w, length (arriving w)) data) as Hp;
    pose proof (headed_now data) as Hnow;
    destruct (parse_response data [] MAX_BODY_SIZE) as [hs|err| |] eqn:Hparse; try done; cbn [wp] in Hp.
  1,3: apply takes_then; [|done]; intros w; destruct Hp as [_ Hl];
    destruct (read_body_takes chunk_fuel hs data Hl w) as (t & Ht & HR);
    exists t; split; [exact Ht|]; apply Hnow; [lia|exact HR].
  all: assert (headed data []) as Hnone by (apply Hnow; [lia|done]).
  all: destruct (negb _); [by apply takes_nothing|]; destruct (MAX_HEADER_SIZE <=? _)%Z eqn:Hmax;
    [by apply takes_nothing|]; prop_of_bool.
  { by apply takes_nothing. }
  set (size := if (_ =? _)%Z then _ else _).
  assert (Z.of_nat (length data) ≤ size ≤ MAX_HEADER_SIZE)%Z as Hsize by (subst size; destruct (_ =? _)%Z; lia).
  apply takes_some; [done|]. intros b Hb. case_bool_decide as Hne.
  { subst b. by apply takes_nothing. }
  intros w. destruct (IH (data ++ b) size ltac:(rewrite length_app; lia) w) as (t & Ht & HR).
  exists t. split; [exact Ht|]. by apply headed_later.
Qed.

Lemma exchange_takes fuel path req host ua w :
  ∃ taken, arriving w = taken ++ arriving (exchange fuel path req host ua w).2 ∧ within_limits taken.
Proof using All.
  unfold exchange, mbind at 1, st_bind at 1, lift.
  destruct (build_request_eq (E:=Error) req path host ua) as [wire ->]. unfold mbind, st_bind, on_stream.
  pose proof (arrives_send wire w) as Hs. destruct (send_all wire w) as [[e|[]] w1]; simpl in Hs |- *; rewrite <- Hs.
  - exists []. split; [done|]. exists [], []. split; [done|]. split; [simpl; lia|].
    unfold rest_within. destruct (parse_response [] [] 65536) as [hs| | |] eqn:Hp; try done.
    pose proof (parse_response_spec (λ w, length (arriving w)) []) as Hspec. unfold MAX_BODY_SIZE, length_ok in Hspec. rewrite Hp in Hspec.
    destruct Hspec as [_ Hspec]. destruct (has_content_length hs); [specialize (Hspec eq_refl); done|by destruct (is_chunked hs)].
  - destruct (header_loop_takes (Z.to_nat MAX_HEADER_SIZE) fuel [] (Z.min INITIAL_BUF_SIZE MAX_HEADER_SIZE)
      ltac:(unfold MAX_HEADER_SIZE, INITIAL_BUF_SIZE; simpl; lia) w1) as (t & Ht & HR). by exists t.
Qed.
End takes.

(** C33: An exchange with a peer that sends finitely many octets ends, whatever
    they are: it never reads outside its buffers, and returns a response whose body
    has at most 65536 octets, or one of the errors other than INCOMPLETE and
    CONTENT_TYPE_MISMATCH.  In both cases it has taken off the stream a head of at
    most 8192 octets and then no more than the announced length of the body, which
    is at most 65536, or nothing when there is no body.  For a body in chunks the
    limit is on the decoded octets only: how many octets it takes to decode them is
    up to the peer. *)
Theorem exchange_bounded `{PicoHttpOk} {W} `{!Stream W, !StreamOk W} (arriving : W → bytes)
    `{!ArrivingStream W arriving} (fuel : nat) (path : bytes) (req : HttpRequest) (host ua : bytes) (w : W) :
  length (arriving w) < fuel →
  ∃ w' taken, arriving w = taken ++ arriving w' ∧ within_limits taken
    ∧ ((∃ r, exchange fuel path req host ua w = (Ret r, w')
          ∧ (Z.of_nat (length (r_body r)) ≤ 65536)%Z ∧ Forall is_byte (r_body r))
       ∨ ∃ e, exchange fuel path req host ua w = (Throw e, w') ∧ exchange_error e).
Proof.
  intros Hfuel. destruct (exchange_takes arriving fuel path req host ua w) as (taken & Ht & Hl).
  destruct (swp_cases _ _ _ _ (exchange_spec (λ w, length (arriving w)) fuel path req host ua w Hfuel))
    as [(r & w' & Hr & Hb & Hby)|(e & w' & He & Hx)]; exists w', taken.
  - rewrite Hr in Ht. split_and!; [done..|]. left. by exists r.
  - rewrite He in Ht. split_and!; [done..|]. right. by exists e.
Qed.

(** ** A sample peer and parser *)

(** A parser that looks for the empty line and takes the two headers it is given. *)
Definition sample_pico (hs : list (bytes * bytes)) : PicoHttp := {|
  phr_parse_response := λ buf,
    match find buf (crlf ++ crlf) 0 with
    | Some p => PhrHeaders (p + 4) 200 hs
    | None => PhrPartial
    end;
  phr_chunked_decoder := unit;
  phr_decoder_init := tt;
  phr_decode_chunked := λ d buf, (if bool_decide (buf = []) then ChunkPartial else ChunkDone 0, d, buf)
|}.

Lemma sample_pico_ok hs : @PicoHttpOk (sample_pico hs).
Proof.
  split; simpl.
  - intros buf n status hs'. destruct (find buf _ 0) as [p|] eqn:Hf; [|done]. intros [= <- <- <-].
    apply find_Some_bound in Hf as [_ Hl]. simpl in Hl. lia.
  - intros d buf ret d' out [= <- <- <-]. by split.
Qed.

(** A peer that sends its octets in pieces of at most [n]. *)
#[local] Instance sample_stream : Stream bytes := {
  read_some n w := (inr (map u8 (take n w)), drop n w);
  read_exact n w := if n <=? length w then (inr (map u8 (take n w)), drop n w)
                    else (inl Transport.CONNECTION_FAILED, w);
  send_all b w := (inr tt, w)
}.

#[local] Instance sample_stream_ok : StreamOk bytes.
Proof.
  split; intros n w b w' Hr; simpl in Hr.
  - injection Hr as <- <-. rewrite length_map, length_take. split; [lia|].
    apply Forall_map, Forall_true. intros z. apply u8_is_byte.
  - destruct (n <=? length w) eqn:Hn; [|done]. prop_of_bool. injection Hr as <- <-.
    rewrite length_map, length_take. split; [lia|]. apply Forall_map, Forall_true. intros z. apply u8_is_byte.
Qed.

#[local] Instance sample_arriving : ArrivingStream bytes (map u8).
Proof.
  split; [..|done].
  - intros n w r w' Hr. simpl in Hr. injection Hr as <- <-. by rewrite <- map_app, take_drop.
  - intros n w r w' Hr. simpl in Hr. destruct (n <=? length w); injection Hr as <- <-.
    + exists (map u8 (take n w)). rewrite <- map_app, take_drop. split; [done|]. rewrite length_map, length_take. lia.
    + exists []. split; [done|simpl; lia].
Qed.

Definition sample_request : HttpRequest :=
  {| content_type := str "text/plain"; method := POST;
     headers := [(str "X-A", [13; 10]%Z ++ str "Evil: 1")]; body := Some (str "hi") |}.

Definition sample_response : bytes := str "HTTP/1.1 200 OK" ++ crlf ++ crlf ++ str "hello".

Lemma exchange_bounded_witness :
  length sample_response < 30 ∧
  ∃ w', @exchange (sample_pico [(str "Content-Length", str "5")]) bytes _ 30 (str "/") sample_request
    (str "h") (str "ua") sample_response = (Ret {| r_status_code := 200; r_body := str "hello" |}, w').
Proof.
  split; [vm_compute; lia|].
  destruct (@exchange_bounded (sample_pico [(str "Content-Length", str "5")])
    (sample_pico_ok _) bytes _ _ (map u8) _ 30 (str "/") sample_request (str "h") (str "ua") sample_response)
    as (w' & taken & _ & _ & [(r & H & _)|(e & H & _)]).
  - vm_compute. lia.
  - exists w'. vm_compute in H. injection H as <- <-. vm_compute. reflexivity.
  - vm_compute in H. discriminate H.
Defined.

Lemma build_request_example :
  build_request (E:=Error) sample_request (str "/a") (str "h") (str "u")
  = Ret (str "POST /a HTTP/1.1" ++ crlf ++ str "Host: h" ++ crlf ++ str "User-Agent: u" ++ crlf
         ++ str "Content-Type: text/plain" ++ crlf ++ str "Content-Length: 2" ++ crlf
         ++ str "X-A: Evil: 1" ++ crlf ++ crlf ++ str "hi").
Proof. vm_compute. reflexivity. Qed.
