(* ===== verification/HttpExchange.v ===== *)
(** What an HTTP exchange ([src/http/http.cpp]) delivers: the response that the
    peer has sent, however the transport cuts it into pieces. *)
From S2P Require Import Prelude CppString Io Http.
Import Transport (Stream, read_some, read_exact, send_all).

(** * A peer that answers *)

(** [text w] is what the peer has still to send.  While the world is [quiet], no
    read fails or is cancelled as long as there is some of it, and a read gives as
    much of it as the transport likes. *)
Class ServingPeer (W : Type) `{Stream W} (quiet : W → Prop) (text : W → bytes) := {
  serves_some n w : quiet w → 0 < n →
    ∃ k w', read_some n w = (inr (take k (text w)), w') ∧ text w' = drop k (text w) ∧ k ≤ n
      ∧ (text w ≠ [] → 0 < k) ∧ quiet w';
  serves_exact n w : quiet w → n ≤ length (text w) →
    ∃ w', read_exact n w = (inr (take n (text w)), w') ∧ text w' = drop n (text w) ∧ quiet w'
}.

(** The documentation of [phr_decode_chunked]: it is called again with what comes
    next, and nothing is decoded from nothing. *)
Class ChunkedOk `{PicoHttp} := {
  decode_nothing : phr_decode_chunked phr_decoder_init [] = (ChunkPartial, phr_decoder_init, []);
  decode_on d a d' out b : phr_decode_chunked d a = (ChunkPartial, d', out) →
    phr_decode_chunked d (a ++ b)
      = let '(ret, d'', out') := phr_decode_chunked d' b in (ret, d'', out ++ out')
}.

Section texts.
Context `{PicoHttp}.

(** The headers of a response: complete only with their last octet. *)
Record head_text (head : bytes) (status : Z) (hs : list (bytes * bytes)) : Prop := {
  head_complete rest : phr_parse_response (head ++ rest) = PhrHeaders (length head) status hs;
  head_prefix k : k < length head → phr_parse_response (take k head) = PhrPartial
}.

(** A body in chunks, likewise. *)
Record chunked_text (text payload : bytes) : Prop := {
  chunked_complete : ∃ left_over d, phr_decode_chunked phr_decoder_init text = (ChunkDone left_over, d, payload);
  chunked_prefix k : k < length text →
    ∃ d out, phr_decode_chunked phr_decoder_init (take k text) = (ChunkPartial, d, out)
}.

(** The octets that follow the headers, the body they stand for, and what is more.
    Without a length and without chunks the program takes the body to be empty; it
    does not read up to the end of the connection. *)
Inductive body_text (f : found) : bytes → bytes → bytes → Prop :=
| text_of_length body more :
    f_length f = Some (Z.of_nat (length body)) → body_text f (body ++ more) body more
| text_of_chunks text payload :
    f_length f = None → f_chunked f = true → chunked_text text payload → body_text f text payload []
| text_of_none text :
    f_length f = None → f_chunked f = false → body_text f text [] text.

(** A response that the exchange has room for, and what is more. *)
Inductive response_text : bytes → Response → bytes → Prop :=
| text_of_response head status hs f wire body more :
    head_text head status hs →
    scan_headers [] hs {| f_length := None; f_content_type := false; f_chunked := false |} = Ret f →
    body_text f wire body more →
    (Z.of_nat (length head) ≤ MAX_HEADER_SIZE)%Z → (Z.of_nat (length body) ≤ MAX_BODY_SIZE)%Z →
    response_text (head ++ wire) {| r_status_code := status; r_body := body |} more.
End texts.

Section delivers.
Context `{ChunkedOk} {W : Type} `{!Stream W} (quiet : W → Prop) (text : W → bytes) `{!ServingPeer W quiet text}.

(** What an exchange leaves. *)
Definition leaves (more : bytes) (w : W) : Prop := quiet w ∧ ∃ n, text w = drop n more.

Lemma leaves_drop more n w : quiet w → text w = drop n more → leaves more w.
Proof using Type. intros Hq Ht. split; [done|by exists n]. Qed.

Lemma swp_read_some {A} n (k : bytes → st W Error A) Q T w :
  quiet w → 0 < n →
  (∀ j w', quiet w' → text w' = drop j (text w) → j ≤ n → (text w ≠ [] → 0 < j) → swp (k (take j (text w))) Q T w') →
  swp (b ← on_stream (read_some n); k b) Q T w.
Proof using All.
  intros Hq Hn Hk. destruct (serves_some n w Hq Hn) as (j & w' & Hr & Ht & Hj & Hpos & Hq').
  apply swp_bind. unfold swp at 1, on_stream. rewrite Hr. cbn [fst snd wp]. by apply Hk.
Qed.

(** What has been decoded before grows into the payload. *)
Lemma decoded_prefix ct payload c k d body ret d' out :
  chunked_text ct payload →
  phr_decode_chunked phr_decoder_init (take c ct) = (ChunkPartial, d, body) →
  phr_decode_chunked d (take k (drop c ct)) = (ret, d', out) →
  phr_decode_chunked phr_decoder_init (take (c + k) ct) = (ret, d', body ++ out)
  ∧ length (body ++ out) ≤ length payload
  ∧ ((c + k < length ct ∧ ret = ChunkPartial)
     ∨ (length ct ≤ c + k ∧ (∃ left_over, ret = ChunkDone left_over) ∧ body ++ out = payload)).
Proof using All.
  intros [(lo & dn & Hall) Hpre] Hbody Hraw. rewrite <- take_take_drop.
  assert (phr_decode_chunked phr_decoder_init (take c ct ++ take k (drop c ct)) = (ret, d', body ++ out)) as Hboth.
  { rewrite (decode_on _ _ _ _ (take k (drop c ct)) Hbody). by rewrite Hraw. }
  split; [done|]. rewrite take_take_drop in Hboth. destruct (decide (c + k < length ct)) as [Hlt|Hge].
  - destruct (Hpre _ Hlt) as (d1 & o1 & H1). rewrite Hboth in H1. injection H1 as -> -> <-.
    split; [|by left]. pose proof (decode_on _ _ _ _ (drop (c + k) ct) Hboth) as Hon. rewrite take_drop, Hall in Hon.
    destruct (phr_decode_chunked d1 _) as [[r2 d2] o2]. injection Hon as _ _ ->. rewrite (length_app (body ++ out)). lia.
  - rewrite take_ge, Hall in Hboth by lia. injection Hboth as <- _ <-. split; [done|]. right. split; [lia|].
    split; [by eexists|done].
Qed.

Lemma chunk_loop_delivers ct payload fuel c k d body w :
  chunked_text ct payload → (Z.of_nat (length payload) ≤ MAX_BODY_SIZE)%Z →
  phr_decode_chunked phr_decoder_init (take c ct) = (ChunkPartial, d, body) →
  quiet w → text w = drop k (drop c ct) → length (text w) < fuel →
  swp (chunk_loop fuel d (take k (drop c ct)) body MAX_BODY_SIZE) (λ b w', b = payload ∧ leaves [] w') (λ _ _, False) w.
Proof using All.
  intros Hct Hmax. revert c k d body w. induction fuel as [|fuel IH]; intros c k d body w Hbody Hq Hw Hfuel; [lia|].
  cbn [chunk_loop]. destruct (phr_decode_chunked d _) as [[ret d'] out] eqn:Hraw.
  destruct (decoded_prefix ct payload c k d body ret d' out Hct Hbody Hraw) as (Hnext & Hlen & Hret).
  assert (negb (bool_decide (out = [])) && (MAX_BODY_SIZE <? Z.of_nat (length body + length out))%Z = false) as Hsmall.
  { apply andb_false_intro2, Z.ltb_ge. rewrite length_app in Hlen. lia. }
  destruct Hret as [[Hlt ->]|(Hge & (lo & ->) & <-)]; rewrite Hsmall.
  2:{ apply swp_ret. split; [done|]. apply (leaves_drop _ 0); [done|]. rewrite Hw, drop_drop. by apply drop_ge. }
  apply swp_read_some; [done|lia|]. intros j w' Hq' Ht Hj Hpos.
  assert (text w ≠ []) as Hne.
  { rewrite Hw, drop_drop. intros Hnil. apply (f_equal length) in Hnil. rewrite length_drop in Hnil. simpl in Hnil. lia. }
  clear Hsmall. specialize (Hpos Hne). rewrite Hw, drop_drop in *. case_bool_decide as Hb.
  { apply (f_equal length) in Hb. rewrite length_take, length_drop in Hb. simpl in Hb. lia. }
  apply IH; [done|done|by rewrite Ht, !drop_drop, Nat.add_assoc|]. rewrite Ht, !length_drop. rewrite length_drop in Hfuel. lia.
Qed.

(** The body, of which [b] octets came with the headers. *)
Lemma read_body_delivers fuel head status hs f wire body more b w :
  head_text head status hs → body_text f wire body more → (Z.of_nat (length body) ≤ MAX_BODY_SIZE)%Z →
  quiet w → text w = drop b wire → length (text w) < fuel →
  swp (read_body fuel {| status_code := status; content_length := default 0%Z (f_length f); header_end := length head;
                         has_content_length := bool_decide (is_Some (f_length f)); is_chunked := f_chunked f |}
         (head ++ take b wire) MAX_BODY_SIZE) (λ r w', r = body ∧ leaves more w') (λ _ _, False) w.
Proof using All.
  intros Hhead Hbody Hmax Hq Hw Hfuel. unfold read_body. cbn [header_end has_content_length content_length is_chunked].
  rewrite drop_app_length. destruct Hbody as [body more Hf|ct payload Hf Hc Hct|wire Hf Hc]; rewrite Hf.
  - rewrite bool_decide_true by done. cbn [default from_option]. unfold id. rewrite Nat2Z.id.
    destruct (_ <? _)%Z eqn:Hlt; prop_of_bool; rewrite length_take, length_app in Hlt.
    + destruct (serves_exact (length body - b) w Hq) as (w' & Hr & Ht & Hq').
      { rewrite Hw, length_drop, length_app. lia. }
      apply swp_bind. unfold swp at 1, on_stream. rewrite length_take, length_app.
      replace (length body - b `min` (length body + length more)) with (length body - b) by lia.
      rewrite Hr. cbn [fst snd wp]. apply swp_ret. rewrite Hw, take_take_drop. rewrite Hw, drop_drop in Ht.
      replace (b + (length body - b)) with (length body) in * by lia. rewrite take_app_length.
      split; [done|]. apply (leaves_drop _ 0); [done|]. by rewrite Ht, drop_app_length.
    + apply swp_ret. split; [|apply (leaves_drop _ (b - length body)); [done|]; by rewrite Hw, drop_app_ge by lia].
      rewrite take_take. replace (length body `min` b) with (length body) by lia.
      by rewrite take_app_length.
  - rewrite bool_decide_false by (by intros [? [=]]). rewrite Hc. cbn [negb].
    apply (chunk_loop_delivers ct payload fuel 0 b phr_decoder_init [] w); try done. apply decode_nothing.
  - rewrite bool_decide_false by (by intros [? [=]]). rewrite Hc. apply swp_ret. split; [done|].
    by apply (leaves_drop _ b).
Qed.

Lemma parse_partial head status hs k :
  head_text head status hs → k < length head →
  parse_response (take k head) [] MAX_BODY_SIZE = Throw INCOMPLETE.
Proof using Type. intros [_ Hp] Hk. unfold parse_response. by rewrite Hp. Qed.

Lemma parse_whole head status hs f rest :
  head_text head status hs → scan_headers [] hs {| f_length := None; f_content_type := false; f_chunked := false |} = Ret f →
  (∀ n, f_length f = Some n → (n ≤ MAX_BODY_SIZE)%Z) →
  parse_response (head ++ rest) [] MAX_BODY_SIZE
    = Ret {| status_code := status; content_length := default 0%Z (f_length f); header_end := length head;
             has_content_length := bool_decide (is_Some (f_length f)); is_chunked := f_chunked f |}.
Proof using Type.
  intros [Hh _] Hf Hmax. unfold parse_response. rewrite Hh, Hf. cbn [mbind outcome_bind].
  rewrite (bool_decide_true ([] = [])), andb_false_r by done. cbn [throw_if mbind outcome_bind].
  destruct (f_length f) as [n|]; [|done]. rewrite (proj2 (Z.ltb_ge _ _)) by by apply Hmax. done.
Qed.

Lemma body_text_max f wire body more n :
  body_text f wire body more → (Z.of_nat (length body) ≤ MAX_BODY_SIZE)%Z → f_length f = Some n → (n ≤ MAX_BODY_SIZE)%Z.
Proof using Type. intros Hb Hm Hn. destruct Hb; congruence. Qed.

Section loop.
Context (head wire body more : bytes) (status : Z) (hs : list (bytes * bytes)) (f : found).
Context (Hhead : head_text head status hs).
Context (Hscan : scan_headers [] hs {| f_length := None; f_content_type := false; f_chunked := false |} = Ret f).
Context (Hbody : body_text f wire body more) (Hmax : (Z.of_nat (length body) ≤ MAX_BODY_SIZE)%Z).
Context (Hsmall : (Z.of_nat (length head) ≤ MAX_HEADER_SIZE)%Z).

Lemma header_loop_whole fuel chunk_fuel j buf_size w :
  length head ≤ j → quiet w → text w = drop j (head ++ wire) → length (text w) < chunk_fuel →
  swp (header_loop fuel chunk_fuel (take j (head ++ wire)) buf_size)
    (λ r w', r = {| r_status_code := status; r_body := body |} ∧ leaves more w') (λ _ _, False) w.
Proof using All.
  intros Hj Hq Hw Hleft. rewrite take_app_ge by done.
  assert (header_loop fuel chunk_fuel (head ++ take (j - length head) wire) buf_size
    = (b ← read_body chunk_fuel {| status_code := status; content_length := default 0%Z (f_length f);
             header_end := length head; has_content_length := bool_decide (is_Some (f_length f));
             is_chunked := f_chunked f |} (head ++ take (j - length head) wire) MAX_BODY_SIZE;
       mret {| r_status_code := status; r_body := b |})) as ->.
  { destruct fuel; cbn [header_loop]; rewrite (parse_whole head status hs f _ Hhead Hscan); try done;
      intros n Hn; by eapply body_text_max. }
  eapply swp_call.
  - apply (read_body_delivers chunk_fuel head status hs f wire body more); try done. rewrite Hw. by rewrite drop_app_ge.
  - intros b w' [-> Hl]. by apply swp_ret.
  - done.
Qed.

Lemma header_loop_delivers fuel chunk_fuel j buf_size w :
  (0 < buf_size ≤ MAX_HEADER_SIZE)%Z → (Z.of_nat j ≤ buf_size)%Z → (MAX_HEADER_SIZE - Z.of_nat j ≤ Z.of_nat fuel)%Z →
  quiet w → text w = drop j (head ++ wire) → length (text w) < chunk_fuel →
  swp (header_loop fuel chunk_fuel (take j (head ++ wire)) buf_size)
    (λ r w', r = {| r_status_code := status; r_body := body |} ∧ leaves more w') (λ _ _, False) w.
Proof using All.
  revert j buf_size w. induction fuel as [|fuel IH]; intros j buf_size w Hbuf Hj Hfuel Hq Hw Hleft;
    (destruct (decide (length head ≤ j)) as [Hge|Hlt]; [by apply header_loop_whole|apply not_le in Hlt]); [lia|].
  cbn [header_loop]. assert (length (take j (head ++ wire)) = j) as Hlen by (rewrite length_take, length_app; lia).
  rewrite Hlen, take_app_le, (parse_partial head status hs) by (done || lia).
  rewrite bool_decide_true by done. cbn [negb]. rewrite (proj2 (Z.leb_gt _ _)) by lia.
  set (size := if (_ =? _)%Z then _ else _).
  assert (Z.of_nat j < size ≤ MAX_HEADER_SIZE)%Z as Hsize.
  { subst size. destruct (_ =? _)%Z eqn:Hfull; prop_of_bool; lia. }
  apply swp_read_some; [done|lia|]. intros k w' Hq' Ht Hk Hpos.
  assert (length (text w) ≠ 0) as Hne by (rewrite Hw, length_drop, length_app; lia).
  assert (text w ≠ []) as Htext by (intros Hnil; by rewrite Hnil in Hne). specialize (Hpos Htext).
  rewrite bool_decide_false.
  2:{ intros Hnil. apply (f_equal length) in Hnil. rewrite length_take in Hnil. simpl in Hnil. lia. }
  assert (take j head ++ take k (text w) = take (j + k) (head ++ wire)) as ->.
  { rewrite Hw, <- take_take_drop. by rewrite take_app_le by lia. }
  apply IH; [lia|lia|lia|done|by rewrite Ht, Hw, drop_drop|]. rewrite Ht, length_drop. lia.
Qed.
End loop.

(** The exchange, for a peer whose response is there once the request is sent. *)
Lemma exchange_serves fuel path req host ua w b w1 r more :
  build_request (E:=Error) req path host ua = Ret b → send_all b w = (inr tt, w1) →
  quiet w1 → response_text (text w1) r more → length (text w1) < fuel →
  swp (exchange fuel path req host ua) (λ r' w', r' = r ∧ leaves more w') (λ _ _, False) w.
Proof using All.
  intros Hb Hs Hq Hr Hfuel. unfold exchange. apply swp_bind, swp_lift. rewrite Hb. cbn [wp].
  apply swp_bind. unfold swp at 1, on_stream. rewrite Hs. cbn [fst snd wp].
  remember (text w1) as t eqn:Ht. destruct Hr as [head status hs f wire body more Hhead Hscan Hbody Hsmall Hmax].
  unfold read_response. change [] with (take 0 (head ++ wire)).
  apply (header_loop_delivers head wire body more status hs f); try done; rewrite <- ?Ht; try done;
    unfold MAX_HEADER_SIZE, INITIAL_BUF_SIZE; lia.
Qed.
End delivers.

(** C34: An exchange delivers the response that the peer gives to the request, its
    status and its body, however the transport cuts it into pieces: a body of the
    announced length, whatever follows it, or one in chunks, or none.  Headers of at
    most 8192 octets and bodies of at most 65536 are read, and what is left to read
    on the connection is some of what follows the response. *)
Theorem exchange_delivers `{ChunkedOk} {W : Type} `{!Stream W} (quiet : W → Prop) (text : W → bytes)
    `{!ServingPeer W quiet text} fuel (path : bytes) (req : HttpRequest) (host ua : bytes) (w w1 : W) b r more :
  build_request (E:=Error) req path host ua = Ret b → send_all b w = (inr tt, w1) →
  quiet w1 → response_text (text w1) r more → length (text w1) < fuel →
  ∃ w' n, exchange fuel path req host ua w = (Ret r, w') ∧ quiet w' ∧ text w' = drop n more.
Proof.
  intros Hb Hs Hq Hr Hfuel.
  destruct (swp_cases _ _ _ _ (exchange_serves quiet text fuel path req host ua w b w1 r more Hb Hs Hq Hr Hfuel))
    as [(r' & w' & Hex & -> & Hq' & n & Hn)|(e & w' & _ & [])]. by exists w', n.
Qed.

(** ** An example *)

(** A peer whose octets come three at a time. *)
#[local] Instance slow_stream : Stream bytes := {
  read_some n w := (inr (take (n `min` 3) w), drop (n `min` 3) w);
  read_exact n w := (inr (take n w), drop n w);
  send_all b w := (inr tt, w)
}.

#[local] Instance slow_peer : ServingPeer bytes (λ _, True) id.
Proof.
  split.
  - intros n w _ Hn. exists (n `min` 3), (drop (n `min` 3) w). split_and!; [done..|lia| |done]. lia.
  - intros n w _ _. by exists (drop n w).
Qed.

(** A parser of the headers that announce a length, and of chunks that have been
    decoded already. *)
Definition sample_head (digits : bytes) : bytes :=
  str "HTTP/1.1 200 OK" ++ crlf ++ str "Content-Length: " ++ digits ++ crlf ++ crlf.

Definition head_pico (digits : bytes) : PicoHttp := {|
  phr_parse_response := λ buf,
    if starts_with buf (sample_head digits)
    then PhrHeaders (length (sample_head digits)) 200 [(str "Content-Length", digits)] else PhrPartial;
  phr_chunked_decoder := unit;
  phr_decoder_init := tt;
  phr_decode_chunked := λ d buf, (ChunkPartial, d, buf)
|}.

Lemma head_pico_chunked digits : @ChunkedOk (head_pico digits).
Proof. split; [done|]. by intros [] a [] out b [= <-]. Qed.

Lemma sample_head_text digits :
  @head_text (head_pico digits) (sample_head digits) 200 [(str "Content-Length", digits)].
Proof.
  split.
  - intros rest. cbn [phr_parse_response head_pico]. by rewrite (proj2 (starts_with_spec _ _)) by eauto.
  - intros k Hk. cbn [phr_parse_response head_pico]. destruct (starts_with _ _) eqn:Hs; [|done]. exfalso.
    apply starts_with_occurs in Hs as [Hl _]. rewrite length_take in Hl. lia.
Qed.

(** The response of that length. *)
Lemma sample_response_text digits body more :
  from_chars_unsigned 10 SIZE_MAX digits = Some (Z.of_nat (length body), length digits) →
  (Z.of_nat (length (sample_head digits)) ≤ MAX_HEADER_SIZE)%Z → (Z.of_nat (length body) ≤ MAX_BODY_SIZE)%Z →
  @response_text (head_pico digits) (sample_head digits ++ body ++ more)
    {| r_status_code := 200; r_body := body |} more.
Proof.
  intros Hd Hh Hb.
  eapply (@text_of_response (head_pico digits) _ _ _
    {| f_length := Some (Z.of_nat (length body)); f_content_type := false; f_chunked := false |}).
  - apply sample_head_text.
  - cbn [scan_headers]. change (_ && _) with true. cbn match. by rewrite Hd.
  - by apply text_of_length.
  - done.
  - done.
Qed.

Lemma exchange_delivers_witness :
  ∃ w' n, @exchange (head_pico (str "5")) bytes _ 60 (str "/") sample_request (str "h") (str "ua")
      (sample_head (str "5") ++ str "hello, and more")
    = (Ret {| r_status_code := 200; r_body := str "hello" |}, w') ∧ True ∧ w' = drop n (str ", and more").
Proof.
  destruct (build_request_eq (E:=Error) sample_request (str "/") (str "h") (str "ua")) as [b Hb].
  apply (@exchange_delivers (head_pico (str "5")) (head_pico_chunked _) bytes _ (λ _, True) id _ 60 (str "/")
    sample_request (str "h") (str "ua") (sample_head (str "5") ++ str "hello, and more")
    (sample_head (str "5") ++ str "hello, and more") b
    {| r_status_code := 200; r_body := str "hello" |} (str ", and more")).
  - exact Hb.
  - reflexivity.
  - exact I.
  - apply (sample_response_text (str "5") (str "hello") (str ", and more")); vm_compute;
      [reflexivity|discriminate|discriminate].
  - vm_compute. lia.
Defined.
