(* ===== verification/HttpClient.v ===== *)
(** [src/network/http_client.cpp], [include/http_type.h]: the HTTP client of the
    updater and of the address sources, over cpp-httplib. *)
From S2P Require Import Prelude CppString Address Uri StringUtil Io Http.

(** A [std::exception] with its [what()], or another exception. *)
Inductive exn := StdException (what : bytes) | OtherExn.

(** The text of [std::out_of_range] is the library's. *)
Definition uri_exn (e : UriError) : exn :=
  match e with
  | RuntimeError w => StdException w
  | OutOfRange => StdException (str "basic_string_view::substr")
  end.

(** A call of [Uri] from code that does not catch. *)
Definition uri_st {W A} (m : outcome UriError A) : st W exn A := λ w,
  (match m with
   | Ret a => Ret a
   | Throw e => Throw (uri_exn e)
   | Undef => Undef
   | OutOfFuel => OutOfFuel
   end, w).

(** A call that does not throw. *)
Definition perform {W E A} (f : W → A * W) : st W E A := λ w, (Ret (f w).1, (f w).2).

(* @fn src/include/http_type.h | struct HttpResponse { | HttpResponse *)
Record HttpResponse := {
  rs_status_code : Z;
  rs_body : bytes;
  rs_headers : list (bytes * bytes)
}.

(** Times are in seconds. *)
(* @fn src/src/network/http_client.h | struct HttpClientOptions { | HttpClientOptions *)
Record HttpClientOptions := {
  address_family : option AddressFamily;
  interface : option bytes;
  ca_cert_path : option bytes;
  verify_server_cert : option bool;
  connection_timeout : option Z;
  read_timeout : option Z;
  write_timeout : option Z;
  follow_location : option bool;
  keep_alive : option bool;
  default_headers : option (list (bytes * bytes))
}.

Definition no_options : HttpClientOptions := {|
  address_family := None; interface := None; ca_cert_path := None; verify_server_cert := None;
  connection_timeout := None; read_timeout := None; write_timeout := None; follow_location := None;
  keep_alive := None; default_headers := None |}.

(** What has been set on an [httplib::Client]; [None] is the library's default. *)
Record ClientSettings := {
  cs_base_url : bytes;
  cs_ca_cert_path : option bytes;
  cs_verify : option bool;
  cs_interface : option bytes;
  cs_address_family : AddressFamily;
  cs_connection_timeout : Z;
  cs_read_timeout : Z;
  cs_write_timeout : option Z;
  cs_follow_location : bool;
  cs_keep_alive : option bool;
  cs_default_headers : list (bytes * bytes)
}.

(** A call of one of the client's request functions: only [Post], [Put] and
    [Patch] take a body and its type. *)
Record HttpCall := {
  hc_method : HttpMethod;
  hc_path : bytes;
  hc_headers : list (bytes * bytes);
  hc_body : option (bytes * bytes)
}.

(** cpp-httplib: sending, with the text of an error; and its percent encoding.  A
    call is all that the library does for it, the redirects included that it follows
    when [cs_follow_location] is set. *)
Class Httplib (W : Type) := {
  httplib_send : ClientSettings → HttpCall → W → (bytes + HttpResponse) * W;
  encode_query_component : bytes → bytes
}.

(* @fn src/src/network/http_client.cpp | std::string build_request( | build_request *)
Definition build_request {E} (uri : Uri) : outcome E bytes :=
  query ← get_query_string uri;
  path ← get_path uri;
  Ret (if bool_decide (query = []) then path else path ++ str "?" ++ query).

(** The host is written as [get_host] gives it, without brackets. *)
(* @fn src/src/network/http_client.cpp | std::string build_base_url( | build_base_url *)
Definition build_base_url {E} (uri : Uri) : outcome E bytes :=
  schema ← get_schema uri;
  host ← get_host uri;
  port ← get_port uri;
  Ret (schema ++ str "://" ++ host ++ str ":" ++ dec port).

Section client.
Context {W : Type} `{Httplib W} `{InetText}.
(** [Utils::Cert::discover_ca_bundle], and the program's name and version. *)
Context (discover_ca_bundle : option bytes) (full_version : bytes).

(* @fn src/src/network/http_client.cpp | httplib::Result dispatch( | dispatch *)
Definition dispatch (client : ClientSettings) (path : bytes) (req : HttpRequest) (w : W)
    : (bytes + HttpResponse) * W :=
  let with_body := Some (default [] (body req), content_type req) in
  let call b := {| hc_method := method req; hc_path := c_str path; hc_headers := headers req; hc_body := b |} in
  match method req with
  | POST | PUT | PATCH => httplib_send client (call with_body) w
  | GET | DEL | HEAD | OPTIONS => httplib_send client (call None) w
  end.

(* @fn src/src/network/http_client.cpp | void apply_options( | apply_options *)
Definition apply_options {E} (base_url : bytes) (uri : Uri) (opts : HttpClientOptions) : outcome E ClientSettings :=
  schema ← get_schema uri;
  let ca_path :=
    if bool_decide (schema = str "https") then
      match ca_cert_path opts with Some p => Some p | None => discover_ca_bundle end
    else None in
  Ret {|
    cs_base_url := base_url;
    cs_ca_cert_path := ca_path;
    cs_verify := match ca_path with Some _ => Some (default true (verify_server_cert opts)) | None => None end;
    cs_interface := match interface opts with Some i => if bool_decide (i = []) then None else Some i | None => None end;
    cs_address_family := default UNSPECIFIED (address_family opts);
    cs_connection_timeout := default 5%Z (connection_timeout opts);
    cs_read_timeout := default 5%Z (read_timeout opts);
    cs_write_timeout := write_timeout opts;
    cs_follow_location := default true (follow_location opts);
    cs_keep_alive := keep_alive opts;
    cs_default_headers := (str "User-Agent", full_version) :: default [] (default_headers opts)
  |}.

(* @fn src/src/network/http_client.cpp | HttpResult do_exchange( | do_exchange *)
Definition do_exchange (client : ClientSettings) (uri : Uri) (req : HttpRequest) : st W exn (bytes + HttpResponse) :=
  path ← uri_st (build_request uri);
  perform (dispatch client path req).

(* @fn src/src/network/http_client.cpp | std::string HttpClient::params_to_query_string( | HttpClient::params_to_query_string *)
Definition params_to_query_string (params : list (bytes * bytes)) : bytes :=
  join ((λ p, encode_query_component p.1 ++ str "=" ++ encode_query_component p.2) <$> params) (str "&").

(** [new httplib::Client(build_base_url(uri))], with the options applied. *)
Definition new_client (uri : Uri) (opts : HttpClientOptions) : st W exn ClientSettings :=
  base_url ← uri_st (build_base_url uri);
  uri_st (apply_options base_url uri opts).

(* @fn src/src/network/http_client.cpp | HttpResult TransientHttpClient::exchange( | TransientHttpClient::exchange *)
Definition transient_exchange (opts_ : HttpClientOptions) (url : bytes) (req : HttpRequest)
    : st W exn (bytes + HttpResponse) :=
  uri ← uri_st (Uri.parse url);
  client ← new_client uri opts_;
  do_exchange client uri req.

(** The client that stays open; it is made for one URI. *)
(* @fn src/src/network/http_client.cpp | PersistentHttpClient::PersistentHttpClient( | PersistentHttpClient::PersistentHttpClient *)
Definition PersistentHttpClient (uri : Uri) (opts : HttpClientOptions) : st W exn ClientSettings :=
  client ← new_client uri opts;
  mret {| cs_base_url := cs_base_url client; cs_ca_cert_path := cs_ca_cert_path client;
          cs_verify := cs_verify client; cs_interface := cs_interface client;
          cs_address_family := cs_address_family client;
          cs_connection_timeout := cs_connection_timeout client; cs_read_timeout := cs_read_timeout client;
          cs_write_timeout := cs_write_timeout client; cs_follow_location := cs_follow_location client;
          cs_keep_alive := Some (default true (keep_alive opts));
          cs_default_headers := cs_default_headers client |}.

(* @fn src/src/network/http_client.cpp | HttpResult PersistentHttpClient::exchange( | PersistentHttpClient::exchange *)
Definition persistent_exchange (uri_ : Uri) (client_ : ClientSettings) (url : bytes) (req : HttpRequest)
    : st W exn (bytes + HttpResponse) :=
  target ← (if bool_decide (url = []) then mret uri_ else uri_st (Uri.parse url));
  do_exchange client_ target req.

(** The body of a GET, by either client's [exchange]. *)
(* @fn src/src/network/http_client.cpp | HttpClient::get_body( | HttpClient::get_body *)
Definition client_get_body (exchange : bytes → HttpRequest → st W exn (bytes + HttpResponse)) (url : bytes) :
    st W exn (option bytes) :=
  resp ← exchange url {| method := GET; headers := []; body := None; content_type := [] |};
  mret (match resp with inl _ => None | inr r => Some (rs_body r) end).
End client.

(** ** Which URLs a client can be made for *)

(** A URI that has a port gives a base URL; one without (an empty text, a bare
    path) makes the client read a missing port. *)
Lemma base_url_defined `{InetText} url u :
  Uri.parse url = Ret u → (∃ p, port_ u = Some p) → ∃ b, build_base_url (E:=UriError) u = Ret b.
Proof.
  intros Hu [p Hp]. destruct (parse_in_bounds_ok url u Hu) as [_ Hs Hh _ _ _ _ _].
  unfold build_base_url, get_schema, get_host, get_port, view, slice_view, slice_ok in *.
  rewrite !(proj2 (Nat.leb_le _ _)) by lia. rewrite Hp. simpl. eauto.
Qed.

(** Examples: a URL without an authority; an IPv6 host loses its brackets. *)
Example base_url_examples :
  (∃ u, @Uri.parse sample_text (str "/update?ip=1") = Ret u ∧ build_base_url (E:=UriError) u = Undef)
  ∧ (∃ u, @Uri.parse sample_text (str "http://[::1]/ip") = Ret u
        ∧ build_base_url (E:=UriError) u = Ret (str "http://::1:80")).
Proof. split; eexists; (split; [vm_compute; reflexivity|]); vm_compute; reflexivity. Qed.
