(* ===== verification/NetDevices.v ===== *)
(** [src/network/net_devices.cpp]: the host's network interfaces.  [getifaddrs]
    and the conversions between names and indices are the C library's. *)
From S2P Require Import Prelude CppString Io Address HttpClient.
Local Open Scope Z_scope.

(** An entry of the list that [getifaddrs] makes: an address of a family other
    than IPv4 and IPv6 is [AF_UNSPEC] here; of a mask, the four octets where a
    [sockaddr_in] has its [sin_addr]. *)
Record ifaddrs := {
  ifa_name : bytes;
  ifa_flags : Z;
  ifa_addr : option SocketAddr;
  ifa_netmask : option bytes
}.

Class NetLib (K : Type) := {
  (** [None] when it fails *)
  getifaddrs : K → option (list ifaddrs) * K;
  (** 0 when there is no such interface *)
  if_nametoindex : bytes → K → Z * K;
  if_indextoname : Z → K → option bytes * K
}.

Definition IFF_UP : Z := 1.
Definition IFF_LOOPBACK : Z := 8.
Definition IFF_POINTOPOINT : Z := 16.

(** * [std::map<std::string, std::vector<InetAddress>>]

    A map is the list of its entries in the order of their keys. *)

(** [std::string]'s order: by octets, a proper prefix first. *)
Fixpoint bytes_lt (a b : bytes) : bool :=
  match a, b with
  | [], [] => false
  | [], _ :: _ => true
  | _ :: _, [] => false
  | x :: a, y :: b => (x <? y) || (x =? y) && bytes_lt a b
  end.

Definition InterfaceMap : Type := list (bytes * list InetAddress).

(** [map[name].emplace_back(address)] *)
Fixpoint emplace_back (name : bytes) (address : InetAddress) (m : InterfaceMap) : InterfaceMap :=
  match m with
  | [] => [(name, [address])]
  | (key, addresses) :: m' =>
      if bool_decide (key = name) then (key, addresses ++ [address]) :: m'
      else if bytes_lt name key then (name, [address]) :: m
      else (key, addresses) :: emplace_back name address m'
  end.

(** [map.find(name)]: the keys are distinct, the first match is the only one. *)
Definition find_interface (name : bytes) (m : InterfaceMap) : option (list InetAddress) :=
  '(_, kv) ← list_find (λ kv, kv.1 = name) m; Some kv.2.

Module NetDevices.

(* @fn src/src/network/net_devices.h | struct Ipv4Subnet { | NetDevices::Ipv4Subnet *)
Record Ipv4Subnet := { address : Inet4Address; netmask : Inet4Address }.

Section net_devices.
Context {K : Type} `{NetLib K}.

Definition library {A} (f : K → A * K) : st K exn A := λ k, let '(a, k') := f k in (Ret a, k').

(* @fn src/src/network/net_devices.cpp | IfAddrPtr query_ifaddrs() { | query_ifaddrs *)
Definition query_ifaddrs : st K exn (list ifaddrs) :=
  ifa ← library getifaddrs;
  match ifa with
  | None => throw (StdException (str "getifaddrs() failed"))
  | Some l => mret l
  end.

(** The address of an entry, of either family. *)
(* @src src/src/network/net_devices.cpp 45 67 NetDevices::enumerate_interfaces (entry) *)
Definition entry_address (ifa : ifaddrs) : option InetAddress :=
  match ifa_addr ifa with
  | Some (AF_INET _ a) => Some (V4 {| v4_addr := a |})
  | Some (AF_INET6 _ a scope) => Some (V6 {| v6_addr := a; v6_scope_id := scope |})
  | Some AF_UNSPEC | None => None
  end.

(* @fn src/src/network/net_devices.cpp | > enumerate_interfaces() { | NetDevices::enumerate_interfaces *)
Definition enumerate_interfaces : st K exn InterfaceMap :=
  l ← query_ifaddrs;
  mret (foldl (λ result ifa,
    match entry_address ifa with
    | Some a => emplace_back (ifa_name ifa) a result
    | None => result
    end) [] l).

(* @src src/src/network/net_devices.cpp 78 96 NetDevices::get_ipv4_subnets (entry) *)
Definition entry_subnet (iface_name : bytes) (ifa : ifaddrs) : option Ipv4Subnet :=
  match ifa_addr ifa, ifa_netmask ifa with
  | Some (AF_INET _ a), Some mask =>
      if bool_decide (iface_name = ifa_name ifa)
      then Some {| address := {| v4_addr := a |}; netmask := {| v4_addr := mask |} |} else None
  | _, _ => None
  end.

(* @fn src/src/network/net_devices.cpp | std::vector<Ipv4Subnet> get_ipv4_subnets( | NetDevices::get_ipv4_subnets *)
Definition get_ipv4_subnets (iface_name : bytes) : st K exn (list Ipv4Subnet) :=
  l ← query_ifaddrs;
  mret (omap (entry_subnet iface_name) l).

(* @fn src/src/network/net_devices.cpp | unsigned int name_to_index( | NetDevices::name_to_index *)
Definition name_to_index (name : bytes) : st K exn Z := library (if_nametoindex (c_str name)).

(* @fn src/src/network/net_devices.cpp | std::string index_to_name( | NetDevices::index_to_name *)
Definition index_to_name (index : Z) : st K exn bytes :=
  name ← library (if_indextoname index);
  mret (default [] name).

(** Whether an entry is of an interface that is up, neither a loopback nor a
    tunnel, and of the family asked for. *)
(* @src src/src/network/net_devices.cpp 106 116 NetDevices::find_default_interface_index (conditions) *)
Definition suitable (address_family : AddressFamily) (ifa : ifaddrs) : bool :=
  match ifa_addr ifa with
  | None => false
  | Some a =>
      match address_family, a with
      | UNSPECIFIED, _ | IPV4, AF_INET _ _ | IPV6, AF_INET6 _ _ _ => true
      | _, _ => false
      end
      && negb ((Z.land (ifa_flags ifa) IFF_UP =? 0)
               || negb (Z.land (ifa_flags ifa) IFF_LOOPBACK =? 0)
               || negb (Z.land (ifa_flags ifa) IFF_POINTOPOINT =? 0))
  end.

Fixpoint first_index (address_family : AddressFamily) (l : list ifaddrs) : st K exn Z :=
  match l with
  | [] => mret 0
  | ifa :: l =>
      if suitable address_family ifa then
        index ← name_to_index (ifa_name ifa);
        if 0 <? index then mret index else first_index address_family l
      else first_index address_family l
  end.

(* @fn src/src/network/net_devices.cpp | unsigned int find_default_interface_index( | NetDevices::find_default_interface_index *)
Definition find_default_interface_index (address_family : AddressFamily) : st K exn Z :=
  l ← query_ifaddrs;
  first_index address_family l.

(* @fn src/src/network/net_devices.cpp | std::string loopback_name() { | NetDevices::loopback_name *)
Definition loopback_name : st K exn bytes :=
  l ← query_ifaddrs;
  mret (match list_find (λ ifa, negb (Z.land (ifa_flags ifa) IFF_LOOPBACK =? 0) = true) l with
        | Some (_, ifa) => ifa_name ifa
        | None => []
        end).
End net_devices.
End NetDevices.
Import NetDevices.

(** * Proofs *)

Lemma bytes_lt_irrefl a : bytes_lt a a = false.
Proof. induction a as [|x a IH]; [done|]. simpl. by rewrite Z.ltb_irrefl, Z.eqb_refl, IH. Qed.

Lemma bytes_lt_trans a b c : bytes_lt a b = true → bytes_lt b c = true → bytes_lt a c = true.
Proof.
  revert b c. induction a as [|x a IH]; intros [|y b] [|z c]; try done. simpl.
  rewrite !orb_true_iff, !andb_true_iff, !Z.ltb_lt, !Z.eqb_eq.
  intros [?|[-> Hab]] [?|[-> Hbc]]; [left; lia|left; lia|left; lia|right]. eauto.
Qed.

Lemma bytes_lt_total a b : bytes_lt a b = false → a ≠ b → bytes_lt b a = true.
Proof.
  revert b. induction a as [|x a IH]; intros [|y b]; try done. simpl.
  rewrite orb_false_iff, andb_false_iff, orb_true_iff, andb_true_iff, Z.ltb_ge, Z.ltb_lt, Z.eqb_neq, Z.eqb_eq.
  intros [Hle Hab] Hne. destruct (decide (x = y)) as [->|]; [right|left; lia].
  split; [done|]. destruct Hab as [?|Hab]; [done|]. apply IH; congruence.
Qed.

(** Every key of the entries is after [name]. *)
Definition all_after (name : bytes) (m : InterfaceMap) : Prop := Forall (λ kv, bytes_lt name kv.1 = true) m.

(** The keys ascend, so they are distinct. *)
Fixpoint ascending (m : InterfaceMap) : Prop :=
  match m with
  | [] => True
  | (key, _) :: m' => all_after key m' ∧ ascending m'
  end.

Lemma all_after_trans a b m : bytes_lt a b = true → all_after b m → all_after a m.
Proof. intros Hab Hm. eapply Forall_impl; [exact Hm|]. intros kv. by apply bytes_lt_trans. Qed.

Lemma emplace_back_after k name a m :
  bytes_lt k name = true → all_after k m → all_after k (emplace_back name a m).
Proof.
  intros Hk. induction m as [|[key l] m IH]; intros Hm; simpl; [by constructor|].
  inversion Hm; subst. case_bool_decide; [by constructor|]. destruct (bytes_lt name key); [by constructor|].
  constructor; [done|]. by apply IH.
Qed.

Lemma emplace_back_ascending name a m : ascending m → ascending (emplace_back name a m).
Proof.
  induction m as [|[key l] m IH]; simpl; [by repeat constructor|]. intros [Hk Hm]. case_bool_decide as Hn; [done|].
  destruct (bytes_lt name key) eqn:Hlt; simpl.
  - split; [|done]. constructor; [done|]. by apply (all_after_trans _ key).
  - split; [|by apply IH]. apply emplace_back_after; [|done]. apply bytes_lt_total; congruence.
Qed.

Lemma find_interface_cons name key l m :
  find_interface name ((key, l) :: m) = if bool_decide (key = name) then Some l else find_interface name m.
Proof.
  unfold find_interface. simpl. case_decide; case_bool_decide; try done.
  by destruct (list_find _ m) as [[i kv]|].
Qed.

Lemma find_interface_after name m : all_after name m → find_interface name m = None.
Proof.
  induction m as [|[key l] m IH]; intros Hm; [done|]. inversion Hm as [|x y Hk Hm']; subst.
  rewrite find_interface_cons, bool_decide_false; [by apply IH|].
  intros ->. simpl in Hk. by rewrite bytes_lt_irrefl in Hk.
Qed.

Lemma find_emplace_back name name' a m :
  ascending m →
  find_interface name (emplace_back name' a m)
  = if bool_decide (name' = name) then Some (default [] (find_interface name m) ++ [a]) else find_interface name m.
Proof.
  induction m as [|[key l] m IH]; intros Hm; [by simpl; rewrite find_interface_cons|].
  destruct Hm as [Hk Hm]. simpl emplace_back.
  destruct (decide (key = name')) as [<-|Hn]; [rewrite (bool_decide_true (key = key)) by done
    |rewrite (bool_decide_false (key = name')) by done].
  - rewrite !find_interface_cons. by case_bool_decide.
  - destruct (bytes_lt name' key) eqn:Hlt.
    + rewrite (find_interface_cons name name'). case_bool_decide as Hn'; [|done]. subst name'.
      rewrite (find_interface_after name ((key, l) :: m)); [done|].
      constructor; [done|]. by apply (all_after_trans _ key).
    + rewrite !find_interface_cons. destruct (decide (key = name)) as [->|Hne].
      * rewrite !bool_decide_true by done. by rewrite bool_decide_false.
      * rewrite !(bool_decide_false (key = name)) by done. by apply IH.
Qed.

(** The addresses of one interface, in the list's order. *)
Definition addresses_of (name : bytes) (l : list ifaddrs) : list InetAddress :=
  omap (λ ifa, if bool_decide (ifa_name ifa = name) then entry_address ifa else None) l.

Lemma enumerate_fold name l m :
  ascending m →
  let m' := foldl (λ result ifa, match entry_address ifa with
    | Some a => emplace_back (ifa_name ifa) a result | None => result end) m l in
  ascending m' ∧ default [] (find_interface name m') = default [] (find_interface name m) ++ addresses_of name l
  ∧ (find_interface name m' = None ↔ find_interface name m = None ∧ addresses_of name l = []).
Proof.
  revert m. induction l as [|ifa l IH]; intros m Hm; simpl.
  { split; [done|]. split; [by rewrite app_nil_r|]. intuition. }
  destruct (entry_address ifa) as [a|] eqn:He.
  - destruct (IH (emplace_back (ifa_name ifa) a m)) as (H1 & H2 & H3); [by apply emplace_back_ascending|].
    split; [exact H1|]. rewrite find_emplace_back in H2, H3 by done. case_bool_decide.
    + rewrite H2. simpl. rewrite <- app_assoc. split; [done|]. rewrite H3. split; intros [? ?]; done.
    + rewrite H2. split; [done|]. exact H3.
  - case_bool_decide; by apply IH.
Qed.

(** * Properties *)

(** Enumerating the interfaces returns a map, its keys in order, in which an
    interface is found exactly if it has an IPv4 or IPv6 address, with all of
    its addresses in the order the kernel lists them; if the kernel's list
    cannot be read, it throws. *)
Theorem enumerate_interfaces_spec {K} `{NetLib K} (k : K) :
  match getifaddrs k with
  | (None, k') => enumerate_interfaces k = (Throw (StdException (str "getifaddrs() failed")), k')
  | (Some l, k') => ∃ m, enumerate_interfaces k = (Ret m, k') ∧ ascending m
      ∧ ∀ name, find_interface name m
          = if bool_decide (addresses_of name l = []) then None else Some (addresses_of name l)
  end.
Proof.
  unfold enumerate_interfaces, query_ifaddrs, library, mbind, st_bind. simpl.
  destruct (getifaddrs k) as [[l|] k']; [|done]. eexists. split; [reflexivity|].
  split; [by apply (enumerate_fold [] l [])|]. intros name.
  destruct (enumerate_fold name l [] I) as (_ & Hd & Hn). simpl in Hd, Hn.
  case_bool_decide as Ha; [by apply Hn|].
  destruct (find_interface name _) as [l'|]; simpl in Hd; [by rewrite Hd|]. by destruct (proj1 Hn eq_refl).
Qed.
