(* ===== verification/DotResolver.v ===== *)
(** [src/dns/resolver/dot.cpp]: the DNS-over-TLS resolver, written against the
    interface [TlsConnectionBase]. *)
From S2P Require Import Prelude CppString StringUtil Bytes DnsTypes DnsBuilder DnsParser DnsRoundtrip DnsValidator Io.
Import WireWriter RecordParser Validator.

(** [e.what()] of the builder's exceptions. *)
Definition packet_what (e : DnsPacketException) : bytes :=
  match e with
  | NoQuestion => str "Query must have at least one question"
  | NameTooLong name n => str "Domain name " ++ quoted name ++ str " is too long ("
      ++ dec (Z.of_nat n) ++ str " octets, max 255)"
  | LabelTooLong name pos => str "Label too long in domain name " ++ quoted name
      ++ str " at offset " ++ dec (Z.of_nat pos)
  | EdnsVersionUnsupported v => str "EDNS version " ++ dec v
      ++ str " is not supported (only version 0 is valid)"
  | EdnsPayloadTooSmall v => str "EDNS UDP payload size " ++ dec v
      ++ str " is too small (minimum 512)"
  end.

Module Dot.

(* @fn src/src/dns/resolver/dot.cpp | IDLE_TIMEOUT = 30s | DotResolver::Impl::IDLE_TIMEOUT *)
Definition IDLE_TIMEOUT : Z := 30.
(* @fn src/src/dns/resolver/dot.cpp | constexpr size_t PAD_BLOCK = 128 | PAD_BLOCK *)
Definition PAD_BLOCK : nat := 128.
(* @fn src/src/dns/resolver/dot.cpp | constexpr size_t EDNS_PAD_OVERHEAD = 15 | EDNS_PAD_OVERHEAD *)
Definition EDNS_PAD_OVERHEAD : nat := 15.
(* @fn src/src/dns/resolver/dot.cpp | constexpr int MAX_ATTEMPTS = 2 | MAX_ATTEMPTS *)
Definition MAX_ATTEMPTS : nat := 2.

(* @src src/src/dns/resolver/dot.cpp 207 212 DotResolver::Impl::build_padded_query (pad_len) *)
Definition pad_len (base_size : nat) : nat :=
  let raw_size := base_size + EDNS_PAD_OVERHEAD in
  if raw_size mod PAD_BLOCK =? 0 then PAD_BLOCK else PAD_BLOCK - raw_size mod PAD_BLOCK.

(** The padded query, given the identifiers the two builders draw and the
    octets the padding draws. *)
Definition padded_packet (rnd : Z) (host : bytes) (type : RecordType) (padding : bytes)
    : build_result bytes :=
  build (add_edns 512 0 false [{| opt_code := 12; opt_data := padding |}]
    (add_question host type IN (QueryBuilder_new rnd))).

Section dot.
  Context {W : Type} `{TlsConnectionBase W} `{SteadyClock W} `{RandomEngine W}.

(** The members that change; [ds_conn] says whether [persistent_conn_] is not
    null.  The mutex is held during each attempt, so an attempt is a sequential
    computation. *)
(* @src src/src/dns/resolver/dot.cpp 80 89 DotResolver::Impl (members) *)
Record DotState := {
  ds_world : W;
  ds_conn : bool;
  ds_last_use : Z;
  ds_alpn_warned : bool
}.

Definition set_world (w : W) (s : DotState) : DotState :=
  {| ds_world := w; ds_conn := ds_conn s; ds_last_use := ds_last_use s;
     ds_alpn_warned := ds_alpn_warned s |}.
Definition set_last_use (t : Z) (s : DotState) : DotState :=
  {| ds_world := ds_world s; ds_conn := ds_conn s; ds_last_use := t;
     ds_alpn_warned := ds_alpn_warned s |}.
Definition set_alpn_warned (b : bool) (s : DotState) : DotState :=
  {| ds_world := ds_world s; ds_conn := ds_conn s; ds_last_use := ds_last_use s;
     ds_alpn_warned := b |}.
Definition set_conn (b : bool) (s : DotState) : DotState :=
  {| ds_world := ds_world s; ds_conn := b; ds_last_use := ds_last_use s;
     ds_alpn_warned := ds_alpn_warned s |}.

Abbreviation dot_io := (st DotState).

(** [persistent_conn_->...] *)
Definition on_conn {E A} (f : W → A * W) : dot_io E A := λ s,
  if ds_conn s then let '(a, w) := f (ds_world s) in (Ret a, set_world w s) else (Undef, s).
Definition draw {E} : dot_io E Z := λ s,
  let '(z, w) := random_draw (ds_world s) in (Ret z, set_world w s).
Definition conn_close {E} : dot_io E unit := on_conn (λ w, (tt, tls_close w)).
Definition conn_shutdown {E} : dot_io E unit := on_conn (λ w, (tt, (tls_shutdown w).2)).

(** [std::ranges::generate] over the padding. *)
(* @fn src/src/dns/resolver/dot.cpp | std::ranges::generate(padding_data | build_padded_query (padding) *)
Fixpoint draw_padding {E} (n : nat) : dot_io E bytes :=
  match n with
  | O => mret []
  | S n => z ← draw; rest ← draw_padding n; mret (u8 z :: rest)
  end.

(* @fn src/src/dns/resolver/dot.cpp | std::vector<std::uint8_t> DotResolver::Impl::build_padded_query( | DotResolver::Impl::build_padded_query *)
Definition build_padded_query (host : bytes) (type : RecordType) : dot_io DnsPacketException bytes :=
  rnd ← draw;
  base ← lift (build (add_question host type IN (QueryBuilder_new rnd)));
  padding_data ← draw_padding (pad_len (length base));
  rnd ← draw;
  lift (padded_packet rnd host type padding_data).

(* @fn src/src/dns/resolver/dot.cpp | std::vector<std::uint8_t> DotResolver::Impl::build_wire_format( | DotResolver::Impl::build_wire_format *)
Definition build_wire_format {E} (query_bytes : bytes) : outcome E bytes :=
  let wire := repeat 0%Z (2 + length query_bytes) in
  wire ← write_u16_be wire 0 (u16 (Z.of_nat (length query_bytes)));
  Ret (take 2 wire ++ query_bytes).

Section label.
  Context (label_ : bytes).

Definition connection_error (message : bytes) : DnsErrorInfo :=
  {| ei_code := CONNECTION; ei_message := message |}.
Definition cancelled_error : DnsErrorInfo :=
  {| ei_code := CANCELLED; ei_message := str "Query cancelled" |}.

(* @fn src/src/dns/resolver/dot.cpp | DotResolver::Impl::ensure_connection() const { | DotResolver::Impl::ensure_connection *)
Definition ensure_connection : dot_io DnsErrorInfo unit :=
  now ← gets (λ s, steady_now (ds_world s));
  s ← gets id;
  reuse ← (if ds_conn s && tls_is_connected (ds_world s) then
      if (to_seconds (now - ds_last_use s) <? IDLE_TIMEOUT)%Z then
        if tls_is_healthy (ds_world s) then mret true
        else _ ← conn_shutdown; _ ← conn_close; mret false
      else _ ← conn_shutdown; _ ← conn_close; mret false
    else mret false);
  if reuse : bool then mret tt else
  _ ← modify (set_conn true);
  connect_result ← on_conn tls_connect;
  match connect_result with
  | inl IO_TIMEOUT => throw {| ei_code := RETRY;
      ei_message := str "Connection to " ++ quoted label_ ++ str " timed out" |}
  | inl _ => throw (connection_error (str "Connection to " ++ quoted label_ ++ str " failed"))
  | inr _ =>
      s ← gets id;
      _ ← (if negb (ds_alpn_warned s) && negb (bool_decide (tls_negotiated_alpn (ds_world s) = str "dot"))
           then modify (set_alpn_warned true) else mret tt);
      modify (set_last_use now)
  end.

(* @fn src/src/dns/resolver/dot.cpp | DnsErrorInfo> DotResolver::Impl::send_query( | DotResolver::Impl::send_query *)
Definition send_query (wire : bytes) : dot_io DnsErrorInfo unit :=
  _ ← ensure_connection;
  status ← on_conn (tls_send_all wire);
  match status with
  | inl IO_CANCELLED => _ ← conn_shutdown; _ ← conn_close; throw cancelled_error
  | inl _ => _ ← conn_shutdown; _ ← conn_close;
      throw (connection_error (str "Failed to send query to " ++ quoted label_))
  | inr _ => mret tt
  end.

(* @fn src/src/dns/resolver/dot.cpp | DnsErrorInfo> DotResolver::Impl::read_response( | DotResolver::Impl::read_response *)
Definition read_response : dot_io DnsErrorInfo bytes :=
  status ← on_conn (tls_read_exact 2);
  match status with
  | inl IO_CANCELLED => throw cancelled_error
  | inl _ => throw (connection_error
      (str "Failed to read response length from " ++ quoted label_))
  | inr length_buffer =>
      resp_len ← lift (read_u16_be length_buffer 0);
      if (resp_len =? 0)%Z then throw {| ei_code := PARSE;
        ei_message := str "Server " ++ quoted label_ ++ str " returned zero-length response" |} else
      if (65535 <? resp_len)%Z then throw {| ei_code := PARSE;
        ei_message := str "Server " ++ quoted label_ ++ str " response too large: "
          ++ dec resp_len ++ str " bytes" |} else
      status ← on_conn (tls_read_exact (Z.to_nat resp_len));
      match status with
      | inl IO_CANCELLED => throw cancelled_error
      | inl _ => throw (connection_error
          (str "Failed to read response body from " ++ quoted label_))
      | inr response => mret response
      end
  end.

(** The attempts [attempt], [attempt + 1], ..., [MAX_ATTEMPTS - 1]; leaving the
    loop is [std::unreachable()]. *)
(* @fn src/src/dns/resolver/dot.cpp | for (int attempt = 0; attempt < MAX_ATTEMPTS; ++attempt) { | DotResolver::Impl::query (loop) *)
Fixpoint attempts (fuel attempt : nat) (query_bytes wire : bytes) : dot_io DnsErrorInfo bytes :=
  if MAX_ATTEMPTS <=? attempt then lift Undef else
  match fuel with
  | O => lift OutOfFuel
  | S fuel =>
      _ ← (if attempt =? 1 then conn_close else mret tt);
      send_result ← Io.attempt (send_query wire);
      match send_result with
      | inl e =>
          if bool_decide (ei_code e = CANCELLED) then throw e else
          if attempt <? MAX_ATTEMPTS - 1 then attempts fuel (S attempt) query_bytes wire else throw e
      | inr _ =>
          response ← Io.attempt read_response;
          match response with
          | inl e =>
              if bool_decide (ei_code e = CANCELLED) then throw e else
              if attempt <? MAX_ATTEMPTS - 1 then attempts fuel (S attempt) query_bytes wire else throw e
          | inr response =>
              _ ← lift (validate_response query_bytes response);
              now ← gets (λ s, steady_now (ds_world s));
              _ ← modify (set_last_use now);
              mret response
          end
      end
  end.

(* @fn src/src/dns/resolver/dot.cpp | DnsErrorInfo> DotResolver::Impl::query( | DotResolver::Impl::query *)
Definition query (host : bytes) (type : RecordKind) : dot_io DnsErrorInfo bytes :=
  let record_type := type_to_record_type type in
  query_bytes ← catch (build_padded_query host record_type) (λ e, throw
    {| ei_code := PARSE;
       ei_message := str "Packet construction for " ++ quoted host ++ str " failed: "
         ++ packet_what e |});
  wire ← lift (build_wire_format query_bytes);
  attempts MAX_ATTEMPTS 0 query_bytes wire.

End label.
End dot.
Arguments DotState : clear implicits.
End Dot.
Import Dot.

(** * Size and contents of the packets *)

(** The octets a name takes on the wire. *)
Definition name_size (name : bytes) : nat :=
  if decide (name = [] ∨ name = [ch "."]) then 1 else encoded_size name.

(** Only the name can make the builder of a one-question query throw. *)
Definition name_fault (name : bytes) (e : DnsPacketException) : Prop :=
  (e = NameTooLong name (encoded_size name) ∧ 255 < encoded_size name)
  ∨ (∃ p, e = LabelTooLong name p ∧ 63 < default (length name) (find name [ch "."] p) - p).

Lemma encode_labels_bytes fuel name pos buf r :
  Forall is_byte name → Forall is_byte buf →
  encode_labels fuel name pos buf = Ret r → Forall is_byte r.
Proof.
  intros Hn. revert pos buf. induction fuel as [|fuel IH]; intros pos buf Hb; cbn [encode_labels];
    destruct (pos <? length name); try (by intros [= <-]); try done.
  destruct (63 <? _)%Z; [done|]. apply IH. apply Forall_app_2; [done|].
  constructor; auto with bytes.
Qed.

Lemma encode_name_bytes name buf r :
  Forall is_byte name → Forall is_byte buf → encode_name buf name = Ret r → Forall is_byte r.
Proof.
  intros Hn Hb. assert (Forall is_byte [0%Z]) as H0 by (repeat constructor; unfold is_byte; lia).
  unfold encode_name. case_decide; [intros [= <-]; by apply Forall_app_2|].
  destruct (255 <? encoded_size name); [done|]. intros Hr. inv_bind Hr. injection Hr as <-.
  apply Forall_app_2; [|done]. exact (encode_labels_bytes _ _ _ _ _ Hn Hb Ha).
Qed.

Lemma write_question_spec w q :
  wp (write_questions w [q])
    (λ r, length r = length w + name_size (pq_qname q) + 4 ∧ name_size (pq_qname q) ≤ 255
       ∧ (Forall is_byte w → Forall is_byte (pq_qname q) → Forall is_byte r))
    (name_fault (pq_qname q)).
Proof.
  cbn [write_questions]. eapply wp_call; [apply encode_name_spec|].
  intros r Hr (enc & -> & Hroot & Hnr). autorewrite with wire. simpl. split; [|split].
  - rewrite !length_app. unfold name_size. case_decide as Hd.
    + rewrite (Hroot Hd). simpl. lia.
    + rewrite (proj1 (Hnr Hd)). simpl. lia.
  - unfold name_size. case_decide as Hd; [lia|]. apply (Hnr Hd).
  - intros Hw Hq. apply Forall_app_2; [apply Forall_app_2|]; auto with bytes.
    exact (encode_name_bytes _ _ _ Hq Hw Hr).
Qed.

(** ** The two packets of [build_padded_query] *)

Definition header_ok (h : bytes) : Prop := length h = 12 ∧ Forall is_byte h.

Lemma base_packet_spec rnd host type :
  wp (build (add_question host type IN (QueryBuilder_new rnd)))
    (λ p, length p = 16 + name_size host ∧ name_size host ≤ 255) (name_fault host).
Proof.
  unfold build. rewrite throw_if_false by done. autorewrite with wire.
  eapply wp_call; [apply write_question_spec|]. intros r _ (Hl & Hs & _). simpl in *. lia.
Qed.

Lemma padded_packet_spec rnd host type padding :
  length padding < 4096 →
  wp (padded_packet rnd host type padding)
    (λ p, length p = 31 + name_size host + length padding ∧ name_size host ≤ 255
       ∧ (Forall is_byte host → Forall is_byte padding → Forall is_byte p)) (name_fault host).
Proof.
  intros Hp. unfold padded_packet, build. rewrite throw_if_false by done. autorewrite with wire.
  eapply wp_call; [apply write_question_spec|]. intros r _ (Hl & Hs & Hb).
  cbn [edns_ add_edns]. rewrite write_edns_eq.
  2:{ constructor; [done|simpl; lia| |].
      - repeat constructor; unfold is_u16; simpl; lia.
      - unfold is_u16, options_wire, option_wire. cbn [cfg_options map concat opt_data].
        rewrite !length_app. simpl. lia. }
  simpl. cbn [pq_qname] in *. split; [|split; [done|]].
  - rewrite length_app, Hl. unfold edns_wire. rewrite !length_app. simpl.
    rewrite ?length_app. simpl. lia.
  - intros Hh Hpad. apply Forall_app_2.
    + apply Hb; [|done]. repeat apply Forall_app_2; auto with bytes.
    + unfold edns_wire. cbn [cfg_options options_wire map concat].
      rewrite app_nil_r. unfold option_wire. cbn [opt_data].
      apply Forall_app_2; [repeat constructor; unfold is_byte; lia|].
      apply Forall_app_2; [auto with bytes|]. apply Forall_app_2; [auto with bytes|].
      apply Forall_app_2; [unfold u32_be; auto with bytes|].
      apply Forall_app_2; [auto with bytes|]. apply Forall_app_2; [auto with bytes|].
      apply Forall_app_2; auto with bytes.
Qed.

Lemma pad_len_spec n : 0 < pad_len n ≤ 128 ∧ (n + 15 + pad_len n) mod 128 = 0.
Proof.
  unfold pad_len, PAD_BLOCK, EDNS_PAD_OVERHEAD.
  pose proof (Nat.mod_upper_bound (n + 15) 128 ltac:(lia)).
  pose proof (Nat.div_mod (n + 15) 128 ltac:(lia)).
  destruct (_ =? 0) eqn:Hz; prop_of_bool.
  - split; [lia|]. rewrite Nat.Div0.add_mod, Hz. done.
  - split; [lia|]. replace (n + 15 + (128 - (n + 15) mod 128)) with (128 * ((n + 15) / 128 + 1)) by lia.
    rewrite Nat.mul_comm. apply Nat.Div0.mod_mul.
Qed.

(** * The resolver *)

(** What [build_padded_query] returns. *)
Definition padded_query (host : bytes) (type : RecordType) (q : bytes) : Prop :=
  ∃ rnd padding, padded_packet rnd host type padding = Ret q
    ∧ length padding = pad_len (16 + name_size host) ∧ Forall is_byte padding.

(** Building a query only draws: it keeps whatever drawing keeps, and the connection. *)
Section building.
Context {W : Type} `{RandomEngine W} (J : W → Prop) (HJ : ∀ w, J w → J (random_draw w).2).
Implicit Types s : DotState W.

#[local] Abbreviation kept s s' := (J (ds_world s') ∧ s' = set_world (ds_world s') s).

Lemma draw_keeps {E} (T : E → DotState W → Prop) s :
  J (ds_world s) → swp draw (λ _ s', kept s s') T s.
Proof using HJ.
  intros Hs. unfold swp, draw. pose proof (HJ _ Hs) as Hd. by destruct (random_draw (ds_world s)).
Qed.

Lemma draw_padding_keeps {E} k (T : E → DotState W → Prop) s :
  J (ds_world s) → swp (draw_padding k) (λ p s', length p = k ∧ Forall is_byte p ∧ kept s s') T s.
Proof using HJ.
  revert s. induction k as [|k IH]; intros s Hs; cbn [draw_padding]; [apply swp_ret; by destruct s|].
  eapply swp_call; [by apply draw_keeps| |intros e s' Hf; exact Hf].
  intros z s1 [Hs1 He1]. eapply swp_call; [by apply IH| |intros e s' Hf; exact Hf].
  intros p s2 (Hl & Hb & Hs2 & He2). apply swp_ret. simpl. split; [lia|].
  split; [constructor; auto with bytes|]. split; [done|]. by rewrite He2, He1.
Qed.

Lemma build_padded_query_keeps host type s :
  J (ds_world s) →
  swp (build_padded_query host type) (λ q s', padded_query host type q ∧ kept s s')
    (λ e s', name_fault host e ∧ kept s s') s.
Proof using HJ.
  intros Hs. unfold build_padded_query. eapply swp_call; [by apply draw_keeps| |intros e s' Hf; exact Hf].
  intros rnd s1 [Hs1 He1]. apply swp_bind, swp_lift.
  eapply wp_mono; [apply base_packet_spec| |intros e He; by split].
  intros base [Hl Hsz]. eapply swp_call; [by apply draw_padding_keeps| |intros e s' Hf; exact Hf].
  intros padding s2 (Hpl & Hpb & Hs2 & He2).
  eapply swp_call; [by apply draw_keeps| |intros e s' Hf; exact Hf].
  intros rnd2 s3 [Hs3 He3]. apply swp_lift. rewrite Hl in Hpl.
  assert (s3 = set_world (ds_world s3) s) as Hkept by (by rewrite He3, He2, He1).
  pose proof (pad_len_spec (16 + name_size host)) as [Hp _].
  eapply wp_mono; [apply wp_with_eq, (padded_packet_spec rnd2 host type padding); lia|..].
  - intros q [Hq _]. split; [by exists rnd2, padding|done].
  - intros e He. by split.
Qed.
End building.

(** A count of the queries put on the wire: only [send_all] increases it, by one. *)
Class CountsSends (W : Type) `{TlsConnectionBase W} `{RandomEngine W} (sends : W → nat) := {
  sends_connect w : sends (tls_connect w).2 = sends w;
  sends_close w : sends (tls_close w) = sends w;
  sends_send_all b w : sends (tls_send_all b w).2 = S (sends w);
  sends_read_exact n w : sends (tls_read_exact n w).2 = sends w;
  sends_shutdown w : sends (tls_shutdown w).2 = sends w;
  sends_draw w : sends (random_draw w).2 = sends w
}.

(** A property of the world, as far as [n] more queries have been put on the
    wire: every operation of the connection keeps it, [send_all] takes it from
    [n] to [n + 1]. *)
Class Tracks (W : Type) `{TlsConnectionBase W} `{RandomEngine W} (I : nat → W → Prop) := {
  tracks_mono n m w : n ≤ m → I n w → I m w;
  tracks_connect n w : I n w → I n (tls_connect w).2;
  tracks_close n w : I n w → I n (tls_close w);
  tracks_send_all n b w : I n w → I (S n) (tls_send_all b w).2;
  tracks_read_exact n k w : I n w → I n (tls_read_exact k w).2;
  tracks_shutdown n w : I n w → I n (tls_shutdown w).2;
  tracks_draw n w : I n w → I n (random_draw w).2
}.

Lemma counts_track {W} `{CountsSends W sends} (base : nat) : Tracks W (λ n w, sends w ≤ base + n).
Proof.
  split; intros.
  - lia.
  - by rewrite sends_connect.
  - by rewrite sends_close.
  - rewrite sends_send_all. lia.
  - by rewrite sends_read_exact.
  - by rewrite sends_shutdown.
  - by rewrite sends_draw.
Qed.

Section dot_proofs.
Context {W : Type} `{TlsConnectionBase W} `{SteadyClock W} `{RandomEngine W}.
Context `{!TlsConnectionOk W} (I : nat → W → Prop) `{!Tracks W I}.
Context (label : bytes).
Implicit Types s : DotState W.

Definition at_sends (n : nat) s : Prop := I n (ds_world s).

Lemma at_sends_mono n m s : n ≤ m → at_sends n s → at_sends m s.
Proof using Tracks0. unfold at_sends. apply tracks_mono. Qed.

Lemma swp_dot_conn {E A} (f : W → A * W) (Q : A → DotState W → Prop) (T : E → DotState W → Prop) s :
  ds_conn s = true → Q (f (ds_world s)).1 (set_world (f (ds_world s)).2 s) →
  swp (on_conn f) Q T s.
Proof using Type. unfold swp, on_conn. intros -> HQ. by destruct (f (ds_world s)). Qed.

(** [shutdown] and [close], then the rest. *)
Lemma shutdown_close_spec {E A} n (k : st (DotState W) E A) Q T s :
  ds_conn s = true → at_sends n s →
  (∀ s', ds_conn s' = true → at_sends n s' → swp k Q T s') →
  swp (_ ← conn_shutdown; _ ← conn_close; k) Q T s.
Proof using Tracks0.
  intros Hc Hn Hk. apply swp_bind, swp_dot_conn; [done|]. apply swp_bind, swp_dot_conn; [done|].
  apply Hk; [done|]. unfold at_sends. simpl. by apply tracks_close, tracks_shutdown.
Qed.

Lemma ensure_connection_spec n s :
  at_sends n s →
  swp (ensure_connection label) (λ _ s', ds_conn s' = true ∧ at_sends n s')
    (λ e s', ds_conn s' = true ∧ at_sends n s' ∧ (ei_code e = RETRY ∨ ei_code e = CONNECTION)) s.
Proof using Tracks0.
  intros Hn. unfold ensure_connection. apply swp_bind, swp_gets, swp_bind, swp_gets. unfold id.
  eapply (swp_call _ _ (λ (reuse : bool) s', at_sends n s' ∧ (reuse = true → ds_conn s' = true))
    (λ _ _, False)).
  - destruct (ds_conn s) eqn:Hc; [|by apply swp_ret]. destruct (tls_is_connected _);
      [|by apply swp_ret]. simpl.
    destruct (_ <? _)%Z; [destruct (tls_is_healthy _); [by apply swp_ret|]|];
      (apply (shutdown_close_spec n); [done|done|]; intros s' Hc' Hs'; by apply swp_ret).
  - intros reuse s1 [Hs1 Hr]. destruct reuse; [by apply swp_ret; auto|].
    apply swp_bind, swp_modify, swp_bind. apply swp_dot_conn; [done|]. simpl.
    pose proof (tracks_connect n (ds_world s1) Hs1) as Hw. unfold at_sends.
    destruct (tls_connect (ds_world s1)) as [[io|u] w]; simpl in *.
    + destruct io; apply swp_throw; simpl; auto.
    + apply swp_bind, swp_gets, swp_bind. unfold id. simpl.
      destruct (_ && _)%bool; simpl; [apply swp_modify|apply swp_ret]; apply swp_modify; done.
  - done.
Qed.

(** A failed or cancelled operation never leaves a null connection. *)
Lemma send_query_spec wire n s :
  at_sends n s →
  swp (send_query label wire) (λ _ s', ds_conn s' = true ∧ at_sends (S n) s')
    (λ e s', ds_conn s' = true ∧ at_sends (S n) s' ∧ ei_code e ∈ [RETRY; CONNECTION; CANCELLED]) s.
Proof using TlsConnectionOk0 Tracks0.
  intros Hn. unfold send_query. eapply swp_call; [by apply ensure_connection_spec|..].
  - intros _ s1 [Hc1 Hs1]. apply swp_bind, swp_dot_conn; [done|].
    pose proof (tracks_send_all n wire (ds_world s1) Hs1) as Hw.
    destruct (tls_send_all wire (ds_world s1)) as [[io|u] w]; simpl in *; [|by apply swp_ret].
    destruct io; (apply (shutdown_close_spec (S n)); [done|done|]; intros s' Hc' Hs'; apply swp_throw;
      split; [done|]; split; [done|]; set_solver).
  - intros e s1 (Hc1 & Hs1 & Hcode). split; [done|]. split; [eapply at_sends_mono, Hs1; lia|].
    destruct Hcode as [-> | ->]; set_solver.
Qed.

Lemma read_response_spec n s :
  ds_conn s = true → at_sends n s →
  swp (read_response label)
    (λ r s', ds_conn s' = true ∧ at_sends n s' ∧ Forall is_byte r
       ∧ (0 < Z.of_nat (length r) < 65536)%Z)
    (λ e s', ds_conn s' = true ∧ at_sends n s' ∧ ei_code e ∈ [CONNECTION; CANCELLED; PARSE]) s.
Proof using TlsConnectionOk0 Tracks0.
  intros Hc Hn. unfold read_response. apply swp_bind, swp_dot_conn; [done|].
  pose proof (tracks_read_exact n 2 (ds_world s) Hn) as Hw. unfold at_sends.
  destruct (tls_read_exact 2 (ds_world s)) as [r w] eqn:Hread. simpl in *.
  destruct r as [io|len]; [destruct io; apply swp_throw; split_and!; set_solver|].
  apply tls_read_exact_length in Hread as [Hlen Hb].
  apply swp_bind, swp_lift, wp_read_u16_be; [done|lia|]. intros v Hv _.
  destruct (v =? 0)%Z eqn:Hv0; [apply swp_throw; split_and!; set_solver|].
  destruct (65535 <? v)%Z eqn:Hv1; [apply swp_throw; split_and!; set_solver|]. prop_of_bool.
  apply swp_bind, swp_dot_conn; [done|]. simpl.
  pose proof (tracks_read_exact n (Z.to_nat v) w Hw) as Hw'.
  destruct (tls_read_exact (Z.to_nat v) w) as [r' w'] eqn:Hread'. simpl in *.
  destruct r' as [io|body]; [destruct io; apply swp_throw; split_and!; set_solver|].
  apply tls_read_exact_length in Hread' as [Hlen' Hb'].
  apply swp_ret. unfold is_u16 in Hv. split_and!; try done; lia.
Qed.

Lemma padded_query_size host type q :
  padded_query host type q →
  length q mod PAD_BLOCK = 0 ∧ 31 < length q ≤ 414 ∧ (Forall is_byte host → Forall is_byte q).
Proof using Type.
  intros (rnd & padding & Hq & Hl & Hb). pose proof (pad_len_spec (16 + name_size host)) as [Hp Hm].
  destruct (wp_Ret_inv _ _ _ _ (padded_packet_spec rnd host type padding ltac:(lia)) Hq)
    as (Hlen & Hs & Hbytes).
  split; [|split; [lia|auto]].
  replace (length q) with (16 + name_size host + 15 + pad_len (16 + name_size host)) by lia.
  exact Hm.
Qed.

Lemma build_padded_query_spec host type n s :
  at_sends n s →
  swp (build_padded_query host type) (λ q s', padded_query host type q ∧ at_sends n s')
    (λ e s', name_fault host e ∧ at_sends n s') s.
Proof using Tracks0.
  intros Hn. eapply swp_mono; [apply (build_padded_query_keeps (I n)); [intros w; apply tracks_draw|exact Hn]|..];
    unfold at_sends; naive_solver.
Qed.

Lemma build_wire_format_eq {E} q :
  build_wire_format (E:=E) q = Ret (u16_be (u16 (Z.of_nat (length q))) ++ q).
Proof using Type. done. Qed.

Lemma attempts_spec q wire n s :
  Forall is_byte q → 12 ≤ length q → n < 2 → (n = 1 → ds_conn s = true) → at_sends n s →
  swp (attempts label (2 - n) n q wire)
    (λ r s', accepts q r ∧ at_sends 2 s')
    (λ e s', ei_code e ∈ [RETRY; CONNECTION; CANCELLED; PARSE] ∧ at_sends 2 s') s.
Proof using TlsConnectionOk0 Tracks0.
  intros Hq Hl. remember (2 - n) as fuel eqn:Hfuel. revert n Hfuel s.
  induction fuel as [|fuel IH]; intros n Hfuel s Hn Hconn Hs; [lia|].
  cbn [attempts]. unfold MAX_ATTEMPTS. rewrite (proj2 (Nat.leb_gt _ _)) by lia.
  eapply (swp_call _ _ (λ _ s', at_sends n s') (λ _ _, False)); [| |done].
  { destruct (n =? 1) eqn:Hn1; prop_of_bool; [|by apply swp_ret].
    apply swp_dot_conn; [auto|]. unfold at_sends. simpl. by apply tracks_close. }
  intros _ s1 Hs1.
  assert (∀ e s2, ei_code e ∈ [RETRY; CONNECTION; CANCELLED; PARSE] → ds_conn s2 = true → at_sends (S n) s2 →
    swp (if bool_decide (ei_code e = CANCELLED) then throw e
         else if n <? 2 - 1 then attempts label fuel (S n) q wire else throw e)
      (λ r s', accepts q r ∧ at_sends 2 s')
      (λ e' s', ei_code e' ∈ [RETRY; CONNECTION; CANCELLED; PARSE] ∧ at_sends 2 s') s2)
    as Hretry.
  { intros e s2 He Hc2 Hs2.
    assert (at_sends 2 s2) as H2 by (eapply at_sends_mono, Hs2; lia).
    case_bool_decide; [by apply swp_throw|].
    destruct (n <? 2 - 1) eqn:Hlast; prop_of_bool; [|by apply swp_throw].
    apply IH; [lia|lia|done|done]. }
  eapply swp_attempt_bind; [by apply send_query_spec|..].
  - intros _ s2 [Hc2 Hs2]. eapply swp_attempt_bind; [by apply (read_response_spec (S n))|..].
    + intros r s3 (Hc3 & Hs3 & Hrb & _). apply swp_bind, swp_lift.
      assert (at_sends 2 s3) as H2 by (eapply at_sends_mono, Hs3; lia).
      eapply wp_mono; [by apply validate_response_spec|..].
      * intros [] Hacc. by apply swp_bind, swp_gets, swp_bind, swp_modify, swp_ret.
      * intros e [He _]. unfold is_parse_info in He. rewrite He. split; [set_solver|done].
    + intros e s3 (Hc3 & Hs3 & He). apply Hretry; [set_solver|done|done].
  - intros e s2 (Hc2 & Hs2 & He). apply Hretry; [set_solver|done|done].
Qed.

Lemma query_spec host type s :
  Forall is_byte host → at_sends 0 s →
  swp (query label host type)
    (λ r s', (∃ q, (build_padded_query host (type_to_record_type type) s).1 = Ret q
        ∧ padded_query host (type_to_record_type type) q ∧ accepts q r) ∧ at_sends 2 s')
    (λ e s', ei_code e ∈ [RETRY; CONNECTION; CANCELLED; PARSE] ∧ at_sends 2 s') s.
Proof using TlsConnectionOk0 Tracks0.
  intros Hh Hs. unfold query. apply swp_bind, swp_catch.
  eapply swp_mono; [by apply swp_with_eq, build_padded_query_spec|..].
  - intros q s1 (Hbuilt & Hq & Hs1). destruct (padded_query_size _ _ _ Hq) as (Hmod & Hsize & Hb).
    apply swp_bind, swp_lift. rewrite build_wire_format_eq. simpl.
    eapply swp_mono; [apply (attempts_spec q _ 0); [auto|lia|lia|done|done]|..].
    + intros r s2 [Hacc Hs2]. split; [|done]. exists q. by rewrite Hbuilt.
    + by intros e s2 [He Hs2].
  - intros e s1 (_ & _ & Hs1). apply swp_throw. split; [set_solver|]. eapply at_sends_mono, Hs1. lia.
Qed.
End dot_proofs.

(** * Properties *)

(** A DoT query never dereferences a null connection, never leaves its retry
    loop at the unreachable end and puts the query on the wire at most twice:
    it returns an octet string that validation accepts for the padded query
    that was sent, or fails with RETRY, CONNECTION, CANCELLED or PARSE; the
    query's size is a multiple of 128 octets, at most 414. *)
Theorem dot_query_sound {W} `{TlsConnectionBase W} `{SteadyClock W} `{RandomEngine W}
    `{!TlsConnectionOk W} (sends : W → nat) `{!CountsSends W sends}
    (label host : bytes) (type : RecordKind) (s : DotState W) :
  Forall is_byte host →
  (∃ r s', query label host type s = (Ret r, s') ∧ sends (ds_world s') ≤ sends (ds_world s) + 2
     ∧ ∃ q, padded_query host (type_to_record_type type) q ∧ accepts q r
         ∧ length q mod PAD_BLOCK = 0 ∧ length q ≤ 414)
  ∨ (∃ e s', query label host type s = (Throw e, s') ∧ sends (ds_world s') ≤ sends (ds_world s) + 2
     ∧ ei_code e ∈ [RETRY; CONNECTION; CANCELLED; PARSE]).
Proof.
  intros Hh. pose proof (counts_track (sends:=sends) (sends (ds_world s))) as Ht.
  assert (at_sends (λ n w, sends w ≤ sends (ds_world s) + n) 0 s) as Hs by (unfold at_sends; lia).
  destruct (swp_cases _ _ _ _ (query_spec (λ n w, sends w ≤ sends (ds_world s) + n) label host type s Hh Hs))
    as [(r & s' & Heq & (q & _ & Hq & Hacc) & Hs')|(e & s' & Heq & He & Hs')].
  - left. exists r, s'. split; [done|]. split; [done|]. exists q.
    destruct (padded_query_size _ _ _ Hq) as (? & [_ ?] & _). done.
  - right. by exists e, s'.
Qed.

(** A peer that answers every read from one stream of octets, and a random
    engine that always draws the same number. *)
Record peer := { p_in : bytes; p_sends : nat; p_rnd : Z }.

#[local] Instance peer_tls : TlsConnectionBase peer := {
  tls_connect w := (inr tt, w);
  tls_close w := w;
  tls_is_connected w := true;
  tls_is_healthy w := true;
  tls_send_all b w := (inr tt, {| p_in := p_in w; p_sends := S (p_sends w); p_rnd := p_rnd w |});
  tls_read_exact n w :=
    if n <=? length (p_in w)
    then (inr (map u8 (take n (p_in w))),
          {| p_in := drop n (p_in w); p_sends := p_sends w; p_rnd := p_rnd w |})
    else (inl IO_ERROR, w);
  tls_read_some n w := (inl IO_ERROR, w);
  tls_shutdown w := (inr tt, w);
  tls_negotiated_alpn w := str "dot"
}.
#[local] Instance peer_clock : SteadyClock peer := λ _, 0%Z.
#[local] Instance peer_random : RandomEngine peer := λ w, (p_rnd w, w).

#[local] Instance peer_ok : TlsConnectionOk peer.
Proof.
  split; intros n w b w' Hr; simpl in Hr; [|done].
  destruct (n <=? length (p_in w)) eqn:Hn; [|done]. prop_of_bool. injection Hr as <- <-.
  split; [rewrite length_map, length_take; lia|].
  apply Forall_map, Forall_true. intros z. apply u8_is_byte.
Qed.

#[local] Instance peer_counts : CountsSends peer p_sends.
Proof. split; try done. intros n w. simpl. by destruct (n <=? length (p_in w)). Qed.

Definition ab_state : DotState peer :=
  {| ds_world := {| p_in := [0; 37]%Z ++ ab_response; p_sends := 0; p_rnd := 4660 |};
     ds_conn := false; ds_last_use := 0; ds_alpn_warned := false |}.

Lemma dot_query_sound_witness :
  Forall is_byte (str "a.b") ∧
  ∃ s', query (str "dot") (str "a.b") KIND_A ab_state = (Ret ab_response, s') ∧ p_sends (ds_world s') = 1.
Proof.
  split; [apply str_is_bytes|].
  destruct (dot_query_sound p_sends (str "dot") (str "a.b") KIND_A ab_state (str_is_bytes _))
    as [(r & s' & H & _ & _)|(e & s' & H & _)].
  - exists s'. vm_compute in H. injection H as <- <-. split; vm_compute; reflexivity.
  - vm_compute in H. discriminate H.
Defined.
