(* ===== verification/DohResolver.v ===== *)
(** [src/dns/resolver/doh.cpp]: the DNS-over-HTTPS resolver: the query packet is
    the body of an HTTP POST over a persistent TLS connection, re-established
    after 30 idle seconds and once when an exchange fails. *)
From S2P Require Import Prelude CppString StringUtil Bytes Io Http DnsTypes DnsBuilder DnsParser DnsRoundtrip DnsValidator DotResolver.
Import WireWriter RecordParser Validator.

Module Doh.

(* @fn src/src/dns/resolver/doh.cpp | IDLE_TIMEOUT = 30s | DohResolver::Impl::IDLE_TIMEOUT *)
Definition IDLE_TIMEOUT : Z := 30.
(* @fn src/src/dns/resolver/doh.cpp | constexpr int MAX_ATTEMPTS = 2 | MAX_ATTEMPTS *)
Definition MAX_ATTEMPTS : nat := 2.

(* @fn src/src/dns/resolver/doh.cpp | DnsErrorInfo to_dns_error( | to_dns_error *)
Definition to_dns_error (err : Http.Error) (label : bytes) : DnsErrorInfo :=
  match err with
  | Http.CANCELLED => {| ei_code := CANCELLED; ei_message := str "Query cancelled" |}
  | Http.TIMEOUT | Http.CONNECTION_FAILED =>
      {| ei_code := CONNECTION; ei_message := str "Failed to read response from " ++ quoted label |}
  | _ => {| ei_code := PARSE;
            ei_message := str "Server " ++ quoted label ++ str " returned malformed HTTP response" |}
  end.

(* @fn src/src/dns/resolver/doh.cpp | std::string build_host_header( | build_host_header *)
Definition build_host_header (host : bytes) (port : Z) : bytes :=
  let is_ipv6 := match find host (str ":") 0 with Some _ => true | None => false end in
  if (port =? 443)%Z then if is_ipv6 then str "[" ++ host ++ str "]" else host
  else if is_ipv6 then str "[" ++ host ++ str "]:" ++ dec port else host ++ str ":" ++ dec port.

(** The request of RFC 8484 around a query packet. *)
(* @src src/src/dns/resolver/doh.cpp 123 128 DohResolver::Impl::query (request) *)
Definition doh_request (query_bytes : bytes) : HttpRequest :=
  {| content_type := str "application/dns-message"; Http.method := POST;
     Http.headers := emplace (str "Connection") (str "keep-alive")
                       (emplace (str "Accept") (str "application/dns-message") []);
     Http.body := Some query_bytes |}.

Section doh.
Context {W : Type} `{TlsConnectionBase W} `{SteadyClock W} `{RandomEngine W} `{PicoHttp}.

(** The members that change; [dh_conn]: [persistent_conn_] is not null. *)
(* @src src/src/dns/resolver/doh.cpp 93 95 DohResolver::Impl (members) *)
Record DohState := {
  dh_world : W;
  dh_conn : bool;
  dh_last_use : Z
}.

Definition with_world (w : W) (s : DohState) : DohState :=
  {| dh_world := w; dh_conn := dh_conn s; dh_last_use := dh_last_use s |}.
Definition with_last_use (t : Z) (s : DohState) : DohState :=
  {| dh_world := dh_world s; dh_conn := dh_conn s; dh_last_use := t |}.
Definition with_conn (b : bool) (s : DohState) : DohState :=
  {| dh_world := dh_world s; dh_conn := b; dh_last_use := dh_last_use s |}.

Abbreviation doh_io := (st DohState).

(** [persistent_conn_->...]; [*persistent_conn_] for the stream of an exchange. *)
Definition on_conn {E A} (f : W → A * W) : doh_io E A := λ s,
  if dh_conn s then let '(a, w) := f (dh_world s) in (Ret a, with_world w s) else (Undef, s).
Definition over_conn {E A} (m : st W E A) : doh_io E A := λ s,
  if dh_conn s then let '(r, w) := m (dh_world s) in (r, with_world w s) else (Undef, s).
Definition draw {E} : doh_io E Z := λ s,
  let '(z, w) := random_draw (dh_world s) in (Ret z, with_world w s).
Definition conn_close {E} : doh_io E unit := on_conn (λ w, (tt, tls_close w)).

(** The constant members, and the program's version string. *)
Context (path_ host_header_ label_ full_version : bytes).

(* @fn src/src/dns/resolver/doh.cpp | DohResolver::Impl::ensure_connection() const { | DohResolver::Impl::ensure_connection *)
Definition ensure_connection : doh_io DnsErrorInfo unit :=
  now ← gets (λ s, steady_now (dh_world s));
  s ← gets id;
  reuse ← (if dh_conn s && tls_is_connected (dh_world s) then
      if (to_seconds (now - dh_last_use s) <? IDLE_TIMEOUT)%Z then
        if tls_is_healthy (dh_world s) then mret true
        else _ ← conn_close; mret false
      else _ ← conn_close; mret false
    else mret false);
  if reuse : bool then mret tt else
  _ ← modify (with_conn true);
  result ← on_conn tls_connect;
  match result with
  | inl IO_TIMEOUT => throw {| ei_code := RETRY;
      ei_message := str "Connection to " ++ quoted label_ ++ str " timed out" |}
  | inl _ => throw {| ei_code := CONNECTION;
      ei_message := str "Connection to " ++ quoted label_ ++ str " failed" |}
  | inr _ => modify (with_last_use now)
  end.

(** What becomes of a complete HTTP response. *)
(* @src src/src/dns/resolver/doh.cpp 159 177 DohResolver::Impl::query (response) *)
Definition accept_response (query_bytes : bytes) (response : Response) : doh_io DnsErrorInfo bytes :=
  if negb (r_status_code response =? 200)%Z then
    _ ← conn_close;
    throw {| ei_code := if (500 <=? r_status_code response)%Z then RETRY else SERVER_REFUSED;
             ei_message := str "Server " ++ quoted label_ ++ str " returned HTTP status "
               ++ dec (r_status_code response) |}
  else
    _ ← lift (validate_response query_bytes (r_body response));
    now ← gets (λ s, steady_now (dh_world s));
    _ ← modify (with_last_use now);
    mret (r_body response).

(** The attempts; behind the last one is [std::unreachable()].  [http_fuel]
    bounds the reads of a chunked body. *)
(* @fn src/src/dns/resolver/doh.cpp | for (int attempt = 0; attempt < MAX_ATTEMPTS; ++attempt) { | DohResolver::Impl::query (loop) *)
Fixpoint attempts (fuel http_fuel attempt : nat) (query_bytes : bytes) : doh_io DnsErrorInfo bytes :=
  if MAX_ATTEMPTS <=? attempt then lift Undef else
  match fuel with
  | O => lift OutOfFuel
  | S fuel =>
      _ ← (if attempt =? 1 then conn_close else mret tt);
      res ← Io.attempt ensure_connection;
      match res with
      | inl e =>
          if attempt <? MAX_ATTEMPTS - 1 then attempts fuel http_fuel (S attempt) query_bytes else throw e
      | inr _ =>
          response ← Io.attempt (over_conn (exchange http_fuel path_ (doh_request query_bytes)
                                   host_header_ full_version));
          match response with
          | inl err =>
              _ ← conn_close;
              if bool_decide (err = Http.CANCELLED) then throw (to_dns_error err label_) else
              if attempt <? MAX_ATTEMPTS - 1 then attempts fuel http_fuel (S attempt) query_bytes
              else throw (to_dns_error err label_)
          | inr response => accept_response query_bytes response
          end
      end
  end.

(** The builder's exceptions are not [DnsLookupException]s: the last handler
    gets them. *)
(* @fn src/src/dns/resolver/doh.cpp | DnsErrorInfo> DohResolver::Impl::query( | DohResolver::Impl::query *)
Definition query (http_fuel : nat) (host : bytes) (type : RecordKind) : doh_io DnsErrorInfo bytes :=
  let record_type := type_to_record_type type in
  rnd ← draw;
  query_bytes ← catch (lift (build_query rnd host record_type)) (λ e, throw
    {| ei_code := UNKNOWN;
       ei_message := str "Query for " ++ quoted host ++ str " failed: " ++ packet_what e |});
  attempts MAX_ATTEMPTS http_fuel 0 query_bytes.
End doh.
Arguments DohState : clear implicits.
End Doh.
Import Doh.
Import Transport (Stream, StreamOk, FinitePeer, read_some, read_exact, send_all, left_send_all).

(** * The query packet *)

Lemma build_query_spec rnd host type :
  wp (build_query rnd host type)
    (λ p, 12 ≤ length p ∧ (Forall is_byte host → Forall is_byte p)) (name_fault host).
Proof.
  unfold build_query, build. rewrite throw_if_false by done. autorewrite with wire.
  eapply wp_call; [apply write_question_spec|]. intros r _ (Hl & _ & Hb).
  cbn [edns_ add_edns]. rewrite write_edns_eq.
  2:{ constructor; [done|simpl; lia|constructor|unfold is_u16; simpl; lia]. }
  cbn [wp]. cbn [pq_qname] in *. split.
  - rewrite length_app, Hl, !length_app. simpl. lia.
  - intros Hh. apply Forall_app_2.
    + apply Hb; [|done]. repeat apply Forall_app_2; auto with bytes.
    + unfold edns_wire. cbn [cfg_options options_wire map concat]. rewrite app_nil_r.
      repeat apply Forall_app_2; unfold u32_be; auto with bytes.
      repeat constructor; unfold is_byte; lia.
Qed.

(** * The resolver *)

(** The octets a peer will still send, over all connections: connecting,
    closing, sending and drawing random numbers do not add to them. *)
Class FiniteTls (W : Type) `{TlsConnectionBase W} `{RandomEngine W} (left : W → nat) := {
  left_peer :: FinitePeer W left;
  left_connect w : left (tls_connect w).2 ≤ left w;
  left_close w : left (tls_close w) ≤ left w;
  left_draw w : left (random_draw w).2 ≤ left w;
  left_exact n w : left (read_exact n w).2 ≤ left w;
  left_some n w : left (read_some n w).2 ≤ left w
}.

(** What is put on the wire: each [send_all] is the last entry, whether it succeeds
    or not, and nothing else makes one. *)
Class LogsSends (W : Type) `{TlsConnectionBase W} `{RandomEngine W} (sent : W → list bytes) := {
  sent_connect w : sent (tls_connect w).2 = sent w;
  sent_close w : sent (tls_close w) = sent w;
  sent_send_all b w : sent (tls_send_all b w).2 = sent w ++ [b];
  sent_read_exact n w : sent (tls_read_exact n w).2 = sent w;
  sent_read_some n w : sent (tls_read_some n w).2 = sent w;
  sent_draw w : sent (random_draw w).2 = sent w
}.

(** Reading a response goes where single reads go. *)
Section exchange_moves.
Context {W : Type} `{TlsConnectionBase W} `{PicoHttp} (R : W → W → Prop) `{!PreOrder R}.
Context (R_some : ∀ n w, R w (read_some n w).2) (R_exact : ∀ n w, R w (read_exact n w).2).

Definition sends_moves {E A} (m : st W E A) : Prop := ∀ w, R w (m w).2.

Lemma sends_moves_ret {E A} (a : A) : sends_moves (E:=E) (mret a).
Proof using All. by intros w. Qed.
Lemma sends_moves_throw {E A} (e : E) : sends_moves (A:=A) (throw e).
Proof using All. by intros w. Qed.
Lemma sends_moves_lift {E A} (r : outcome E A) : sends_moves (lift r).
Proof using All. by intros w. Qed.
Lemma sends_moves_bind {E A B} (m : st W E A) (f : A → st W E B) : sends_moves m → (∀ a, sends_moves (f a)) → sends_moves (m ≫= f).
Proof using All.
  intros Hm Hf w. unfold mbind, st_bind. specialize (Hm w).
  destruct (m w) as [[a|e| |] w'] eqn:Hw; simpl in *; try done. by etransitivity; [|apply Hf].
Qed.
Lemma moves_on_stream {A} (f : W → (Transport.IoError + A) * W) : (∀ w, R w (f w).2) → sends_moves (on_stream f).
Proof using All. intros Hf w. unfold on_stream. specialize (Hf w). by destruct (f w) as [[e|a] w']. Qed.
Lemma sends_moves_some n : sends_moves (on_stream (read_some n)).
Proof using All. by apply moves_on_stream. Qed.
Lemma sends_moves_exact n : sends_moves (on_stream (read_exact n)).
Proof using All. by apply moves_on_stream. Qed.

Create HintDb sends_moves.
Hint Resolve sends_moves_ret sends_moves_throw sends_moves_lift sends_moves_bind sends_moves_some sends_moves_exact : sends_moves.

Lemma chunk_loop_moves fuel decoder raw body max : sends_moves (chunk_loop fuel decoder raw body max).
Proof using All.
  revert decoder raw body. induction fuel as [|fuel IH]; intros decoder raw body; cbn [chunk_loop];
    destruct (phr_decode_chunked decoder raw) as [[[| |] d] out]; try destruct (_ && _); auto with sends_moves.
  apply sends_moves_bind; [auto with sends_moves|]. intros a. destruct (bool_decide _); auto with sends_moves.
Qed.

Lemma read_body_moves fuel hs buf max : sends_moves (read_body fuel hs buf max).
Proof using All.
  unfold read_body. destruct (has_content_length hs).
  - destruct (_ <? _)%Z; auto with sends_moves.
  - destruct (is_chunked hs); simpl; [apply chunk_loop_moves|auto with sends_moves].
Qed.

Lemma header_loop_moves fuel chunk_fuel data buf_size : sends_moves (header_loop fuel chunk_fuel data buf_size).
Proof using All.
  revert data buf_size. induction fuel as [|fuel IH]; intros data buf_size; cbn [header_loop];
    destruct (Http.parse_response _ _ _) as [hs|e| |]; auto using read_body_moves with sends_moves;
    (destruct (negb _); [by auto with sends_moves|]); destruct (MAX_HEADER_SIZE <=? _)%Z; auto with sends_moves.
  apply sends_moves_bind; [auto with sends_moves|]. intros a. destruct (bool_decide _); auto with sends_moves.
Qed.

(** The exchange: one [send_all] of the request, then reads. *)
Lemma exchange_moves fuel path req host ua wire w :
  build_request (E:=Error) req path host ua = Ret wire →
  R (send_all wire w).2 (exchange fuel path req host ua w).2.
Proof using All.
  intros Hwire. unfold exchange, mbind, st_bind, lift, on_stream. rewrite Hwire.
  destruct (send_all wire w) as [[e|[]] w1]; [done|]. apply header_loop_moves.
Qed.
End exchange_moves.

#[global] Instance no_more_preorder {W} (left : W → nat) : PreOrder (λ w w', left w' ≤ left w).
Proof. split; [by intros w|intros w1 w2 w3; lia]. Qed.
#[global] Instance as_much_preorder {W A} (f : W → A) : PreOrder (λ w w', f w' = f w).
Proof. split; [by intros w|intros w1 w2 w3; congruence]. Qed.

Lemma exchange_uses_up {W} `{TlsConnectionBase W} `{RandomEngine W} (left : W → nat) `{!FiniteTls W left} `{PicoHttp} fuel path req host ua w :
  left (exchange fuel path req host ua w).2 ≤ left w.
Proof.
  destruct (build_request_eq (E:=Error) req path host ua) as [wire Hw].
  pose proof (exchange_moves (λ w w', left w' ≤ left w) (λ n w, left_some n w) (λ n w, left_exact n w)
    fuel path req host ua wire w Hw) as Hm.
  exact (Nat.le_trans _ _ _ Hm (left_send_all (left:=left) wire w)).
Qed.

Lemma exchange_sends {W} `{TlsConnectionBase W} `{RandomEngine W} (sent : W → list bytes) `{!LogsSends W sent} `{PicoHttp} fuel path req host ua wire w :
  build_request (E:=Error) req path host ua = Ret wire →
  sent (exchange fuel path req host ua w).2 = sent w ++ [wire].
Proof.
  intros Hw. rewrite (exchange_moves (λ w w', sent w' = sent w) (λ n w, sent_read_some n w) (λ n w, sent_read_exact n w)
    fuel path req host ua wire w Hw). apply sent_send_all.
Qed.

Section doh_proofs.
Context {W : Type} `{TlsConnectionBase W} `{SteadyClock W} `{RandomEngine W} `{PicoHttpOk}.
Context `{!TlsConnectionOk W} (left : W → nat) `{!FiniteTls W left} (sent : W → list bytes) `{!LogsSends W sent}.
Context (path host_header label version : bytes).
Implicit Types s : DohState W.

#[local] Abbreviation remaining s := (left (dh_world s)).

(** Steps that put [bs] on the wire, and take from the peer what they like. *)
Definition puts (bs : list bytes) s s' : Prop :=
  remaining s' ≤ remaining s ∧ sent (dh_world s') = sent (dh_world s) ++ bs.

Lemma puts_nothing s : puts [] s s.
Proof using Type. split; [done|]. by rewrite app_nil_r. Qed.

Lemma puts_app bs bs' s s' s'' : puts bs s s' → puts bs' s' s'' → puts (bs ++ bs') s s''.
Proof using Type. intros [Hr Hs] [Hr' Hs']. split; [lia|]. by rewrite Hs', Hs, app_assoc. Qed.

Lemma puts_on bs s s' s'' : puts bs s s' → puts [] s' s'' → puts bs s s''.
Proof using Type. intros Ha Hb. rewrite <- (app_nil_r bs). by eapply puts_app. Qed.

(** The errors of the transport. *)
Definition io_failure (e : DnsErrorInfo) : Prop :=
  ei_code e ∈ [RETRY; CONNECTION; CANCELLED; PARSE; SERVER_REFUSED].

Lemma swp_on_doh_conn {E A} (f : W → A * W) (Q : A → DohState W → Prop) (T : E → DohState W → Prop) s :
  dh_conn s = true → Q (f (dh_world s)).1 (with_world (f (dh_world s)).2 s) → swp (on_conn f) Q T s.
Proof using All. unfold swp, on_conn. intros -> HQ. by destruct (f (dh_world s)). Qed.

Lemma swp_over_conn {E A} (m : st W E A) (Q : A → DohState W → Prop) (T : E → DohState W → Prop) s :
  dh_conn s = true →
  swp m (λ a w, Q a (with_world w s)) (λ e w, T e (with_world w s)) (dh_world s) →
  swp (over_conn m) Q T s.
Proof using All. unfold swp, over_conn. intros ->. by destruct (m (dh_world s)) as [r w]. Qed.

Lemma swp_gets_id {E} (Q : DohState W → DohState W → Prop) (T : E → DohState W → Prop) s :
  Q s s → swp (gets id) Q T s.
Proof using All. done. Qed.

Lemma puts_close s : puts [] s (with_world (tls_close (dh_world s)) s).
Proof using All. split; [apply left_close|]. simpl. by rewrite sent_close, app_nil_r. Qed.

Lemma close_spec {E A} bs s0 (k : st (DohState W) E A) Q T s :
  dh_conn s = true → puts bs s0 s →
  (∀ s', dh_conn s' = true → puts bs s0 s' → swp k Q T s') →
  swp (_ ← conn_close; k) Q T s.
Proof using All.
  intros Hc Hs Hk. apply swp_bind, swp_on_doh_conn; [done|]. apply Hk; [done|].
  eapply puts_on; [exact Hs|apply puts_close].
Qed.

Lemma doh_ensure_connection_spec s :
  swp (ensure_connection label) (λ _ s', dh_conn s' = true ∧ puts [] s s')
    (λ e s', dh_conn s' = true ∧ puts [] s s' ∧ io_failure e) s.
Proof using All.
  unfold ensure_connection, io_failure. apply swp_bind, swp_gets, swp_bind, swp_gets_id.
  eapply (swp_call _ _ (λ (reuse : bool) s', puts [] s s' ∧ (reuse = true → dh_conn s' = true))
    (λ _ _, False)); [| |done].
  - destruct (dh_conn s) eqn:Hc; [|by apply swp_ret; split; [apply puts_nothing|]].
    destruct (tls_is_connected _); [|by apply swp_ret; split; [apply puts_nothing|]].
    simpl. destruct (_ <? _)%Z; [destruct (tls_is_healthy _); [by apply swp_ret; split; [apply puts_nothing|]|]|];
      (apply (close_spec [] s); [done|apply puts_nothing|]; intros s' Hc' Hs'; by apply swp_ret).
  - intros reuse s1 [Hs1 Hr]. destruct reuse; [by apply swp_ret; auto|].
    apply swp_bind, swp_modify, swp_bind. apply swp_on_doh_conn; [done|]. simpl.
    assert (puts [] s {| dh_world := (tls_connect (dh_world s1)).2; dh_conn := true; dh_last_use := dh_last_use s1 |}) as Hp.
    { eapply puts_on; [exact Hs1|]. split; [apply left_connect|]. simpl. by rewrite sent_connect, app_nil_r. }
    destruct (tls_connect (dh_world s1)) as [r w]. simpl in *.
    destruct r as [io|[]]; [|by apply swp_modify].
    destruct io; apply swp_throw; simpl; (split; [done|]; split; [done|set_solver]).
Qed.

Lemma to_dns_error_failure err : io_failure (to_dns_error err label).
Proof using All. unfold io_failure. destruct err; simpl; set_solver. Qed.

Lemma accept_response_spec q r s :
  Forall is_byte q → 12 ≤ length q → Forall is_byte (r_body r) → dh_conn s = true →
  swp (accept_response label q r) (λ b s', puts [] s s' ∧ b = r_body r ∧ r_status_code r = 200%Z ∧ accepts q b)
    (λ e s', puts [] s s' ∧ io_failure e) s.
Proof using All.
  intros Hq Hl Hr Hc. unfold accept_response, io_failure.
  destruct (r_status_code r =? 200)%Z eqn:H200; simpl; prop_of_bool.
  - apply swp_bind, swp_lift. eapply wp_mono; [by apply validate_response_spec|..].
    + intros [] Hacc. apply swp_bind, swp_gets, swp_bind, swp_modify, swp_ret. split; [exact (puts_nothing s)|done].
    + intros e [He _]. unfold is_parse_info in He. rewrite He. split; [apply puts_nothing|set_solver].
  - apply (close_spec [] s); [done|apply puts_nothing|]. intros s' _ Hs'. apply swp_throw. split; [done|].
    simpl. destruct (_ <=? _)%Z; set_solver.
Qed.

(** The request around the packet [q]. *)
Definition is_request (q wire : bytes) : Prop :=
  build_request (E:=Error) (doh_request q) path host_header version = Ret wire.

Lemma doh_exchange_spec fuel q wire s :
  is_request q wire → dh_conn s = true → remaining s < fuel →
  swp (over_conn (exchange fuel path (doh_request q) host_header version))
    (λ r s', Forall is_byte (r_body r) ∧ dh_conn s' = true ∧ puts [wire] s s')
    (λ _ s', dh_conn s' = true ∧ puts [wire] s s') s.
Proof using All.
  intros Hwire Hc Hf. apply swp_over_conn; [done|].
  pose proof (exchange_uses_up left fuel path (doh_request q) host_header version (dh_world s)) as Hup.
  pose proof (exchange_sends sent fuel path (doh_request q) host_header version wire (dh_world s) Hwire) as Hsent.
  pose proof (exchange_spec left fuel path (doh_request q) host_header version (dh_world s) Hf) as Hex.
  unfold swp, puts in *. destruct (exchange _ _ _ _ _ (dh_world s)) as [[r|err| |] w']; simpl in *; try done.
  by destruct Hex.
Qed.

(** At most [n] more times. *)
Definition repeats (n : nat) (wire : bytes) s s' : Prop := ∃ k, k ≤ n ∧ puts (repeat wire k) s s'.

Lemma doh_attempts_spec q wire fuel n s :
  Forall is_byte q → 12 ≤ length q → is_request q wire → n < 2 → (n = 1 → dh_conn s = true) → remaining s < fuel →
  swp (attempts path host_header label version (2 - n) fuel n q)
    (λ r s', accepts q r ∧ ∃ k, 0 < k ≤ 2 - n ∧ puts (repeat wire k) s s')
    (λ e s', io_failure e ∧ repeats (2 - n) wire s s') s.
Proof using All.
  intros Hq Hl Hwire. remember (2 - n) as rounds eqn:Hrounds. revert n Hrounds s.
  induction rounds as [|rounds IH]; intros n Hrounds s Hn Hconn Hfuel; [lia|].
  cbn [attempts]. unfold MAX_ATTEMPTS. rewrite (proj2 (Nat.leb_gt _ _)) by lia.
  eapply (swp_call _ _ (λ _ s', puts [] s s') (λ _ _, False)); [| |done].
  { destruct (n =? 1) eqn:Hn1; prop_of_bool; [|by apply swp_ret, puts_nothing].
    apply swp_on_doh_conn; [auto|]. apply puts_close. }
  intros _ s1 Hs1.
  assert (∀ e s2 j, j ≤ 1 → io_failure e → dh_conn s2 = true → puts (repeat wire j) s s2 →
    swp (if n <? 2 - 1 then attempts path host_header label version rounds fuel (S n) q else throw e)
      (λ r s', accepts q r ∧ ∃ k, 0 < k ≤ S rounds ∧ puts (repeat wire k) s s')
      (λ e s', io_failure e ∧ repeats (S rounds) wire s s') s2) as Hretry.
  { intros e s2 j Hj He Hc2 Hs2. destruct (n <? 2 - 1) eqn:Hlast; prop_of_bool.
    2:{ apply swp_throw. split; [done|]. exists j. split; [lia|done]. }
    destruct Hs2 as [Hs2 Hj2]. eapply swp_mono; [apply (IH (S n)); [lia|lia|done|lia]|..]; cbv beta.
    - intros r s3 (Hacc & k & Hk & Hp). split; [done|]. exists (j + k). split; [lia|]. rewrite repeat_app.
      by eapply puts_app.
    - intros e' s3 (He' & k & Hk & Hp). split; [done|]. exists (j + k). split; [lia|]. rewrite repeat_app.
      by eapply puts_app. }
  eapply swp_attempt_bind; [apply doh_ensure_connection_spec|..].
  - intros _ s2 [Hc2 Hs2]. assert (puts [] s s2) as Hs02 by (by eapply puts_on).
    eapply swp_attempt_bind; [apply (doh_exchange_spec fuel q wire); [done|done|destruct Hs02; lia]|..].
    + intros r s3 (Hb & Hc3 & Hs3). pose proof (puts_app _ _ _ _ _ Hs02 Hs3) as Hs03.
      eapply swp_mono; [by apply accept_response_spec|..]; cbv beta.
      * intros b s4 (Hs4 & -> & _ & Hacc). split; [done|]. exists 1. split; [lia|]. by eapply puts_on.
      * intros e s4 [Hs4 He]. split; [done|]. exists 1. split; [lia|]. by eapply puts_on.
    + intros err s3 (Hc3 & Hs3). pose proof (puts_app _ _ _ _ _ Hs02 Hs3) as Hs03.
      apply (close_spec [wire] s); [done|done|]. intros s4 Hc4 Hs4.
      destruct (bool_decide _); [|apply (Hretry _ _ 1); [lia|apply to_dns_error_failure|done|done]].
      apply swp_throw. split; [apply to_dns_error_failure|]. exists 1. split; [lia|done].
  - intros e s2 (Hc2 & Hs2 & He). apply (Hretry _ _ 0); [lia|done|done|]. by eapply puts_on.
Qed.

Lemma doh_query_spec fuel host type s :
  Forall is_byte host → remaining s < fuel →
  let packet := build_query (random_draw (dh_world s)).1 host (type_to_record_type type) in
  swp (query path host_header label version fuel host type)
    (λ r s', ∃ q wire k, packet = Ret q ∧ is_request q wire ∧ 0 < k ≤ 2 ∧ puts (repeat wire k) s s' ∧ accepts q r)
    (λ e s', (∃ q wire k, packet = Ret q ∧ is_request q wire ∧ k ≤ 2 ∧ puts (repeat wire k) s s' ∧ io_failure e)
       ∨ (ei_code e = UNKNOWN ∧ puts [] s s' ∧ ∃ x, packet = Throw x ∧ name_fault host x)) s.
Proof using All.
  intros Hh Hfuel packet. unfold query.
  eapply (swp_call _ _ (λ rnd s', rnd = (random_draw (dh_world s)).1 ∧ puts [] s s') (λ _ _, False)); [| |done].
  { unfold swp, draw, puts. pose proof (left_draw (dh_world s)) as Hd. pose proof (sent_draw (dh_world s)) as Hs.
    destruct (random_draw (dh_world s)) as [z w]. simpl in *. by rewrite Hs, app_nil_r. }
  intros rnd s1 [-> Hs1]. apply swp_bind, swp_catch, swp_lift. fold packet.
  pose proof (build_query_spec (random_draw (dh_world s)).1 host (type_to_record_type type)) as Hspec. fold packet in Hspec.
  destruct packet as [q|x| |] eqn:Hpacket; cbn [wp] in *; try done.
  - destruct Hspec as [Hlen Hb]. destruct (build_request_eq (E:=Error) (doh_request q) path host_header version) as [wire Hw].
    eapply swp_mono; [apply (doh_attempts_spec q wire fuel 0); auto; [lia..|destruct Hs1; lia]|..]; cbv beta.
    + intros r s2 (Hacc & k & Hk & Hp). exists q, wire, k. split_and!; try done; try lia. eapply (puts_app []); eassumption.
    + intros e s2 (He & k & Hk & Hp). left. exists q, wire, k. split_and!; try done. eapply (puts_app []); eassumption.
  - apply swp_throw. right. split_and!; [done|done|]. by exists x.
Qed.
End doh_proofs.

(** * Properties *)

(** C16: A DoH query, against a peer that sends finitely many octets, ends without
    dereferencing a null connection or leaving its retry loop at the
    unreachable end.  The packet is the one built with the identifier that is drawn
    first.  If the query returns octets, validation accepts them for that packet,
    with its identifier; otherwise it fails with RETRY, CONNECTION, CANCELLED,
    PARSE or SERVER_REFUSED.  In both cases what has been put on the wire meanwhile
    is the HTTP request around that packet, once for every exchange that was
    attempted: at most twice, and at least once for an answer.  Only when the
    packet cannot be built, because of the name asked for, does the query fail
    with UNKNOWN, and then nothing has been sent. *)
Theorem doh_query_sound {W} `{TlsConnectionBase W} `{SteadyClock W} `{RandomEngine W} `{PicoHttpOk}
    `{!TlsConnectionOk W} (left : W → nat) `{!FiniteTls W left} (sent : W → list bytes) `{!LogsSends W sent}
    (path host_header label version : bytes) (fuel : nat) (host : bytes) (type : RecordKind)
    (s : DohState W) :
  Forall is_byte host → left (dh_world s) < fuel →
  let packet := build_query (random_draw (dh_world s)).1 host (type_to_record_type type) in
  ∃ s', (∃ q wire k, packet = Ret q
      ∧ build_request (E:=Error) (doh_request q) path host_header version = Ret wire
      ∧ sent (dh_world s') = sent (dh_world s) ++ repeat wire k ∧ k ≤ 2
      ∧ ((∃ r, query path host_header label version fuel host type s = (Ret r, s') ∧ 0 < k ∧ accepts q r)
         ∨ ∃ e, query path host_header label version fuel host type s = (Throw e, s') ∧ io_failure e))
  ∨ (∃ e x, packet = Throw x ∧ name_fault host x
      ∧ query path host_header label version fuel host type s = (Throw e, s') ∧ ei_code e = UNKNOWN
      ∧ sent (dh_world s') = sent (dh_world s)).
Proof.
  intros Hh Hf packet.
  destruct (swp_cases _ _ _ _ (doh_query_spec left sent path host_header label version fuel host type s Hh Hf))
    as [(r & s' & Heq & q & wire & k & Hp & Hw & [Hpos Hk] & [_ Hs] & Hacc)
       |(e & s' & Heq & [(q & wire & k & Hp & Hw & Hk & [_ Hs] & He)|(He & [_ Hs] & x & Hp & Hx)])]; exists s'.
  - left. exists q, wire, k. split_and!; try done. left. by exists r.
  - left. exists q, wire, k. split_and!; try done. right. by exists e.
  - right. exists e, x. rewrite app_nil_r in Hs. by split_and!.
Qed.

(** The octets of a peer and what has been sent to it, in a world where time stands
    still. *)
Record octets := { oc_in : bytes; oc_sent : list bytes }.
Definition oc_drop (n : nat) (w : octets) : octets := {| oc_in := drop n (oc_in w); oc_sent := oc_sent w |}.

#[local] Instance octets_tls : TlsConnectionBase octets := {
  tls_connect w := (inr tt, w);
  tls_close w := w;
  tls_is_connected w := false;
  tls_is_healthy w := true;
  tls_send_all b w := (inr tt, {| oc_in := oc_in w; oc_sent := oc_sent w ++ [b] |});
  tls_read_exact n w :=
    if n <=? length (oc_in w) then (inr (map u8 (take n (oc_in w))), oc_drop n w) else (inl IO_ERROR, w);
  tls_read_some n w := (inr (map u8 (take n (oc_in w))), oc_drop n w);
  tls_shutdown w := (inr tt, w);
  tls_negotiated_alpn w := str "http/1.1"
}.
#[local] Instance octets_clock : SteadyClock octets := λ _, 0%Z.
#[local] Instance octets_random : RandomEngine octets := λ w, (4660%Z, w).

#[local] Instance octets_ok : TlsConnectionOk octets.
Proof.
  split; intros n w b w' Hr; simpl in Hr.
  - destruct (n <=? length (oc_in w)) eqn:Hn; [|done]. prop_of_bool. injection Hr as <- <-.
    rewrite length_map, length_take. split; [lia|]. apply Forall_map, Forall_true. intros z. apply u8_is_byte.
  - injection Hr as <- <-.
    rewrite length_map, length_take. split; [lia|]. apply Forall_map, Forall_true. intros z. apply u8_is_byte.
Qed.

#[local] Instance octets_finite : FiniteTls octets (λ w, length (oc_in w)).
Proof.
  split; try (intros; simpl; lia).
  - split; intros *; simpl; [|lia]. unfold Transport.map_error. simpl. intros [= <- <-]. simpl.
    rewrite length_map, length_take, length_drop. lia.
  - intros n w. simpl. unfold Transport.map_error. destruct (n <=? length (oc_in w)); simpl; rewrite ?length_drop; lia.
  - intros n w. simpl. rewrite length_drop. lia.
Qed.

#[local] Instance octets_logged : LogsSends octets oc_sent.
Proof. split; try done. intros n w. simpl. by destruct (n <=? length (oc_in w)). Qed.

Definition ab_doh_state : DohState octets :=
  {| dh_world := {| oc_in := str "HTTP/1.1 200 OK" ++ crlf ++ crlf ++ ab_response; oc_sent := [] |};
     dh_conn := false; dh_last_use := 0 |}.

Lemma doh_query_sound_witness :
  Forall is_byte (str "a.b") ∧
  ∃ s', @query octets _ _ _ (sample_pico [(str "content-length", str "37")]) (str "/") (str "dns") (str "doh")
    (str "v") 100 (str "a.b") KIND_A ab_doh_state = (Ret ab_response, s') ∧ length (oc_sent (dh_world s')) = 1.
Proof.
  split; [apply str_is_bytes|].
  destruct (@doh_query_sound octets _ _ _ (sample_pico [(str "content-length", str "37")])
    (sample_pico_ok _) _ (λ w, length (oc_in w)) _ oc_sent _ (str "/") (str "dns") (str "doh") (str "v") 100
    (str "a.b") KIND_A ab_doh_state (str_is_bytes _))
    as (s' & [(q & wire & k & _ & _ & _ & _ & [(r & H & _)|(e & H & _)])|(e & x & Hp & _)]).
  - vm_compute. lia.
  - exists s'. vm_compute in H. injection H as <- <-. split; vm_compute; reflexivity.
  - vm_compute in H. discriminate H.
  - vm_compute in Hp. discriminate Hp.
Defined.
