(* ===== verification/Delivery.v ===== *)
(** What the resolvers over TLS get from a server that answers: the responses of
    one connection come in the order of its queries, each query takes the first that
    is still to come, and so a query on a connection with nothing left over gets its
    own ([src/dns/resolver/dot.cpp], [src/dns/resolver/doh.cpp]). *)
From S2P Require Import Prelude CppString StringUtil Bytes DnsTypes DnsBuilder DnsParser DnsRoundtrip DnsValidator Io Http HttpExchange DotResolver DohResolver.
Import WireWriter RecordParser Validator Dot.
Import Transport (Stream, read_some, read_exact, send_all).

(** * DNS over TLS *)

(** A response that the framing can carry. *)
Record good_response (r : bytes) : Prop := {
  response_bytes : Forall is_byte r;
  response_size : (0 < Z.of_nat (length r) < 65536)%Z
}.

Definition frame (r : bytes) : bytes := u16_be (Z.of_nat (length r)) ++ r.
Definition frames (rs : list bytes) : bytes := concat (map frame rs).

(** [text w] is what the server has still to send on the connection, [answer q] what
    it answers to the message [q].  A new connection has nothing to read.  While the
    world is [quiet], no operation fails or is cancelled. *)
Class AnsweringServer (W : Type) `{TlsConnectionBase W} `{RandomEngine W}
    (quiet : W → Prop) (text : W → bytes) (answer : bytes → bytes) := {
  answer_connect w : quiet w → ∃ w', tls_connect w = (inr tt, w') ∧ text w' = [] ∧ quiet w';
  answer_close w : quiet w → quiet (tls_close w);
  answer_shutdown w : quiet w → quiet (tls_shutdown w).2;
  answer_send q w : quiet w →
    ∃ w', tls_send_all (u16_be (Z.of_nat (length q)) ++ q) w = (inr tt, w')
      ∧ text w' = text w ++ frame (answer q) ∧ quiet w';
  answer_read n w : quiet w → n ≤ length (text w) →
    ∃ w', tls_read_exact n w = (inr (take n (text w)), w') ∧ text w' = drop n (text w) ∧ quiet w';
  answer_draw w : quiet w → text (random_draw w).2 = text w ∧ quiet (random_draw w).2
}.

(** The connection that [ensure_connection] keeps. *)
Definition reusable {W} `{TlsConnectionBase W} `{SteadyClock W} (s : DotState W) : bool :=
  ds_conn s && tls_is_connected (ds_world s)
  && ((to_seconds (steady_now (ds_world s) - ds_last_use s) <? IDLE_TIMEOUT)%Z && tls_is_healthy (ds_world s)).

Section dot.
Context {W : Type} `{TlsConnectionBase W} `{SteadyClock W} `{RandomEngine W} (label : bytes).
Context (quiet : W → Prop) (text : W → bytes) (answer : bytes → bytes) `{!AnsweringServer W quiet text answer}.
Implicit Types s : DotState W.

#[local] Abbreviation calm s := (quiet (ds_world s)).
#[local] Abbreviation to_come s := (text (ds_world s)).

Lemma close_calm {E A} (k : st (DotState W) E A) Q T s :
  ds_conn s = true → calm s → (∀ s', calm s' → swp k Q T s') → swp (_ ← conn_shutdown; _ ← conn_close; k) Q T s.
Proof using All.
  intros Hc Hs Hk. apply swp_bind, swp_dot_conn; [done|]. apply swp_bind, swp_dot_conn; [done|].
  apply Hk. simpl. by apply answer_close, answer_shutdown.
Qed.

Lemma ensure_connection_calm s :
  calm s →
  swp (ensure_connection label)
    (λ _ s', ds_conn s' = true ∧ calm s' ∧ to_come s' = if reusable s then to_come s else []) (λ _ _, False) s.
Proof using All.
  intros Hs. unfold ensure_connection. apply swp_bind, swp_gets, swp_bind, swp_gets. unfold id.
  eapply (swp_call _ _ (λ (reuse : bool) s', calm s' ∧ reuse = reusable s ∧ (reuse = true → s' = s)) (λ _ _, False)).
  - unfold reusable. destruct (ds_conn s) eqn:Hc; [|by apply swp_ret].
    destruct (tls_is_connected _); [|by apply swp_ret]. cbn [andb].
    destruct (_ <? _)%Z; cbn [andb]; [destruct (tls_is_healthy _); [by apply swp_ret|]|];
      (apply close_calm; [done..|]; intros s' Hs'; by apply swp_ret).
  - intros reuse s1 (Hs1 & -> & Hr). destruct (reusable s) eqn:Hreuse.
    + rewrite (Hr eq_refl) in *. apply swp_ret. split; [|done]. unfold reusable in Hreuse. by destruct (ds_conn s).
    + apply swp_bind, swp_modify, swp_bind, swp_dot_conn; [done|]. cbn [ds_world set_conn].
      destruct (answer_connect _ Hs1) as (w' & -> & Ht & Hw'). cbn [fst snd].
      apply swp_bind, swp_gets, swp_bind. unfold id.
      destruct (_ && _)%bool; simpl; [apply swp_modify|apply swp_ret]; by apply swp_modify.
  - done.
Qed.

Lemma send_query_calm q s :
  calm s → (Z.of_nat (length q) < 65536)%Z →
  swp (send_query label (u16_be (Z.of_nat (length q)) ++ q))
    (λ _ s', ds_conn s' = true ∧ calm s' ∧ to_come s' = (if reusable s then to_come s else []) ++ frame (answer q))
    (λ _ _, False) s.
Proof using All.
  intros Hs Hq. unfold send_query. eapply swp_call; [by apply ensure_connection_calm| |done].
  intros _ s1 (Hc1 & Hs1 & Ht1). apply swp_bind, swp_dot_conn; [done|].
  destruct (answer_send q _ Hs1) as (w' & -> & Ht' & Hw'). apply swp_ret. simpl. by rewrite Ht', Ht1.
Qed.

Lemma read_exact_calm n (k : IoStatus + bytes → st (DotState W) DnsErrorInfo bytes) pre rest Q T s :
  ds_conn s = true → calm s → to_come s = pre ++ rest → length pre = n →
  (∀ s', ds_conn s' = true → calm s' → to_come s' = rest → swp (k (inr pre)) Q T s') →
  swp (status ← on_conn (tls_read_exact n); k status) Q T s.
Proof using All.
  intros Hc Hs Ht <- Hk. apply swp_bind, swp_dot_conn; [done|].
  destruct (answer_read (length pre) _ Hs) as (w' & -> & Ht' & Hw'); [rewrite Ht, length_app; lia|].
  cbn [fst snd]. rewrite Ht, take_app_length. rewrite Ht, drop_app_length in Ht'. by apply Hk.
Qed.

(** The first response is taken off. *)
Lemma read_response_calm r rest s :
  good_response r → ds_conn s = true → calm s → to_come s = frame r ++ rest →
  swp (read_response label) (λ r' s', r' = r ∧ ds_conn s' = true ∧ calm s' ∧ to_come s' = rest) (λ _ _, False) s.
Proof using All.
  intros [Hb Hsize] Hc Hs Ht. unfold frame in Ht. rewrite <- app_assoc in Ht. unfold read_response.
  eapply read_exact_calm; [done..|]. intros s1 Hc1 Hs1 Ht1. apply swp_bind, swp_lift.
  pose proof (read_u16_be_u16_be (E:=DnsErrorInfo) [] [] (Z.of_nat (length r)) 0 eq_refl) as Hlen.
  rewrite app_nil_r in Hlen. cbn [app] in Hlen. rewrite Hlen by (unfold is_u16; lia). cbn [wp].
  rewrite (proj2 (Z.eqb_neq _ _)), (proj2 (Z.ltb_ge _ _)) by lia.
  eapply read_exact_calm; [done..|lia|]. intros s2 Hc2 Hs2 Ht2. by apply swp_ret.
Qed.

(** One attempt is enough, whatever is still to come. *)
Lemma attempts_calm q rs s :
  Forall is_byte q → 12 ≤ length q → (Z.of_nat (length q) < 65536)%Z →
  Forall good_response rs → good_response (answer q) → calm s → to_come s = frames rs →
  let waiting := (if reusable s then rs else []) ++ [answer q] in
  swp (attempts label MAX_ATTEMPTS 0 q (u16_be (Z.of_nat (length q)) ++ q))
    (λ r s', ∃ rest, waiting = r :: rest ∧ accepts q r ∧ ds_conn s' = true ∧ calm s' ∧ to_come s' = frames rest)
    (λ e s', ∃ r rest, waiting = r :: rest ∧ ¬ accepts q r ∧ ei_code e = PARSE
       ∧ ds_conn s' = true ∧ calm s' ∧ to_come s' = frames rest) s.
Proof using All.
  intros Hq H12 Hl Hrs Ha Hs Ht waiting. cbn [attempts MAX_ATTEMPTS Nat.leb Nat.eqb].
  apply swp_bind, swp_ret.
  eapply swp_attempt_bind; [by apply send_query_calm| |done]. intros _ s1 (Hc1 & Hs1 & Ht1).
  assert (to_come s1 = frames waiting) as Hw.
  { rewrite Ht1, Ht. subst waiting. unfold frames. destruct (reusable s); cbn [app map concat];
      rewrite ?map_app, ?concat_app; cbn [map concat]; by rewrite ?app_nil_r. }
  assert (Forall good_response waiting) as Hgood.
  { subst waiting. apply Forall_app_2; [by destruct (reusable s)|by constructor]. }
  destruct waiting as [|r rest] eqn:Hwait; [by destruct (reusable s), rs; simplify_list_eq|].
  apply Forall_cons_1 in Hgood as [Hr _].
  eapply swp_attempt_bind; [by apply (read_response_calm r (frames rest))| |done].
  intros r' s2 (-> & Hc2 & Hs2 & Ht2). apply swp_bind, swp_lift.
  eapply wp_mono; [apply validate_response_spec; [done|apply Hr|done]|..].
  - intros [] Hacc. apply swp_bind, swp_gets, swp_bind, swp_modify, swp_ret. by exists rest.
  - intros e [He Hacc]. by exists r, rest.
Qed.

(** The first response of those that are still to come, after the query's own has
    been added, is the one that is judged; the others stay. *)
Lemma query_calm host type rs s :
  Forall is_byte host → (∀ e, ¬ name_fault host e) → Forall good_response rs →
  (∀ q, padded_query host (type_to_record_type type) q → good_response (answer q)) →
  calm s → to_come s = frames rs →
  ∃ q, padded_query host (type_to_record_type type) q ∧
  let s1 := (build_padded_query host (type_to_record_type type) s).2 in
  let waiting := (if reusable s1 then rs else []) ++ [answer q] in
  swp (query label host type)
    (λ r s', ∃ rest, waiting = r :: rest ∧ accepts q r ∧ ds_conn s' = true ∧ calm s' ∧ to_come s' = frames rest)
    (λ e s', ∃ r rest, waiting = r :: rest ∧ ¬ accepts q r ∧ ei_code e = PARSE
       ∧ ds_conn s' = true ∧ calm s' ∧ to_come s' = frames rest) s.
Proof using All.
  intros Hh Hname Hrs Ha Hs Ht.
  destruct (swp_cases _ _ _ _ (build_padded_query_keeps (λ w, quiet w ∧ text w = frames rs)
      ltac:(intros w [Hw <-]; destruct (answer_draw w Hw); done)
      host (type_to_record_type type) s (conj Hs Ht)))
    as [(q & s1 & Hbuild & Hq & [Hs1 Ht1] & Hsame)|(e & s1 & _ & He & _)]; [|by destruct (Hname e)].
  exists q. destruct (padded_query_size _ _ _ Hq) as (_ & Hsize & Hb).
  split; [done|]. cbv zeta. rewrite Hbuild. cbn [snd].
  unfold query. apply swp_bind, swp_catch. unfold swp at 1. rewrite Hbuild. cbn [fst snd wp].
  apply swp_bind, swp_lift. rewrite build_wire_format_eq. cbn [wp].
  rewrite u16_small by (unfold is_u16; lia). apply attempts_calm; auto; lia.
Qed.
End dot.

(** C15: A DoT query takes one response off the connection, the first of those that
    are still to come: its own when nothing is left over, an earlier query's
    otherwise.  It returns that response if validation accepts it and fails with
    PARSE if not; the others stay on the connection.  So one response left over
    makes every later query on that connection judge its predecessor's. *)
Theorem dot_query_delivers {W : Type} `{TlsConnectionBase W} `{SteadyClock W} `{RandomEngine W}
    (quiet : W → Prop) (text : W → bytes) (answer : bytes → bytes) `{!AnsweringServer W quiet text answer}
    (label host : bytes) (type : RecordKind) (rs : list bytes) (s : DotState W) :
  Forall is_byte host → (∀ e, ¬ name_fault host e) → Forall good_response rs →
  (∀ q, padded_query host (type_to_record_type type) q → good_response (answer q)) →
  quiet (ds_world s) → text (ds_world s) = frames rs →
  ∃ q r rest s', padded_query host (type_to_record_type type) q
    ∧ (if reusable (build_padded_query host (type_to_record_type type) s).2 then rs else []) ++ [answer q] = r :: rest
    ∧ ds_conn s' = true ∧ quiet (ds_world s') ∧ text (ds_world s') = frames rest
    ∧ ((query label host type s = (Ret r, s') ∧ accepts q r)
       ∨ ∃ e, query label host type s = (Throw e, s') ∧ ei_code e = PARSE ∧ ¬ accepts q r).
Proof.
  intros Hh Hname Hrs Ha Hs Ht.
  destruct (query_calm label quiet text answer host type rs s Hh Hname Hrs Ha Hs Ht) as (q & Hq & Hspec).
  destruct (swp_cases _ _ _ _ Hspec)
    as [(r & s' & Hr & rest & Hw & Hacc & Hc & Hs' & Ht')|(e & s' & He & r & rest & Hw & Hacc & Hcode & Hc & Hs' & Ht')];
    exists q, r, rest, s'; split_and!; eauto.
Qed.

(** ** A server that echoes the question *)

(** [e_cancel]: the next read is cancelled. *)
Record echo := { e_in : bytes; e_rnd : Z; e_cancel : bool; e_now : Z }.

Definition echo_text (t : bytes) (w : echo) : echo :=
  {| e_in := t; e_rnd := e_rnd w; e_cancel := e_cancel w; e_now := e_now w |}.

Definition echo_answer (q : bytes) : bytes := take 2 q ++ [129; 128; 0; 1; 0; 0; 0; 0; 0; 0]%Z ++ drop 12 q.

#[export] Instance echo_tls : TlsConnectionBase echo := {
  tls_connect w := (inr tt, echo_text [] w);
  tls_close w := w;
  tls_is_connected w := true;
  tls_is_healthy w := true;
  tls_send_all b w := (inr tt, echo_text (e_in w ++ frame (echo_answer (drop 2 b))) w);
  tls_read_exact n w :=
    if e_cancel w then (inl IO_CANCELLED, {| e_in := e_in w; e_rnd := e_rnd w; e_cancel := false; e_now := e_now w |})
    else if n <=? length (e_in w) then (inr (take n (e_in w)), echo_text (drop n (e_in w)) w)
    else (inl IO_TIMEOUT, w);
  tls_read_some n w := (inl IO_ERROR, w);
  tls_shutdown w := (inr tt, w);
  tls_negotiated_alpn w := str "dot"
}.
#[export] Instance echo_clock : SteadyClock echo := e_now.
#[export] Instance echo_random : RandomEngine echo := λ w,
  (e_rnd w, {| e_in := e_in w; e_rnd := (e_rnd w + 1)%Z; e_cancel := e_cancel w; e_now := e_now w |}).

#[export] Instance echo_answers : AnsweringServer echo (λ w, e_cancel w = false) e_in echo_answer.
Proof.
  split; try done.
  - intros w Hw. by exists (echo_text [] w).
  - intros q w Hw. by eexists.
  - intros n w Hw Hn. exists (echo_text (drop n (e_in w)) w). cbn. by rewrite Hw, (proj2 (Nat.leb_le _ _) Hn).
Qed.

Lemma ab_no_fault e : ¬ name_fault (str "a.b") e.
Proof.
  intros [[_ Hf]|(p & _ & Hf)]; [vm_compute in Hf; lia|].
  assert (default (length (str "a.b")) (find (str "a.b") [ch "."] p) ≤ 3) as Hle; [|lia].
  destruct (find _ _ p) as [i|] eqn:Hi; [|simpl; lia]. apply find_Some_bound in Hi as [_ Hi]. simpl in *. lia.
Qed.

Lemma echo_good host type q : Forall is_byte host → padded_query host type q → good_response (echo_answer q).
Proof.
  intros Hh Hq. destruct (padded_query_size _ _ _ Hq) as (_ & Hsize & Hb). unfold echo_answer. split.
  - apply Forall_app_2; [by apply Forall_take; auto|]. apply Forall_app_2; [|by apply Forall_drop; auto].
    repeat constructor; unfold is_byte; lia.
  - rewrite !length_app, length_take, length_drop. cbn [length]. lia.
Qed.

Definition echo_state (t : bytes) (cancel : bool) : DotState echo :=
  {| ds_world := {| e_in := t; e_rnd := 7; e_cancel := cancel; e_now := 1000 |};
     ds_conn := true; ds_last_use := 0; ds_alpn_warned := false |}.

Definition ab_outcome (s : DotState echo) : option bool * DotState echo :=
  let '(r, s') := query (str "dot") (str "a.b") KIND_A s in
  (match r with Ret _ => Some true | Throw e => if bool_decide (ei_code e = PARSE) then Some false else None | _ => None end, s').

(** The answer to a cancelled query is left over, and every query after it fails. *)
Example late_answers :
  let '(r1, s1) := ab_outcome (echo_state [] true) in
  let '(r2, s2) := ab_outcome s1 in
  let '(r3, s3) := ab_outcome s2 in
  r1 = None ∧ r2 = Some false ∧ r3 = Some false ∧ (ab_outcome (echo_state [] false)).1 = Some true.
Proof. vm_compute. repeat split. Qed.

Lemma dot_query_delivers_witness :
  ∃ e s', query (str "dot") (str "a.b") KIND_A (echo_state (frames [ab_response]) false) = (Throw e, s')
    ∧ ei_code e = PARSE.
Proof.
  assert (good_response ab_response) as Hab.
  { split; [apply (bool_decide_unpack _); vm_compute; exact I|vm_compute; split; reflexivity]. }
  destruct (dot_query_delivers (λ w, e_cancel w = false) e_in echo_answer (str "dot") (str "a.b") KIND_A
      [ab_response] (echo_state (frames [ab_response]) false))
    as (q & r & rest & s' & _ & _ & _ & _ & _ & [[Hr _]|(e & He & Hcode & _)]).
  - apply str_is_bytes.
  - exact ab_no_fault.
  - constructor; [exact Hab|constructor].
  - intros q Hq. exact (echo_good _ _ _ (str_is_bytes _) Hq).
  - reflexivity.
  - reflexivity.
  - vm_compute in Hr. discriminate Hr.
  - exists e, s'. split; [exact He|exact Hcode].
Defined.

(** * DNS over HTTPS *)

(** A server that answers a POST with one complete response, of status 200, whose
    body is the answer to the message; [limit] bounds the length of its text. *)
Class AnsweringHttps (W : Type) `{TlsConnectionBase W} `{RandomEngine W} `{PicoHttp}
    (quiet : W → Prop) (text : W → bytes) (answer : bytes → bytes) (path host_header version : bytes) (limit : nat) := {
  https_serves :: ServingPeer W quiet text;
  https_connect w : quiet w → ∃ w', tls_connect w = (inr tt, w') ∧ text w' = [] ∧ quiet w';
  https_close w : quiet w → quiet (tls_close w);
  https_post q b w : quiet w → text w = [] →
    build_request (E:=Http.Error) (Doh.doh_request q) path host_header version = Ret b →
    ∃ w', send_all b w = (inr tt, w') ∧ quiet w' ∧ length (text w') ≤ limit
      ∧ response_text (text w') {| r_status_code := 200; r_body := answer q |} [];
  https_draw w : quiet w → text (random_draw w).2 = text w ∧ quiet (random_draw w).2
}.

Section doh.
Context {W : Type} `{TlsConnectionBase W} `{SteadyClock W} `{RandomEngine W} `{ChunkedOk}.
Context (quiet : W → Prop) (text : W → bytes) (answer : bytes → bytes) (path host_header label version : bytes) (limit : nat).
Context `{!AnsweringHttps W quiet text answer path host_header version limit}.
Implicit Types s : Doh.DohState W.

(** Nothing is left over on the connection. *)
Definition clean s : Prop := quiet (Doh.dh_world s) ∧ text (Doh.dh_world s) = [].

Lemma doh_connection_clean s :
  clean s → swp (Doh.ensure_connection label) (λ _ s', Doh.dh_conn s' = true ∧ clean s') (λ _ _, False) s.
Proof using All.
  intros [Hs Ht]. unfold Doh.ensure_connection. apply swp_bind, swp_gets, swp_bind, swp_gets. unfold id.
  eapply (swp_call _ _ (λ (reuse : bool) s', quiet (Doh.dh_world s') ∧ (reuse = true → Doh.dh_conn s' = true ∧ s' = s)) (λ _ _, False)).
  - destruct (Doh.dh_conn s) eqn:Hc; [|by apply swp_ret].
    destruct (tls_is_connected _); [|by apply swp_ret]. cbn [andb].
    destruct (_ <? _)%Z; [destruct (tls_is_healthy _); [by apply swp_ret|]|];
      (apply swp_bind; unfold swp at 1, Doh.conn_close, Doh.on_conn; rewrite Hc; cbn [fst snd wp];
       apply swp_ret; split; [by apply https_close|done]).
  - intros [|] s1 [Hs1 Hr]; [destruct (Hr eq_refl) as [Hc ->]; by apply swp_ret|].
    apply swp_bind, swp_modify, swp_bind. unfold swp at 1, Doh.on_conn. cbn [Doh.dh_conn Doh.dh_world Doh.with_conn].
    destruct (https_connect _ Hs1) as (w' & -> & Ht' & Hw'). cbn [fst snd wp]. by apply swp_modify.
  - done.
Qed.

Lemma doh_attempts_clean fuel q s :
  Forall is_byte q → 12 ≤ length q → Forall is_byte (answer q) → accepts q (answer q) → limit < fuel → clean s →
  swp (Doh.attempts path host_header label version Doh.MAX_ATTEMPTS fuel 0 q)
    (λ r s', r = answer q ∧ Doh.dh_conn s' = true ∧ clean s') (λ _ _, False) s.
Proof using All.
  intros Hq H12 Ha Hacc Hfuel Hs. cbn [Doh.attempts Doh.MAX_ATTEMPTS Nat.leb Nat.eqb]. apply swp_bind, swp_ret.
  eapply swp_attempt_bind; [by apply doh_connection_clean| |done]. intros _ s1 (Hc1 & Hs1 & Ht1).
  destruct (build_request_eq (E:=Http.Error) (Doh.doh_request q) path host_header version) as [b Hb].
  destruct (https_post q b _ Hs1 Ht1 Hb) as (w1 & Hsend & Hq1 & Hlim & Hr).
  eapply (swp_attempt_bind _ _ (λ r s2, r = {| r_status_code := 200; r_body := answer q |} ∧ Doh.dh_conn s2 = true ∧ clean s2)
    (λ _ _, False)); [|intros r s2 (-> & Hc2 & Hs2)|done].
  - unfold swp, Doh.over_conn. rewrite Hc1.
    pose proof (exchange_serves quiet text fuel path (Doh.doh_request q) host_header version _ b w1 _ _ Hb Hsend Hq1 Hr
      ltac:(lia)) as Hex.
    unfold swp in Hex. destruct (exchange _ _ _ _ _ _) as [[r|e| |] w']; simpl in *; try done.
    destruct Hex as (-> & Hq' & n & Hn). rewrite drop_nil in Hn. done.
  - unfold Doh.accept_response. cbn [r_status_code r_body]. apply swp_bind, swp_lift.
    eapply wp_mono; [by apply validate_response_spec|intros [] _|by intros e [_ Hno]].
    by apply swp_bind, swp_gets, swp_bind, swp_modify, swp_ret.
Qed.
End doh.

(** A DoH query on a clean connection, or on none, returns the server's answer and
    leaves the connection clean. *)
Theorem doh_query_delivers {W : Type} `{TlsConnectionBase W} `{SteadyClock W} `{RandomEngine W} `{ChunkedOk}
    (quiet : W → Prop) (text : W → bytes) (answer : bytes → bytes) (path host_header label version : bytes) (limit : nat)
    `{!AnsweringHttps W quiet text answer path host_header version limit}
    (fuel : nat) (host : bytes) (type : RecordKind) (s : Doh.DohState W) :
  Forall is_byte host → (∀ e, ¬ name_fault host e) → limit < fuel → clean quiet text s →
  (∀ q, build_query (random_draw (Doh.dh_world s)).1 host (type_to_record_type type) = Ret q →
     Forall is_byte (answer q) ∧ accepts q (answer q)) →
  ∃ q s', build_query (random_draw (Doh.dh_world s)).1 host (type_to_record_type type) = Ret q
    ∧ Doh.query path host_header label version fuel host type s = (Ret (answer q), s')
    ∧ Doh.dh_conn s' = true ∧ clean quiet text s'.
Proof.
  intros Hh Hname Hfuel [Hs Ht] Ha. destruct (https_draw _ Hs) as [Ht1 Hs1].
  destruct (random_draw (Doh.dh_world s)) as [rnd w1] eqn:Hd. cbn [fst snd] in *.
  destruct (wp_cases _ _ _ (build_query_spec rnd host (type_to_record_type type)))
    as [(q & Hq & H12 & Hb)|(e & _ & He)]; [|by destruct (Hname e)].
  destruct (Ha q Hq) as [Hab Hacc].
  assert (clean quiet text (Doh.with_world w1 s)) as Hclean by (split; [done|]; simpl; congruence).
  destruct (swp_cases _ _ _ _ (doh_attempts_clean quiet text answer path host_header label version limit fuel q
      (Doh.with_world w1 s) (Hb Hh) H12 Hab Hacc Hfuel Hclean)) as [(r & s' & Hr & -> & Hc & Hs')|(e & s' & _ & [])].
  exists q, s'. split_and!; try done.
  unfold Doh.query, mbind, st_bind, Doh.draw, catch, lift. rewrite Hd, Hq. exact Hr.
Qed.

(** A server that has one answer; the world is what it has still to send, and the
    random engine always draws 4660. *)
#[local] Instance single_tls : TlsConnectionBase bytes := {
  tls_connect w := (inr tt, []);
  tls_close w := w;
  tls_is_connected w := false;
  tls_is_healthy w := true;
  tls_send_all b w := (inr tt, sample_head (str "37") ++ ab_response);
  tls_read_exact n w := if n <=? length w then (inr (take n w), drop n w) else (inl IO_ERROR, w);
  tls_read_some n w := (inr (take n w), drop n w);
  tls_shutdown w := (inr tt, w);
  tls_negotiated_alpn w := str "http/1.1"
}.
#[local] Instance single_clock : SteadyClock bytes := λ _, 0%Z.
#[local] Instance single_random : RandomEngine bytes := λ w, (4660%Z, w).

#[local] Instance single_answers :
  @AnsweringHttps bytes _ _ (head_pico (str "37")) (λ _, True) id (λ _, ab_response) (str "/") (str "dns") (str "v") 100.
Proof.
  split; try done.
  - split.
    + intros n w _ Hn. exists n, (drop n w). by split_and!; [| |lia|intros _; lia|].
    + intros n w _ Hn. exists (drop n w). apply Nat.leb_le in Hn. unfold id in *. cbn. by rewrite Hn.
  - intros w _. by exists [].
  - intros q b w _ _ _. exists (sample_head (str "37") ++ ab_response). split_and!; [done|done|vm_compute; lia|].
    rewrite <- (app_nil_r ab_response) at 1.
    apply sample_response_text; vm_compute; [reflexivity|discriminate|discriminate].
Qed.

Lemma ab_accepted :
  accepts ab_query ab_response.
Proof.
  split; [vm_compute; lia|]. split; [exists 129%Z; by split; [|vm_compute]|]. split; [reflexivity|].
  split; [reflexivity|]. exists 21. by split_and!; [..|vm_compute].
Qed.

Example doh_answer :
  ∃ q s', @Doh.query bytes _ _ _ (head_pico (str "37")) (str "/") (str "dns") (str "doh") (str "v") 101 (str "a.b") KIND_A
      {| Doh.dh_world := []; Doh.dh_conn := false; Doh.dh_last_use := 0 |} = (Ret ab_response, s') ∧ q = ab_query.
Proof.
  destruct (@doh_query_delivers bytes _ _ _ (head_pico (str "37")) (head_pico_chunked _) (λ _, True) id (λ _, ab_response)
    (str "/") (str "dns") (str "doh") (str "v") 100 _ 101 (str "a.b") KIND_A
    {| Doh.dh_world := []; Doh.dh_conn := false; Doh.dh_last_use := 0 |}) as (q & s' & Hq & Hr & _).
  - apply str_is_bytes.
  - exact ab_no_fault.
  - lia.
  - done.
  - intros q Hq. vm_compute in Hq. injection Hq as <-. split; [apply (bool_decide_unpack _); vm_compute; exact I|].
    exact ab_accepted.
  - exists q, s'. split; [exact Hr|]. vm_compute in Hq. injection Hq as <-. reflexivity.
Qed.
