(* ===== verification/ClassicResolver.v ===== *)
(** [src/dns/resolver/classic_native.cpp]: the plain DNS resolver: one UDP
    datagram, and TCP when the answer is truncated, over the socket interface.
    A socket is closed when its scope is left, whatever way; the number of open
    sockets, and over system calls the open descriptors, are part of the claims. *)
From S2P Require Import Prelude CppString Bytes Io Posix Address Socket DnsTypes Config DnsBuilder DnsParser DnsRoundtrip DnsValidator DotResolver DohResolver.
Import WireWriter RecordParser Validator.

Module Classic.

(* @fn src/src/dns/resolver/classic_native.cpp | UDP_TIMEOUT_SEC = | UDP_TIMEOUT_SEC *)
Definition UDP_TIMEOUT_SEC : Z := 1.
(* @fn src/src/dns/resolver/classic_native.cpp | TCP_CONNECT_TIMEOUT_SEC = | TCP_CONNECT_TIMEOUT_SEC *)
Definition TCP_CONNECT_TIMEOUT_SEC : Z := 1.
(* @fn src/src/dns/resolver/classic_native.cpp | MAX_DNS_PACKET_SIZE = | MAX_DNS_PACKET_SIZE *)
Definition MAX_DNS_PACKET_SIZE : nat := 4096.

(* @fn src/src/dns/resolver/classic_native.cpp | struct AddrResult { | AddrResult *)
Record AddrResult := { ar_addr : SocketAddr; ar_family : AddressFamily }.

(** A [DnsLookupException] with code CONFIG. *)
(* @fn src/src/dns/resolver/classic_native.cpp | AddrResult make_addr( | make_addr *)
Definition make_addr `{InetText} (server : DnsServer) : outcome DnsErrorInfo AddrResult :=
  match Address.parse (ds_address server) with
  | None => Throw {| ei_code := CONFIG;
      ei_message := str "Invalid DNS server address " ++ quoted (ds_address server)
        ++ str " — must be an IP address" |}
  | Some parsed =>
      match from_inet parsed (ds_port server) with
      | None => Throw {| ei_code := CONFIG;
          ei_message := str "Failed to build socket address for " ++ quoted (ds_address server) |}
      | Some sa => Ret {| ar_addr := sa; ar_family := get_family parsed |}
      end
  end.

(* @fn src/src/dns/resolver/classic_native.cpp | DnsError classify_socket_error( | classify_socket_error *)
Definition classify_socket_error (errnum : Z) : DnsError :=
  if ((errnum =? ETIMEDOUT) || (errnum =? EAGAIN))%Z then RETRY
  else if (errnum =? ECANCELED)%Z then CANCELLED
  else CONNECTION.

(** What ends a query early: the error of a [std::expected], or an exception
    of the builder, of a socket's constructor or of [value()]. *)
Inductive failure :=
| Unexpected (e : DnsErrorInfo)
| PacketException (e : DnsPacketException)
| SocketException (what : bytes)
| StdException (what : bytes).

Section classic.
Context {W : Type} `{SocketBase W} `{RandomEngine W}.
(** [std::strerror], and the resolver's constant members. *)
Context (strerror : Z → bytes) (resolver_id : Z) (addr_ : AddrResult).

Abbreviation io := (st W failure).

Definition call {A} (f : W → A * W) : io A := λ w, let '(a, w) := f w in (Ret a, w).

Definition fail {A} (code : DnsError) (message : bytes) : io A :=
  throw (Unexpected {| ei_code := code; ei_message := message |}).

(** "Resolver #<id> <text>". *)
Definition message (text : bytes) : bytes := str "Resolver #" ++ dec resolver_id ++ str " " ++ text.

(* @fn src/src/dns/resolver/classic_native.cpp | std::string socket_error_msg( | socket_error_msg *)
Definition socket_error_msg (context : bytes) (errnum : Z) : bytes :=
  message (context ++ str ": " ++ strerror errnum).

(** A [Socket] local variable: its destructor runs however the scope is left. *)
Definition with_socket {A} (t : sock_type) (body : io A) : io A :=
  opened ← call (sock_open (ar_family addr_) t);
  match opened with
  | inl what => throw (SocketException what)
  | inr _ =>
      r ← Io.attempt body;
      _ ← modify sock_close;
      match r with inl e => throw e | inr a => mret a end
  end.

(* @fn src/src/dns/resolver/classic_native.cpp | DnsErrorInfo> query_udp( | query_udp *)
Definition query_udp (query_packet : bytes) : io bytes :=
  with_socket SOCK_DGRAM (
    sent ← call (sock_send_to query_packet (ar_addr addr_));
    if negb (sent =? Z.of_nat (length query_packet))%Z then
      errno ← gets sock_errno;
      fail CONNECTION (message (str "UDP sendto failed: " ++ strerror errno)) else
    wait_res ← call (sock_wait_for (UDP_TIMEOUT_SEC * 1000)%Z);
    match wait_res with
    | inl errnum => fail (classify_socket_error errnum) (socket_error_msg (str "UDP wait_for") errnum)
    | inr ready =>
        if (ready =? 0)%Z then fail RETRY (message (str "UDP query timed out")) else
        received ← call (sock_recv_from MAX_DNS_PACKET_SIZE);
        match received with
        | None => errno ← gets sock_errno;
                  fail CONNECTION (message (str "UDP recvfrom failed: " ++ strerror errno))
        | Some response => mret response
        end
    end).

(** The lambda of [query_tcp]: at least one octet, or an error. *)
(* @fn src/src/dns/resolver/classic_native.cpp | auto recv_with_timeout = | query_tcp (recv_with_timeout) *)
Definition recv_with_timeout (n : nat) : io bytes :=
  wait_res ← call (sock_wait_for (TCP_CONNECT_TIMEOUT_SEC * 1000)%Z);
  match wait_res with
  | inl errnum => fail (classify_socket_error errnum) (socket_error_msg (str "TCP wait_for") errnum)
  | inr ready =>
      if (ready =? 0)%Z then fail RETRY (message (str "TCP recv timed out")) else
      received ← call (sock_recv n);
      match received with
      | Some [] => fail CONNECTION (message (str "TCP connection reset by peer"))
      | None => errno ← gets sock_errno;
                fail CONNECTION (message (str "TCP recv failed: " ++ strerror errno))
      | Some b => mret b
      end
  end.

(** [while (total < size)]: [have] are the octets received so far. *)
(* @fn src/src/dns/resolver/classic_native.cpp | // Receive response body. ==> size_t total = 0; ==> while (total < rsp_buf.size()) { | query_tcp (receive loop) *)
Fixpoint recv_loop (fuel size : nat) (have : bytes) : io bytes :=
  if length have <? size then
    match fuel with
    | O => lift OutOfFuel
    | S fuel =>
        b ← recv_with_timeout (size - length have);
        recv_loop fuel size (have ++ b)
    end
  else mret have.

(* @fn src/src/dns/resolver/classic_native.cpp | DnsErrorInfo> query_tcp( | query_tcp *)
Definition query_tcp (query_packet : bytes) : io bytes :=
  with_socket SOCK_STREAM (
    conn ← call (sock_connect (ar_addr addr_) TCP_CONNECT_TIMEOUT_SEC);
    match conn with
    | inl e =>
        fail (match e with TIMED_OUT => RETRY | CE_CANCELLED => CANCELLED | _ => CONNECTION end)
          (message (str "TCP connect failed"))
    | inr _ =>
        nodelay ← call sock_set_nodelay;
        _ ← (match nodelay with
             | inl _ => throw (StdException (str "bad access to std::expected without expected value"))
             | inr _ => mret tt
             end);
        let be_len := u16 (Z.of_nat (length query_packet)) in
        sent ← call (sock_send (u16_be be_len ++ query_packet));
        if (sent <? 0)%Z then
          errno ← gets sock_errno;
          fail CONNECTION (message (str "TCP send failed: " ++ strerror errno)) else
        len_buf ← recv_loop 2 2 [];
        rsp_len ← lift (read_u16_be len_buf 0);
        if ((rsp_len =? 0) || (Z.of_nat MAX_DNS_PACKET_SIZE <? rsp_len))%Z then
          fail PARSE (str "Invalid DNS response length: " ++ dec rsp_len) else
        recv_loop (Z.to_nat rsp_len) (Z.to_nat rsp_len) []
    end).

(* @fn src/src/dns/resolver/classic_native.cpp | bool is_truncated( | is_truncated *)
Definition is_truncated (response : bytes) : bool :=
  (12 <=? length response) && negb (Z.land (nth 2 response 0%Z) 0x02 =? 0)%Z.

(** The validator's [std::expected]. *)
Definition validated (query_packet response : bytes) : io unit :=
  match validate_response query_packet response with
  | Throw e => throw (Unexpected e)
  | Ret u => mret u
  | Undef => lift Undef
  | OutOfFuel => lift OutOfFuel
  end.

(** The [try] block. *)
(* @src src/src/dns/resolver/classic_native.cpp 278 321 ClassicResolver::Impl::query (try) *)
Definition query_body (host_str : bytes) (type : RecordKind) : io bytes :=
  let record_type := type_to_record_type type in
  rnd ← call random_draw;
  query_packet ← (match build_query rnd host_str record_type with
                  | Ret q => mret q
                  | Throw e => throw (PacketException e)
                  | Undef => lift Undef
                  | OutOfFuel => lift OutOfFuel
                  end);
  resp_data ← query_udp query_packet;
  _ ← validated query_packet resp_data;
  if is_truncated resp_data then
    tcp_data ← query_tcp query_packet;
    _ ← validated query_packet tcp_data;
    mret tcp_data
  else mret resp_data.

(** The handlers. *)
(* @src src/src/dns/resolver/classic_native.cpp 322 340 ClassicResolver::Impl::query (catch) *)
Definition handle (host_str : bytes) (f : failure) : DnsErrorInfo :=
  match f with
  | Unexpected e => e
  | PacketException e =>
      {| ei_code := PARSE; ei_message := str "Query packet construction for " ++ quoted host_str
           ++ str " failed: " ++ packet_what e |}
  | SocketException what =>
      {| ei_code := CONNECTION; ei_message := str "Classic resolver query for " ++ quoted host_str
           ++ str " failed: " ++ what |}
  | StdException what =>
      {| ei_code := UNKNOWN; ei_message := str "Classic resolver query for " ++ quoted host_str
           ++ str " failed: " ++ what |}
  end.

(* @fn src/src/dns/resolver/classic_native.cpp | ClassicResolver::Impl::query(const | ClassicResolver::Impl::query *)
Definition query (host_str : bytes) (type : RecordKind) : st W DnsErrorInfo bytes :=
  catch (query_body host_str type) (λ f, throw (handle host_str f)).
End classic.
End Classic.
Import Classic.

(** * Proofs *)

Section classic_proofs.
Context {W : Type} `{SocketOk W} `{RandomEngine W}.
Context (draw_open : ∀ w : W, open_sockets (random_draw w).2 = open_sockets w).
Context (strerror : Z → bytes) (resolver_id : Z) (addr_ : AddrResult).

Abbreviation io := (st W failure).

(** The failures of the network part. *)
Definition net_failure (f : failure) : Prop :=
  match f with
  | Unexpected e => ei_code e ∈ [RETRY; CONNECTION; CANCELLED; PARSE]
  | SocketException _ | StdException _ => True
  | PacketException _ => False
  end.

(** [m] keeps the number [n] of open sockets, its value meets [P]. *)
Definition keeps {A} (n : nat) (m : io A) (P : A → Prop) : Prop :=
  ∀ w, open_sockets w = n →
    swp m (λ a w', open_sockets w' = n ∧ P a) (λ f w', open_sockets w' = n ∧ net_failure f) w.

Lemma keeps_ret {A} n (a : A) (P : A → Prop) : P a → keeps n (mret a) P.
Proof using All. intros Ha w Hw. by apply swp_ret. Qed.

Lemma keeps_throw {A} n f (P : A → Prop) : net_failure f → keeps n (throw f) P.
Proof using All. intros Hf w Hw. by apply swp_throw. Qed.

Lemma keeps_fail {A} n code msg (P : A → Prop) :
  code ∈ [RETRY; CONNECTION; CANCELLED; PARSE] → keeps n (fail code msg) P.
Proof using All. intros Hc. by apply keeps_throw. Qed.

Lemma keeps_bind {A B} n (m : io A) (f : A → io B) P Q :
  keeps n m P → (∀ a, P a → keeps n (f a) Q) → keeps n (m ≫= f) Q.
Proof using All.
  intros Hm Hf w Hw. eapply swp_call; [by apply Hm| |done].
  intros a w' [Hw' Ha]. by apply Hf.
Qed.

Lemma keeps_call {A} n (f : W → A * W) (P : A → Prop) :
  (∀ w, open_sockets (f w).2 = open_sockets w) → (∀ w, P (f w).1) → keeps n (call f) P.
Proof using All.
  intros Ho HP w Hw. unfold swp, call. specialize (Ho w). specialize (HP w).
  destruct (f w) as [a w']. simpl in *. split; [congruence|done].
Qed.

Lemma keeps_lift {A} n (m : outcome failure A) (P : A → Prop) : wp m P (λ _, False) → keeps n (lift m) P.
Proof using All. intros Hm w Hw. apply swp_lift. eapply wp_mono; [exact Hm|by split|done]. Qed.

Lemma classify_codes errnum : classify_socket_error errnum ∈ [RETRY; CONNECTION; CANCELLED; PARSE].
Proof using All. unfold classify_socket_error. destruct (_ || _); [|destruct (_ =? _)%Z]; set_solver. Qed.

(** A failure whose message reads [errno]. *)
Lemma keeps_errno_fail {A} n code (g : Z → bytes) (P : A → Prop) :
  code ∈ [RETRY; CONNECTION; CANCELLED; PARSE] →
  keeps n (errno ← gets sock_errno; fail code (g errno)) P.
Proof using All.
  intros Hc. eapply (keeps_bind _ _ _ (λ _, True)); [intros w Hw; by apply swp_gets|].
  intros errno _. by apply keeps_fail.
Qed.

Lemma with_socket_keeps {A} n t (body : io A) P :
  keeps (S n) body P → keeps n (with_socket addr_ t body) P.
Proof using All.
  intros Hb w Hw. unfold with_socket. apply swp_bind. unfold swp at 1, call.
  destruct (sock_open (ar_family addr_) t w) as [[what|[]] w1] eqn:Ho; simpl.
  - apply swp_throw. split; [|done]. rewrite <- Hw. by apply open_fails in Ho.
  - apply open_opens in Ho. eapply swp_attempt_bind; [apply Hb; congruence|..].
    + intros a w2 [Hw2 Ha]. apply swp_bind, swp_modify, swp_ret. split; [|done].
      rewrite close_closes. lia.
    + intros f w2 [Hw2 Hf]. apply swp_bind, swp_modify, swp_throw. split; [|done].
      rewrite close_closes. lia.
Qed.

Lemma query_udp_keeps n q :
  keeps n (query_udp strerror resolver_id addr_ q) (λ r, length r ≤ MAX_DNS_PACKET_SIZE ∧ Forall is_byte r).
Proof using All.
  apply with_socket_keeps.
  eapply (keeps_bind _ _ _ (λ _, True)); [apply keeps_call; [apply send_to_open|done]|].
  intros sent _. destruct (negb _); [apply keeps_errno_fail; set_solver|].
  eapply (keeps_bind _ _ _ (λ _, True)); [apply keeps_call; [apply wait_open|done]|].
  intros [errnum|ready] _; [apply keeps_fail, classify_codes|].
  destruct (ready =? 0)%Z; [apply keeps_fail; set_solver|].
  eapply (keeps_bind _ _ _ (λ o, ∀ b, o = Some b → length b ≤ MAX_DNS_PACKET_SIZE ∧ Forall is_byte b)).
  { apply keeps_call; [apply recv_from_open|]. intros w b Hb.
    apply (recv_from_length _ w _ (sock_recv_from MAX_DNS_PACKET_SIZE w).2). rewrite <- Hb. by destruct sock_recv_from. }
  intros [b|] Hb; [apply keeps_ret; by apply Hb|apply keeps_errno_fail; set_solver].
Qed.

Lemma recv_with_timeout_keeps n k :
  keeps n (recv_with_timeout strerror resolver_id k) (λ b, 0 < length b ≤ k ∧ Forall is_byte b).
Proof using All.
  eapply (keeps_bind _ _ _ (λ _, True)); [apply keeps_call; [apply wait_open|done]|].
  intros [errnum|ready] _; [apply keeps_fail, classify_codes|].
  destruct (ready =? 0)%Z; [apply keeps_fail; set_solver|].
  eapply (keeps_bind _ _ _ (λ o, ∀ b, o = Some b → length b ≤ k ∧ Forall is_byte b)).
  { apply keeps_call; [apply recv_open|]. intros w b Hb.
    apply (recv_length _ w _ (sock_recv k w).2). rewrite <- Hb. by destruct sock_recv. }
  intros [[|x b]|] Hb; [apply keeps_fail; set_solver| |apply keeps_errno_fail; set_solver].
  apply keeps_ret. destruct (Hb (x :: b) eq_refl). simpl in *. split; [lia|done].
Qed.

(** Each turn receives at least one octet: [size] turns are enough. *)
Lemma recv_loop_keeps n fuel size have :
  length have ≤ size → size - length have ≤ fuel → Forall is_byte have →
  keeps n (recv_loop strerror resolver_id fuel size have) (λ b, length b = size ∧ Forall is_byte b).
Proof using All.
  revert have. induction fuel as [|fuel IH]; intros have Hsize Hfuel Hb; cbn [recv_loop];
    destruct (length have <? size) eqn:Hlt; prop_of_bool; try lia;
    try (apply keeps_ret; split; [lia|done]).
  eapply keeps_bind; [apply recv_with_timeout_keeps|]. intros b [Hlen Hbytes].
  apply IH; rewrite ?length_app; [lia|lia|by apply Forall_app_2].
Qed.

Lemma query_tcp_keeps n q :
  keeps n (query_tcp strerror resolver_id addr_ q)
    (λ r, 0 < length r ≤ MAX_DNS_PACKET_SIZE ∧ Forall is_byte r).
Proof using All.
  apply with_socket_keeps.
  eapply (keeps_bind _ _ _ (λ _, True)); [apply keeps_call; [apply connect_open|done]|].
  intros [e|[]] _; [apply keeps_fail; destruct e; set_solver|].
  eapply (keeps_bind _ _ _ (λ _, True)); [apply keeps_call; [apply nodelay_open|done]|].
  intros r _. eapply (keeps_bind _ _ _ (λ _, True)).
  { destruct r; [by apply keeps_throw|by apply keeps_ret]. }
  intros [] _. eapply (keeps_bind _ _ _ (λ _, True)); [apply keeps_call; [apply send_open|done]|].
  intros sent _. destruct (sent <? 0)%Z; [apply keeps_errno_fail; set_solver|].
  eapply keeps_bind; [apply recv_loop_keeps; [simpl; lia..|constructor]|].
  intros len [Hlen Hb]. eapply (keeps_bind _ _ _ is_u16).
  { apply keeps_lift, wp_read_u16_be; [done|lia|]. intros v Hv _. exact Hv. }
  intros v Hv. destruct (_ || _) eqn:Hbad; prop_of_bool; [apply keeps_fail; set_solver|].
  unfold is_u16, MAX_DNS_PACKET_SIZE in *.
  assert (0 < Z.to_nat v ≤ 4096) as Hn by lia.
  intros w Hw. eapply swp_mono; [apply recv_loop_keeps; [simpl; lia..|constructor|exact Hw]| |done].
  simpl. intros b w' (Hw' & Hl & Hbb). split; [done|]. split; [lia|done].
Qed.

Lemma validated_keeps n q r :
  Forall is_byte q → Forall is_byte r → 12 ≤ length q →
  keeps n (validated q r) (λ _, accepts q r).
Proof using All.
  intros Hq Hr Hl. unfold validated. pose proof (validate_response_spec q r Hq Hr Hl) as Hv.
  destruct (validate_response q r) as [[]|e| |]; simpl in Hv; [by apply keeps_ret| |done..].
  apply keeps_throw. destruct Hv as [He _]. unfold is_parse_info in He. simpl. rewrite He. set_solver.
Qed.

(** What a query returns: at most 4096 octets that validation accepts for a
    packet [build_query] made for the question. *)
Definition answers (host : bytes) (type : RecordKind) (r : bytes) : Prop :=
  length r ≤ MAX_DNS_PACKET_SIZE ∧ Forall is_byte r
  ∧ ∃ rnd q, build_query rnd host (type_to_record_type type) = Ret q ∧ accepts q r.

Definition query_failure (host : bytes) (f : failure) : Prop :=
  net_failure f ∨ ∃ e, f = PacketException e ∧ name_fault host e.

Lemma query_body_spec host type w :
  Forall is_byte host →
  swp (query_body strerror resolver_id addr_ host type)
    (λ r w', open_sockets w' = open_sockets w ∧ answers host type r)
    (λ f w', open_sockets w' = open_sockets w ∧ query_failure host f) w.
Proof using All.
  intros Hh. unfold query_body. apply swp_bind. unfold swp at 1, call.
  pose proof (draw_open w) as Hd. destruct (random_draw w) as [rnd w1]. simpl in Hd |- *.
  pose proof (build_query_spec rnd host (type_to_record_type type)) as Hq.
  destruct (build_query rnd host (type_to_record_type type)) as [q|e| |] eqn:Hbuild; simpl in Hq; try done.
  2:{ apply swp_bind, swp_throw. split; [done|]. right. eauto. }
  destruct Hq as [Hl Hb]. specialize (Hb Hh). apply swp_bind, swp_ret.
  assert (keeps (open_sockets w)
    (resp_data ← query_udp strerror resolver_id addr_ q; _ ← validated q resp_data;
     if is_truncated resp_data then
       tcp_data ← query_tcp strerror resolver_id addr_ q; _ ← validated q tcp_data; mret tcp_data
     else mret resp_data) (answers host type)) as Hk.
  { eapply keeps_bind; [apply query_udp_keeps|]. intros r [Hrl Hrb].
    eapply keeps_bind; [by apply validated_keeps|]. intros [] Hacc.
    destruct (is_truncated r); [|apply keeps_ret; split_and!; eauto].
    eapply keeps_bind; [apply query_tcp_keeps|]. intros r2 [Hrl2 Hrb2].
    eapply keeps_bind; [by apply validated_keeps|]. intros [] Hacc2. apply keeps_ret. split_and!; [lia|done|eauto]. }
  eapply swp_mono; [apply Hk; exact Hd|done|]. intros f w' [Hw' Hf]. split; [done|by left].
Qed.
Lemma query_ok host type w :
  Forall is_byte host →
  (∃ r w', query strerror resolver_id addr_ host type w = (Ret r, w')
     ∧ open_sockets w' = open_sockets w ∧ answers host type r)
  ∨ (∃ e w', query strerror resolver_id addr_ host type w = (Throw e, w')
     ∧ open_sockets w' = open_sockets w
     ∧ ei_code e ∈ [RETRY; CONNECTION; CANCELLED; PARSE; UNKNOWN]).
Proof using All.
  intros Hh. unfold query, catch.
  destruct (swp_cases _ _ _ _ (query_body_spec host type w Hh))
    as [(r & w' & Heq & Ho & Ha)|(f & w' & Heq & Ho & Hf)]; rewrite Heq.
  - left. eauto.
  - right. eexists _, w'. split; [done|]. split; [done|].
    destruct Hf as [Hf|(x & -> & _)]; [|simpl; set_solver].
    destruct f; simpl in *; [|done|set_solver..].
    repeat (apply elem_of_cons in Hf as [->|Hf]; [set_solver|]). by apply elem_of_nil in Hf.
Qed.
End classic_proofs.

(** * Properties *)

(** C17: A classic query ends, never reads outside its buffers and leaves no
    socket open, whichever way it ends: it returns at most 4096 octets that
    validation accepts for the packet it built for the question, or fails with
    RETRY, CONNECTION, CANCELLED, PARSE or UNKNOWN. *)
Theorem classic_query_sound {W} `{SocketOk W} `{RandomEngine W} (strerror : Z → bytes)
    (resolver_id : Z) (addr : AddrResult) (host : bytes) (type : RecordKind) (w : W) :
  (∀ w : W, open_sockets (random_draw w).2 = open_sockets w) → Forall is_byte host →
  (∃ r w', query strerror resolver_id addr host type w = (Ret r, w')
     ∧ open_sockets w' = open_sockets w ∧ answers host type r)
  ∨ (∃ e w', query strerror resolver_id addr host type w = (Throw e, w')
     ∧ open_sockets w' = open_sockets w
     ∧ ei_code e ∈ [RETRY; CONNECTION; CANCELLED; PARSE; UNKNOWN]).
Proof. intros Hdraw Hh. by apply query_ok. Qed.

(** The resolver over the sockets of Socket.v: its random numbers come from the
    rest of the machine. *)
Section machine.
Context {K R : Type} `{PosixOk K} `{RandomEngine R} (base : gset Z).

Definition draw_rest (w : world K R base) : Z * world K R base :=
  let '(z, r) := random_draw (rest (contents w)) in
  (z, Build_world {| kernel := kernel (contents w); scopes := scopes (contents w); rest := r |}
        (accounted_same base _ _ eq_refl (contents_accounted w))).

Lemma draw_rest_scopes w : scopes (contents (draw_rest w).2) = scopes (contents w).
Proof using All. unfold draw_rest. by destruct (random_draw _). Qed.

Context (strerror : Z → bytes) (token : Sock.CancellationToken).

#[local] Instance kernel_sockets : SocketBase (world K R base) := socket_interface base strerror token.
#[local] Instance kernel_random : RandomEngine (world K R base) := draw_rest.

Definition kernel_query (resolver_id : Z) (addr : AddrResult) (host : bytes) (type : RecordKind) :
  st (world K R base) DnsErrorInfo bytes := query strerror resolver_id addr host type.

Lemma kernel_query_ok resolver_id addr host type w :
  Forall is_byte host →
  (∃ r w', kernel_query resolver_id addr host type w = (Ret r, w')
     ∧ length (scopes (contents w')) = length (scopes (contents w)) ∧ answers host type r)
  ∨ (∃ e w', kernel_query resolver_id addr host type w = (Throw e, w')
     ∧ length (scopes (contents w')) = length (scopes (contents w))
     ∧ ei_code e ∈ [RETRY; CONNECTION; CANCELLED; PARSE; UNKNOWN]).
Proof using All.
  pose proof (socket_interface_ok base strerror token : SocketOk (world K R base)) as Hok.
  assert (∀ w' : world K R base, open_sockets (random_draw w').2 = open_sockets w') as Hdraw
    by (intros w'; simpl; by rewrite draw_rest_scopes).
  exact (query_ok Hdraw strerror resolver_id addr host type w).
Qed.
End machine.

(** Before the query no socket is in scope. *)
Lemma outset_accounted {K R} `{Posix K} (k : K) (r : R) :
  accounted (open_fds k) {| kernel := k; scopes := []; rest := r |}.
Proof. split; [simpl; set_solver|split; constructor]. Qed.

Definition outset {K R} `{Posix K} (k : K) (r : R) : world K R (open_fds k) :=
  Build_world {| kernel := k; scopes := []; rest := r |} (outset_accounted k r).

Lemma no_scopes_fds {K R} `{Posix K} base (w : world K R base) :
  length (scopes (contents w)) = 0 → open_fds (kernel (contents w)) = base.
Proof.
  intros Hl%nil_length_inv. pose proof (proj1 (contents_accounted w)) as Ho. rewrite Ho, Hl. clear. set_solver.
Qed.

(** Over the system calls, a classic query leaves the process with the
    descriptors it had, whichever way it ends and whatever the kernel and the
    peer answer: every socket that the query opens is closed, none is closed
    twice, and no other descriptor is touched.  It returns, an answer that
    validation accepts or one of five errors. *)
Theorem classic_query_closes_descriptors {K R} `{PosixOk K} `{RandomEngine R} (strerror : Z → bytes)
    (token : Sock.CancellationToken) (resolver_id : Z) (addr : AddrResult) (host : bytes) (type : RecordKind)
    (k : K) (r : R) :
  Forall is_byte host →
  ∃ o w', kernel_query (open_fds k) strerror token resolver_id addr host type (outset k r) = (o, w')
    ∧ open_fds (kernel (contents w')) = open_fds k
    ∧ match o with
      | Ret a => answers host type a
      | Throw e => ei_code e ∈ [RETRY; CONNECTION; CANCELLED; PARSE; UNKNOWN]
      | Undef | OutOfFuel => False
      end.
Proof.
  intros Hh.
  destruct (kernel_query_ok (open_fds k) strerror token resolver_id addr host type (outset k r) Hh)
    as [(a & w' & Hq & Hs & Ha)|(e & w' & Hq & Hs & He)]; [exists (Ret a), w'|exists (Throw e), w'];
    (split; [exact Hq|]; split; [by apply no_scopes_fds|done]).
Qed.

(** A peer that answers every datagram with the same octets; the state counts
    the open sockets. *)
#[local] Instance echo_sockets : SocketBase (bytes * nat) := {
  sock_open f t w := (inr tt, (w.1, S w.2));
  sock_close w := (w.1, w.2 - 1);
  sock_connect a t w := (inl Socket.REFUSED, w);
  sock_set_nodelay w := (inr tt, w);
  sock_send b w := (Z.of_nat (length b), w);
  sock_send_to b a w := (Z.of_nat (length b), w);
  sock_recv n w := (Some (map u8 (take n w.1)), w);
  sock_recv_from n w := (Some (map u8 (take n w.1)), w);
  sock_wait_for t w := (inr 1%Z, w);
  sock_errno w := 0%Z;
  open_sockets w := w.2
}.
#[local] Instance echo_random : RandomEngine (bytes * nat) := λ w, (4660%Z, w).

#[local] Instance echo_ok : SocketOk (bytes * nat).
Proof.
  split; try done; simpl.
  1,2: intros n w b w' [= <- <-]; rewrite length_map, length_take; split; [lia|];
    apply Forall_map, Forall_true; intros z; apply u8_is_byte.
  intros f t w w' [= <-]. done.
Qed.

Definition sample_addr : AddrResult :=
  {| ar_addr := AF_INET 53 [192; 0; 2; 1]%Z; ar_family := IPV4 |}.

Lemma classic_query_sound_witness :
  Forall is_byte (str "a.b") ∧
  query (W := bytes * nat) (λ _, []) 1 sample_addr (str "a.b") KIND_A (ab_response, 0)
    = (Ret ab_response, (ab_response, 0)).
Proof.
  split; [apply str_is_bytes|].
  assert (∀ w : bytes * nat, open_sockets (random_draw w).2 = open_sockets w) as Hdraw by (intros w; reflexivity).
  destruct (classic_query_sound (W := bytes * nat) (λ _, []) 1 sample_addr (str "a.b") KIND_A (ab_response, 0)
    Hdraw (str_is_bytes _)) as [(r & w' & H & Ho & _)|(e & w' & H & _)].
  - rewrite H. vm_compute in H. injection H as <- <-. vm_compute. reflexivity.
  - vm_compute in H. discriminate H.
Defined.

(** A datagram with the truncation bit is not returned: the TCP connection the
    peer refuses decides. *)
Lemma truncated_falls_back :
  ∃ e, query (W := bytes * nat) (λ _, []) 1 sample_addr (str "a.b") KIND_A
         (<[2 := 131%Z]> ab_response, 0) = (Throw e, (<[2 := 131%Z]> ab_response, 0))
    ∧ ei_code e = CONNECTION.
Proof. eexists. split; vm_compute; reflexivity. Qed.

(** A kernel that answers the datagram, and interrupts the query twice. *)
Definition answering_kernel : sample_kernel :=
  {| sk_errno := 0; sk_signals := 2; sk_fds := {[3%Z]}; sk_flags := λ _, 2%Z; sk_next := 4;
     sk_in := ab_response; sk_out := [] |}.

Lemma classic_query_closes_descriptors_witness :
  ∃ w', kernel_query (R := bytes * nat) {[3%Z]} (λ _, []) {| Sock.token_fd := -1 |} 1 sample_addr (str "a.b") KIND_A
      (outset answering_kernel ([], 0)) = (Ret ab_response, w')
    ∧ open_fds (kernel (contents w')) = {[3%Z]}.
Proof.
  destruct (classic_query_closes_descriptors (K := sample_kernel) (R := bytes * nat) (λ _, []) {| Sock.token_fd := -1 |} 1
    sample_addr (str "a.b") KIND_A answering_kernel ([], 0) (str_is_bytes _)) as (o & w' & Hq & Hfds & _).
  exists w'. split; [|exact Hfds]. refine (eq_trans Hq _). f_equal.
  assert (o = fst (kernel_query (R := bytes * nat) {[3%Z]} (λ _, []) {| Sock.token_fd := -1 |} 1 sample_addr
    (str "a.b") KIND_A (outset answering_kernel ([], 0)))) as -> by exact (eq_sym (f_equal fst Hq)).
  vm_compute. reflexivity.
Defined.
