(* ===== verification/TlsConnection.v ===== *)
(** [src/network/tls_connection.{h,cpp}] and [src/util/cert_util.cpp]: a TLS
    connection over OpenSSL's BIOs, and the certificates it trusts.  OpenSSL is
    an interface with laws, as the kernel is in Posix.v.  [log_ssl_error] only
    writes OpenSSL's error queue to the log. *)
From S2P Require Import Prelude CppString Uri Io Posix Address Validation Socket.
Local Open Scope Z_scope.

(** * Trusted certificates *)

Module Cert.

Section cert.
(** The environment, the file system and OpenSSL's default, at the time of the
    first call; the function's result is kept. *)
Context (getenv : bytes → option bytes) (is_regular_file : bytes → bool) (default_cert_file : option bytes).

(* @fn src/src/util/cert_util.cpp | static constexpr std::string_view SEARCH_PATHS[]{ | SEARCH_PATHS *)
Definition SEARCH_PATHS : list bytes :=
  [ str "/etc/ssl/certs/ca-certificates.crt";
    str "/etc/pki/ca-trust/extracted/pem/tls-ca-bundle.pem";
    str "/etc/ssl/ca-bundle.pem";
    str "/usr/local/etc/openssl/cert.pem";
    str "/opt/homebrew/etc/openssl/cert.pem";
    str "/etc/pki/tls/certs/ca-bundle.crt";
    str "/etc/pki/tls/cacert.pem";
    str "/etc/ssl/cert.pem";
    str "/usr/local/share/certs/ca-root-nss.crt";
    str "/etc/ssl/cert.pem";
    str "/etc/ssl/cert.pem";
    str "/etc/openssl/certs/ca-certificates.crt";
    str "/etc/openssl/cert.pem" ].

(* @fn src/src/util/cert_util.cpp | std::optional<std::string> &get_hardcoded_paths() { | get_hardcoded_paths *)
Definition get_hardcoded_paths : option bytes := snd <$> list_find (λ p, is_regular_file p = true) SEARCH_PATHS.

(* @fn src/src/util/cert_util.cpp | std::optional<std::string> get_system_ca_path() { | get_system_ca_path *)
Definition get_system_ca_path : option bytes := get_hardcoded_paths.

Definition nonempty (o : option bytes) : option bytes :=
  match o with Some (b :: bs) => Some (b :: bs) | _ => None end.

(* @fn src/src/util/cert_util.cpp | std::optional<std::string> discover_ca_bundle() { | discover_ca_bundle *)
Definition discover_ca_bundle : option bytes :=
  let tier4 := get_hardcoded_paths in
  let tier3 :=
    match nonempty default_cert_file with
    | Some default_path => if is_regular_file default_path then Some default_path else tier4
    | None => tier4
    end in
  let tier2 := if is_regular_file (str "./ca.pem") then Some (str "./ca.pem") else tier3 in
  match nonempty (getenv (str "SSL_CERT_FILE")) with
  | Some env => if is_regular_file env then Some env else tier2
  | None => tier2
  end.
End cert.
End Cert.

(** * OpenSSL *)

(** Handles are numbers.  [BIO_get_ssl] is not told from the SSL object of a
    BIO: there is one for every BIO that [BIO_new_ssl_connect] makes. *)
Class OpenSsl (K : Type) := {
  SSL_CTX_new : K → option Z * K;
  SSL_CTX_set_min_proto_version : Z → Z → K → Z * K;
  SSL_CTX_set_max_proto_version : Z → Z → K → Z * K;
  SSL_CTX_set_verify : Z → Z → K → K;
  SSL_CTX_load_verify_locations : Z → bytes → K → Z * K;
  SSL_CTX_set_default_verify_paths : Z → K → Z * K;
  SSL_CTX_free : Z → K → K;

  BIO_new_ssl_connect : Z → K → option Z * K;
  BIO_free_all : Z → K → K;
  BIO_get_ssl : Z → K → option Z;
  BIO_set_conn_hostname : Z → bytes → K → Z * K;
  BIO_set_nbio : Z → Z → K → K;
  BIO_clear_retry_flags : Z → K → K;
  BIO_do_connect : Z → K → Z * K;
  BIO_should_retry : Z → K → bool;
  BIO_should_read : Z → K → bool;
  BIO_should_write : Z → K → bool;
  BIO_get_fd : Z → K → Z;
  BIO_write : Z → bytes → K → Z * K;
  (** the result, and the octets written to a buffer of the given size *)
  BIO_read : Z → nat → K → (Z * bytes) * K;

  SSL_set_tlsext_host_name : Z → bytes → K → K;
  SSL_set1_host : Z → bytes → K → K;
  SSL_set_alpn_protos : Z → bytes → K → Z * K;
  SSL_pending : Z → K → Z;
  SSL_shutdown : Z → K → Z * K;
  SSL_get_error : Z → Z → K → Z;
  SSL_get0_alpn_selected : Z → K → bytes;

  (** ghost state: the contexts that there are and their verification modes; the
      BIOs that are allocated; an SSL object's verification mode, the name that its
      peer's certificate is checked for, and the name in its hello; and how often
      the peer and the network will make an operation try again *)
  live_ctxs : K → gset Z;
  ctx_mode : K → Z → Z;
  live_bios : K → gset Z;
  verify_mode : K → Z → Z;
  verify_name : K → Z → option bytes;
  hello_name : K → Z → option bytes;
  tries : K → nat;
  (** the octets that have been sent over a BIO, and those still to be received *)
  plain_out : K → Z → bytes;
  plain_in : K → Z → bytes
}.

Definition SSL_ERROR_WANT_READ : Z := 2.
Definition SSL_ERROR_WANT_WRITE : Z := 3.
Definition TLS1_2_VERSION : Z := 771.
Definition TLS1_3_VERSION : Z := 772.
Definition SSL_VERIFY_NONE : Z := 0.
Definition SSL_VERIFY_PEER : Z := 1.

Module Tls.

(* @fn src/src/network/tls_connection.h | struct TlsOptions { | TlsOptions *)
Record TlsOptions := {
  o_sni_hostname : option bytes;
  o_alpn_proto : bytes;
  o_connect_timeout : Z;
  o_read_timeout : Z;
  o_write_timeout : Z
}.

(** The defaults of its members, times in milliseconds. *)
(* @src src/src/network/tls_connection.h 51 66 TlsOptions (default member initialisers) *)
Definition default_options : TlsOptions :=
  {| o_sni_hostname := None; o_alpn_proto := []; o_connect_timeout := 1500;
     o_read_timeout := 1500; o_write_timeout := 1500 |}.

(** [has_factory]: whether there is a context factory; its cached result. *)
(* @src src/src/network/tls_connection.h 296 306 TlsConnection (members) *)
Record TlsConnection := {
  server_ : bytes;
  port_ : Z;
  sni_hostname_ : option bytes;
  connect_timeout_ : Z;
  read_timeout_ms_ : Z;
  write_timeout_ms_ : Z;
  alpn_proto_ : bytes;
  has_factory : bool;
  custom_ctx_ : option Z;
  bio_ : option Z
}.

Definition with_bio (bio : option Z) (c : TlsConnection) : TlsConnection :=
  {| server_ := server_ c; port_ := port_ c; sni_hostname_ := sni_hostname_ c;
     connect_timeout_ := connect_timeout_ c; read_timeout_ms_ := read_timeout_ms_ c;
     write_timeout_ms_ := write_timeout_ms_ c; alpn_proto_ := alpn_proto_ c;
     has_factory := has_factory c; custom_ctx_ := custom_ctx_ c; bio_ := bio |}.

Definition with_ctx (ctx : option Z) (c : TlsConnection) : TlsConnection :=
  {| server_ := server_ c; port_ := port_ c; sni_hostname_ := sni_hostname_ c;
     connect_timeout_ := connect_timeout_ c; read_timeout_ms_ := read_timeout_ms_ c;
     write_timeout_ms_ := write_timeout_ms_ c; alpn_proto_ := alpn_proto_ c;
     has_factory := has_factory c; custom_ctx_ := ctx; bio_ := bio_ c |}.

(* @fn src/src/network/tls_connection.cpp | void TlsConnection::set_sni_hostname( | TlsConnection::set_sni_hostname *)
Definition set_sni_hostname (hostname : bytes) (c : TlsConnection) : TlsConnection :=
  {| server_ := server_ c; port_ := port_ c; sni_hostname_ := Some hostname;
     connect_timeout_ := connect_timeout_ c; read_timeout_ms_ := read_timeout_ms_ c;
     write_timeout_ms_ := write_timeout_ms_ c; alpn_proto_ := alpn_proto_ c;
     has_factory := has_factory c; custom_ctx_ := custom_ctx_ c; bio_ := bio_ c |}.

(** A connection, the kernel it talks to, and the process's shared context once
    it has been made. *)
Record tls (K : Type) := { os : K; conn : TlsConnection; shared : option (option Z) }.
Arguments os {K} _.
Arguments conn {K} _.
Arguments shared {K} _.

Section tls.
Context {K : Type} `{Posix K} `{OpenSsl K} `{SteadyClock K} `{IT : InetText}.
Context (context_factory_ : K → option Z * K) (ca_bundle : option bytes) (token : Sock.CancellationToken).

Abbreviation io := (st K IoStatus).
Abbreviation tio := (st (tls K) IoStatus).

Definition sys {A} (f : K → A * K) : io A := λ k, let '(a, k') := f k in (Ret a, k').
Definition sys_ (f : K → K) : io unit := λ k, (Ret tt, f k).

(** A computation on the kernel, for the connection. *)
Definition on_os {A} (m : io A) : tio A := λ t,
  let '(r, k) := m (os t) in (r, {| os := k; conn := conn t; shared := shared t |}).

Definition set_conn (f : TlsConnection → TlsConnection) : tio unit :=
  modify (λ t, {| os := os t; conn := f (conn t); shared := shared t |}).

(** A text in quotes and its reason: the exception's. *)
(* @fn src/src/network/tls_connection.cpp | TlsConnection::TlsConnection(std::string server | TlsConnection::TlsConnection *)
Definition new (server : bytes) (port : Z) (opts : TlsOptions) (factory : bool) : outcome bytes TlsConnection :=
  match Address.parse server, is_valid_domain server with
  | None, false => Throw (str "Invalid server address: " ++ quoted server ++ str " (not a valid IP or domain name)")
  | _, _ => Ret {| server_ := server; port_ := port; sni_hostname_ := o_sni_hostname opts;
                   connect_timeout_ := o_connect_timeout opts; read_timeout_ms_ := o_read_timeout opts;
                   write_timeout_ms_ := o_write_timeout opts; alpn_proto_ := o_alpn_proto opts;
                   has_factory := factory; custom_ctx_ := None; bio_ := None |}
  end.

(** ** Polling *)

(* @fn src/src/network/tls_connection.cpp | TlsConnection::IoStatus TlsConnection::poll_bio( | TlsConnection::poll_bio *)
Definition poll_bio (bio default_events : Z) (cancel_token : Sock.CancellationToken) (timeout : Z) : io IoStatus :=
  fd ← gets (BIO_get_fd bio);
  if fd <? 0 then mret IO_ERROR else
  should_read ← gets (BIO_should_read bio);
  should_write ← gets (BIO_should_write bio);
  let events := Z.lor (if (should_read : bool) then POLLIN else 0) (if (should_write : bool) then POLLOUT else 0) in
  let events := if events =? 0 then default_events else events in
  let fds := (fd, events) ::
    (if Sock.token_linked cancel_token then [(Sock.token_fd cancel_token, POLLIN)] else []) in
  polled ← eintr first_negative (sys_poll fds timeout);
  let '(ret, revents) := polled in
  if ret =? 0 then mret IO_TIMEOUT else
  if ret <? 0 then mret IO_ERROR else
  if Sock.token_linked cancel_token && negb (Z.land (nth 1 revents 0) POLLIN =? 0) then
    _ ← sys (sys_read (Sock.token_fd cancel_token) 8);
    mret IO_CANCELLED
  else if negb (Z.land (nth 0 revents 0) events =? 0) then mret IO_OK
  else mret IO_ERROR.

(** [std::unexpected(status)] unless the status is [OK]. *)
Definition require_ok (status : IoStatus) : io unit :=
  match status with IO_OK => mret tt | e => throw e end.

(** ** Input and output, of a BIO *)

(* @fn src/src/network/tls_connection.cpp | TlsConnection::send_all(std::span<const std::uint8_t> data, const Utils::CancellationToken &cancel_token) { ==> while (!data.empty()) { | TlsConnection::send_all (loop) *)
Fixpoint send_loop (fuel : nat) (bio write_timeout : Z) (data : bytes) : io unit :=
  match data with
  | [] => mret tt
  | _ :: _ =>
      match fuel with
      | O => lift OutOfFuel
      | S fuel =>
          status ← poll_bio bio POLLOUT token write_timeout;
          _ ← require_ok status;
          _ ← sys_ (BIO_clear_retry_flags bio);
          rc ← sys (BIO_write bio data);
          if 0 <? rc then
            if Z.of_nat (length data) <? rc then lift Undef
            else send_loop fuel bio write_timeout (drop (Z.to_nat rc) data)
          else
            retry ← gets (BIO_should_retry bio);
            if (retry : bool) then send_loop fuel bio write_timeout data else throw IO_ERROR
      end
  end.

(** Whether to poll before reading: not when there are decrypted octets. *)
Definition readable (bio read_timeout : Z) : io unit :=
  pending ← gets (λ k, match BIO_get_ssl bio k with Some ssl => SSL_pending ssl k | None => 0 end);
  if pending =? 0 then
    status ← poll_bio bio POLLIN token read_timeout;
    require_ok status
  else mret tt.

(** The beginning of a turn of the reading loops. *)
Definition read_turn (bio read_timeout : Z) (size : nat) : io (Z * bytes) :=
  _ ← readable bio read_timeout;
  _ ← sys_ (BIO_clear_retry_flags bio);
  sys (BIO_read bio size).

(** The buffer's free part is [size] octets less those in [have]. *)
(* @fn src/src/network/tls_connection.cpp | TlsConnection::read_exact(std::span<std::uint8_t> buf, const Utils::CancellationToken &cancel_token) { ==> while (!buf.empty()) { | TlsConnection::read_exact (loop) *)
Fixpoint read_loop (fuel : nat) (bio read_timeout : Z) (size : nat) (have : bytes) : io bytes :=
  if (length have <? size)%nat then
    match fuel with
    | O => lift OutOfFuel
    | S fuel =>
        r ← read_turn bio read_timeout (size - length have);
        if 0 <? r.1 then read_loop fuel bio read_timeout size (have ++ r.2)
        else
          retry ← gets (BIO_should_retry bio);
          if (retry : bool) then read_loop fuel bio read_timeout size have else throw IO_ERROR
    end
  else mret have.

(* @fn src/src/network/tls_connection.cpp | TlsConnection::read_some(std::span<std::uint8_t> buf, const Utils::CancellationToken &cancel_token) { ==> for (;;) { | TlsConnection::read_some (loop) *)
Fixpoint read_some_loop (fuel : nat) (bio read_timeout : Z) (size : nat) : io bytes :=
  r ← read_turn bio read_timeout size;
  if 0 <? r.1 then mret r.2
  else
    retry ← gets (BIO_should_retry bio);
    if (retry : bool) then
      match fuel with
      | O => lift OutOfFuel
      | S fuel => read_some_loop fuel bio read_timeout size
      end
    else throw IO_ERROR.

(** [first] is the flag of the loop's first turn, which does not poll. *)
(* @fn src/src/network/tls_connection.cpp | TlsConnection::shutdown() { ==> while (true) { | TlsConnection::shutdown (loop) *)
Fixpoint shutdown_loop (fuel : nat) (bio ssl read_timeout : Z) (first : bool) : io unit :=
  _ ← (if negb first then
         status ← poll_bio bio POLLIN {| Sock.token_fd := -1 |} read_timeout;
         require_ok status
       else mret tt);
  _ ← sys_ (BIO_clear_retry_flags bio);
  ret ← sys (SSL_shutdown ssl);
  if (ret =? 1) || (ret =? 0) then mret tt else
  err ← gets (SSL_get_error ssl ret);
  if negb (err =? SSL_ERROR_WANT_READ) && negb (err =? SSL_ERROR_WANT_WRITE) then throw IO_ERROR else
  match fuel with
  | O => lift OutOfFuel
  | S fuel => shutdown_loop fuel bio ssl read_timeout false
  end.

(** The fuel of a loop that does at most [n] useful turns. *)
Definition loop_fuel (n : nat) (k : K) : nat := n + tries k.

(* @fn src/src/network/tls_connection.cpp | TlsConnection::send_all(std::span<const std::uint8_t> data, const Utils::CancellationToken &cancel_token) { | TlsConnection::send_all *)
Definition send_all (data : bytes) : tio unit :=
  c ← gets conn;
  match bio_ c with
  | None => throw IO_ERROR
  | Some bio => on_os (λ k, send_loop (loop_fuel (length data) k) bio (write_timeout_ms_ c) data k)
  end.

(* @fn src/src/network/tls_connection.cpp | TlsConnection::read_exact(std::span<std::uint8_t> buf, const Utils::CancellationToken &cancel_token) { | TlsConnection::read_exact *)
Definition read_exact (size : nat) : tio bytes :=
  c ← gets conn;
  match bio_ c with
  | None => throw IO_ERROR
  | Some bio => on_os (λ k, read_loop (loop_fuel size k) bio (read_timeout_ms_ c) size [] k)
  end.

(* @fn src/src/network/tls_connection.cpp | TlsConnection::read_some(std::span<std::uint8_t> buf, const Utils::CancellationToken &cancel_token) { | TlsConnection::read_some *)
Definition read_some (size : nat) : tio bytes :=
  c ← gets conn;
  match bio_ c with
  | None => throw IO_ERROR
  | Some bio => on_os (λ k, read_some_loop (loop_fuel 0 k) bio (read_timeout_ms_ c) size k)
  end.

(* @fn src/src/network/tls_connection.cpp | SSL *TlsConnection::get_ssl() const noexcept { | TlsConnection::get_ssl *)
Definition get_ssl (t : tls K) : option Z :=
  match bio_ (conn t) with Some bio => BIO_get_ssl bio (os t) | None => None end.

(* @fn src/src/network/tls_connection.cpp | TlsConnection::shutdown() { | TlsConnection::shutdown *)
Definition shutdown : tio unit :=
  c ← gets conn;
  ssl ← gets get_ssl;
  match bio_ c, ssl with
  | Some bio, Some ssl => on_os (λ k, shutdown_loop (loop_fuel 0 k) bio ssl (read_timeout_ms_ c) true k)
  | _, _ => throw IO_ERROR
  end.

(* @fn src/src/network/tls_connection.cpp | std::string TlsConnection::negotiated_alpn() const noexcept { | TlsConnection::negotiated_alpn *)
Definition negotiated_alpn (t : tls K) : bytes :=
  match get_ssl t with Some ssl => SSL_get0_alpn_selected ssl (os t) | None => [] end.

(* @fn src/src/network/tls_connection.h | bool is_connected() const noexcept override { | TlsConnection::is_connected *)
Definition is_connected (t : tls K) : bool := match bio_ (conn t) with Some _ => true | None => false end.

(** The state of the kernel after it is not kept: [recv] only peeks. *)
(* @fn src/src/network/tls_connection.cpp | bool TlsConnection::is_healthy() const noexcept { | TlsConnection::is_healthy *)
Definition is_healthy (t : tls K) : bool :=
  match bio_ (conn t), get_ssl t with
  | Some bio, Some ssl =>
      if 0 <? SSL_pending ssl (os t) then true else
      let fd := BIO_get_fd bio (os t) in
      if fd <? 0 then false else
      let '((ret, _), k) := sys_poll [(fd, POLLIN)] 0 (os t) in
      if ret <=? 0 then true else
      let '(n, k) := sys_recv fd 1 (Z.lor MSG_PEEK MSG_DONTWAIT) k in
      match n with
      | None => (errno k =? EAGAIN) || (errno k =? EWOULDBLOCK)
      | Some c => (0 <? length c)%nat
      end
  | _, _ => false
  end.

(* @fn src/src/network/tls_connection.cpp | void TlsConnection::close() noexcept { | TlsConnection::close *)
Definition close : tio unit :=
  c ← gets conn;
  _ ← (match bio_ c with Some bio => on_os (sys_ (BIO_free_all bio)) | None => mret tt end);
  set_conn (with_bio None).

(** ** The contexts *)

(** A context that is given up is freed. *)
(* @fn src/src/network/tls_connection.cpp | SslCtxPtr TlsConnection::create_default_ssl_ctx() { | TlsConnection::create_default_ssl_ctx *)
Definition create_default_ssl_ctx : io (option Z) :=
  new_ctx ← sys SSL_CTX_new;
  match new_ctx with
  | None => mret None
  | Some ctx =>
      let abandon := _ ← sys_ (SSL_CTX_free ctx); mret None in
      rc ← sys (SSL_CTX_set_min_proto_version ctx TLS1_2_VERSION);
      if negb (rc =? 1) then abandon else
      rc ← sys (SSL_CTX_set_max_proto_version ctx TLS1_3_VERSION);
      if negb (rc =? 1) then abandon else
      _ ← sys_ (SSL_CTX_set_verify ctx SSL_VERIFY_PEER);
      match ca_bundle with
      | Some ca_path =>
          rc ← sys (SSL_CTX_load_verify_locations ctx ca_path);
          if negb (rc =? 1) then abandon else mret (Some ctx)
      | None =>
          rc ← sys (SSL_CTX_set_default_verify_paths ctx);
          if negb (rc =? 1) then abandon else mret (Some ctx)
      end
  end.

(** Made by the first caller, kept also when it could not be made. *)
(* @fn src/src/network/tls_connection.cpp | SSL_CTX *TlsConnection::get_shared_ssl_ctx() { | TlsConnection::get_shared_ssl_ctx *)
Definition get_shared_ssl_ctx : tio (option Z) :=
  made ← gets shared;
  match made with
  | Some ctx => mret ctx
  | None =>
      ctx ← on_os create_default_ssl_ctx;
      _ ← modify (λ t, {| os := os t; conn := conn t; shared := Some ctx |});
      mret ctx
  end.

(* @src src/src/network/tls_connection.cpp 90 105 TlsConnection::connect (context) *)
Definition resolve_ctx : tio Z :=
  c ← gets conn;
  ctx ← (if has_factory c then
           match custom_ctx_ c with
           | Some ctx => mret (Some ctx)
           | None =>
               ctx ← on_os (sys context_factory_);
               _ ← set_conn (with_ctx ctx);
               mret ctx
           end
         else get_shared_ssl_ctx);
  match ctx with None => throw IO_ERROR | Some ctx => mret ctx end.

(** ** Connecting *)

(* @src src/src/network/tls_connection.cpp 112 112 TlsConnection::connect (target) *)
Definition target (c : TlsConnection) : bytes := server_ c ++ str ":" ++ dec (port_ c).

(* @src src/src/network/tls_connection.cpp 117 117 TlsConnection::connect (effective hostname) *)
Definition effective_hostname (c : TlsConnection) : bytes := default (server_ c) (sni_hostname_ c).

(** The names that are sent and verified, and the protocols that are offered. *)
(* @fn src/src/network/tls_connection.cpp | if (ssl) { | TlsConnection::connect (SSL settings) *)
Definition configure_ssl (c : TlsConnection) (ssl : Z) : io unit :=
  _ ← sys_ (SSL_set_tlsext_host_name ssl (c_str (effective_hostname c)));
  _ ← (match Address.parse (effective_hostname c) with
       | None => sys_ (SSL_set1_host ssl (c_str (effective_hostname c)))
       | Some _ => mret tt
       end);
  if bool_decide (alpn_proto_ c = []) then mret tt else
  rc ← sys (SSL_set_alpn_protos ssl (alpn_proto_ c));
  if negb (rc =? 0) then throw IO_ERROR else mret tt.

(** Until [deadline], in nanoseconds of the steady clock. *)
(* @fn src/src/network/tls_connection.cpp | for (;;) { | TlsConnection::connect (loop) *)
Fixpoint connect_loop (fuel : nat) (bio deadline : Z) : io unit :=
  _ ← sys_ (BIO_clear_retry_flags bio);
  ret ← sys (BIO_do_connect bio);
  if ret =? 1 then mret tt else
  retry ← gets (BIO_should_retry bio);
  if negb retry then throw IO_ERROR else
  now ← gets steady_now;
  if deadline <=? now then throw IO_TIMEOUT else
  pstatus ← poll_bio bio POLLOUT {| Sock.token_fd := -1 |} (Z.quot (deadline - now) 1000000);
  match pstatus with
  | IO_TIMEOUT => throw IO_TIMEOUT
  | IO_ERROR | IO_CANCELLED => throw IO_ERROR
  | IO_OK => match fuel with O => lift OutOfFuel | S fuel => connect_loop fuel bio deadline end
  end.

(** With the new BIO; its failures are its owner's. *)
(* @src src/src/network/tls_connection.cpp 112 184 TlsConnection::connect (handshake) *)
Definition handshake (c : TlsConnection) (bio : Z) : io unit :=
  ssl ← gets (BIO_get_ssl bio);
  _ ← (match ssl with Some ssl => configure_ssl c ssl | None => mret tt end);
  rc ← sys (BIO_set_conn_hostname bio (c_str (target c)));
  if negb (rc =? 1) then throw IO_ERROR else
  _ ← sys_ (BIO_set_nbio bio 1);
  now ← gets steady_now;
  let deadline := now + connect_timeout_ c * 1000000 in
  _ ← (λ k, connect_loop (loop_fuel 0 k) bio deadline k);
  fd ← gets (BIO_get_fd bio);
  if 0 <=? fd then
    _ ← sys (sys_setsockopt fd IPPROTO_TCP TCP_NODELAY (int_octets 1));
    mret tt
  else mret tt.

(** The [BioPtr] frees the BIO when the scope is left by a failure. *)
(* @fn src/src/network/tls_connection.cpp | std::expected<void, TlsConnection::IoStatus> TlsConnection::connect() { | TlsConnection::connect *)
Definition connect : tio unit :=
  _ ← close;
  ctx ← resolve_ctx;
  new_bio ← on_os (sys (BIO_new_ssl_connect ctx));
  match new_bio with
  | None => throw IO_ERROR
  | Some bio =>
      c ← gets conn;
      done ← attempt (on_os (handshake c bio));
      match done with
      | inl e => _ ← on_os (sys_ (BIO_free_all bio)); throw e
      | inr _ => set_conn (with_bio (Some bio))
      end
  end.
End tls.
End Tls.
Import Tls.

(** * What OpenSSL documents *)

Section tls_laws.
Context {K : Type} `{OpenSsl K}.

(** A step that leaves the contexts of [cs] as they are. *)
Definition keeps_ctxs (cs : gset Z) (k k' : K) : Prop :=
  ∀ c, c ∈ cs → c ∈ live_ctxs k' ∧ ctx_mode k' c = ctx_mode k c.

(** A step that leaves alone which BIOs there are, their SSL objects, and those'
    verification. *)
Definition objects (k k' : K) : Prop :=
  live_bios k' = live_bios k
  ∧ (∀ bio, BIO_get_ssl bio k' = BIO_get_ssl bio k)
  ∧ (∀ ssl, verify_name k' ssl = verify_name k ssl ∧ hello_name k' ssl = hello_name k ssl
       ∧ verify_mode k' ssl = verify_mode k ssl)
  ∧ (tries k' ≤ tries k)%nat.

(** And every context. *)
Definition core (k k' : K) : Prop := objects k k' ∧ keeps_ctxs (live_ctxs k) k k'.

(** And the octets of every connection. *)
Definition quiet (k k' : K) : Prop :=
  core k k' ∧ ∀ bio, plain_out k' bio = plain_out k bio ∧ plain_in k' bio = plain_in k bio.

(** The octets too, and every context but [c]. *)
Definition quiet_but (c : Z) (k k' : K) : Prop :=
  objects k k' ∧ keeps_ctxs (live_ctxs k ∖ {[c]}) k k'
  ∧ ∀ bio, plain_out k' bio = plain_out k bio ∧ plain_in k' bio = plain_in k bio.

#[global] Instance objects_preorder : PreOrder objects.
Proof.
  split; [by intros k|]. intros a b c (H1 & H2 & H3 & H4) (H1' & H2' & H3' & H4').
  split; [congruence|]. split; [intros bio; by rewrite H2', H2|]. split; [|lia].
  intros ssl. destruct (H3 ssl) as (? & ? & ?), (H3' ssl) as (? & ? & ?). split_and!; congruence.
Qed.

(** Contexts are kept step by step. *)
Lemma keeps_ctxs_trans cs k k' k'' :
  keeps_ctxs cs k k' → keeps_ctxs (live_ctxs k' ∩ cs) k' k'' → keeps_ctxs cs k k''.
Proof.
  intros H1 H2 c Hc. destruct (H1 c Hc) as [Hl Hm]. destruct (H2 c) as [Hl' Hm']; [set_solver|].
  split; [done|congruence].
Qed.

Lemma keeps_ctxs_sub cs cs' k k' : cs' ⊆ cs → keeps_ctxs cs k k' → keeps_ctxs cs' k k'.
Proof. intros Hs Hk c Hc. apply Hk. set_solver. Qed.

#[global] Instance core_preorder : PreOrder core.
Proof.
  split; [by intros k; split; [|intros c]|]. intros a b c [H1 H2] [H1' H2']. split; [by transitivity b|].
  eapply keeps_ctxs_trans; [exact H2|]. eapply keeps_ctxs_sub; [|exact H2']. set_solver.
Qed.

#[global] Instance quiet_preorder : PreOrder quiet.
Proof.
  split; [by intros k|]. intros a b c [H1 H2] [H1' H2']. split; [by transitivity b|].
  intros bio. destruct (H2 bio), (H2' bio). split; congruence.
Qed.

#[global] Instance quiet_but_preorder c : PreOrder (quiet_but c).
Proof.
  split; [by intros k; split; [|split; [intros c'; set_solver|]]|].
  intros k1 k2 k3 (H1 & H2 & H3) (H1' & H2' & H3'). split; [by transitivity k2|]. split.
  - eapply keeps_ctxs_trans; [exact H2|]. eapply keeps_ctxs_sub; [|exact H2']. set_solver.
  - intros bio. destruct (H3 bio), (H3' bio). split; congruence.
Qed.

Lemma quiet_quiet_but c k k' : quiet k k' → quiet_but c k k'.
Proof.
  intros [[Ho Hc] Hp]. split; [done|]. split; [|done]. eapply keeps_ctxs_sub; [|exact Hc]. set_solver.
Qed.

(** A context that was not there when it started. *)
Lemma quiet_but_fresh c k k' : c ∉ live_ctxs k → quiet_but c k k' → quiet k k'.
Proof.
  intros Hc (Ho & Hk & Hp). split; [|done]. split; [done|]. eapply keeps_ctxs_sub; [|exact Hk]. set_solver.
Qed.
End tls_laws.

(** The kernel's calls do not touch OpenSSL's objects; an operation that is to
    be tried again uses up one of the [tries]. *)
Class OpenSslOk (K : Type) `{Posix K} `{OpenSsl K} := {
  poll_quiet p t k : quiet k (sys_poll p t k).2;
  drain_quiet fd n k : quiet k (sys_read fd n k).2;
  setsockopt_quiet fd v k : quiet k (sys_setsockopt fd IPPROTO_TCP TCP_NODELAY v k).2;
  (** a new context verifies nobody *)
  ctx_new_quiet k : quiet k (SSL_CTX_new k).2;
  ctx_new_makes k c k' : SSL_CTX_new k = (Some c, k') →
    c ∉ live_ctxs k ∧ c ∈ live_ctxs k' ∧ ctx_mode k' c = SSL_VERIFY_NONE;
  ctx_min_quiet c v k : quiet k (SSL_CTX_set_min_proto_version c v k).2;
  ctx_max_quiet c v k : quiet k (SSL_CTX_set_max_proto_version c v k).2;
  ctx_verify_quiet c v k : quiet_but c k (SSL_CTX_set_verify c v k);
  ctx_verify_sets c v k : c ∈ live_ctxs k →
    c ∈ live_ctxs (SSL_CTX_set_verify c v k) ∧ ctx_mode (SSL_CTX_set_verify c v k) c = v;
  ctx_load_quiet c p k : quiet k (SSL_CTX_load_verify_locations c p k).2;
  ctx_paths_quiet c k : quiet k (SSL_CTX_set_default_verify_paths c k).2;
  ctx_free_quiet c k : quiet_but c k (SSL_CTX_free c k);
  hostname_quiet b h k : quiet k (BIO_set_conn_hostname b h k).2;
  nbio_quiet b n k : quiet k (BIO_set_nbio b n k);
  clear_quiet b k : quiet k (BIO_clear_retry_flags b k);
  alpn_quiet s p k : quiet k (SSL_set_alpn_protos s p k).2;

  do_connect_quiet b k : quiet k (BIO_do_connect b k).2;
  do_connect_tries b k r k' : BIO_do_connect b k = (r, k') → r ≠ 1 → BIO_should_retry b k' = true → (tries k' < tries k)%nat;

  ssl_shutdown_core s k : core k (SSL_shutdown s k).2;
  ssl_shutdown_tries s k r k' : SSL_shutdown s k = (r, k') → r ≠ 0 → r ≠ 1 →
    SSL_get_error s r k' = SSL_ERROR_WANT_READ ∨ SSL_get_error s r k' = SSL_ERROR_WANT_WRITE → (tries k' < tries k)%nat;

  (** a successful write sends a prefix of the data, a failed one nothing *)
  write_core b d k : core k (BIO_write b d k).2;
  write_effect b d k r k' : BIO_write b d k = (r, k') →
    plain_in k' b = plain_in k b ∧ r ≤ Z.of_nat (length d) ∧ plain_out k' b = plain_out k b ++ take (Z.to_nat r) d;
  write_tries b d k r k' : BIO_write b d k = (r, k') → r ≤ 0 → BIO_should_retry b k' = true → (tries k' < tries k)%nat;

  (** a successful read takes the next octets, at most as many as there is room *)
  bio_read_core b n k : core k (BIO_read b n k).2;
  bio_read_effect b n k r d k' : BIO_read b n k = ((r, d), k') →
    plain_out k' b = plain_out k b ∧ length d = Z.to_nat r ∧ (length d ≤ n)%nat ∧ Forall is_byte d
    ∧ plain_in k b = d ++ plain_in k' b;
  bio_read_tries b n k r d k' : BIO_read b n k = ((r, d), k') → r ≤ 0 → BIO_should_retry b k' = true → (tries k' < tries k)%nat;

  (** a new BIO has a fresh SSL object, which verifies as its context says: it
      checks for no name and says none *)
  bio_new_fails c k k' : BIO_new_ssl_connect c k = (None, k') → core k k';
  bio_new_makes c k bio k' : BIO_new_ssl_connect c k = (Some bio, k') →
    bio ∉ live_bios k ∧ live_bios k' = {[bio]} ∪ live_bios k ∧ (tries k' ≤ tries k)%nat
    ∧ keeps_ctxs (live_ctxs k) k k'
    ∧ ∃ ssl, BIO_get_ssl bio k' = Some ssl ∧ verify_name k' ssl = None ∧ hello_name k' ssl = None
        ∧ (c ∈ live_ctxs k → verify_mode k' ssl = ctx_mode k c);
  bio_free b k : live_bios (BIO_free_all b k) = live_bios k ∖ {[b]};
  bio_free_ctxs b k : keeps_ctxs (live_ctxs k) k (BIO_free_all b k);

  hello_live s h k : live_bios (SSL_set_tlsext_host_name s h k) = live_bios k;
  hello_ssl s h k b : BIO_get_ssl b (SSL_set_tlsext_host_name s h k) = BIO_get_ssl b k;
  hello_verify s h k s' : verify_name (SSL_set_tlsext_host_name s h k) s' = verify_name k s';
  hello_mode s h k s' : verify_mode (SSL_set_tlsext_host_name s h k) s' = verify_mode k s';
  hello_ctxs s h k : keeps_ctxs (live_ctxs k) k (SSL_set_tlsext_host_name s h k);
  hello_sets s h k : hello_name (SSL_set_tlsext_host_name s h k) s = Some h;
  set1_live s h k : live_bios (SSL_set1_host s h k) = live_bios k;
  set1_ssl s h k b : BIO_get_ssl b (SSL_set1_host s h k) = BIO_get_ssl b k;
  set1_mode s h k s' : verify_mode (SSL_set1_host s h k) s' = verify_mode k s';
  set1_ctxs s h k : keeps_ctxs (live_ctxs k) k (SSL_set1_host s h k);
  set1_sets s h k : verify_name (SSL_set1_host s h k) s = Some h;
  set1_hello s h k s' : hello_name (SSL_set1_host s h k) s' = hello_name k s'
}.

(** * Proofs *)

Section tls_proofs.
Context {K : Type} `{PosixOk K} `{!OpenSsl K} `{!OpenSslOk K}.
Context (token : Sock.CancellationToken).

Abbreviation io := (st K IoStatus).

Lemma swp_sys {A} (f : K → A * K) (Q : A → K → Prop) (T : IoStatus → K → Prop) k :
  Q (f k).1 (f k).2 → swp (sys f) Q T k.
Proof using All. unfold swp, sys. by destruct (f k). Qed.

Lemma swp_sys_ (f : K → K) (Q : unit → K → Prop) (T : IoStatus → K → Prop) k :
  Q tt (f k) → swp (sys_ f) Q T k.
Proof using All. done. Qed.

Lemma poll_bio_ok bio ev tok t k :
  swp (poll_bio bio ev tok t) (λ _ k', quiet k k') (λ _ _, False) k.
Proof using All.
  unfold poll_bio. apply swp_bind, swp_gets. destruct (_ <? 0); [by apply swp_ret|].
  apply swp_bind, swp_gets, swp_bind, swp_gets. cbv zeta.
  eapply swp_call; [apply (swp_eintr _ _ (quiet k) (λ _, quiet k) (λ _ _, False)); [apply poll_interrupted|done|..]| |done].
  - intros k1 Q1 _ _. transitivity k1; [exact Q1|apply poll_quiet].
  - intros k1 Q1 _. transitivity k1; [exact Q1|apply poll_quiet].
  - intros [ret revents] k1 Q1. simpl in Q1.
    destruct (ret =? 0); [by apply swp_ret|]. destruct (ret <? 0); [by apply swp_ret|].
    destruct (_ && _).
    + apply swp_bind, swp_sys, swp_ret. transitivity k1; [exact Q1|apply drain_quiet].
    + destruct (negb _); by apply swp_ret.
Qed.

(** What a failure of a step says. *)
Definition failed (e : IoStatus) : Prop := e ≠ IO_OK.

Lemma require_ok_ok s (k : K) : swp (require_ok s) (λ _ k', k' = k) (λ e k', k' = k ∧ failed e) k.
Proof using All. destruct s; [by apply swp_ret|by apply swp_throw..]. Qed.

Lemma poll_required bio ev tok t k :
  swp (status ← poll_bio bio ev tok t; require_ok status)
    (λ _ k', quiet k k') (λ e k', quiet k k' ∧ failed e) k.
Proof using All.
  eapply swp_call; [apply poll_bio_ok| |done]. intros s k1 Q1. simpl in Q1.
  eapply swp_mono; [apply require_ok_ok|by intros _ ? ->|by intros e ? [-> He]].
Qed.

Lemma readable_ok bio t k :
  swp (readable token bio t) (λ _ k', quiet k k') (λ e k', quiet k k' ∧ failed e) k.
Proof using All.
  unfold readable. apply swp_bind, swp_gets. destruct (_ =? 0); [apply poll_required|by apply swp_ret].
Qed.

Lemma quiet_clear bio k k1 : quiet k k1 → quiet k (BIO_clear_retry_flags bio k1).
Proof using All. intros H'. transitivity k1; [exact H'|apply clear_quiet]. Qed.

(** ** Sending *)

Lemma send_loop_ok fuel bio t data k :
  (length data + tries k ≤ fuel)%nat →
  swp (send_loop token fuel bio t data)
    (λ _ k', core k k' ∧ plain_in k' bio = plain_in k bio ∧ plain_out k' bio = plain_out k bio ++ data)
    (λ e k', core k k' ∧ failed e ∧ plain_in k' bio = plain_in k bio
       ∧ ∃ n, (n < length data)%nat ∧ plain_out k' bio = plain_out k bio ++ take n data) k.
Proof using All.
  revert data k. induction fuel as [|fuel IH]; intros [|x data] k Hf; cbn [send_loop];
    try (by apply swp_ret; rewrite app_nil_r); [simpl in Hf; lia|].
  set (d := x :: data) in *. eapply swp_call with (P := λ _, quiet k); [apply poll_bio_ok| |done].
  intros st k1 Q1. eapply swp_call; [apply require_ok_ok|intros _ k2 ->|].
  2:{ intros e k2 [-> He]. destruct Q1 as [Hc Hp]. split; [done|]. split; [done|]. split; [apply Hp|].
      exists 0%nat. split; [simpl; lia|]. rewrite take_0, app_nil_r. apply Hp. }
  apply swp_bind, swp_sys_. apply (quiet_clear bio) in Q1. set (k2 := BIO_clear_retry_flags bio k1) in *.
  apply swp_bind, swp_sys. destruct (BIO_write bio d k2) as [rc k3] eqn:Hw. cbn [fst snd].
  pose proof (write_core bio d k2) as Hc3. rewrite Hw in Hc3. simpl in Hc3.
  destruct (write_effect _ _ _ _ _ Hw) as (Hin & Hle & Hout). destruct Q1 as [Hc2 Hp2].
  destruct (Hp2 bio) as [Hpo Hpi]. rewrite Hpo in Hout. rewrite Hpi in Hin.
  assert (core k k3) as Hc by (by transitivity k2). pose proof (proj2 (proj2 (proj2 (proj1 Hc2)))) as Ht2.
  destruct (0 <? rc) eqn:Hrc; prop_of_bool.
  - rewrite (proj2 (Z.ltb_ge _ rc)) by lia.
    assert (Z.to_nat rc ≤ length d)%nat as Hlen by lia. pose proof (proj2 (proj2 (proj2 (proj1 Hc3)))) as Ht3.
    eapply swp_mono; [apply IH|..].
    + rewrite length_drop. lia.
    + intros _ k4 (Hc4 & Hi4 & Ho4). split; [by transitivity k3|]. split; [congruence|].
      by rewrite Ho4, Hout, <- app_assoc, take_drop.
    + intros e k4 (Hc4 & He & Hi4 & n & Hn & Ho4). rewrite length_drop in Hn.
      split; [by transitivity k3|]. split; [done|]. split; [congruence|].
      exists (Z.to_nat rc + n)%nat. split; [lia|].
      by rewrite Ho4, Hout, <- app_assoc, take_take_drop.
  - apply swp_bind, swp_gets. replace (Z.to_nat rc) with 0%nat in Hout by lia. rewrite take_0, app_nil_r in Hout.
    destruct (BIO_should_retry bio k3) eqn:Hr.
    + pose proof (write_tries _ _ _ _ _ Hw Hrc Hr). eapply swp_mono; [apply IH; lia|..].
      * intros _ k4 (Hc4 & Hi4 & Ho4). split; [by transitivity k3|]. split; congruence.
      * intros e k4 (Hc4 & He & Hi4 & n & Hn & Ho4). split; [by transitivity k3|]. split; [done|].
        split; [congruence|]. exists n. split; congruence.
    + apply swp_throw. split; [done|]. split; [done|]. split; [done|]. exists 0%nat.
      split; [subst d; simpl; lia|]. by rewrite take_0, app_nil_r.
Qed.

(** ** Receiving *)

Lemma read_turn_ok bio t n k :
  swp (read_turn token bio t n)
    (λ r k', core k k' ∧ plain_out k' bio = plain_out k bio ∧ plain_in k bio = r.2 ++ plain_in k' bio
       ∧ length r.2 = Z.to_nat r.1 ∧ (length r.2 ≤ n)%nat ∧ Forall is_byte r.2
       ∧ (r.1 ≤ 0 → BIO_should_retry bio k' = true → (tries k' < tries k)%nat))
    (λ e k', core k k' ∧ plain_out k' bio = plain_out k bio ∧ plain_in k' bio = plain_in k bio ∧ failed e) k.
Proof using All.
  unfold read_turn. eapply swp_call; [apply readable_ok| |].
  2:{ intros e k1 [[Hc Hp] He]. destruct (Hp bio). done. }
  intros ? k1 Q1. simpl in Q1. apply swp_bind, swp_sys_. apply (quiet_clear bio) in Q1.
  set (k2 := BIO_clear_retry_flags bio k1) in *. destruct Q1 as [Hc2 Hp2]. destruct (Hp2 bio) as [Hpo Hpi].
  apply swp_sys. pose proof (bio_read_core bio n k2) as Hc3.
  destruct (BIO_read bio n k2) as [[rc d] k3] eqn:Hr. simpl in Hc3 |- *.
  destruct (bio_read_effect _ _ _ _ _ _ Hr) as (Ho & Hl & Hn & Hb & Hi).
  split; [by transitivity k2|]. split; [congruence|]. split; [congruence|]. do 3 (split; [done|]).
  intros Hz Hretry. pose proof (bio_read_tries _ _ _ _ _ _ Hr Hz Hretry). destruct Hc2 as ((_ & _ & _ & ?) & _). lia.
Qed.

Lemma read_loop_ok fuel bio t size have k :
  (length have ≤ size)%nat → (size - length have + tries k ≤ fuel)%nat → Forall is_byte have →
  swp (read_loop token fuel bio t size have)
    (λ b k', core k k' ∧ plain_out k' bio = plain_out k bio ∧ length b = size ∧ Forall is_byte b
       ∧ have ++ plain_in k bio = b ++ plain_in k' bio)
    (λ e k', core k k' ∧ plain_out k' bio = plain_out k bio ∧ failed e
       ∧ ∃ lost, (length lost < size)%nat ∧ have ++ plain_in k bio = lost ++ plain_in k' bio) k.
Proof using All.
  revert have k. induction fuel as [|fuel IH]; intros have k Hs Hf Hb; cbn [read_loop];
    destruct (length have <? size)%nat eqn:Hlt; prop_of_bool; try lia;
    try (apply swp_ret; split; [done|]; split; [done|]; split; [lia|done]).
  eapply swp_call; [apply read_turn_ok| |].
  2:{ intros e k1 (Hc & Ho & Hi & He). split; [done|]. split; [done|]. split; [done|]. exists have. split; [done|]. by rewrite Hi. }
  intros [rc d] k1 (Hc & Ho & Hi & Hl & Hn & Hbd & Htry). simpl in *. pose proof (proj2 (proj2 (proj2 (proj1 Hc)))).
  destruct (0 <? rc) eqn:Hrc; prop_of_bool.
  - eapply swp_mono; [apply IH; rewrite ?length_app; [lia|lia|by apply Forall_app_2]|..].
    + intros b k2 (Hc2 & Ho2 & Hlb & Hbb & Hi2). split; [by transitivity k1|]. split; [congruence|].
      do 2 (split; [done|]). by rewrite Hi, app_assoc.
    + intros e k2 (Hc2 & Ho2 & He & lost & Hlost & Hi2). split; [by transitivity k1|]. split; [congruence|].
      split; [done|]. exists lost. split; [done|]. by rewrite Hi, app_assoc.
  - assert (d = []) as -> by (apply nil_length_inv; lia). simpl in Hi.
    apply swp_bind, swp_gets. destruct (BIO_should_retry bio k1) eqn:Hr.
    + specialize (Htry ltac:(lia) eq_refl). eapply swp_mono; [apply IH; [lia|lia|done]|..].
      * intros b k2 (Hc2 & Ho2 & Hrest). split; [by transitivity k1|]. split; [congruence|]. by rewrite Hi.
      * intros e k2 (Hc2 & Ho2 & He & Hrest). split; [by transitivity k1|]. split; [congruence|]. split; [done|]. by rewrite Hi.
    + apply swp_throw. split; [done|]. split; [done|]. split; [done|]. exists have. split; [done|]. by rewrite Hi.
Qed.

Lemma read_some_loop_ok fuel bio t size k :
  (tries k ≤ fuel)%nat →
  swp (read_some_loop token fuel bio t size)
    (λ b k', core k k' ∧ plain_out k' bio = plain_out k bio ∧ (0 < length b ≤ size)%nat ∧ Forall is_byte b
       ∧ plain_in k bio = b ++ plain_in k' bio)
    (λ e k', core k k' ∧ plain_out k' bio = plain_out k bio ∧ failed e ∧ plain_in k' bio = plain_in k bio) k.
Proof using All.
  revert k. induction fuel as [|fuel IH]; intros k Hf; cbn [read_some_loop];
    (eapply swp_call; [apply read_turn_ok| |by intros e k1 (? & ? & ? & ?)]);
    intros [rc d] k1 (Hc & Ho & Hi & Hl & Hn & Hbd & Htry); simpl in *;
    (destruct (0 <? rc) eqn:Hrc; prop_of_bool; [apply swp_ret; simpl; split; [done|]; split; [done|]; split; [lia|done]|]);
    (assert (d = []) as -> by (apply nil_length_inv; lia)); simpl in Hi;
    apply swp_bind, swp_gets; (destruct (BIO_should_retry bio k1) eqn:Hr; [specialize (Htry ltac:(lia) eq_refl)|by apply swp_throw]).
  - lia.
  - eapply swp_mono; [apply IH; lia|..].
    + intros b k2 (Hc2 & Ho2 & Hlb & Hbb & Hi2). split; [by transitivity k1|]. split; [congruence|]. by rewrite Hi.
    + intros e k2 (Hc2 & Ho2 & He & Hi2). split; [by transitivity k1|]. split; [congruence|]. split; [done|]. congruence.
Qed.

(** ** Closing *)

Lemma shutdown_loop_ok fuel bio ssl t first k :
  (tries k ≤ fuel)%nat →
  swp (shutdown_loop fuel bio ssl t first) (λ _ k', core k k') (λ e k', core k k' ∧ failed e) k.
Proof using All.
  revert first k. induction fuel as [|fuel IH]; intros first k Hf; cbn [shutdown_loop];
    (eapply (swp_call _ _ (λ _, quiet k)); [destruct (negb first); [apply poll_required|by apply swp_ret]| |by intros e k1 [[? _] ?]]);
    intros ? k1 Q1; simpl in Q1; apply swp_bind, swp_sys_; apply (quiet_clear bio) in Q1;
    set (k2 := BIO_clear_retry_flags bio k1) in *; apply swp_bind, swp_sys;
    pose proof (ssl_shutdown_core ssl k2) as Hc3; pose proof (ssl_shutdown_tries ssl k2) as Ht;
    destruct (SSL_shutdown ssl k2) as [ret k3]; simpl in Hc3 |- *; specialize (Ht ret k3 eq_refl);
    destruct Q1 as [Hc2 _]; (assert (core k k3) as Hc by (by transitivity k2));
    (destruct ((ret =? 1) || (ret =? 0)) eqn:Hret; [by apply swp_ret|]); apply orb_false_iff in Hret as [R1 R0]; prop_of_bool;
    apply swp_bind, swp_gets; (destruct (negb _ && negb _) eqn:Herr; [by apply swp_throw|]);
    apply andb_false_iff in Herr; rewrite !negb_false_iff, !Z.eqb_eq in Herr;
    specialize (Ht R0 R1 Herr); destruct Hc2 as ((_ & _ & _ & ?) & _).
  - lia.
  - eapply swp_mono; [apply IH; lia|intros ? k4 Hc4; by transitivity k3|].
    intros e k4 [Hc4 He]. split; [by transitivity k3|done].
Qed.

(** ** The connection's input and output *)

Abbreviation tio := (st (tls K) IoStatus).

Lemma swp_on_os {A} (m : io A) Q T t :
  swp m (λ a k, Q a {| os := k; conn := conn t; shared := shared t |})
    (λ e k, T e {| os := k; conn := conn t; shared := shared t |}) (os t) →
  swp (on_os m) Q T t.
Proof using All. unfold swp, on_os. by destruct (m (os t)). Qed.

(** Another state of the world only. *)
Definition same_conn (t t' : tls K) : Prop := conn t' = conn t ∧ shared t' = shared t.

Lemma send_all_ok data t bio :
  bio_ (conn t) = Some bio →
  swp (send_all token data)
    (λ _ t', same_conn t t' ∧ core (os t) (os t') ∧ plain_in (os t') bio = plain_in (os t) bio
       ∧ plain_out (os t') bio = plain_out (os t) bio ++ data)
    (λ e t', same_conn t t' ∧ core (os t) (os t') ∧ failed e ∧ plain_in (os t') bio = plain_in (os t) bio
       ∧ ∃ n, (n < length data)%nat ∧ plain_out (os t') bio = plain_out (os t) bio ++ take n data) t.
Proof using All.
  intros Hb. unfold send_all. apply swp_bind, swp_gets. rewrite Hb. apply swp_on_os.
  eapply swp_mono; [by apply send_loop_ok|..]; simpl; by intuition.
Qed.

Lemma read_exact_ok size t bio :
  bio_ (conn t) = Some bio →
  swp (read_exact token size)
    (λ b t', same_conn t t' ∧ core (os t) (os t') ∧ plain_out (os t') bio = plain_out (os t) bio
       ∧ length b = size ∧ Forall is_byte b ∧ plain_in (os t) bio = b ++ plain_in (os t') bio)
    (λ e t', same_conn t t' ∧ core (os t) (os t') ∧ plain_out (os t') bio = plain_out (os t) bio ∧ failed e
       ∧ ∃ lost, (length lost < size)%nat ∧ plain_in (os t) bio = lost ++ plain_in (os t') bio) t.
Proof using All.
  intros Hb. unfold read_exact. apply swp_bind, swp_gets. rewrite Hb. apply swp_on_os.
  eapply swp_mono; [apply read_loop_ok; [simpl; lia|unfold loop_fuel; simpl; lia|done]|..]; simpl; by intuition.
Qed.

Lemma read_some_ok size t bio :
  bio_ (conn t) = Some bio →
  swp (read_some token size)
    (λ b t', same_conn t t' ∧ core (os t) (os t') ∧ plain_out (os t') bio = plain_out (os t) bio
       ∧ (0 < length b ≤ size)%nat ∧ Forall is_byte b ∧ plain_in (os t) bio = b ++ plain_in (os t') bio)
    (λ e t', same_conn t t' ∧ core (os t) (os t') ∧ plain_out (os t') bio = plain_out (os t) bio ∧ failed e
       ∧ plain_in (os t') bio = plain_in (os t) bio) t.
Proof using All.
  intros Hb. unfold read_some. apply swp_bind, swp_gets. rewrite Hb. apply swp_on_os.
  eapply swp_mono; [by apply read_some_loop_ok|..]; simpl; by intuition.
Qed.

Context `{SteadyClock K} `{IT : InetText}.
Context (context_factory_ : K → option Z * K) (ca_bundle : option bytes).
Context (factory_quiet : ∀ k, quiet k (context_factory_ k).2).

(** ** The contexts *)

(** A context with which the certificates of peers are verified. *)
Definition verifying (k : K) (c : Z) : Prop := c ∈ live_ctxs k ∧ ctx_mode k c = SSL_VERIFY_PEER.

Lemma verifying_kept c cs k k' : c ∈ cs → keeps_ctxs cs k k' → verifying k c → verifying k' c.
Proof using All. intros Hc Hk [Hl Hm]. destruct (Hk c Hc). split; [done|congruence]. Qed.

Lemma verifying_core c k k' : core k k' → verifying k c → verifying k' c.
Proof using All. intros [_ Hk] Hv. eapply verifying_kept; [apply Hv|done|done]. Qed.

(** A call on the new context [c]: [live] so far, and it stays so. *)
Lemma ctx_call {A B} c (f : K → A * K) (g : A → io B) k0 k Q :
  (∀ k, quiet k (f k).2) → quiet_but c k0 k → c ∈ live_ctxs k →
  (∀ a k', quiet_but c k0 k' → c ∈ live_ctxs k' → ctx_mode k' c = ctx_mode k c → swp (g a) Q (λ _ _, False) k') →
  swp (a ← sys f; g a) Q (λ _ _, False) k.
Proof using All.
  intros Hf Hb Hc Hg. apply swp_bind, swp_sys. destruct (Hf k) as [[_ Hk] _].
  destruct (Hk c Hc). apply Hg; [|done..]. transitivity k; [done|]. by apply quiet_quiet_but.
Qed.

Lemma abandon_ok c k0 k (Q : option Z → K → Prop) :
  c ∉ live_ctxs k0 → quiet_but c k0 k → (∀ k', quiet k0 k' → Q None k') →
  swp (_ ← sys_ (SSL_CTX_free c); mret None : io (option Z)) Q (λ _ _, False) k.
Proof using All.
  intros Hc Hb HQ. apply swp_bind, swp_sys_, swp_ret, HQ. apply (quiet_but_fresh c); [done|].
  transitivity k; [done|apply ctx_free_quiet].
Qed.

Lemma create_default_ssl_ctx_ok k :
  swp (create_default_ssl_ctx ca_bundle) (λ o k', quiet k k' ∧ ∀ c, o = Some c → verifying k' c) (λ _ _, False) k.
Proof using All.
  unfold create_default_ssl_ctx. apply swp_bind, swp_sys. pose proof (ctx_new_quiet k) as Q1.
  destruct (SSL_CTX_new k) as [[c|] k1] eqn:Hnew; [|by apply swp_ret]. cbn [fst snd] in *.
  destruct (ctx_new_makes _ _ _ Hnew) as (Hfresh & Hlive & _). apply (quiet_quiet_but c) in Q1. cbv zeta.
  assert (∀ k', quiet_but c k k' → swp (_ ← sys_ (SSL_CTX_free c); mret None : io (option Z))
    (λ o k', quiet k k' ∧ ∀ c, o = Some c → verifying k' c) (λ _ _, False) k') as Habandon
    by (intros k' Hk'; by eapply abandon_ok).
  eapply ctx_call; [apply ctx_min_quiet|done|done|]. intros rc k2 Q2 L2 _. destruct (negb _); [by apply Habandon|].
  eapply ctx_call; [apply ctx_max_quiet|done|done|]. intros rc' k3 Q3 L3 _. destruct (negb _); [by apply Habandon|].
  apply swp_bind, swp_sys_. destruct (ctx_verify_sets c SSL_VERIFY_PEER k3 L3) as [L4 M4].
  assert (quiet_but c k (SSL_CTX_set_verify c SSL_VERIFY_PEER k3)) as Q4 by (transitivity k3; [done|apply ctx_verify_quiet]).
  assert (∀ k', quiet_but c k k' → c ∈ live_ctxs k' → ctx_mode k' c = SSL_VERIFY_PEER →
    quiet k k' ∧ ∀ c', Some c = Some c' → verifying k' c') as Hdone.
  { intros k' Qk' Lk' Mk'. split; [by eapply quiet_but_fresh|]. by intros ? [= <-]. }
  destruct ca_bundle as [ca_path|];
    (eapply ctx_call; [first [apply ctx_load_quiet|apply ctx_paths_quiet]|done|done|]);
    intros rc'' k5 Q5 L5 M5; (destruct (negb _); [by apply Habandon|]); apply swp_ret, Hdone; congruence.
Qed.

(** ** Connecting *)

(** The names that an SSL object says and verifies are those of the connection:
    a name is verified unless it is an address. *)
Definition named (c : TlsConnection) (ssl : Z) (k : K) : Prop :=
  hello_name k ssl = Some (c_str (effective_hostname c))
  ∧ verify_name k ssl = match Address.parse (effective_hostname c) with
                        | Some _ => None
                        | None => Some (c_str (effective_hostname c))
                        end.

Lemma named_core c ssl k k' : core k k' → named c ssl k → named c ssl k'.
Proof using All. intros ((_ & _ & Hn & _) & _) [Hh Hv]. destruct (Hn ssl) as (Hnv & Hnh & _). split; congruence. Qed.

(** What a failed handshake reports. *)
Definition connect_failed (e : IoStatus) : Prop := e = IO_TIMEOUT ∨ e = IO_ERROR.

Lemma connect_loop_ok fuel bio deadline k :
  (tries k ≤ fuel)%nat →
  swp (connect_loop fuel bio deadline) (λ _ k', core k k') (λ e k', core k k' ∧ connect_failed e) k.
Proof using All.
  revert k. induction fuel as [|fuel IH]; intros k Hf; cbn [connect_loop];
    apply swp_bind, swp_sys_; pose proof (clear_quiet bio k) as [Hc1 _];
    set (k1 := BIO_clear_retry_flags bio k) in *; apply swp_bind, swp_sys;
    pose proof (do_connect_quiet bio k1) as [Hc2 _]; pose proof (do_connect_tries bio k1) as Ht;
    destruct (BIO_do_connect bio k1) as [ret k2]; simpl in Hc2 |- *; specialize (Ht ret k2 eq_refl);
    (assert (core k k2) as Hc by (by transitivity k1));
    (destruct (ret =? 1) eqn:Hret; [by apply swp_ret|]); prop_of_bool;
    apply swp_bind, swp_gets; (destruct (BIO_should_retry bio k2) eqn:Hr; simpl; [|by apply swp_throw; split; [|right]]);
    specialize (Ht Hret eq_refl); destruct Hc1 as ((_ & _ & _ & Ht1) & _);
    apply swp_bind, swp_gets; (destruct (deadline <=? _); [by apply swp_throw; split; [|left]|]);
    (eapply swp_call; [apply poll_bio_ok| |done]); intros st k3 [Hc3 _];
    (assert (core k k3) as Hk3 by (by transitivity k2)); pose proof (proj2 (proj2 (proj2 (proj1 Hc3))));
    destruct st; try (by apply swp_throw; split; [|left]); try (by apply swp_throw; split; [|right]).
  - lia.
  - eapply swp_mono; [apply IH; lia|intros ? k4 Hc4; by transitivity k3|].
    intros e k4 [Hc4 He]. split; [by transitivity k3|done].
Qed.

(** The SSL object has its names and its mode; the other objects are as before. *)
Definition settled (c : TlsConnection) (bio ssl mode : Z) (k k' : K) : Prop :=
  live_bios k' = live_bios k ∧ keeps_ctxs (live_ctxs k) k k'
  ∧ BIO_get_ssl bio k' = Some ssl ∧ named c ssl k' ∧ verify_mode k' ssl = mode.

Lemma keeps_ctxs_step k k' k'' :
  keeps_ctxs (live_ctxs k) k k' → keeps_ctxs (live_ctxs k') k' k'' → keeps_ctxs (live_ctxs k) k k''.
Proof using All. intros Ha Hb. eapply keeps_ctxs_trans; [exact Ha|]. eapply keeps_ctxs_sub; [|exact Hb]. set_solver. Qed.

Lemma settled_core c bio ssl mode k k1 k2 : settled c bio ssl mode k k1 → core k1 k2 → settled c bio ssl mode k k2.
Proof using All.
  intros (Hl & Hx & Hs & Hn & Hm) Hc. pose proof Hc as ((Hl' & Hs' & Hn' & _) & Hx'). destruct (Hn' ssl) as (_ & _ & Hm').
  split_and!; [congruence|by eapply keeps_ctxs_step|by rewrite Hs'|by eapply named_core|congruence].
Qed.

(** What a failure leaves of the other objects. *)
Definition unsettled (k k' : K) (e : IoStatus) : Prop :=
  live_bios k' = live_bios k ∧ keeps_ctxs (live_ctxs k) k k' ∧ connect_failed e.

Lemma settled_unsettled c bio ssl mode k k' e : settled c bio ssl mode k k' → connect_failed e → unsettled k k' e.
Proof using All. by intros (? & ? & _). Qed.

Lemma configure_ssl_ok c bio ssl k :
  BIO_get_ssl bio k = Some ssl → verify_name k ssl = None →
  swp (configure_ssl c ssl) (λ _ k', settled c bio ssl (verify_mode k ssl) k k') (λ e k', unsettled k k' e) k.
Proof using All.
  intros Hssl Hv. unfold configure_ssl. apply swp_bind, swp_sys_.
  set (h := c_str (effective_hostname c)). set (k1 := SSL_set_tlsext_host_name ssl h k).
  assert (∃ k2, (match Address.parse (effective_hostname c) with
    | None => sys_ (SSL_set1_host ssl h) | Some _ => mret tt end : io unit) k1 = (Ret tt, k2)
    ∧ settled c bio ssl (verify_mode k ssl) k k2) as (k2 & Heq & Hn).
  { unfold settled, named. fold h. subst k1. pose proof (hello_ctxs ssl h k) as Hx1.
    destruct (Address.parse (effective_hostname c)).
    - eexists. split; [reflexivity|]. by rewrite hello_live, hello_ssl, hello_sets, hello_verify, hello_mode.
    - eexists. split; [reflexivity|].
      rewrite set1_live, set1_ssl, set1_hello, set1_sets, set1_mode, hello_live, hello_ssl, hello_sets, hello_mode.
      split_and!; try done. eapply keeps_ctxs_step; [exact Hx1|apply set1_ctxs]. }
  apply swp_bind. unfold swp at 1. rewrite Heq. cbn [fst snd wp].
  case_bool_decide; [by apply swp_ret|]. apply swp_bind, swp_sys.
  pose proof (alpn_quiet ssl (alpn_proto_ c) k2) as [Hc _].
  destruct (SSL_set_alpn_protos ssl (alpn_proto_ c) k2) as [rc k3]. simpl in Hc |- *.
  pose proof (settled_core _ _ _ _ _ _ _ Hn Hc) as Hn3. destruct (negb _); [|by apply swp_ret].
  apply swp_throw. eapply settled_unsettled; [exact Hn3|by right].
Qed.

Lemma handshake_ok c bio ssl k :
  BIO_get_ssl bio k = Some ssl → verify_name k ssl = None →
  swp (handshake c bio) (λ _ k', settled c bio ssl (verify_mode k ssl) k k') (λ e k', unsettled k k' e) k.
Proof using All.
  intros Hssl Hv. unfold handshake. apply swp_bind, swp_gets. rewrite Hssl.
  eapply swp_call; [by apply (configure_ssl_ok c bio)| |done]. intros [] k1 Hn1.
  assert (∀ k', core k1 k' → settled c bio ssl (verify_mode k ssl) k k') as Hend by (intros k'; by apply settled_core).
  apply swp_bind, swp_sys. pose proof (hostname_quiet bio (c_str (target c)) k1) as [Hc2 _].
  destruct (BIO_set_conn_hostname bio (c_str (target c)) k1) as [rc k2]. simpl in Hc2 |- *.
  destruct (negb _). { apply swp_throw. eapply settled_unsettled; [by apply Hend|by right]. }
  apply swp_bind, swp_sys_. pose proof (nbio_quiet bio 1 k2) as [Hc3 _]. set (k3 := BIO_set_nbio bio 1 k2) in *.
  apply swp_bind, swp_gets. cbv zeta. apply swp_bind.
  assert (core k1 k3) as Hc by (by transitivity k2).
  pose proof (connect_loop_ok (loop_fuel 0 k3) bio (steady_now k3 + connect_timeout_ c * 1000000) k3 (le_n _)) as Hloop.
  eapply swp_mono; [exact Hloop|..]; cbv beta.
  2:{ intros e k4 [Hc4 He]. eapply settled_unsettled; [apply Hend; by transitivity k3|done]. }
  intros _ k4 Hc4. assert (core k1 k4) as Hk4 by (by transitivity k3).
  apply swp_bind, swp_gets. destruct (0 <=? _); [|by apply swp_ret, Hend].
  apply swp_bind, swp_sys, swp_ret, Hend. transitivity k4; [done|]. apply setsockopt_quiet.
Qed.

(** ** The connection object *)

(** But for the BIO and the cached context, the same members. *)
Definition same_settings (c c' : TlsConnection) : Prop :=
  with_ctx None (with_bio None c') = with_ctx None (with_bio None c).

Lemma same_settings_hostname c c' : same_settings c c' → effective_hostname c' = effective_hostname c.
Proof. intros Hs. unfold effective_hostname. injection Hs as Hsv _ Hsn _ _ _ _ _. congruence. Qed.

(** The BIOs but for the connection's own. *)
Definition own (t : tls K) : gset Z := match bio_ (conn t) with Some b => {[b]} | None => ∅ end.
Definition others (t : tls K) : gset Z := live_bios (os t) ∖ own t.

(** The shared context, if it has been made, verifies peers. *)
Definition trusted (t : tls K) : Prop := ∀ ctx, shared t = Some (Some ctx) → verifying (os t) ctx.

Lemma trusted_kept t k c : keeps_ctxs (live_ctxs (os t)) (os t) k → trusted t → trusted {| os := k; conn := c; shared := shared t |}.
Proof using All. intros Hk Ht ctx Hctx. specialize (Ht ctx Hctx). eapply verifying_kept; [apply Ht|exact Hk|exact Ht]. Qed.

(** Closed: no BIO, and none of it left. *)
Definition closed (t t' : tls K) : Prop :=
  bio_ (conn t') = None ∧ live_bios (os t') = others t ∧ same_settings (conn t) (conn t') ∧ (trusted t → trusted t').

Lemma close_closed t : swp close (λ _ t', closed t t') (λ _ _, False) t.
Proof using All.
  unfold close. apply swp_bind, swp_gets, swp_bind. unfold closed, others, own.
  destruct (bio_ (conn t)) as [bio|].
  - apply swp_on_os, swp_sys_, swp_modify. simpl. split_and!; [done|apply bio_free|done|].
    apply trusted_kept, bio_free_ctxs.
  - apply swp_ret, swp_modify. simpl. split_and!; [done|set_solver|done|]. by apply trusted_kept.
Qed.

(** A step that keeps the BIOs and the contexts, whatever is cached. *)
Lemma closed_step t0 t k ctx :
  closed t0 t → core (os t) k → closed t0 {| os := k; conn := with_ctx ctx (conn t); shared := shared t |}.
Proof using All.
  intros (Hb & Hl & Hs & Ht) [(Hl' & _) Hk]. split_and!; [done|simpl; congruence|done|]. intros H'. by apply trusted_kept; auto.
Qed.

Lemma resolve_ctx_ok t0 t :
  closed t0 t →
  swp (resolve_ctx context_factory_ ca_bundle)
    (λ ctx t', closed t0 t' ∧ (has_factory (conn t) = false → trusted t0 → verifying (os t') ctx))
    (λ e t', closed t0 t' ∧ connect_failed e) t.
Proof using All.
  intros Hcl. pose proof Hcl as (Hb & Hl & Hs & Ht0). unfold resolve_ctx. apply swp_bind, swp_gets.
  eapply (swp_call _ _ (λ ctx t', closed t0 t' ∧ ∀ c, ctx = Some c → has_factory (conn t) = false → trusted t0 → verifying (os t') c)
    (λ _ _, False)); [| |done].
  2:{ intros [ctx|] t1 [Q1 V1]; [apply swp_ret; auto|]. apply swp_throw. split; [done|by right]. }
  destruct (has_factory (conn t)).
  - destruct (custom_ctx_ (conn t)); [by apply swp_ret|].
    apply swp_bind, swp_on_os, swp_sys. pose proof (factory_quiet (os t)) as [Hq _].
    apply swp_bind, swp_modify, swp_ret. split; [exact (closed_step t0 t _ _ Hcl Hq)|done].
  - unfold get_shared_ssl_ctx. apply swp_bind, swp_gets. destruct (shared t) as [made|] eqn:Hmade.
    { apply swp_ret. split; [done|]. intros c -> _ Ht. by apply (Ht0 Ht). }
    apply swp_bind, swp_on_os. eapply swp_mono; [apply create_default_ssl_ctx_ok| |done].
    intros ctx k1 [[[(Hl2 & _) _] _] Hv]. cbv beta. apply swp_bind, swp_modify, swp_ret.
    split; [|auto]. split_and!; [done|simpl; congruence|done|]. intros _ c [= ->]. by apply Hv.
Qed.

(** Connected: a new BIO, whose SSL object has the right names, and verifies its
    peer unless the context is somebody else's. *)
Definition connected (t t' : tls K) : Prop :=
  ∃ bio ssl, bio_ (conn t') = Some bio ∧ bio ∉ others t ∧ live_bios (os t') = {[bio]} ∪ others t
    ∧ BIO_get_ssl bio (os t') = Some ssl ∧ named (conn t') ssl (os t') ∧ same_settings (conn t) (conn t')
    ∧ (trusted t → trusted t')
    ∧ (has_factory (conn t) = false → trusted t → verify_mode (os t') ssl = SSL_VERIFY_PEER).

Lemma same_settings_factory c c' : same_settings c c' → has_factory c' = has_factory c.
Proof. intros Hs. by injection Hs. Qed.

Lemma connect_ok t :
  swp (connect context_factory_ ca_bundle) (λ _ t', connected t t') (λ e t', closed t t' ∧ connect_failed e) t.
Proof using All.
  unfold connect. eapply swp_call; [apply close_closed| |done]. intros ? t1 Hc1. simpl in Hc1.
  eapply swp_call; [by apply resolve_ctx_ok| |done]. intros ctx t2 [(Hb2 & Hl2 & Hs2 & Ht2) Hv2].
  rewrite (same_settings_factory (conn t) (conn t1)) in Hv2 by apply Hc1.
  apply swp_bind, swp_on_os, swp_sys.
  destruct (BIO_new_ssl_connect ctx (os t2)) as [[bio|] k3] eqn:Hnew; cbn [fst snd].
  2:{ apply swp_throw. apply bio_new_fails in Hnew as [(Hl3 & _) Hk3]. split; [|by right].
      split_and!; [done|simpl; congruence|done|]. intros Ht. by apply trusted_kept; auto. }
  apply bio_new_makes in Hnew as (Hfresh & Hl3 & _ & Hk3 & ssl & Hssl & Hv & _ & Hm).
  rewrite Hl2 in Hfresh, Hl3. apply swp_bind, swp_gets. cbn [conn].
  apply (swp_attempt_bind _ _
    (λ _ t4, conn t4 = conn t2 ∧ shared t4 = shared t2 ∧ settled (conn t2) bio ssl (verify_mode k3 ssl) k3 (os t4))
    (λ e t4, conn t4 = conn t2 ∧ shared t4 = shared t2 ∧ unsettled k3 (os t4) e)).
  - apply swp_on_os. eapply swp_mono; [by apply (handshake_ok (conn t2) bio ssl)|..]; simpl; done.
  - intros u t4 (Hc4 & Hsh4 & Hl4 & Hk4 & Hs4 & Hn4 & Hm4). apply swp_modify. exists bio, ssl. simpl. rewrite Hc4, Hl4.
    split_and!; try done.
    + intros Ht. rewrite Hsh4. apply trusted_kept; [by eapply keeps_ctxs_step|auto].
    + intros Hf Ht. destruct (Hv2 Hf Ht) as [Hlive Hmode]. by rewrite Hm4, Hm, Hmode.
  - intros e t4 (Hc4 & Hsh4 & Hl4 & Hk4 & He). apply swp_bind, swp_on_os, swp_sys_, swp_throw. split; [|done].
    split_and!; [simpl; congruence| |simpl; congruence|].
    + simpl. rewrite bio_free, Hl4, Hl3. set_solver.
    + intros Ht. rewrite Hsh4. apply trusted_kept; [|auto].
      eapply keeps_ctxs_step; [by eapply keeps_ctxs_step|apply bio_free_ctxs].
Qed.

(** ** The operations of the interface *)

(** [m] ends with a value or an error. *)
Definition total {A} (m : tio A) : Prop := ∀ t, swp m (λ _ _, True) (λ _ _, True) t.

Lemma send_all_total data : total (send_all token data).
Proof using All.
  intros t. destruct (bio_ (conn t)) as [bio|] eqn:Hb; [by eapply swp_mono; [apply (send_all_ok _ _ _ Hb)|..]|].
  unfold send_all. apply swp_bind, swp_gets. rewrite Hb. by apply swp_throw.
Qed.
Lemma read_exact_total size : total (read_exact token size).
Proof using All.
  intros t. destruct (bio_ (conn t)) as [bio|] eqn:Hb; [by eapply swp_mono; [apply (read_exact_ok _ _ _ Hb)|..]|].
  unfold read_exact. apply swp_bind, swp_gets. rewrite Hb. by apply swp_throw.
Qed.
Lemma read_some_total size : total (read_some token size).
Proof using All.
  intros t. destruct (bio_ (conn t)) as [bio|] eqn:Hb; [by eapply swp_mono; [apply (read_some_ok _ _ _ Hb)|..]|].
  unfold read_some. apply swp_bind, swp_gets. rewrite Hb. by apply swp_throw.
Qed.
Lemma shutdown_total : total shutdown.
Proof using All.
  intros t. unfold shutdown. apply swp_bind, swp_gets, swp_bind, swp_gets.
  destruct (bio_ (conn t)); [|by apply swp_throw]. destruct (get_ssl t); [|by apply swp_throw].
  apply swp_on_os. by eapply swp_mono; [apply shutdown_loop_ok|..].
Qed.
Lemma connect_total : total (connect context_factory_ ca_bundle).
Proof using All. intros t. by eapply swp_mono; [apply connect_ok|..]. Qed.

(** ** The interface of Io.v *)

Definition outcome_of {A} (m : tio A) (Hm : total m) (t : tls K) : (IoStatus + A) * tls K :=
  (match (m t).1 as o return wp o (λ _, True) (λ _, True) → IoStatus + A with
   | Ret a => λ _, inr a
   | Throw e => λ _, inl e
   | Undef | OutOfFuel => λ f, match f with end
   end (Hm t), (m t).2).

Lemma outcome_of_spec {A} (m : tio A) Hm t a t' Q T :
  swp m Q T t → outcome_of m Hm t = (inr a, t') → Q a t'.
Proof using All.
  unfold outcome_of, swp. generalize (Hm t). unfold swp.
  destruct (m t) as [[x|e| |] t1]; simpl; intros h Hq Heq; [|discriminate Heq|done|done].
  injection Heq as <- <-. exact Hq.
Qed.

#[local] Instance openssl_connection : TlsConnectionBase (tls K) := {
  tls_connect := outcome_of (connect context_factory_ ca_bundle) connect_total;
  tls_close t := (close t).2;
  tls_is_connected := is_connected;
  tls_is_healthy := is_healthy;
  tls_send_all data := outcome_of (send_all token data) (send_all_total data);
  tls_read_exact size := outcome_of (read_exact token size) (read_exact_total size);
  tls_read_some size := outcome_of (read_some token size) (read_some_total size);
  tls_shutdown := outcome_of shutdown shutdown_total;
  tls_negotiated_alpn := negotiated_alpn
}.

#[local] Instance openssl_connection_ok : TlsConnectionOk (tls K).
Proof using All.
  split; intros n t b t' Hr; simpl in Hr.
  - destruct (bio_ (conn t)) as [bio|] eqn:Hb.
    + pose proof (outcome_of_spec _ _ _ _ _ _ _ (read_exact_ok n t bio Hb) Hr) as (_ & _ & _ & Hl & Hbytes & _). done.
    + exfalso. eapply (outcome_of_spec _ _ _ _ _ (λ _ _, False) (λ _ _, True)) in Hr; [done|].
      unfold read_exact. apply swp_bind, swp_gets. rewrite Hb. by apply swp_throw.
  - destruct (bio_ (conn t)) as [bio|] eqn:Hb.
    + pose proof (outcome_of_spec _ _ _ _ _ _ _ (read_some_ok n t bio Hb) Hr) as (_ & _ & _ & Hl & Hbytes & _).
      split; [lia|done].
    + exfalso. eapply (outcome_of_spec _ _ _ _ _ (λ _ _, False) (λ _ _, True)) in Hr; [done|].
      unfold read_some. apply swp_bind, swp_gets. rewrite Hb. by apply swp_throw.
Qed.
End tls_proofs.

(** * Properties *)

(** C18: [connect] ends.  If it succeeds the connection has a new BIO, the only one
    left of it, whose SSL object says the effective hostname in its hello and
    checks the peer's certificate for that name, unless the name is an IP
    address: then for no name at all.  A connection without a context factory, and
    the program makes no other, has that SSL object verify its peer (the mode is
    [SSL_VERIFY_PEER]), with the shared context of an earlier connection as with
    one that it makes itself.  If [connect] fails, by a timeout or an error, there is
    no BIO any more, not even the one of an earlier connection. *)
Theorem tls_connect_spec {K} `{PosixOk K} `{!OpenSsl K} `{!OpenSslOk K} `{SteadyClock K} `{IT : InetText}
    (context_factory : K → option Z * K) (ca_bundle : option bytes) (t : tls K) :
  (∀ k, quiet k (context_factory k).2) → trusted t →
  (∃ t' bio ssl, connect context_factory ca_bundle t = (Ret tt, t') ∧ trusted t'
     ∧ bio_ (conn t') = Some bio ∧ live_bios (os t') = {[bio]} ∪ others t ∧ BIO_get_ssl bio (os t') = Some ssl
     ∧ hello_name (os t') ssl = Some (c_str (effective_hostname (conn t)))
     ∧ verify_name (os t') ssl = match Address.parse (effective_hostname (conn t)) with
                                 | Some _ => None
                                 | None => Some (c_str (effective_hostname (conn t)))
                                 end
     ∧ (has_factory (conn t) = false → verify_mode (os t') ssl = SSL_VERIFY_PEER))
  ∨ (∃ e t', connect context_factory ca_bundle t = (Throw e, t') ∧ (e = IO_TIMEOUT ∨ e = IO_ERROR) ∧ trusted t'
     ∧ bio_ (conn t') = None ∧ live_bios (os t') = others t).
Proof.
  intros Hf Ht. destruct (swp_cases _ _ _ _ (connect_ok {| Sock.token_fd := -1 |} context_factory ca_bundle Hf t))
    as [([] & t' & Heq & bio & ssl & Hb & _ & Hl & Hs & [Hh Hv] & Hset & Htr & Hm)|(e & t' & Heq & (Hb & Hl & _ & Htr) & He)].
  - left. exists t', bio, ssl. rewrite <- (same_settings_hostname _ _ Hset). split_and!; auto.
  - right. exists e, t'. split_and!; auto.
Qed.

(** What a TLS connection sends and receives is a stream without gaps,
    however OpenSSL splits it into records and however often it wants to be
    asked again: [send_all] ends with all of its data sent, or fails after a
    proper prefix; [read_exact] returns exactly as many of the next octets as
    were asked for, or fails having lost fewer than that; [read_some] returns
    at least one of them and at most as many, or fails and loses none. *)
Theorem tls_octets {K} `{PosixOk K} `{!OpenSsl K} `{!OpenSslOk K}
    (token : Sock.CancellationToken) (t : tls K) (bio : Z) (data : bytes) (size : nat) :
  bio_ (conn t) = Some bio →
  (∃ t', send_all token data t = (Ret tt, t') ∧ plain_out (os t') bio = plain_out (os t) bio ++ data
   ∨ ∃ e n, send_all token data t = (Throw e, t') ∧ e ≠ IO_OK ∧ (n < length data)%nat
       ∧ plain_out (os t') bio = plain_out (os t) bio ++ take n data)
  ∧ (∃ t', (∃ b, read_exact token size t = (Ret b, t') ∧ length b = size ∧ plain_in (os t) bio = b ++ plain_in (os t') bio)
     ∨ ∃ e lost, read_exact token size t = (Throw e, t') ∧ e ≠ IO_OK ∧ (length lost < size)%nat
         ∧ plain_in (os t) bio = lost ++ plain_in (os t') bio)
  ∧ (∃ t', (∃ b, read_some token size t = (Ret b, t') ∧ (0 < length b ≤ size)%nat ∧ plain_in (os t) bio = b ++ plain_in (os t') bio)
     ∨ ∃ e, read_some token size t = (Throw e, t') ∧ e ≠ IO_OK ∧ plain_in (os t') bio = plain_in (os t) bio).
Proof.
  intros Hb. split; [|split].
  - destruct (swp_cases _ _ _ _ (send_all_ok token data t bio Hb)) as [([] & t' & Heq & _ & _ & _ & Ho)|
      (e & t' & Heq & _ & _ & He & _ & n & Hn & Ho)]; exists t'; [by left|right; by exists e, n].
  - destruct (swp_cases _ _ _ _ (read_exact_ok token size t bio Hb)) as [(b & t' & Heq & _ & _ & _ & Hl & _ & Hi)|
      (e & t' & Heq & _ & _ & _ & He & lost & Hn & Hi)]; exists t'; [left; by exists b|right; by exists e, lost].
  - destruct (swp_cases _ _ _ _ (read_some_ok token size t bio Hb)) as [(b & t' & Heq & _ & _ & _ & Hl & _ & Hi)|
      (e & t' & Heq & _ & _ & _ & He & Hi)]; exists t'; [left; by exists b|right; by exists e].
Qed.

(** The bundle is the first regular file of the four tiers. *)
Definition bundle_candidates (getenv : bytes → option bytes) (default_cert_file : option bytes) : list bytes :=
  option_list (Cert.nonempty (getenv (str "SSL_CERT_FILE"))) ++ [str "./ca.pem"]
  ++ option_list (Cert.nonempty default_cert_file) ++ Cert.SEARCH_PATHS.

Lemma discover_first getenv is_regular_file default_cert_file :
  Cert.discover_ca_bundle getenv is_regular_file default_cert_file
  = snd <$> list_find (λ p, is_regular_file p = true) (bundle_candidates getenv default_cert_file).
Proof.
  assert (∀ p l, snd <$> list_find (λ p, is_regular_file p = true) (p :: l)
    = if is_regular_file p then Some p else snd <$> list_find (λ p, is_regular_file p = true) l) as Hcons.
  { intros p l. simpl. destruct (is_regular_file p) eqn:Hp; case_decide; try congruence; [done|].
    by destruct (list_find _ l) as [[i x]|]. }
  unfold Cert.discover_ca_bundle, bundle_candidates, Cert.get_hardcoded_paths.
  destruct (Cert.nonempty (getenv _)), (Cert.nonempty default_cert_file);
    unfold option_list; cbn [option_rect app]; rewrite !Hcons; done.
Qed.

(** * Witnesses *)

(** OpenSSL beside the example kernel: writes take two octets, reads return
    three, and the first operations want to be asked again. *)
Record sample_ssl := {
  x_ctxs : gset Z; x_ctx_mode : Z → Z; x_mode : Z → Z;
  x_bios : gset Z; x_next : Z; x_hello : Z → option bytes; x_verify : Z → option bytes;
  x_tries : nat; x_retry : bool; x_out : bytes; x_in : bytes
}.

Definition x_with (x : sample_ssl) (bios : gset Z) (hello verify : Z → option bytes) (retry : bool) (o i : bytes) : sample_ssl :=
  {| x_ctxs := x_ctxs x; x_ctx_mode := x_ctx_mode x; x_mode := x_mode x;
     x_bios := bios; x_next := x_next x; x_hello := hello; x_verify := verify; x_tries := x_tries x;
     x_retry := retry; x_out := o; x_in := i |}.

Definition x_with_ctxs (ctxs : gset Z) (mode : Z → Z) (x : sample_ssl) : sample_ssl :=
  {| x_ctxs := ctxs; x_ctx_mode := mode; x_mode := x_mode x; x_bios := x_bios x; x_next := x_next x;
     x_hello := x_hello x; x_verify := x_verify x; x_tries := x_tries x; x_retry := x_retry x; x_out := x_out x;
     x_in := x_in x |}.

Definition x_set_mode (c v : Z) (x : sample_ssl) : sample_ssl :=
  x_with_ctxs (x_ctxs x) (λ c', if bool_decide (c' = c) then v else x_ctx_mode x c') x.

Definition x_ctx_new (x : sample_ssl) : option Z * sample_ssl :=
  let c := x_next x in
  if bool_decide (c ∈ x_ctxs x) then (None, x) else
  (Some c, x_with_ctxs ({[c]} ∪ x_ctxs x) (λ c', if bool_decide (c' = c) then SSL_VERIFY_NONE else x_ctx_mode x c') x).

Definition x_new (ctx : Z) (x : sample_ssl) : option Z * sample_ssl :=
  if bool_decide (x_next x ∈ x_bios x) then (None, x) else
  (Some (x_next x),
   {| x_ctxs := x_ctxs x; x_ctx_mode := x_ctx_mode x;
      x_mode := λ s, if bool_decide (s = x_next x) then x_ctx_mode x ctx else x_mode x s;
      x_bios := {[x_next x]} ∪ x_bios x; x_next := x_next x + 1;
      x_hello := λ s, if bool_decide (s = x_next x) then None else x_hello x s;
      x_verify := λ s, if bool_decide (s = x_next x) then None else x_verify x s;
      x_tries := x_tries x; x_retry := false; x_out := x_out x; x_in := x_in x |}).

(** Asks to be asked again while there are tries left. *)
Definition trying {A} (again : A) (f : sample_ssl → A * sample_ssl) (x : sample_ssl) : A * sample_ssl :=
  match x_tries x with
  | O => f x
  | S n => (again, {| x_ctxs := x_ctxs x; x_ctx_mode := x_ctx_mode x; x_mode := x_mode x; x_bios := x_bios x; x_next := x_next x; x_hello := x_hello x; x_verify := x_verify x;
                      x_tries := n; x_retry := true; x_out := x_out x; x_in := x_in x |})
  end.

Definition x_quietly (retry : bool) (x : sample_ssl) : sample_ssl :=
  x_with x (x_bios x) (x_hello x) (x_verify x) retry (x_out x) (x_in x).

Definition ssl_side {A} (f : sample_ssl → A * sample_ssl) (k : sample_kernel * sample_ssl) : A * (sample_kernel * sample_ssl) :=
  ((f k.2).1, (k.1, (f k.2).2)).
Definition ssl_side_ (f : sample_ssl → sample_ssl) (k : sample_kernel * sample_ssl) : sample_kernel * sample_ssl :=
  (k.1, f k.2).

#[local] Instance sample_openssl : OpenSsl (sample_kernel * sample_ssl) := {
  SSL_CTX_new := ssl_side x_ctx_new;
  SSL_CTX_set_min_proto_version _ _ k := (1, k);
  SSL_CTX_set_max_proto_version _ _ k := (1, k);
  SSL_CTX_set_verify c v := ssl_side_ (x_set_mode c v);
  SSL_CTX_load_verify_locations _ _ k := (1, k);
  SSL_CTX_set_default_verify_paths _ k := (1, k);
  SSL_CTX_free c := ssl_side_ (λ x, x_with_ctxs (x_ctxs x ∖ {[c]}) (x_ctx_mode x) x);
  BIO_new_ssl_connect ctx := ssl_side (x_new ctx);
  BIO_free_all b := ssl_side_ (λ x, x_with x (x_bios x ∖ {[b]}) (x_hello x) (x_verify x) (x_retry x) (x_out x) (x_in x));
  BIO_get_ssl b _ := Some b;
  BIO_set_conn_hostname _ _ k := (1, k);
  BIO_set_nbio _ _ k := k;
  BIO_clear_retry_flags _ := ssl_side_ (x_quietly false);
  BIO_do_connect _ := ssl_side (trying (-1) (λ x, (1, x)));
  BIO_should_retry _ k := x_retry k.2;
  BIO_should_read _ _ := false;
  BIO_should_write _ _ := false;
  BIO_get_fd _ _ := 3;
  BIO_write _ d := ssl_side (trying (-1) (λ x,
    (Z.of_nat (length (take 2 d)), x_with x (x_bios x) (x_hello x) (x_verify x) false (x_out x ++ take 2 d) (x_in x))));
  BIO_read _ n := ssl_side (trying (-1, []) (λ x,
    ((Z.of_nat (length (take (n `min` 3) (map u8 (x_in x)))), take (n `min` 3) (map u8 (x_in x))),
     x_with x (x_bios x) (x_hello x) (x_verify x) false (x_out x) (drop (n `min` 3) (x_in x)))));
  SSL_set_tlsext_host_name s h := ssl_side_ (λ x, x_with x (x_bios x)
    (λ s', if bool_decide (s' = s) then Some h else x_hello x s') (x_verify x) (x_retry x) (x_out x) (x_in x));
  SSL_set1_host s h := ssl_side_ (λ x, x_with x (x_bios x) (x_hello x)
    (λ s', if bool_decide (s' = s) then Some h else x_verify x s') (x_retry x) (x_out x) (x_in x));
  SSL_set_alpn_protos _ _ k := (0, k);
  SSL_pending _ _ := 0;
  SSL_shutdown _ k := (1, k);
  SSL_get_error _ _ _ := 1;
  SSL_get0_alpn_selected _ _ := [];
  live_ctxs k := x_ctxs k.2;
  ctx_mode k := x_ctx_mode k.2;
  live_bios k := x_bios k.2;
  verify_mode k := x_mode k.2;
  verify_name k := x_verify k.2;
  hello_name k := x_hello k.2;
  tries k := x_tries k.2;
  plain_out k _ := x_out k.2;
  plain_in k _ := map u8 (x_in k.2)
}.

#[local] Arguments firstn : simpl never.

(** Case analysis on whether the operation is to be tried again. *)
Ltac sample_try :=
  simpl; unfold ssl_side; simpl; unfold trying;
  repeat match goal with |- context [match x_tries ?x with _ => _ end] =>
    let Hx := fresh "Hx" in destruct (x_tries x) eqn:Hx end.
Ltac sample_quiet :=
  intros; sample_try; unfold quiet, quiet_but, core, objects, keeps_ctxs; repeat (intros; split); intros; simpl in *;
  first [done|lia|set_solver|rewrite bool_decide_false by set_solver; done].

#[local] Instance sample_openssl_ok : OpenSslOk (sample_kernel * sample_ssl).
Proof.
  split.
  all: try sample_quiet.
  - intros [k x]. change (SSL_CTX_new (k, x)) with ((x_ctx_new x).1, (k, (x_ctx_new x).2)). unfold x_ctx_new.
    case_bool_decide as Hf; [done|]. split; [split; [done|]|done]. intros c Hc. simpl in *.
    rewrite bool_decide_false; [split; [set_solver|done]|]. by intros ->.
  - intros [k x] c k'. change (SSL_CTX_new (k, x)) with ((x_ctx_new x).1, (k, (x_ctx_new x).2)). unfold x_ctx_new.
    case_bool_decide as Hf; [done|]. intros [= <- <-]. simpl. rewrite bool_decide_true by done. split_and!; [done|set_solver|done].
  - intros c v [k x] Hc. simpl in *. by rewrite bool_decide_true.
  - intros b [k x] r k'. sample_try; intros [= <- <-]; simpl; [done|lia].
  - intros b d [k x] r k'. sample_try; intros [= <- <-]; simpl.
    + split_and!; [done|rewrite length_take; lia|]. rewrite Nat2Z.id. by destruct d as [|? [|??]].
    + split_and!; [done|lia|]. change (Z.to_nat (-1)) with 0%nat. by rewrite take_0, app_nil_r.
  - intros b d [k x] r k'. sample_try; intros [= <- <-]; simpl; [done|lia].
  - intros b n [k x] r d k'. sample_try; intros [= <- <- <-]; simpl.
    + split_and!; [done|by rewrite Nat2Z.id|rewrite length_take; lia|..].
      * apply Forall_take, map_u8_bytes.
      * by rewrite <- skipn_map, take_drop.
    + split_and!; [done|done|simpl; lia|constructor|done].
  - intros b n [k x] r d k'. sample_try; intros [= <- <- <-]; simpl; [done|lia].
  - intros c [k x] k'. change (BIO_new_ssl_connect c (k, x)) with ((x_new c x).1, (k, (x_new c x).2)). unfold x_new.
    case_bool_decide; simpl; [|done]. by intros [= <-].
  - intros c [k x] bio k'. change (BIO_new_ssl_connect c (k, x)) with ((x_new c x).1, (k, (x_new c x).2)). unfold x_new.
    case_bool_decide; simpl; [done|intros [= <- <-]; simpl].
    split_and!; try done. exists (x_next x). simpl. by rewrite !bool_decide_true.
  - intros s h k. simpl. by rewrite bool_decide_true.
  - intros s h k. simpl. by rewrite bool_decide_true.
Qed.

#[local] Instance sample_clock : SteadyClock (sample_kernel * sample_ssl) := λ k, sk_next k.1.

(** The BIOs 5 and, of the connection, [bio]; two operations will be asked for again. *)
Definition sample_tls (server : bytes) (bio : option Z) : tls (sample_kernel * sample_ssl) :=
  {| os := ({| sk_errno := 0; sk_signals := 1; sk_fds := {[3]}; sk_flags := λ _, 2; sk_next := 4;
               sk_in := []; sk_out := [] |},
            {| x_ctxs := ∅; x_ctx_mode := λ _, SSL_VERIFY_NONE; x_mode := λ _, SSL_VERIFY_NONE;
               x_bios := {[5]} ∪ option_to_set bio; x_next := 8; x_hello := λ _, None; x_verify := λ _, None;
               x_tries := 2; x_retry := false; x_out := str "x"; x_in := str "12345" |});
     conn := {| server_ := server; port_ := 853; sni_hostname_ := None; connect_timeout_ := 1500;
                read_timeout_ms_ := 1500; write_timeout_ms_ := 1500; alpn_proto_ := []; has_factory := false;
                custom_ctx_ := None; bio_ := bio |};
     shared := None |}.

Definition sample_factory (k : sample_kernel * sample_ssl) : option Z * (sample_kernel * sample_ssl) := (Some 1, k).

(** For a server given by a name the peer is checked for it; for one given by
    its address it is checked for nothing, but still verified. *)
Lemma tls_connect_spec_witness :
  (∃ t, connect (IT := sample_text) sample_factory None (sample_tls (str "dns.example") (Some 7)) = (Ret tt, t)
     ∧ live_bios (os t) = {[8; 5]} ∧ verify_name (os t) 8 = Some (str "dns.example")
     ∧ verify_mode (os t) 8 = SSL_VERIFY_PEER)
  ∧ (∃ t, connect (IT := sample_text) sample_factory None (sample_tls (str "::1") None) = (Ret tt, t)
     ∧ verify_name (os t) 8 = None ∧ verify_mode (os t) 8 = SSL_VERIFY_PEER).
Proof.
  split.
  - destruct (tls_connect_spec (IT := sample_text) sample_factory None (sample_tls (str "dns.example") (Some 7)))
      as [(t & bio & ssl & Heq & _ & Hb & Hl & Hs & _ & Hv & Hm)|(e & t & Heq & _)]; [by intros|by intros| |by vm_compute in Heq].
    exists t. split; [exact Heq|]. apply (f_equal snd) in Heq. cbn [snd] in Heq. subst t.
    injection Hb as <-. injection Hs as <-. split; [vm_compute; reflexivity|]. split; [exact Hv|exact (Hm eq_refl)].
  - destruct (tls_connect_spec (IT := sample_text) sample_factory None (sample_tls (str "::1") None))
      as [(t & bio & ssl & Heq & _ & Hb & Hl & Hs & _ & Hv & Hm)|(e & t & Heq & _)]; [by intros|by intros| |by vm_compute in Heq].
    exists t. split; [exact Heq|]. apply (f_equal snd) in Heq. cbn [snd] in Heq. subst t.
    injection Hb as <-. injection Hs as <-. split; [exact Hv|exact (Hm eq_refl)].
Defined.

Lemma tls_octets_witness :
  (∃ t, send_all {| Sock.token_fd := -1 |} (str "abcde") (sample_tls (str "h") (Some 7)) = (Ret tt, t)
     ∧ plain_out (os t) 7 = str "xabcde")
  ∧ ∃ t, read_exact {| Sock.token_fd := -1 |} 4 (sample_tls (str "h") (Some 7)) = (Ret (str "1234"), t)
     ∧ plain_in (os t) 7 = str "5".
Proof.
  destruct (tls_octets {| Sock.token_fd := -1 |} (sample_tls (str "h") (Some 7)) 7 (str "abcde") 4 eq_refl)
    as ((t & [[Hs Ho]|(e & n & Hs & _)]) & (t' & [(b & Hr & _ & Hi)|(e' & l & Hr & _)]) & _);
    [|by vm_compute in Hr|by vm_compute in Hs|by vm_compute in Hs].
  split; [by exists t|]. exists t'. assert (b = str "1234") as ->.
  { apply (f_equal fst) in Hr. vm_compute in Hr. by injection Hr as <-. }
  split; [exact Hr|]. vm_compute in Hi |- *. by injection Hi.
Defined.
