(* ===== verification/DotTls.v ===== *)
(** DNS over TLS on OpenSSL: the resolver of DotResolver.v on the connection of
    TlsConnection.v, each proved against the interface between them. *)
From S2P Require Import Prelude Address Uri DnsTypes Io Posix Socket DnsValidator DotResolver TlsConnection.
From stdpp Require Import gmap.
Import Tls Dot.

Section dot_tls.
Context {K : Type} `{PosixOk K} `{!OpenSsl K} `{!OpenSslOk K} `{SteadyClock K} `{RandomEngine K} `{IT : InetText}.
Context (token : Sock.CancellationToken) (context_factory : K → option Z * K) (ca_bundle : option bytes).
Context (factory_quiet : ∀ k, quiet k (context_factory k).2) (draw_quiet : ∀ k, quiet k (random_draw k).2).

#[local] Existing Instance openssl_connection.
#[local] Existing Instance openssl_connection_ok.

(** The connection the resolver makes, its clock and its random numbers. *)
Definition dot_tls : TlsConnectionBase (tls K) :=
  openssl_connection token context_factory ca_bundle factory_quiet.
#[local] Existing Instance dot_tls.

#[local] Instance dot_clock : SteadyClock (tls K) := λ t, steady_now (os t).
#[local] Instance dot_random : RandomEngine (tls K) := λ t,
  let '(z, k) := random_draw (os t) in (z, {| os := k; conn := conn t; shared := shared t |}).

(** The connection has the settings [c], and the process's shared context, once it
    is made, verifies peers.  Besides the connection's own BIO there are those of
    [base], and the SSL object of its own says the server's name, is to check the
    peer's certificate for it, and verifies the peer unless the context is somebody
    else's. *)
Record secured (base : gset Z) (c : TlsConnection) (t : tls K) : Prop := {
  sec_settings : same_settings c (conn t);
  sec_trusted : trusted t;
  sec_bios : live_bios (os t) = own t ∪ base;
  sec_fresh : own t ## base;
  sec_named : ∀ bio, bio_ (conn t) = Some bio → ∃ ssl, BIO_get_ssl bio (os t) = Some ssl ∧ named c ssl (os t)
    ∧ (has_factory c = false → verify_mode (os t) ssl = SSL_VERIFY_PEER)
}.

Lemma named_settings c c' ssl (k : K) : same_settings c c' → named c' ssl k → named c ssl k.
Proof using All. intros Hc. unfold named. by rewrite (same_settings_hostname _ _ Hc). Qed.

Lemma secured_others base c t : secured base c t → others t = base.
Proof using All. intros [_ _ Hb Hf _]. unfold others. rewrite Hb. set_solver. Qed.

(** Steps of OpenSSL that leave its objects as they are. *)
Lemma secured_core base c t k :
  core (os t) k → secured base c t → secured base c {| os := k; conn := conn t; shared := shared t |}.
Proof using All.
  intros Hk [Hs Ht Hb Hf Hn]. pose proof Hk as [(Hl & Hssl & Hobj & _) Hctx].
  split; unfold own in *; simpl in *; [done|by apply (trusted_kept token context_factory ca_bundle factory_quiet)|by rewrite Hl|done|].
  intros bio Hbio. destruct (Hn bio Hbio) as (ssl & Hi & Hnm & Hm). exists ssl. rewrite Hssl.
  destruct (Hobj ssl) as (_ & _ & Hmode). rewrite Hmode. split_and!; [done|by eapply named_core|done].
Qed.

Lemma secured_frame base c t t' :
  same_conn t t' → core (os t) (os t') → secured base c t → secured base c t'.
Proof using All.
  intros [Hc Hsh] Hk Hs. apply (secured_core _ _ _ _ Hk) in Hs. rewrite <- Hc, <- Hsh in Hs. by destruct t'.
Qed.

Lemma secured_closed base c t t' : secured base c t → closed t t' → secured base c t'.
Proof using All.
  intros Hs (Hb & Hl & Hset & Htr). pose proof (secured_others _ _ _ Hs) as Ho. destruct Hs as [Hc Ht _ _ _].
  split; unfold own; rewrite ?Hb; [|auto|set_solver|set_solver|done].
  unfold same_settings in *. congruence.
Qed.

Lemma secured_connected base c t t' : secured base c t → connected t t' → secured base c t'.
Proof using All.
  intros Hs (bio & ssl & Hb & Hfresh & Hl & Hssl & Hn & Hset & Htr & Hm). pose proof (secured_others _ _ _ Hs) as Ho.
  destruct Hs as [Hc Ht _ _ _]. assert (same_settings c (conn t')) as Hcc by (unfold same_settings in *; congruence).
  split; unfold own; rewrite ?Hb; [done|auto|set_solver|set_solver|].
  intros ? [= <-]. exists ssl. split_and!; [done|by eapply named_settings|].
  intros Hf. apply Hm; [|done]. by rewrite (same_settings_factory _ _ Hc).
Qed.

(** An operation keeps what it keeps on both of its ways out. *)
Lemma outcome_of_keeps {A} (m : st (tls K) IoStatus A) Hm t (J : tls K → Prop) :
  swp m (λ _, J) (λ _, J) t → J (outcome_of m Hm t).2.
Proof using All. unfold outcome_of, swp. simpl. by destruct (m t) as [[| | |] t']. Qed.

(** An operation on an open connection that leaves OpenSSL's objects alone. *)
Lemma secured_operation {A} (m : st (tls K) IoStatus A) Hm base c t :
  (∀ bio, bio_ (conn t) = Some bio →
     swp m (λ _ t', same_conn t t' ∧ core (os t) (os t')) (λ _ t', same_conn t t' ∧ core (os t) (os t')) t) →
  (bio_ (conn t) = None → swp m (λ _ t', t' = t) (λ _ t', t' = t) t) →
  secured base c t → secured base c (outcome_of m Hm t).2.
Proof using All.
  intros Hopen Hclosed Hs. apply (outcome_of_keeps m Hm t (secured base c)). destruct (bio_ (conn t)) as [bio|].
  - eapply swp_mono; [by apply (Hopen bio)|..]; intros ? t' [Hc Hk]; by apply (secured_frame _ _ t t').
  - eapply swp_mono; [by apply Hclosed|..]; by intros ? t' ->.
Qed.

Lemma secured_tracks base c : Tracks (tls K) (λ _, secured base c).
Proof using All.
  split; intros; unfold tls_connect, tls_close, tls_send_all, tls_read_exact, tls_shutdown, dot_tls, openssl_connection.
  - done.
  - apply (outcome_of_keeps _ _ w (secured base c)). eapply swp_mono; [by apply connect_ok|..]; cbv beta.
    + intros ? t' Hc. by eapply secured_connected.
    + intros e t' [Hc _]. by eapply secured_closed.
  - pose proof (close_closed token context_factory ca_bundle factory_quiet w) as Hc. unfold swp in Hc.
    destruct (close w) as [[| | |] t']; simpl in *; try done. by eapply secured_closed.
  - apply secured_operation; [| |done].
    + intros bio Hb. eapply swp_mono; [apply (send_all_ok token b w bio Hb)|..]; cbv beta; intuition.
    + intros Hb. unfold send_all. apply swp_bind, swp_gets. rewrite Hb. by apply swp_throw.
  - apply secured_operation; [| |done].
    + intros bio Hb. eapply swp_mono; [apply (read_exact_ok token k w bio Hb)|..]; cbv beta; intuition.
    + intros Hb. unfold read_exact. apply swp_bind, swp_gets. rewrite Hb. by apply swp_throw.
  - apply secured_operation; [| |done].
    + intros bio Hb. unfold shutdown. apply swp_bind, swp_gets, swp_bind, swp_gets. rewrite Hb.
      destruct (get_ssl w); [|by apply swp_throw]. apply (swp_on_os token).
      eapply swp_mono; [by apply (shutdown_loop_ok token)|..]; cbv beta; unfold same_conn; simpl; intuition.
    + intros Hb. unfold shutdown. apply swp_bind, swp_gets, swp_bind, swp_gets. rewrite Hb. by apply swp_throw.
  - unfold random_draw, dot_random. destruct (draw_quiet (os w)) as [Hk _].
    destruct (random_draw (os w)) as [z k]. by apply secured_core.
Qed.

(** C19: A DoT query on an OpenSSL connection, from a resolver whose connection is
    closed or secured: it returns a response that validation accepts for the very
    packet that its random numbers make, the padded query for the name, or one of
    four errors; and whatever the peer, the network and OpenSSL do on the way, the
    resolver's connection is closed or secured again.  That is, its settings are
    those it was made with; at most one BIO is its own and every other one that was
    there is still there, and no more; the SSL object of its own checks the
    peer's certificate for the server's name (unless that is an address), and its
    verification mode is [SSL_VERIFY_PEER], unless the connection was made with a
    context factory. *)
Theorem dot_over_openssl_spec (base : gset Z) (c : TlsConnection) (label host : bytes) (type : RecordKind)
    (s : DotState (tls K)) :
  Forall is_byte host → secured base c (ds_world s) →
  ∃ s', secured base c (ds_world s')
    ∧ ((∃ r q, query label host type s = (Ret r, s')
          ∧ (build_padded_query host (type_to_record_type type) s).1 = Ret q
          ∧ padded_query host (type_to_record_type type) q ∧ accepts q r)
       ∨ ∃ e, query label host type s = (Throw e, s') ∧ ei_code e ∈ [RETRY; CONNECTION; CANCELLED; PARSE]).
Proof using All.
  intros Hh Hs. pose proof (secured_tracks base c) as Ht.
  destruct (swp_cases _ _ _ _ (query_spec (λ _, secured base c) label host type s Hh Hs))
    as [(r & s' & Heq & (q & Hq & Hacc) & Hs')|(e & s' & Heq & He & Hs')]; exists s'; (split; [done|]);
    [left; by exists r, q|right; by exists e].
Qed.
End dot_tls.

(** * Witness *)

#[local] Existing Instances sample_openssl sample_openssl_ok sample_clock.
#[local] Instance sample_random : RandomEngine (sample_kernel * sample_ssl) := λ k, (4660%Z, k).

(** A peer from whose connection the answer to the query for [a.b] is read. *)
Definition dot_state : DotState (tls (sample_kernel * sample_ssl)) :=
  let t := sample_tls (str "dns.example") None in
  {| ds_world := {| os := ((os t).1, {| x_ctxs := ∅; x_ctx_mode := λ _, SSL_VERIFY_NONE; x_mode := λ _, SSL_VERIFY_NONE;
                                       x_bios := {[5%Z]}; x_next := 8; x_hello := λ _, None; x_verify := λ _, None;
                                       x_tries := 2; x_retry := false; x_out := []; x_in := [0; 37]%Z ++ ab_response |});
                    conn := conn t; shared := None |};
     ds_conn := false; ds_last_use := 0; ds_alpn_warned := false |}.

Lemma sample_factory_quiet k : quiet k (sample_factory k).2.
Proof. reflexivity. Qed.

Lemma sample_draw_quiet k : quiet k (random_draw (RandomEngine := sample_random) k).2.
Proof. reflexivity. Qed.

Definition dot_query_on (s : DotState (tls (sample_kernel * sample_ssl))) :=
  @query (tls (sample_kernel * sample_ssl))
    (dot_tls (IT := sample_text) {| Sock.token_fd := -1 |} sample_factory None sample_factory_quiet) dot_clock dot_random
    (str "dot") (str "a.b") KIND_A s.

Lemma dot_over_openssl_spec_witness :
  ∃ s', dot_query_on dot_state = (Ret ab_response, s')
    ∧ bio_ (conn (ds_world s')) = Some 8%Z ∧ live_bios (os (ds_world s')) = {[8; 5]}%Z
    ∧ verify_name (os (ds_world s')) 8 = Some (str "dns.example") ∧ verify_mode (os (ds_world s')) 8 = SSL_VERIFY_PEER.
Proof.
  destruct (dot_over_openssl_spec (IT := sample_text) {| Sock.token_fd := -1 |} sample_factory None sample_factory_quiet
    sample_draw_quiet {[5%Z]} (conn (ds_world dot_state)) (str "dot") (str "a.b") KIND_A dot_state)
    as (s' & [Hset Htrusted Hbios Hfresh Hnamed] & Hquery).
  - apply str_is_bytes.
  - split; [done|done|by vm_compute|set_solver|done].
  - exists s'. destruct Hquery as [(r & q & Hq & _)|(e & Hq & _)].
    2:{ apply (f_equal fst) in Hq. vm_compute in Hq. discriminate Hq. }
    assert (r = ab_response) as ->.
    { apply (f_equal fst) in Hq. vm_compute in Hq. by injection Hq as <-. }
    split; [exact Hq|]. apply (f_equal snd) in Hq. cbn [snd] in Hq.
    assert (bio_ (conn (ds_world s')) = Some 8%Z) as Hb by (rewrite <- Hq; vm_compute; reflexivity).
    split; [exact Hb|]. split; [rewrite Hbios; unfold own; by rewrite Hb|].
    destruct (Hnamed 8%Z Hb) as (ssl & Hssl & [_ Hv] & Hm).
    assert (ssl = 8%Z) as -> by (rewrite <- Hq in Hssl; vm_compute in Hssl; by injection Hssl as <-).
    split; [exact Hv|exact (Hm eq_refl)].
Defined.
