(* ===== verification/Dispatcher.v ===== *)
(** [src/dns/dispatcher.cpp]: classification of one resolver's answer, and the
    sequential strategies (one resolver with retries, fallback).  The resolvers
    are the objects of the interface [ResolverBase]; the concurrent strategy is
    in Batch.v. *)
From stdpp Require Import sorting.
From S2P Require Import Prelude CppString DnsTypes DnsParser Io Retry.
Import RecordParser.

(** [ResolverBase]: what a dispatcher may ask of a resolver. *)
(* @fn src/src/dns/resolver/base.h | class ResolverBase { | ResolverBase *)
Record ResolverBase (W : Type) := {
  res_id : Z;
  res_query : bytes → RecordKind → st W DnsErrorInfo bytes
}.
Arguments res_id {W}.
Arguments res_query {W}.

(* @fn src/src/dns/dispatcher.cpp | bool is_retryable(DnsError error) ^1 | is_retryable *)
Definition is_retryable (error : DnsError) : bool :=
  match error with
  | RETRY | UNKNOWN | CONNECTION => true
  | _ => false
  end.

Section dispatcher.
Context {W : Type}.
(** Library functions: [inet_ntop] and [magic_enum::enum_name]. *)
Context (inet_ntop4 inet_ntop6 : bytes → bytes) (type_name rcode_name : Z → bytes).

(** The [switch] on the response code. *)
(* @fn src/src/dns/dispatcher.cpp | switch (parsed.rcode) { | try_resolve (classification) *)
Definition classify (host : bytes) (parsed : FormattedResponse) : outcome DnsErrorInfo (list bytes) :=
  let rcode := fmt_rcode parsed in
  if (rcode =? NOERROR)%Z then
    if bool_decide (fmt_records parsed ≠ []) then Ret (fmt_records parsed) else
    Throw {| ei_code := NODATA; ei_message :=
      str "DNS lookup for domain " ++ quoted host ++ str " returned no records" |}
  else if (rcode =? NXDOMAIN)%Z then Throw {| ei_code := NX_DOMAIN; ei_message :=
      str "Domain " ++ quoted host ++ str " does not exist (NXDOMAIN)" |}
  else if (rcode =? SERVFAIL)%Z then Throw {| ei_code := RETRY; ei_message :=
      str "DNS server returned SERVFAIL for " ++ quoted host |}
  else if (rcode =? REFUSED)%Z then Throw {| ei_code := SERVER_REFUSED; ei_message :=
      str "DNS server refused query for " ++ quoted host |}
  else Throw {| ei_code := UNKNOWN; ei_message :=
      str "DNS lookup for " ++ quoted host ++ str " returned RCODE " ++ rcode_name rcode |}.

(** The catch of [DnsLookupException]; the one of [std::exception] behind it has no
    counterpart, as nothing that the model gives a resolver throws another exception. *)
(* @fn src/src/dns/dispatcher.cpp | try_resolve(const ResolverBase &resolver ^1 | try_resolve *)
Definition try_resolve (resolver : ResolverBase W) (host : bytes) (type : RecordKind)
    : st W DnsErrorInfo (list bytes) :=
  raw ← res_query resolver host type;
  parsed ← catch (lift (parse_strings inet_ntop4 inet_ntop6 raw)) (λ e, throw
    {| ei_code := get_error e;
       ei_message := match e with DnsLookup what _ => parse_what type_name what end |});
  lift (classify host parsed).

Definition no_records (host : bytes) : DnsErrorInfo :=
  {| ei_code := NODATA; ei_message :=
      str "DNS lookup for domain " ++ quoted host ++ str " returned no records" |}.

(** ** SingleResolverRunner *)

(* @src src/src/dns/dispatcher.cpp 210 236 SingleResolverRunner::run *)
Definition single_run `{Sleep W} (resolver : ResolverBase W) (host : bytes) (type : RecordKind)
    (max_retries backoff_ms : Z) : st W Empty_set (DnsErrorInfo + list bytes) :=
  '(result, _) ← retry_on_error (try_resolve resolver host type)
    (λ e, is_retryable (ei_code e)) backoff_ms max_retries;
  mret result.

(** ** FallbackRunner *)

(** The errors that stop the iteration. *)
(* @fn src/src/dns/dispatcher.cpp | switch (err_code) { | FallbackRunner::run (classification) *)
Definition is_definitive (error : DnsError) : bool :=
  match error with
  | NX_DOMAIN | PARSE | CONFIG => true
  | NODATA | RETRY | UNKNOWN | CONNECTION | SERVER_REFUSED | CANCELLED => false
  end.

(* @fn src/src/dns/dispatcher.cpp | for (const auto idx: indices) { | FallbackRunner::run (loop) *)
Fixpoint fallback_loop (resolvers : list (ResolverBase W)) (host : bytes) (type : RecordKind)
    (indices : list nat) (last_error : DnsErrorInfo) : st W DnsErrorInfo (list bytes) :=
  match indices with
  | [] => throw last_error
  | idx :: indices =>
      resolver ← lift (deref (resolvers !! idx));
      result ← attempt (try_resolve resolver host type);
      match result with
      | inr r => mret r
      | inl error =>
          if is_definitive (ei_code error) then throw error
          else fallback_loop resolvers host type indices error
      end
  end.

(** [indices] is the shuffled index vector. *)
(* @src src/src/dns/dispatcher.cpp 245 304 FallbackRunner::run *)
Definition fallback_run (resolvers : list (ResolverBase W)) (host : bytes) (type : RecordKind)
    (indices : list nat) : st W DnsErrorInfo (list bytes) :=
  fallback_loop resolvers host type indices (no_records host).

(** * Lemmas *)

Lemma classify_spec host parsed :
  wp (classify host parsed)
    (λ r, r = fmt_records parsed ∧ r ≠ [] ∧ fmt_rcode parsed = NOERROR)
    (λ e, ei_code e = match decide (fmt_rcode parsed = NOERROR) with
          | left _ => NODATA
          | right _ => if (fmt_rcode parsed =? 3)%Z then NX_DOMAIN
              else if (fmt_rcode parsed =? 2)%Z then RETRY
              else if (fmt_rcode parsed =? 5)%Z then SERVER_REFUSED else UNKNOWN
          end).
Proof using Type.
  unfold classify. destruct (fmt_rcode parsed =? NOERROR)%Z eqn:H0; prop_of_bool.
  - case_bool_decide; simpl; [done|]. by rewrite decide_True.
  - unfold NXDOMAIN, SERVFAIL, REFUSED.
    destruct (_ =? 3)%Z; [simpl; by rewrite decide_False|].
    destruct (_ =? 2)%Z; [simpl; by rewrite decide_False|].
    destruct (_ =? 5)%Z; simpl; by rewrite decide_False.
Qed.

(** One resolver's answer: the outcome of [try_resolve] as a value. *)
Definition answers (resolver : ResolverBase W) host type (w : W)
    (result : DnsErrorInfo + list bytes) (w' : W) : Prop :=
  try_resolve resolver host type w
  = (match result with inl e => Throw e | inr r => Ret r end, w').

Lemma try_resolve_nonempty resolver host type w r w' :
  answers resolver host type w (inr r) w' → r ≠ [].
Proof using Type.
  unfold answers, try_resolve, mbind, st_bind. intros Hr.
  destruct (res_query resolver host type w) as [[raw|e| |] w1]; try done.
  unfold catch, lift in Hr.
  destruct (parse_strings inet_ntop4 inet_ntop6 raw) as [p|e| |]; try done.
  injection Hr as Hc _. by apply (wp_Ret_inv _ _ _ _ (classify_spec host p)) in Hc as (_ & ? & _).
Qed.

(** The resolvers at the indices of a list failed one after the other with
    errors that do not stop the iteration; [e] is the last one's. *)
Inductive soft_failures (resolvers : list (ResolverBase W)) host type
    : list nat → DnsErrorInfo → W → DnsErrorInfo → W → Prop :=
| soft_nil e w : soft_failures resolvers host type [] e w e w
| soft_cons idx resolver idxs e0 w e1 w1 e w' :
    resolvers !! idx = Some resolver → answers resolver host type w (inl e1) w1 →
    is_definitive (ei_code e1) = false → soft_failures resolvers host type idxs e1 w1 e w' →
    soft_failures resolvers host type (idx :: idxs) e0 w e w'.

Definition resolver_total (resolver : ResolverBase W) : Prop :=
  ∀ host type w, ∃ result w', answers resolver host type w result w'.

Lemma fallback_loop_spec resolvers host type indices e0 w :
  Forall resolver_total resolvers → Forall (λ i, i < length resolvers) indices →
  ∃ tried rest, indices = tried ++ rest ∧ ∃ e w1, soft_failures resolvers host type tried e0 w e w1
  ∧ match rest with
    | [] => fallback_loop resolvers host type indices e0 w = (Throw e, w1)
    | idx :: _ => ∃ resolver result w2, resolvers !! idx = Some resolver
        ∧ answers resolver host type w1 result w2
        ∧ match result with
          | inr r => fallback_loop resolvers host type indices e0 w = (Ret r, w2)
          | inl e' => is_definitive (ei_code e') = true
              ∧ fallback_loop resolvers host type indices e0 w = (Throw e', w2)
          end
    end.
Proof using Type.
  intros Htot. revert e0 w. induction indices as [|idx indices IH]; intros e0 w Hidx.
  { exists [], []. split; [done|]. exists e0, w. split; [constructor|done]. }
  apply Forall_cons_1 in Hidx as [Hi Hidx].
  destruct (lookup_lt_is_Some_2 resolvers idx Hi) as [resolver Hres].
  pose proof (Forall_lookup_1 _ _ _ _ Htot Hres) as Hr.
  destruct (Hr host type w) as (result & w1 & Hans).
  assert (∀ e1, fallback_loop resolvers host type (idx :: indices) e1 w
    = match result with
      | inr r => (Ret r, w1)
      | inl e => if is_definitive (ei_code e) then (Throw e, w1)
                 else fallback_loop resolvers host type indices e w1
      end) as Hstep.
  { intros e1. cbn [fallback_loop]. rewrite Hres. unfold mbind, st_bind, lift, deref, attempt.
    unfold answers in Hans. rewrite Hans. destruct result as [e|r]; [|done].
    by destruct (is_definitive (ei_code e)). }
  destruct result as [e|r].
  - destruct (is_definitive (ei_code e)) eqn:Hdef.
    + exists [], (idx :: indices). split; [done|]. exists e0, w. split; [constructor|].
      exists resolver, (inl e), w1. rewrite Hstep. split_and!; done.
    + destruct (IH e w1 Hidx) as (tried & rest & -> & e' & w2 & Hsoft & Hrest).
      exists (idx :: tried), rest. split; [done|]. exists e', w2.
      split; [by econstructor|]. destruct rest; rewrite Hstep; exact Hrest.
  - exists [], (idx :: indices). split; [done|]. exists e0, w. split; [constructor|].
    exists resolver, (inr r), w1. rewrite Hstep. split_and!; done.
Qed.
End dispatcher.

(** * Properties *)

Definition dns_code (rcode : Rcode) (records : list bytes) : option DnsError :=
  if (rcode =? 0)%Z then (if decide (records = []) then Some NODATA else None)
  else if (rcode =? 3)%Z then Some NX_DOMAIN
  else if (rcode =? 2)%Z then Some RETRY
  else if (rcode =? 5)%Z then Some SERVER_REFUSED
  else Some UNKNOWN.

(** The answer of one resolver is classified as documented: a transport error
    is passed on unchanged, a response the parser rejects becomes PARSE, and a
    parsed response is either returned with its (at least one) records, exactly
    when its code is NOERROR and it has some, or turned into the error of its
    code: NODATA, NX_DOMAIN, RETRY for SERVFAIL, SERVER_REFUSED, else UNKNOWN. *)
Theorem try_resolve_classifies {W} inet_ntop4 inet_ntop6 type_name rcode_name
    (resolver : ResolverBase W) (host : bytes) (type : RecordKind) (w w' : W)
    (raw : outcome DnsErrorInfo bytes) :
  res_query resolver host type w = (raw, w') → defined raw →
  (∀ b, raw = Ret b → defined (parse_strings inet_ntop4 inet_ntop6 b)) →
  match raw with
  | Ret b =>
      match parse_strings inet_ntop4 inet_ntop6 b with
      | Ret p =>
          match dns_code (fmt_rcode p) (fmt_records p) with
          | None => try_resolve inet_ntop4 inet_ntop6 type_name rcode_name resolver host type w
                    = (Ret (fmt_records p), w') ∧ fmt_records p ≠ []
          | Some code => ∃ message,
              try_resolve inet_ntop4 inet_ntop6 type_name rcode_name resolver host type w
              = (Throw {| ei_code := code; ei_message := message |}, w')
          end
      | _ => ∃ message,
          try_resolve inet_ntop4 inet_ntop6 type_name rcode_name resolver host type w
          = (Throw {| ei_code := PARSE; ei_message := message |}, w')
      end
  | r => try_resolve inet_ntop4 inet_ntop6 type_name rcode_name resolver host type w
         = (match r with Throw e => Throw e | Undef => Undef | _ => OutOfFuel end, w')
  end.
Proof.
  intros Hq Hdef Hparse. unfold try_resolve, mbind, st_bind. rewrite Hq.
  destruct raw as [b|e| |]; try done. pose proof (Hparse b eq_refl) as Hd.
  unfold catch, lift. destruct (parse_strings inet_ntop4 inet_ntop6 b) as [p|f| |] eqn:Hp; try done.
  - unfold classify, dns_code, NOERROR, NXDOMAIN, SERVFAIL, REFUSED.
    destruct (fmt_rcode p =? 0)%Z.
    + case_bool_decide; case_decide; try done. by eexists.
    + repeat (destruct (_ =? _)%Z; [by eexists|]). by eexists.
  - destruct f as [what code]. cbn.
    assert (code = PARSE) as ->.
    { pose proof (throws_parse_strings inet_ntop4 inet_ntop6 b) as Ht. by rewrite Hp in Ht. }
    by eexists.
Qed.

(** A resolver that always gives the same answer. *)
Definition scripted (raw : outcome DnsErrorInfo bytes) : ResolverBase unit :=
  {| res_id := 0; res_query := λ _ _ w, (raw, w) |}.

Definition no_name (_ : Z) : bytes := [].

Lemma try_resolve_classifies_witness :
  try_resolve id id no_name no_name (scripted (Ret a_response)) (str "a.b") KIND_A tt
  = (Ret [[10; 0; 0; 7]%Z], tt).
Proof.
  pose proof (try_resolve_classifies id id no_name no_name (scripted (Ret a_response))
    (str "a.b") KIND_A tt tt (Ret a_response) eq_refl I
    ltac:(intros b [= <-]; vm_compute; exact I)) as H.
  vm_compute in H. vm_compute. exact (proj1 H).
Defined.

(** The fallback strategy asks the resolvers in the shuffled order and stops at
    the first one that succeeds or fails definitively (NX_DOMAIN, PARSE,
    CONFIG): it returns that resolver's answer, every resolver before it having
    failed with an error worth moving on from; when all of them have, it has
    asked every resolver exactly once and returns the last one's error (NODATA
    when there is none). *)
Theorem fallback_run_spec {W} inet_ntop4 inet_ntop6 type_name rcode_name
    (resolvers : list (ResolverBase W)) (host : bytes) (type : RecordKind) (indices : list nat) (w : W) :
  Forall (resolver_total inet_ntop4 inet_ntop6 type_name rcode_name) resolvers →
  indices ≡ₚ seq 0 (length resolvers) →
  ∃ tried rest, indices = tried ++ rest ∧ ∃ e w1,
    soft_failures inet_ntop4 inet_ntop6 type_name rcode_name resolvers host type tried
      (no_records host) w e w1
    ∧ match rest with
      | [] => tried ≡ₚ seq 0 (length resolvers)
          ∧ fallback_run inet_ntop4 inet_ntop6 type_name rcode_name resolvers host type indices w
            = (Throw e, w1)
      | idx :: _ => ∃ resolver result w2, resolvers !! idx = Some resolver
          ∧ answers inet_ntop4 inet_ntop6 type_name rcode_name resolver host type w1 result w2
          ∧ match result with
            | inr r => r ≠ []
                ∧ fallback_run inet_ntop4 inet_ntop6 type_name rcode_name resolvers host type indices w
                  = (Ret r, w2)
            | inl e' => is_definitive (ei_code e') = true
                ∧ fallback_run inet_ntop4 inet_ntop6 type_name rcode_name resolvers host type indices w
                  = (Throw e', w2)
            end
      end.
Proof.
  intros Htot Hperm. unfold fallback_run.
  destruct (fallback_loop_spec inet_ntop4 inet_ntop6 type_name rcode_name resolvers host type
    indices (no_records host) w Htot) as (tried & rest & -> & e & w1 & Hsoft & Hrest).
  { rewrite Hperm. apply Forall_seq. lia. }
  exists tried, rest. split; [done|]. exists e, w1. split; [done|].
  destruct rest as [|idx rest]; [rewrite app_nil_r in *; done|].
  destruct Hrest as (resolver & result & w2 & Hres & Hans & Hrun).
  exists resolver, result, w2. split; [done|]. split; [done|].
  destruct result; [done|]. split; [by eapply try_resolve_nonempty|done].
Qed.

Definition two_resolvers : list (ResolverBase unit) :=
  [scripted (Ret a_response);
   scripted (Throw {| ei_code := CONNECTION; ei_message := [] |})].

Lemma fallback_run_spec_witness :
  [1; 0] ≡ₚ seq 0 (length two_resolvers) ∧
  fallback_run id id no_name no_name two_resolvers (str "a.b") KIND_A [1; 0] tt
  = (Ret [[10; 0; 0; 7]%Z], tt).
Proof.
  assert ([1; 0] ≡ₚ seq 0 (length two_resolvers)) as Hp by apply Permutation_swap.
  assert (Forall (resolver_total id id no_name no_name) two_resolvers) as Ht.
  { repeat constructor; intros host type w.
    - eexists (inr [_]), w. vm_compute. reflexivity.
    - eexists (inl _), w. reflexivity. }
  split; [exact Hp|].
  destruct (fallback_run_spec id id no_name no_name two_resolvers (str "a.b") KIND_A [1; 0] tt Ht Hp)
    as (tried & rest & Heq & e & w1 & Hsoft & Hrest).
  destruct rest as [|idx rest].
  - destruct Hrest as [_ Hr]. vm_compute in Hr. discriminate Hr.
  - destruct Hrest as (resolver & result & w2 & _ & _ & Hr). destruct result as [e'|r].
    + destruct Hr as [_ Hr]. vm_compute in Hr. discriminate Hr.
    + destruct Hr as [_ Hr]. pose proof Hr as Hv. vm_compute in Hv. rewrite Hr. symmetry. exact Hv.
Defined.
