(* ===== verification/DnsText.v ===== *)
(** From the octets of a response to the strings that a lookup returns: the text
    of each record as a relation over the wire format of DnsWire.v, and the
    dispatcher's verdict on one resolver's answer ([try_resolve]) in its terms. *)
From S2P Require Import Prelude CppString StringUtil Bytes DnsTypes DnsBuilder DnsParser DnsRoundtrip DnsWire DnsValidator Io Retry DotResolver Delivery Dispatcher.
Import WireWriter RecordParser.

(** * The text of a record *)

(** The segments of TXT data. *)
Inductive segments_at (rdata : bytes) : nat → list bytes → Prop :=
  | segments_end o : length rdata ≤ o → segments_at rdata o []
  | segments_more o b segs :
      rdata !! o = Some b → o + 1 + Z.to_nat b ≤ length rdata →
      segments_at rdata (o + 1 + Z.to_nat b) segs →
      segments_at rdata o (sub rdata (o + 1) (Z.to_nat b) :: segs).

(** Empty segments leave no space in front of the first that is not empty. *)
Fixpoint strip_empty (segs : list bytes) : list bytes :=
  match segs with
  | [] :: segs => strip_empty segs
  | _ => segs
  end.
Definition txt_text (segs : list bytes) : bytes := join (strip_empty segs) (str " ").

Section text.
Context (inet_ntop4 inet_ntop6 : bytes → bytes).

(** [value_says data type off n text]: the [n] octets of RDATA at [off] say
    [text].  Names are read from where they start; the code does not ask that
    they, and the numbers in front of them, end with the RDATA. *)
Inductive value_says (data : bytes) (type : Z) (off n : nat) : bytes → Prop :=
  | says_a : type = record_type_code A → n = 4 →
      value_says data type off n (inet_ntop4 (sub data off n))
  | says_aaaa : type = record_type_code AAAA → n = 16 →
      value_says data type off n (inet_ntop6 (sub data off n))
  | says_txt segs : type = record_type_code TXT → segments_at (sub data off n) 0 segs →
      value_says data type off n (txt_text segs)
  | says_name name e :
      type = record_type_code CNAME ∨ type = record_type_code NS ∨ type = record_type_code PTR →
      spells_name data off name e → value_says data type off n name
  | says_mx pref name e : type = record_type_code MX →
      u16_at data off pref → spells_name data (off + 2) name e →
      value_says data type off n (dec pref ++ str " " ++ name)
  | says_soa mname o1 rname o2 serial refresh retry expire minimum : type = record_type_code SOA →
      spells_name data off mname o1 → spells_name data o1 rname o2 →
      u32_at data o2 serial → u32_at data (o2 + 4) refresh → u32_at data (o2 + 8) retry →
      u32_at data (o2 + 12) expire → u32_at data (o2 + 16) minimum →
      value_says data type off n
        (mname ++ str " " ++ rname ++ str " " ++ dec serial ++ str " " ++ dec refresh ++ str " "
         ++ dec retry ++ str " " ++ dec expire ++ str " " ++ dec minimum)
  | says_srv priority weight port target e : type = record_type_code SRV →
      u16_at data off priority → u16_at data (off + 2) weight → u16_at data (off + 4) port →
      spells_name data (off + 6) target e →
      value_says data type off n
        (dec priority ++ str " " ++ dec weight ++ str " " ++ dec port ++ str " " ++ target).

(** A record says a text when its RDATA, whose length stands in front of it, does. *)
Definition record_says (data : bytes) (rr : ResourceRecord) (text : bytes) : Prop :=
  let off := rr_rdata_offset rr in
  ∃ n, 2 ≤ off ∧ u16_at data (off - 2) n ∧ off + Z.to_nat n ≤ length data
    ∧ value_says data (rr_type rr) off (Z.to_nat n) text.

(** ** TXT *)

Lemma txt_append_ne result segs : result ≠ [] →
  foldl (λ r s, (if decide (r = []) then r else r ++ [ch " "]) ++ s) result segs
  = join (result :: segs) (str " ").
Proof using Type.
  revert result. induction segs as [|s segs IH]; intros result Hr; [done|]. cbn [foldl].
  rewrite decide_False by done. rewrite IH by by destruct result.
  destruct segs; cbn [join]; by rewrite <- !app_assoc.
Qed.

Lemma txt_append segs :
  foldl (λ r s, (if decide (r = []) then r else r ++ [ch " "]) ++ s) [] segs = txt_text segs.
Proof using Type.
  unfold txt_text. induction segs as [|[|c s] segs IH]; [done|done|]. cbn [foldl strip_empty].
  rewrite decide_True by done. by rewrite txt_append_ne.
Qed.

Lemma format_txt_loop_sound (rdata : bytes) fuel : ∀ pos result text,
  format_txt_loop fuel rdata pos result = Ret text →
  ∃ segs, segments_at rdata pos segs
    ∧ text = foldl (λ r s, (if decide (r = []) then r else r ++ [ch " "]) ++ s) result segs.
Proof using Type.
  induction fuel as [|fuel IH]; intros pos result text; cbn [format_txt_loop];
    destruct (pos <? length rdata) eqn:Hp; prop_of_bool; intros H; try done.
  1,3: injection H as <-; exists []; split; [by constructor|done].
  returns_inv H. apply rd_returns in Ha. guard_inv H. apply IH in H as (segs & Hs & ->).
  eexists (_ :: segs). split; [by apply segments_more|done].
Qed.

Lemma format_txt_loop_complete (rdata : bytes) pos segs : segments_at rdata pos segs →
  ∀ fuel result, length rdata - pos ≤ fuel →
  format_txt_loop fuel rdata pos result
  = Ret (foldl (λ r s, (if decide (r = []) then r else r ++ [ch " "]) ++ s) result segs).
Proof using Type.
  induction 1 as [o Ho|o b segs Hb Hl _ IH]; intros fuel result Hf.
  { destruct fuel; cbn [format_txt_loop]; by rewrite (proj2 (Nat.ltb_ge _ _)) by lia. }
  apply lookup_lt_Some in Hb as Hlt. destruct fuel as [|fuel]; [lia|]. cbn [format_txt_loop].
  rewrite (proj2 (Nat.ltb_lt _ _)) by lia. returns_rd. returns_guard; [lia|]. by apply IH; lia.
Qed.

Lemma format_txt_iff (rdata text : bytes) :
  format_txt rdata = Ret text ↔ ∃ segs, segments_at rdata 0 segs ∧ text = txt_text segs.
Proof using Type.
  unfold format_txt. split.
  - intros (segs & Hs & ->)%format_txt_loop_sound. exists segs. by rewrite txt_append.
  - intros (segs & Hs & ->). rewrite (format_txt_loop_complete _ _ _ Hs) by lia.
    by rewrite txt_append.
Qed.

(** ** Records *)

(** Decide the comparisons of two type codes. *)
Ltac eval_types :=
  repeat match goal with
    | |- context [(record_type_code ?a =? record_type_code ?b)%Z] =>
        let v := eval vm_compute in (record_type_code a =? record_type_code b)%Z in
        change (record_type_code a =? record_type_code b)%Z with v
    end; cbn [orb andb].

Section records.
Context (data : bytes) (Hdata : Forall is_byte data).

(** The function's choice by type. *)
Definition value_text (type : Z) (off rdlen : nat) : parse_result bytes :=
  let rdata := sub data off rdlen in
  if (type =? record_type_code A)%Z then
    _ ← throw_if (negb (rdlen =? 4)) (fault (BadALength rdlen));
    Ret (format_a inet_ntop4 rdata)
  else if (type =? record_type_code AAAA)%Z then
    _ ← throw_if (negb (rdlen =? 16)) (fault (BadAAAALength rdlen));
    Ret (format_aaaa inet_ntop6 rdata)
  else if (type =? record_type_code TXT)%Z then format_txt rdata
  else if ((type =? record_type_code CNAME) || (type =? record_type_code NS)
           || (type =? record_type_code PTR))%Z then format_domain_name data off
  else if (type =? record_type_code MX)%Z then format_mx data off
  else if (type =? record_type_code SOA)%Z then format_soa data off
  else if (type =? record_type_code SRV)%Z then format_srv data off
  else Throw (fault (UnsupportedType type)).

Lemma rdata_to_string_value rr text :
  rdata_to_string inet_ntop4 inet_ntop6 rr data = Ret text ↔
  ∃ n, 2 ≤ rr_rdata_offset rr ∧ u16_at data (rr_rdata_offset rr - 2) n
    ∧ rr_rdata_offset rr + Z.to_nat n ≤ length data
    ∧ value_text (rr_type rr) (rr_rdata_offset rr) (Z.to_nat n) = Ret text.
Proof using Hdata.
  unfold rdata_to_string. destruct (rr_rdata_offset rr <? 2) eqn:Hoff; prop_of_bool.
  { split; [done|]. intros (n & ? & _). lia. }
  assert (rr_rdata_offset rr - 2 + 1 = rr_rdata_offset rr - 1) as Ho by lia.
  unfold u16_at. rewrite Ho. split.
  - intros H. do 2 returns_inv H. apply rd_returns in Ha, Ha0.
    change (Z.lor (Z.shiftl a 8) a0) with (u16_of_be a a0) in H.
    rewrite u16_of_be_eq in H by by eapply wire_lookup_byte.
    apply bind_returns in H as (rdata & Hs & H). unfold subspan in Hs.
    destruct (_ <=? _) eqn:Hl in Hs; [|done]. injection Hs as <-. prop_of_bool.
    exists (a * 256 + a0)%Z. split; [done|]. by eauto 10.
  - intros (n & _ & (b0 & b1 & H0 & H1 & ->) & Hl & Hv). do 2 returns_rd.
    change (Z.lor (Z.shiftl b0 8) b1) with (u16_of_be b0 b1).
    rewrite u16_of_be_eq by by eapply wire_lookup_byte.
    unfold subspan. by rewrite (proj2 (Nat.leb_le _ _)).
Qed.

Lemma value_text_sound type off n text :
  value_text type off n = Ret text → value_says data type off n text.
Proof using Hdata.
  unfold value_text. destruct (type =? record_type_code A)%Z eqn:HA; prop_of_bool.
  { intros H. guard_inv H. injection H as <-. by apply says_a. }
  destruct (type =? record_type_code AAAA)%Z eqn:HAAAA; prop_of_bool.
  { intros H. guard_inv H. injection H as <-. by apply says_aaaa. }
  destruct (type =? record_type_code TXT)%Z eqn:HTXT; prop_of_bool.
  { intros (segs & Hs & ->)%format_txt_iff. by apply says_txt. }
  destruct (_ || _)%bool eqn:Hname.
  { intros H. unfold format_domain_name in H. returns_inv H. destruct a as [name e].
    apply decompress_name_iff in Ha; [|done]. injection H as <-.
    eapply says_name; [|done]. rewrite !orb_true_iff, !Z.eqb_eq in Hname. tauto. }
  clear Hname. destruct (type =? record_type_code MX)%Z eqn:HMX; prop_of_bool.
  { intros H. unfold format_mx in H. returns_inv H. apply read_u16_be_iff in Ha; [|done].
    returns_inv H. destruct a0 as [name e]. apply decompress_name_iff in Ha0; [|done].
    injection H as <-. by eapply says_mx. }
  destruct (type =? record_type_code SOA)%Z eqn:HSOA; prop_of_bool.
  { intros H. unfold format_soa in H. returns_inv H. destruct a as [mname o1].
    apply decompress_name_iff in Ha; [|done]. returns_inv H. destruct a as [rname o2].
    apply decompress_name_iff in Ha0; [|done]. do 5 returns_inv H.
    apply read_u32_be_iff in Ha1, Ha2, Ha3, Ha4, Ha5; [|done..].
    injection H as <-. by eapply says_soa. }
  destruct (type =? record_type_code SRV)%Z eqn:HSRV; prop_of_bool; [|done].
  intros H. unfold format_srv in H. do 3 returns_inv H.
  apply read_u16_be_iff in Ha, Ha0, Ha1; [|done..]. returns_inv H. destruct a2 as [name e].
  apply decompress_name_iff in Ha2; [|done]. injection H as <-. by eapply says_srv.
Qed.

Lemma value_text_complete type off n text :
  value_says data type off n text → value_text type off n = Ret text.
Proof using Hdata.
  unfold value_text. intros [-> ->| -> ->|segs -> Hs|name e Ht Hn|pref name e -> Hp Hn
    |mname o1 rname o2 serial refresh retry expire minimum -> Hm Hr H1 H2 H3 H4 H5
    |priority weight port target e -> H1 H2 H3 Hn]; eval_types; try done.
  - apply format_txt_iff. eauto.
  - destruct Ht as [->|[->| ->]]; eval_types; unfold format_domain_name; by returns_field.
  - unfold format_mx. by do 2 returns_field.
  - unfold format_soa. by do 7 returns_field.
  - unfold format_srv. by do 4 returns_field.
Qed.

Lemma rdata_to_string_iff rr text :
  rdata_to_string inet_ntop4 inet_ntop6 rr data = Ret text ↔ record_says data rr text.
Proof using Hdata.
  rewrite rdata_to_string_value. unfold record_says.
  split; intros (n & ? & ? & ? & Hv); exists n; split_and!; try done;
    [by apply value_text_sound|by apply value_text_complete].
Qed.

Lemma format_answers_iff rrs texts :
  format_answers inet_ntop4 inet_ntop6 rrs data = Ret texts ↔ Forall2 (record_says data) rrs texts.
Proof using Hdata.
  revert texts. induction rrs as [|rr rrs IH]; intros texts; cbn [format_answers].
  { split; [intros [= <-]; constructor|by inversion 1]. }
  split.
  - intros H. do 2 returns_inv H. injection H as <-. apply rdata_to_string_iff in Ha.
    apply IH in Ha0. by constructor.
  - intros (text & texts' & Ht & Hts & ->)%Forall2_cons_inv_l. returns_call rdata_to_string_iff; [done|].
    by returns_call IH; [done|].
Qed.
End records.

(** ** Responses *)

(** A response says its code, and with the code NOERROR the texts of its answers. *)
Definition response_says (data : bytes) (r : FormattedResponse) : Prop :=
  ∃ m, message_at false data m ∧ fmt_rcode r = m_rcode m
    ∧ if decide (m_rcode m = NOERROR) then Forall2 (record_says data) (m_answers m) (fmt_records r)
      else fmt_records r = [].

Lemma parse_strings_iff data r : Forall is_byte data →
  parse_strings inet_ntop4 inet_ntop6 data = Ret r ↔ response_says data r.
Proof using Type.
  intros Hd. unfold parse_strings, response_says. split.
  - intros H. returns_inv H. apply parse_message_returns in Ha; [|done]. exists a.
    returns_inv H. injection H as <-. split; [done|]. split; [done|]. cbn [fmt_records].
    destruct (m_rcode a =? NOERROR)%Z eqn:Hr; prop_of_bool.
    + rewrite decide_True by done. by apply format_answers_iff in Ha0.
    + rewrite decide_False by done. by injection Ha0 as <-.
  - intros (m & Hm & Hc & Hrs). returns_call parse_message_returns; [done|done|].
    case_decide as Hr.
    + rewrite Hr, Z.eqb_refl. returns_call format_answers_iff; [done|done|].
      rewrite <- Hr, <- Hc. by destruct r.
    + rewrite (proj2 (Z.eqb_neq _ _)) by done. cbn [mbind outcome_bind].
      rewrite <- Hc, <- Hrs. by destruct r.
Qed.
End text.

(** * Lookups *)

(** What a lookup makes of a response that says [r]. *)
Definition verdict (r : FormattedResponse) (result : outcome DnsErrorInfo (list bytes)) : Prop :=
  match dns_code (fmt_rcode r) (fmt_records r) with
  | None => result = Ret (fmt_records r)
  | Some code => ∃ message, result = Throw {| ei_code := code; ei_message := message |}
  end.

Lemma classify_verdict rcode_name host r : verdict r (classify rcode_name host r).
Proof.
  unfold verdict, classify, dns_code, NOERROR, NXDOMAIN, SERVFAIL, REFUSED.
  destruct (fmt_rcode r =? 0)%Z; [case_bool_decide; case_decide; naive_solver|].
  repeat (destruct (_ =? _)%Z; [by eexists|]). by eexists.
Qed.

Section lookup.
Context {W : Type} (inet_ntop4 inet_ntop6 : bytes → bytes) (type_name rcode_name : Z → bytes).

#[local] Abbreviation lookup := (try_resolve (W:=W) inet_ntop4 inet_ntop6 type_name rcode_name).
#[local] Abbreviation says := (response_says inet_ntop4 inet_ntop6).

Lemma lookup_of_raw (resolver : ResolverBase W) host type w w' raw :
  res_query resolver host type w = (Ret raw, w') → Forall is_byte raw →
  match parse_strings inet_ntop4 inet_ntop6 raw with
  | Ret r => says raw r ∧ ∃ result, lookup resolver host type w = (result, w') ∧ verdict r result
  | Throw _ => (¬ ∃ r, says raw r)
      ∧ ∃ message, lookup resolver host type w = (Throw {| ei_code := PARSE; ei_message := message |}, w')
  | _ => (¬ ∃ r, says raw r) ∧ lookup resolver host type w = (Undef, w')
  end.
Proof using Type.
  intros Hq Hb. unfold try_resolve, mbind, st_bind. rewrite Hq. unfold catch, lift.
  assert (∀ r, says raw r → parse_strings inet_ntop4 inet_ntop6 raw = Ret r) as Hsays
    by (intros r; by apply parse_strings_iff).
  pose proof (throws_parse_strings inet_ntop4 inet_ntop6 raw) as Hthrow.
  pose proof (ends_parse_strings inet_ntop4 inet_ntop6 raw Hb) as Hend.
  destruct (parse_strings inet_ntop4 inet_ntop6 raw) as [r|[what code]| |] eqn:Hp; [..|done].
  - split; [by apply parse_strings_iff|]. eexists. split; [done|]. apply classify_verdict.
  - split; [by intros [r ?%Hsays]|]. cbn in Hthrow. unfold is_parse_error in Hthrow. cbn in Hthrow.
    subst code. by eexists.
  - split; [by intros [r ?%Hsays]|done].
Qed.
End lookup.

(** C3: What a lookup returns is what the octets of the resolver's response say.
    If they say a code and the texts of the answers, by the wire format, the
    lookup returns those texts, in their order, when the code is NOERROR and
    there is one, and otherwise fails with the error of the code; it returns
    nothing else, and what is no response in that sense is a PARSE error, or
    undefined where a record's fixed fields lie beyond the packet. *)
Theorem lookup_says {W : Type} (inet_ntop4 inet_ntop6 : bytes → bytes) (type_name rcode_name : Z → bytes)
    (resolver : ResolverBase W) (host raw : bytes) (type : RecordKind) (w w' : W) :
  res_query resolver host type w = (Ret raw, w') → Forall is_byte raw →
  ∃ result, try_resolve inet_ntop4 inet_ntop6 type_name rcode_name resolver host type w = (result, w')
    ∧ (∀ r, response_says inet_ntop4 inet_ntop6 raw r → verdict r result)
    ∧ ((¬ ∃ r, response_says inet_ntop4 inet_ntop6 raw r) →
       result = Undef ∨ ∃ message, result = Throw {| ei_code := PARSE; ei_message := message |})
    ∧ ∀ texts, result = Ret texts ↔
        texts ≠ [] ∧ response_says inet_ntop4 inet_ntop6 raw {| fmt_rcode := NOERROR; fmt_records := texts |}.
Proof.
  intros Hq Hb. pose proof (lookup_of_raw inet_ntop4 inet_ntop6 type_name rcode_name resolver host type w w' raw Hq Hb) as H.
  assert (∀ r r', response_says inet_ntop4 inet_ntop6 raw r → response_says inet_ntop4 inet_ntop6 raw r' → r = r') as Hdet.
  { intros r r' Hr%parse_strings_iff Hr'%parse_strings_iff; [congruence|done..]. }
  destruct (parse_strings inet_ntop4 inet_ntop6 raw) as [r|e| |];
    [destruct H as (Hr & result & Hl & Hv)|destruct H as (Hno & message & Hl)|destruct H as [Hno Hl]..];
    eexists; (split; [exact Hl|]).
  2-4: split; [intros r Hr; destruct Hno; by exists r|]; split; [by eauto|];
    intros texts; split; [done|]; intros [_ Hr]; destruct Hno; by eexists.
  split; [intros r' Hr'; by rewrite (Hdet _ _ Hr' Hr)|]. split; [intros Hno; destruct Hno; by exists r|].
  intros texts. unfold verdict, dns_code in Hv. split.
  - intros ->. destruct (fmt_rcode r =? 0)%Z eqn:Hc;
      [|repeat (destruct (_ =? _)%Z in Hv; [by destruct Hv|]); by destruct Hv].
    case_decide as Hn; [by destruct Hv|]. injection Hv as ->. prop_of_bool.
    split; [done|]. by destruct r as [c l]; simpl in *; subst c.
  - intros [Hne Hr']. rewrite <- (Hdet _ _ Hr' Hr) in Hv. cbn in Hv. by rewrite decide_False in Hv.
Qed.

(** Against a server that answers, over a connection with nothing left over, a
    DoT lookup ends with what the server's answer says, if validation accepts it. *)
Lemma dot_lookup_delivers {W : Type} `{TlsConnectionBase W} `{SteadyClock W} `{RandomEngine W}
    (inet_ntop4 inet_ntop6 : bytes → bytes) (type_name rcode_name : Z → bytes)
    (quiet : W → Prop) (text : W → bytes) (answer : bytes → bytes) `{!AnsweringServer W quiet text answer}
    (label host : bytes) (id : Z) (type : RecordKind) (s : Dot.DotState W) :
  Forall is_byte host → (∀ e, ¬ name_fault host e) →
  (∀ q, padded_query host (type_to_record_type type) q →
     good_response (answer q) ∧ accepts q (answer q)
     ∧ ∃ r, response_says inet_ntop4 inet_ntop6 (answer q) r) →
  quiet (Dot.ds_world s) → text (Dot.ds_world s) = [] →
  ∃ q r result s', padded_query host (type_to_record_type type) q
    ∧ response_says inet_ntop4 inet_ntop6 (answer q) r ∧ verdict r result
    ∧ try_resolve inet_ntop4 inet_ntop6 type_name rcode_name
        {| res_id := id; res_query := Dot.query label |} host type s = (result, s')
    ∧ text (Dot.ds_world s') = [].
Proof.
  intros Hh Hname Ha Hs Ht.
  destruct (query_calm label quiet text answer host type [] s Hh Hname (Forall_nil_2 _)
    (λ q Hq, proj1 (Ha q Hq)) Hs Ht) as (q & Hq & Hspec).
  destruct (Ha q Hq) as ([Hgb _] & Hacc & r & Hr).
  assert (∀ b : bool, (if b then [] else []) = ([] : list bytes)) as Hif by by intros [].
  destruct (swp_cases _ _ _ _ Hspec)
    as [(raw & s' & Hraw & rest & Hw & _ & _ & _ & Ht')|(e & s' & _ & raw & rest & Hw & Hno & _)];
    rewrite Hif in Hw; injection Hw as <- <-; [|done].
  pose proof (lookup_of_raw inet_ntop4 inet_ntop6 type_name rcode_name
    {| res_id := id; res_query := Dot.query label |} host type s s' _ Hraw Hgb) as H'.
  apply parse_strings_iff in Hr; [|done]. rewrite Hr in H'. destruct H' as (Hr' & result & Hl & Hv).
  by exists q, r, result, s'.
Qed.

(** ** Examples *)

Lemma lookup_says_witness :
  try_resolve id id no_name no_name (scripted (Ret a_response)) (str "a.b") KIND_A tt
    = (Ret [[10; 0; 0; 7]%Z], tt)
  ∧ response_says id id a_response {| fmt_rcode := NOERROR; fmt_records := [[10; 0; 0; 7]%Z] |}.
Proof.
  assert (Forall is_byte a_response) as Hb by (apply (bool_decide_unpack _); vm_compute; exact I).
  destruct (lookup_says id id no_name no_name (scripted (Ret a_response)) (str "a.b") a_response KIND_A tt tt
    eq_refl Hb) as (result & Hl & _ & _ & Ht).
  vm_compute in Hl. injection Hl as <-.
  split; [vm_compute; reflexivity|]. exact (proj2 (proj1 (Ht _) eq_refl)).
Defined.

(** The answers of a server that echoes the question of "a.b" have no records. *)
Example echo_lookup :
  (try_resolve id id no_name no_name {| res_id := 1; res_query := Dot.query (str "dot") |}
     (str "a.b") KIND_A (echo_state [] false)).1
  = Throw (no_records (str "a.b")).
Proof. vm_compute. reflexivity. Qed.

(** Leading empty strings of a TXT record leave no space. *)
Example txt_empty_first : txt_text [[]; str "a"; []; str "b"] = str "a  b".
Proof. reflexivity. Qed.

(** A CNAME record without RDATA names the owner of the record behind it. *)
Definition empty_cname : bytes :=
  [0; 1; 129; 128; 0; 0; 0; 2; 0; 0; 0; 0;
   0; 0; 5; 0; 1; 0; 0; 0; 0; 0; 0;
   1; 97; 0; 0; 1; 0; 1; 0; 0; 0; 0; 0; 4; 10; 0; 0; 1]%Z.
Example cname_beyond_rdata :
  parse_strings id id empty_cname = Ret {| fmt_rcode := NOERROR; fmt_records := [str "a"; [10; 0; 0; 1]%Z] |}.
Proof. vm_compute. reflexivity. Qed.
