(* ===== verification/Batch.v ===== *)
(** [src/dns/dispatcher.cpp], concurrent strategy: [BatchRunner] as a transition
    system whose steps are the atomic operations of the resolver threads
    and of the thread that launched them, [ConcurrentRunner] on top of it. *)
From S2P Require Import Prelude CppString DnsTypes Config Dispatcher.

(** What [try_resolve] returns. *)
Abbreviation resolution := (DnsErrorInfo + list bytes)%type.

Module BatchRunner.

(** * State *)

(** Where a resolver thread is in [resolve_one]: each constructor is the next
    operation on shared state. *)
(* @fn src/src/dns/dispatcher.cpp | void BatchRunner::resolve_one( | BatchRunner::resolve_one (control points) *)
Inductive pc :=
| NotStarted
| Launched
| Querying
| CountSuccess (records : list bytes)
| SetValue (records : list bytes)
| StoreNxdomain
| StoreDefinitive (code : DnsError)
| StoreError (code : DnsError)
| CountFailure
| Signal (prev : Z)
| Exited.

#[global] Instance pc_eq_dec : EqDecision pc.
Proof. solve_decision. Defined.

(** The atomics and the promise. *)
(* @src src/src/dns/dispatcher.cpp 177 186 BatchRunner (members) *)
Record shared := {
  completed : Z;
  has_nxdomain : bool;
  has_definitive : bool;
  batch_error : DnsError;
  promise : option (list bytes)
}.

(** A thread: its position, its stop flag, and the answer its query got (a
    history variable, not read by any step). *)
Record thread := { t_pc : pc; t_stop : bool; t_answer : option resolution }.

(** Where [run] is: starting threads, in [future.get()], stopping or joining the
    threads (in order, when the vector of jthreads is destroyed), done. *)
(* @fn src/src/dns/dispatcher.cpp | BatchRunner::run(std::span | BatchRunner::run (control points) *)
Inductive main_pc :=
| Launching (i : nat)
| Waiting
| Stopping (i : nat) (batch_result : list bytes)
| Joining (i : nat) (batch_result : list bytes)
| Finished (result : resolution).

Record state := { main : main_pc; threads : list thread; sh : shared }.

(** * Operations *)

(* @fn src/src/dns/dispatcher.cpp | void BatchRunner::set_promise_value(std::vector<std::string> value) noexcept { | BatchRunner::set_promise_value *)
Definition set_promise_value (value : list bytes) (s : shared) : shared :=
  match promise s with
  | None => {| completed := completed s; has_nxdomain := has_nxdomain s;
               has_definitive := has_definitive s; batch_error := batch_error s;
               promise := Some value |}
  | Some _ => s
  end.

(* @fn src/src/dns/dispatcher.cpp | void BatchRunner::signal_completion(int prev) noexcept { | BatchRunner::signal_completion *)
Definition signal_completion (batch_count : Z) (prev : Z) (s : shared) : shared :=
  if (prev + 1 =? batch_count)%Z then set_promise_value [] s else s.

Definition fetch_add (s : shared) : shared :=
  {| completed := completed s + 1; has_nxdomain := has_nxdomain s;
     has_definitive := has_definitive s; batch_error := batch_error s; promise := promise s |}.
Definition store_nxdomain (s : shared) : shared :=
  {| completed := completed s; has_nxdomain := true;
     has_definitive := has_definitive s; batch_error := batch_error s; promise := promise s |}.
Definition store_definitive (s : shared) : shared :=
  {| completed := completed s; has_nxdomain := has_nxdomain s;
     has_definitive := true; batch_error := batch_error s; promise := promise s |}.
Definition store_error (code : DnsError) (s : shared) : shared :=
  {| completed := completed s; has_nxdomain := has_nxdomain s;
     has_definitive := has_definitive s; batch_error := code; promise := promise s |}.

(** What [resolve_one] goes on to do with its result. *)
(* @src src/src/dns/dispatcher.cpp 382 410 BatchRunner::resolve_one (branches) *)
Definition after_query (result : resolution) : pc :=
  match result with
  | inr records => CountSuccess records
  | inl error =>
      match ei_code error with
      | CANCELLED => CountFailure
      | NX_DOMAIN => StoreNxdomain
      | PARSE => StoreDefinitive PARSE
      | CONFIG => StoreDefinitive CONFIG
      | code => StoreError code
      end
  end.

(** One operation of a thread on the shared state. *)
(* @fn src/src/dns/dispatcher.cpp | void BatchRunner::resolve_one( | BatchRunner::resolve_one *)
Definition thread_step (batch_count : Z) (p : pc) (s : shared) : option (pc * shared) :=
  match p with
  | CountSuccess records => Some (SetValue records, fetch_add s)
  | SetValue records => Some (Exited, set_promise_value records s)
  | StoreNxdomain => Some (CountFailure, store_nxdomain s)
  | StoreDefinitive code => Some (StoreError code, store_definitive s)
  | StoreError code => Some (CountFailure, store_error code s)
  | CountFailure => Some (Signal (completed s), fetch_add s)
  | Signal prev => Some (Exited, signal_completion batch_count prev s)
  | NotStarted | Launched | Querying | Exited => None
  end.

(** What [run] returns once the threads are joined. *)
(* @src src/src/dns/dispatcher.cpp 335 362 BatchRunner::run (result) *)
Definition run_result (host : bytes) (batch_result : list bytes) (s : shared) : resolution :=
  if bool_decide (batch_result ≠ []) then inr batch_result else
  if has_nxdomain s then inl {| ei_code := NX_DOMAIN; ei_message :=
      str "Domain " ++ quoted host ++ str " does not exist (NXDOMAIN)" |}
  else if has_definitive s then inl {| ei_code := batch_error s; ei_message :=
      str "DNS lookup for " ++ quoted host ++ str " failed: " ++ error_to_str (batch_error s) |}
  else inl {| ei_code := batch_error s; ei_message :=
      str "DNS lookup for " ++ quoted host ++ str " returned " ++ error_to_str (batch_error s) |}.

(** The state [run] starts from. *)
(* @src src/src/dns/dispatcher.cpp 316 323 BatchRunner::run (reset) *)
Definition init (batch_count : nat) : state :=
  {| main := Launching 0;
     threads := replicate batch_count {| t_pc := NotStarted; t_stop := false; t_answer := None |};
     sh := {| completed := 0; has_nxdomain := false; has_definitive := false;
              batch_error := NODATA; promise := None |} |}.

Definition at_pc (p : pc) (t : thread) : thread :=
  {| t_pc := p; t_stop := t_stop t; t_answer := t_answer t |}.

Section steps.
(** [can i stop r]: the query of resolver [i] may return [r], its thread's stop
    having been requested or not. *)
Context (host : bytes) (can : nat → bool → resolution → Prop).

(* @src src/src/dns/dispatcher.cpp 314 427 BatchRunner (interleavings) *)
Inductive step : state → state → Prop :=
| step_launch i ts s t :
    ts !! i = Some t →
    step {| main := Launching i; threads := ts; sh := s |}
      {| main := Launching (S i); threads := <[i := at_pc Launched t]> ts; sh := s |}
| step_launched i ts s :
    i = length ts →
    step {| main := Launching i; threads := ts; sh := s |}
      {| main := Waiting; threads := ts; sh := s |}
| step_check m i ts s t :
    ts !! i = Some t → t_pc t = Launched →
    step {| main := m; threads := ts; sh := s |}
      {| main := m; threads := <[i := at_pc (if t_stop t then Exited else Querying) t]> ts; sh := s |}
| step_query m i ts s t r :
    ts !! i = Some t → t_pc t = Querying → can i (t_stop t) r →
    step {| main := m; threads := ts; sh := s |}
      {| main := m; threads :=
           <[i := {| t_pc := after_query r; t_stop := t_stop t; t_answer := Some r |}]> ts; sh := s |}
| step_thread m i ts s t p' s' :
    ts !! i = Some t → thread_step (Z.of_nat (length ts)) (t_pc t) s = Some (p', s') →
    step {| main := m; threads := ts; sh := s |}
      {| main := m; threads := <[i := at_pc p' t]> ts; sh := s' |}
| step_get ts s v :
    promise s = Some v →
    step {| main := Waiting; threads := ts; sh := s |}
      {| main := Stopping 0 v; threads := ts; sh := s |}
| step_stop i v ts s t :
    ts !! i = Some t →
    step {| main := Stopping i v; threads := ts; sh := s |}
      {| main := Joining i v; threads :=
           <[i := {| t_pc := t_pc t; t_stop := true; t_answer := t_answer t |}]> ts; sh := s |}
| step_join i v ts s t :
    ts !! i = Some t → t_pc t = Exited →
    step {| main := Joining i v; threads := ts; sh := s |}
      {| main := Stopping (S i) v; threads := ts; sh := s |}
| step_finish i v ts s :
    i = length ts →
    step {| main := Stopping i v; threads := ts; sh := s |}
      {| main := Finished (run_result host v s); threads := ts; sh := s |}.

Definition reachable (n : nat) (s : state) : Prop := rtc step (init n) s.
End steps.
End BatchRunner.
Import BatchRunner.

(** Case analysis on a lookup in an updated list of threads. *)
Ltac lookup_cases H :=
  apply list_lookup_insert_Some in H as [(? & ? & ?)|[? ?]]; subst.

(** * Termination: every step decreases a measure *)

Definition pc_rank (p : pc) : nat :=
  match p with
  | NotStarted => 8 | Launched => 7 | Querying => 6
  | StoreDefinitive _ => 5 | StoreNxdomain | StoreError _ => 4
  | CountFailure | CountSuccess _ => 3 | SetValue _ | Signal _ => 1
  | Exited => 0
  end.

Definition main_rank (n : nat) (m : main_pc) : nat :=
  match m with
  | Launching i => 2 * n + 4 + (n - i)
  | Waiting => 2 * n + 3
  | Stopping i _ => 2 * (n - i) + 1
  | Joining i _ => 2 * (n - i)
  | Finished _ => 0
  end.

Definition measure (s : state) : nat :=
  main_rank (length (threads s)) (main s) + sum_with (λ t, pc_rank (t_pc t)) (threads s).

(** * Invariants *)

(** [future.get()] has returned. *)
Definition past_get (m : main_pc) : Prop :=
  match m with Launching _ | Waiting => False | _ => True end.

Definition counted (p : pc) : nat :=
  match p with SetValue _ | Signal _ | Exited => 1 | _ => 0 end.

(** Some thread is about to satisfy the promise. *)
Definition will_set (n : nat) (ts : list thread) : Prop :=
  ∃ i t, ts !! i = Some t ∧ ((∃ r, t_pc t = SetValue r) ∨ t_pc t = Signal (Z.of_nat n - 1)).

Record progress_inv (n : nat) (s : state) : Prop := {
  pi_length : length (threads s) = n;
  pi_started i t : threads s !! i = Some t →
    (t_pc t = NotStarted ↔ ∃ k, main s = Launching k ∧ k ≤ i);
  pi_main k : main s = Launching k → k ≤ n;
  pi_stop i t : threads s !! i = Some t → t_stop t = true → past_get (main s);
  pi_count : ¬ past_get (main s) →
    completed (sh s) = Z.of_nat (sum_with (λ t, counted (t_pc t)) (threads s));
  pi_last : ¬ past_get (main s) → completed (sh s) = Z.of_nat n → n ≠ 0 → promise (sh s) = None →
    will_set n (threads s);
  pi_joined j t : threads s !! j = Some t →
    (match main s with Stopping i _ | Joining i _ => j < i | Finished _ => True | _ => False end) →
    t_pc t = Exited;
  pi_phase i v : main s = Stopping i v ∨ main s = Joining i v →
    promise (sh s) = Some v ∧ i ≤ n ∧ (main s = Joining i v → i < n)
}.

Section proofs.
Context (host : bytes) (can : nat → bool → resolution → Prop).

Lemma thread_step_rank bc p s p' s' :
  thread_step bc p s = Some (p', s') → pc_rank p' < pc_rank p.
Proof using Type. destruct p; simpl; intros [= <- <-]; simpl; lia. Qed.

Lemma step_measure n s s' :
  progress_inv n s → step host can s s' → measure s' < measure s.
Proof using Type.
  intros Hinv Hstep. unfold measure.
  destruct Hstep as [i ts s t Ht|i ts s Hi|m i ts s t Ht Hp|m i ts s t r Ht Hp Hr
    |m i ts s t p' s' Ht Hp|ts s v Hv|i v ts s t Ht|i v ts s t Ht Hp|i v ts s Hi]; simpl in *;
    rewrite ?length_insert.
  - pose proof (lookup_lt_Some _ _ _ Ht).
    pose proof (sum_with_insert (λ t, pc_rank (t_pc t)) ts i t (at_pc Launched t) Ht) as Hs.
    assert (t_pc t = NotStarted) as Hns
      by (apply (pi_started _ _ Hinv i t Ht); by exists i).
    simpl in Hs. rewrite Hns in Hs. simpl in Hs. lia.
  - lia.
  - pose proof (sum_with_insert (λ t, pc_rank (t_pc t)) ts i t
      (at_pc (if t_stop t then Exited else Querying) t) Ht) as Hs.
    simpl in Hs. rewrite Hp in Hs. simpl in Hs. destruct (t_stop t); simpl in Hs; lia.
  - pose proof (sum_with_insert (λ t, pc_rank (t_pc t)) ts i t
      {| t_pc := after_query r; t_stop := t_stop t; t_answer := Some r |} Ht) as Hs.
    simpl in Hs. rewrite Hp in Hs. simpl in Hs.
    assert (pc_rank (after_query r) < 6) by (destruct r as [e|r]; simpl; [destruct (ei_code e)|]; simpl; lia).
    lia.
  - pose proof (sum_with_insert (λ t, pc_rank (t_pc t)) ts i t (at_pc p' t) Ht) as Hs.
    simpl in Hs. apply thread_step_rank in Hp. lia.
  - lia.
  - pose proof (sum_with_insert (λ t, pc_rank (t_pc t)) ts i t
      {| t_pc := t_pc t; t_stop := true; t_answer := t_answer t |} Ht) as Hs.
    simpl in Hs. pose proof (lookup_lt_Some _ _ _ Ht). lia.
  - pose proof (lookup_lt_Some _ _ _ Ht). lia.
  - subst i. lia.
Qed.

Definition sets_next (n : nat) (p : pc) : Prop :=
  (∃ r, p = SetValue r) ∨ p = Signal (Z.of_nat n - 1).

Lemma will_set_insert n ts i t t' :
  will_set n ts → ts !! i = Some t → ¬ sets_next n (t_pc t) → will_set n (<[i:=t']> ts).
Proof using Type.
  intros (j & tj & Hj & Hp) Hi Hns. exists j, tj. split; [|done].
  rewrite list_lookup_insert_ne; [done|]. intros ->. rewrite Hi in Hj. injection Hj as ->. done.
Qed.

(** A step of one thread that has started and not finished. *)
Lemma progress_inv_update n m ts s s' i t t' :
  progress_inv n {| main := m; threads := ts; sh := s |} →
  ts !! i = Some t → t_pc t ≠ NotStarted → t_pc t ≠ Exited → t_pc t' ≠ NotStarted →
  t_stop t' = t_stop t →
  (¬ past_get m → completed s' + Z.of_nat (counted (t_pc t))
     = completed s + Z.of_nat (counted (t_pc t')))%Z →
  (∀ v, promise s = Some v → promise s' = Some v) →
  (¬ past_get m → completed s' = Z.of_nat n → n ≠ 0 → promise s' = None →
     will_set n (<[i:=t']> ts)) →
  progress_inv n {| main := m; threads := <[i:=t']> ts; sh := s' |}.
Proof using Type.
  intros [Hlen Hst Hm Hstop Hcnt Hlast Hj Hph] Hi Hns Hne Hns' Hst' Hc Hpr Hl.
  constructor; simpl in *.
  - by rewrite length_insert.
  - intros j tj Hjt. lookup_cases Hjt; [|by apply Hst].
    split; [done|]. intros Hk. by apply (Hst _ _ Hi) in Hk.
  - done.
  - intros j tj Hjt Hs. lookup_cases Hjt; [|by eapply Hstop].
    apply (Hstop _ _ Hi). congruence.
  - intros Hg. specialize (Hc Hg). rewrite (Hcnt Hg) in Hc.
    pose proof (sum_with_insert (λ t, counted (t_pc t)) ts i t t' Hi). simpl in *. lia.
  - done.
  - intros j tj Hjt Hlt. lookup_cases Hjt; [|by eapply Hj]. by destruct Hne; eapply Hj.
  - intros k v Hk. destruct (Hph k v Hk) as (? & ? & ?). split; [by apply Hpr|done].
Qed.

Lemma progress_inv_thread n m ts s i t p' s' :
  progress_inv n {| main := m; threads := ts; sh := s |} →
  ts !! i = Some t → thread_step (Z.of_nat (length ts)) (t_pc t) s = Some (p', s') →
  progress_inv n {| main := m; threads := <[i:=at_pc p' t]> ts; sh := s' |}.
Proof using Type.
  intros Hinv Hi Hp. pose proof (pi_length _ _ Hinv) as Hlen. simpl in Hlen.
  pose proof (pi_count _ _ Hinv) as Hcnt. pose proof (pi_last _ _ Hinv) as Hlast. simpl in *.
  assert (∀ v, promise s = Some v → promise s' = Some v) as Hpr.
  { intros v Hv. destruct (t_pc t); simpl in Hp; try done; injection Hp as <- <-; try done;
      unfold signal_completion, set_promise_value; repeat case_match; simpl; congruence. }
  apply (progress_inv_update n m ts s s' i t); try done;
    destruct (t_pc t) as [| | |r|r| |c|c| |prev|] eqn:Hpc; simpl in Hp; try done;
    injection Hp as <- <-; simpl; rewrite ?Hpc; try done; try (intros; simpl; lia).
  all: unfold signal_completion, set_promise_value.
  all: intros Hg; try (intros Hn Hn0 Hnone); try (repeat case_match; simpl; lia).
  - exists i, (at_pc (SetValue r) t). split; [|left; by exists r].
    apply list_lookup_insert_eq. by eapply lookup_lt_Some.
  - repeat case_match; simpl in *; congruence.
  - apply (will_set_insert n ts i t); [by apply Hlast|done|].
    rewrite Hpc. intros [[? ?]|?]; done.
  - apply (will_set_insert n ts i t); [by apply Hlast|done|].
    rewrite Hpc. intros [[? ?]|?]; done.
  - apply (will_set_insert n ts i t); [by apply Hlast|done|].
    rewrite Hpc. intros [[? ?]|?]; done.
  - exists i, (at_pc (Signal (completed s)) t). split.
    + apply list_lookup_insert_eq. by eapply lookup_lt_Some.
    + right. simpl in *. f_equal. lia.
  - destruct (prev + 1 =? Z.of_nat (length ts))%Z eqn:Hprev; prop_of_bool.
    + destruct (promise s) eqn:Hs; simpl in Hnone; congruence.
    + apply (will_set_insert n ts i t); [by apply Hlast|done|].
      rewrite Hpc. intros [[? [=]]|[= ?]]. lia.
Qed.

Lemma progress_inv_init n : progress_inv n (init n).
Proof using Type.
  constructor; simpl; try done.
  - by rewrite length_replicate.
  - intros i t Hi. apply lookup_replicate in Hi as [-> Hi]. simpl. split; [|done].
    intros _. exists 0. split; [done|lia].
  - intros k [= <-]. lia.
  - intros i t Hi. by apply lookup_replicate in Hi as [-> Hi].
  - intros _. induction n as [|n IH]; [done|]. simpl. exact IH.
  - intros _ Hn. lia.
  - intros i v [?|?]; done.
Qed.

Lemma progress_inv_launch n i ts s t :
  progress_inv n {| main := Launching i; threads := ts; sh := s |} → ts !! i = Some t →
  progress_inv n {| main := Launching (S i); threads := <[i:=at_pc Launched t]> ts; sh := s |}.
Proof using Type.
  intros [Hlen Hst Hm Hstop Hcnt Hlast Hj Hph] Ht. simpl in *.
  assert (t_pc t = NotStarted) as Hns by (apply (Hst i t Ht); by exists i).
  pose proof (lookup_lt_Some _ _ _ Ht) as Hlt. constructor; simpl.
  - by rewrite length_insert.
  - intros j u Hu. lookup_cases Hu.
    + simpl. split; [done|]. intros (k & [= <-] & Hk). lia.
    + rewrite (Hst j u) by done. split; intros (k & [= <-] & Hk);
        eexists; (split; [done|]); lia.
  - intros k [= <-]. lia.
  - intros j u Hu Hs. lookup_cases Hu; eapply Hstop; eauto.
  - intros Hg. rewrite (Hcnt Hg).
    pose proof (sum_with_insert (λ t, counted (t_pc t)) ts i t (at_pc Launched t) Ht) as Hs.
    simpl in Hs. rewrite Hns in Hs. simpl in Hs. lia.
  - intros Hg Hn Hn0 Hnone. eapply will_set_insert; [by apply Hlast|done|].
    rewrite Hns. intros [[? [=]]|[=]].
  - done.
  - intros k v [?|?]; done.
Qed.

Lemma progress_inv_stop n i v ts s t :
  progress_inv n {| main := Stopping i v; threads := ts; sh := s |} → ts !! i = Some t →
  progress_inv n {| main := Joining i v;
    threads := <[i:={| t_pc := t_pc t; t_stop := true; t_answer := t_answer t |}]> ts; sh := s |}.
Proof using Type.
  intros [Hlen Hst Hm Hstop Hcnt Hlast Hj Hph] Ht. simpl in *.
  pose proof (lookup_lt_Some _ _ _ Ht) as Hlt. constructor; simpl; try done.
  - by rewrite length_insert.
  - intros j u Hu. lookup_cases Hu; simpl; rewrite Hst by done; split; intros (? & ? & _); done.
  - intros j u Hu Hji. lookup_cases Hu; [lia|]. by eapply Hj.
  - intros k v' [?|[= <- <-]]; [done|]. destruct (Hph i v (or_introl eq_refl)) as (? & ? & _).
    split; [done|]. split; [lia|]. intros _. lia.
Qed.

Lemma progress_inv_step n s s' :
  progress_inv n s → step host can s s' → progress_inv n s'.
Proof using Type.
  intros Hinv Hstep.
  destruct Hstep as [i ts s t Ht|i ts s Hi|m i ts s t Ht Hp|m i ts s t r Ht Hp Hr
    |m i ts s t p' s' Ht Hp|ts s v Hv|i v ts s t Ht|i v ts s t Ht Hp|i v ts s Hi].
  3:{ destruct (t_stop t) eqn:Hs.
      - apply (progress_inv_update n m ts s s i t); simpl; try done; rewrite ?Hp, ?Hs; try done;
          intros Hg; destruct Hg; by eapply (pi_stop _ _ Hinv).
      - apply (progress_inv_update n m ts s s i t); simpl; try done; rewrite ?Hp, ?Hs; try done.
        intros Hg Hn Hn0 Hnone. eapply will_set_insert; [by eapply (pi_last _ _ Hinv)|done|].
        rewrite Hp. intros [[? ?]|?]; done. }
  3:{ assert (counted (after_query r) = 0 ∧ after_query r ≠ NotStarted) as [Hc0 Hns].
      { destruct r as [e|r]; simpl; [by destruct (ei_code e)|done]. }
      apply (progress_inv_update n m ts s s i t); simpl; rewrite ?Hp, ?Hc0; try done.
      intros Hg Hn Hn0 Hnone. eapply will_set_insert; [by eapply (pi_last _ _ Hinv)|done|].
      rewrite Hp. intros [[? ?]|?]; done. }
  3:{ by apply (progress_inv_thread n m ts s i t). }
  - by apply progress_inv_launch.
  - destruct Hinv as [Hlen Hst Hm Hstop Hcnt Hlast Hj Hph]; constructor; simpl in *; try done.
    + intros j t Ht. rewrite (Hst j t Ht). split; [|by intros (? & ? & _)].
      intros (k & [= <-] & Hk). apply lookup_lt_Some in Ht. lia.
    + intros k v' [?|?]; done.
  - destruct Hinv as [Hlen Hst Hm Hstop Hcnt Hlast Hj Hph]; constructor; simpl in *; try done.
    + intros j t Ht. rewrite (Hst j t Ht). split; intros (? & ? & _); done.
    + intros j t Ht. lia.
    + intros k v' [[= <- <-]|?]; [|done]. split; [done|]. split; [lia|done].
  - by apply progress_inv_stop.
  - destruct Hinv as [Hlen Hst Hm Hstop Hcnt Hlast Hj Hph]; constructor; simpl in *; try done.
    + intros j u Hu. rewrite (Hst j u Hu). split; intros (? & ? & _); done.
    + intros j u Hu Hlt. destruct (decide (j = i)) as [->|]; [congruence|]. apply (Hj _ _ Hu). lia.
    + intros k v' [[= <- <-]|?]; [|done]. destruct (Hph i v (or_intror eq_refl)) as (? & ? & Hlt).
      split; [done|]. split; [specialize (Hlt eq_refl); lia|done].
  - destruct Hinv as [Hlen Hst Hm Hstop Hcnt Hlast Hj Hph]; constructor; simpl in *; try done.
    + intros j u Hu. rewrite (Hst j u Hu). split; intros (? & ? & _); done.
    + intros j u Hu _. apply (Hj _ _ Hu). apply lookup_lt_Some in Hu. lia.
    + intros k v' [?|?]; done.
Qed.

Lemma progress_inv_reachable n s : reachable host can n s → progress_inv n s.
Proof using Type.
  intros Hr. apply (rtc_ind_r (progress_inv n) (init n)) in Hr; [done|apply progress_inv_init|].
  intros s1 s2 _ Hstep IH. by eapply progress_inv_step.
Qed.

(** ** Progress *)

Lemma thread_can_step m ts s i t :
  ts !! i = Some t → t_pc t ≠ NotStarted → t_pc t ≠ Exited → (∀ i b, ∃ r, can i b r) →
  ∃ s', step host can {| main := m; threads := ts; sh := s |} s'.
Proof using Type.
  intros Ht Hns Hex Hcan.
  assert (∀ p' s', thread_step (Z.of_nat (length ts)) (t_pc t) s = Some (p', s') →
    ∃ s'', step host can {| main := m; threads := ts; sh := s |} s'') as Hstep
    by (intros p' s' Hp; eexists; by eapply step_thread).
  destruct (t_pc t) eqn:Hp; try done; try (eapply Hstep; simpl; reflexivity).
  - eexists. by eapply step_check.
  - destruct (Hcan i (t_stop t)) as [r Hr]. eexists. by eapply step_query.
Qed.

Lemma all_exited_or (ts : list thread) :
  (∀ i t, ts !! i = Some t → t_pc t = Exited) ∨ (∃ i t, ts !! i = Some t ∧ t_pc t ≠ Exited).
Proof using Type.
  induction ts as [|u ts [IH|(i & t & Hi & Ht)]].
  - left. by intros i t.
  - destruct (t_pc u) eqn:Hu; try (right; exists 0, u; split; [done|congruence]).
    left. intros [|i] t Hi; simpl in Hi; [congruence|by eapply IH].
  - right. by exists (S i), t.
Qed.

Lemma progress_inv_progress n s :
  progress_inv n s → n ≠ 0 → (∀ i b, ∃ r, can i b r) →
  (∃ r, main s = Finished r) ∨ ∃ s', step host can s s'.
Proof using Type.
  intros Hinv Hn Hcan. destruct s as [m ts s].
  pose proof (pi_length _ _ Hinv) as Hlen. simpl in *.
  assert (∀ i t, ts !! i = Some t → t_pc t ≠ Exited → (∀ k, m = Launching k → False) →
    ∃ s', step host can {| main := m; threads := ts; sh := s |} s') as Hthread.
  { intros i t Ht Hex Hm. apply (thread_can_step m ts s i t); try done.
    intros Hns. apply (pi_started _ _ Hinv i t Ht) in Hns as (k & Hk & _). by eapply Hm. }
  destruct m as [i| |i v|i v|r]; [right|right|right|right|left; by exists r].
  - destruct (ts !! i) as [t|] eqn:Ht; [eexists; by eapply step_launch|].
    eexists. apply step_launched. apply lookup_ge_None in Ht.
    pose proof (pi_main _ _ Hinv i eq_refl). simpl in *. lia.
  - destruct (promise s) as [v|] eqn:Hv; [eexists; by eapply step_get|].
    destruct (all_exited_or ts) as [Hall|(i & t & Ht & Hex)]; [|by eapply Hthread].
    exfalso. assert (sum_with (λ t, counted (t_pc t)) ts = n) as Hsum.
    { rewrite <- Hlen, <- sum_with_length. apply Nat.le_antisymm; apply sum_with_le;
        intros i t Hi; rewrite (Hall i t Hi); simpl; lia. }
    destruct (pi_last _ _ Hinv) as (i & t & Ht & Hp); simpl; auto.
    + pose proof (pi_count _ _ Hinv) as Hc. simpl in Hc. rewrite Hc, Hsum; auto.
    + simpl in Ht. rewrite (Hall i t Ht) in Hp. by destruct Hp as [[? [=]]|[=]].
  - destruct (ts !! i) as [t|] eqn:Ht; [eexists; by eapply step_stop|].
    eexists. apply step_finish. apply lookup_ge_None in Ht.
    destruct (pi_phase _ _ Hinv i v (or_introl eq_refl)) as (_ & ? & _). simpl in *. lia.
  - destruct (pi_phase _ _ Hinv i v (or_intror eq_refl)) as (_ & _ & Hi).
    specialize (Hi eq_refl).
    destruct (lookup_lt_is_Some_2 ts i) as [t Ht]; [lia|].
    destruct (decide (t_pc t = Exited)) as [Hex|Hex]; [eexists; by eapply step_join|].
    by eapply Hthread.
Qed.

Lemma nsteps_measure n k s :
  nsteps (step host can) k (init n) s → measure s + k ≤ measure (init n).
Proof using Type.
  intros Hk. assert (progress_inv n s ∧ measure s + k ≤ measure (init n)) as [_ ?]; [|done].
  remember (init n) as s0 eqn:Hs0. assert (progress_inv n s0) as H0
    by (subst; apply progress_inv_init). clear Hs0.
  induction Hk as [s|k s1 s2 s3 Hstep Hk IH]; [split; [done|lia]|].
  pose proof (step_measure n _ _ H0 Hstep). apply (progress_inv_step n) in Hstep; [|done].
  destruct (IH Hstep) as [? ?]. split; [done|lia].
Qed.

Lemma measure_init n : measure (init n) = 11 * n + 4.
Proof using Type.
  unfold measure. cbn [init main threads main_rank]. rewrite length_replicate.
  assert (sum_with (λ t, pc_rank (t_pc t))
    (replicate n {| t_pc := NotStarted; t_stop := false; t_answer := None |}) = 8 * n) as ->.
  { unfold sum_with. induction n as [|n IH]; [done|]. cbn [replicate map sum_list].
    unfold sum_list in *. simpl in *. lia. }
  lia.
Qed.
End proofs.


(** * What the result says about the answers *)

(** Some resolver failed with the code [c], which is not recorded in the
    NXDOMAIN flag and is not a cancellation. *)
Definition err_answered (ts : list thread) (c : DnsError) : Prop :=
  c ≠ NX_DOMAIN ∧ c ≠ CANCELLED
  ∧ ∃ j u e, ts !! j = Some u ∧ t_answer u = Some (inl e) ∧ ei_code e = c.

(** The failure [c] has left its trace in the shared state. *)
Definition recorded (ts : list thread) (s : shared) (c : DnsError) : Prop :=
  (c = NX_DOMAIN → has_nxdomain s = true)
  ∧ (c ≠ NX_DOMAIN → c ≠ CANCELLED → err_answered ts (batch_error s)).

Definition failed_as (t : thread) (P : DnsError → Prop) : Prop :=
  ∃ e, t_answer t = Some (inl e) ∧ P (ei_code e) ∧ (ei_code e = CANCELLED → t_stop t = true).

Definition consistent (ts : list thread) (s : shared) (t : thread) : Prop :=
  match t_pc t with
  | NotStarted | Launched | Querying => t_answer t = None
  | CountSuccess r | SetValue r => t_answer t = Some (inr r) ∧ r ≠ []
  | StoreNxdomain => failed_as t (λ c, c = NX_DOMAIN)
  | StoreDefinitive c | StoreError c => failed_as t (λ c', c' = c ∧ c ≠ NX_DOMAIN ∧ c ≠ CANCELLED)
  | CountFailure | Signal _ => failed_as t (recorded ts s)
  | Exited => t_answer t = None ∨ (∃ r, t_answer t = Some (inr r) ∧ r ≠ [])
      ∨ failed_as t (recorded ts s)
  end.

Record answer_inv (s : state) : Prop := {
  ai_thread i t : threads s !! i = Some t → consistent (threads s) (sh s) t;
  ai_nx : has_nxdomain (sh s) = true →
    ∃ j u e, threads s !! j = Some u ∧ t_answer u = Some (inl e) ∧ ei_code e = NX_DOMAIN;
  ai_value v : promise (sh s) = Some v → v ≠ [] →
    ∃ j u, threads s !! j = Some u ∧ t_answer u = Some (inr v);
  ai_empty : promise (sh s) = Some [] →
    ∃ j u e, threads s !! j = Some u ∧ t_answer u = Some (inl e) ∧ ei_code e ≠ CANCELLED
      ∧ recorded (threads s) (sh s) (ei_code e)
}.

(** Answers are not forgotten. *)
Definition answers_kept (ts ts' : list thread) : Prop :=
  ∀ j u a, ts !! j = Some u → t_answer u = Some a →
    ∃ u', ts' !! j = Some u' ∧ t_answer u' = Some a.

Section answers.
Context (host : bytes) (can : nat → bool → resolution → Prop).
(** What [try_resolve] guarantees: records are never empty, and a query whose
    thread was not asked to stop is not cancelled. *)
Context (can_records : ∀ i b r, can i b (inr r) → r ≠ []).
Context (can_cancelled : ∀ i e, can i false (inl e) → ei_code e ≠ CANCELLED).

Lemma answers_kept_insert ts i t t' :
  ts !! i = Some t → (t_answer t = None ∨ t_answer t' = t_answer t) →
  answers_kept ts (<[i:=t']> ts).
Proof using Type.
  intros Hi Ha j u a Hj Hu. destruct (decide (j = i)) as [->|Hne].
  - exists t'. rewrite list_lookup_insert_eq by (by eapply lookup_lt_Some).
    split; [done|]. destruct Ha; congruence.
  - exists u. by rewrite list_lookup_insert_ne.
Qed.

Lemma err_answered_kept ts ts' c :
  answers_kept ts ts' → err_answered ts c → err_answered ts' c.
Proof using Type.
  intros Hk (Hn & Hc & j & u & e & Hj & Hu & He).
  destruct (Hk j u _ Hj Hu) as (u' & ? & ?). split; [done|]. split; [done|]. by exists j, u', e.
Qed.

(** The shared state only gains traces. *)
Definition traces_kept (ts' : list thread) (s s' : shared) : Prop :=
  (has_nxdomain s = true → has_nxdomain s' = true)
  ∧ (batch_error s' = batch_error s ∨ err_answered ts' (batch_error s')).

Lemma recorded_kept ts ts' s s' c :
  answers_kept ts ts' → traces_kept ts' s s' → recorded ts s c → recorded ts' s' c.
Proof using Type.
  intros Hk [Hn Hb] [Hr1 Hr2]. split; [auto|]. intros H1 H2.
  destruct Hb as [->|?]; [|done]. eapply err_answered_kept; eauto.
Qed.

Lemma consistent_kept ts ts' s s' t :
  answers_kept ts ts' → traces_kept ts' s s' → consistent ts s t → consistent ts' s' t.
Proof using Type.
  intros Hk Htr. unfold consistent, failed_as.
  destruct (t_pc t); try done; intros Hc.
  1,2: destruct Hc as (e & ? & ? & ?); exists e; eauto using recorded_kept.
  destruct Hc as [?|[?|(e & ? & ? & ?)]]; auto. right. right. exists e; eauto using recorded_kept.
Qed.

(** A step of thread [i]: the invariant for the rest follows. *)
Lemma answer_inv_update m m' ts s s' i t t' :
  answer_inv {| main := m; threads := ts; sh := s |} → ts !! i = Some t →
  (t_answer t = None ∨ t_answer t' = t_answer t) →
  traces_kept (<[i:=t']> ts) s s' → consistent (<[i:=t']> ts) s' t' →
  (has_nxdomain s' = true → has_nxdomain s = true
     ∨ ∃ e, t_answer t' = Some (inl e) ∧ ei_code e = NX_DOMAIN) →
  (∀ v, promise s' = Some v → promise s = Some v
     ∨ (v ≠ [] ∧ t_answer t' = Some (inr v))
     ∨ (v = [] ∧ ∃ e, t_answer t' = Some (inl e) ∧ ei_code e ≠ CANCELLED
          ∧ recorded (<[i:=t']> ts) s' (ei_code e))) →
  answer_inv {| main := m'; threads := <[i:=t']> ts; sh := s' |}.
Proof using Type.
  intros [Hth Hnx Hval Hemp] Hi Ha Htr Hcons Hn Hp. simpl in *.
  pose proof (answers_kept_insert ts i t t' Hi Ha) as Hk.
  assert (<[i:=t']> ts !! i = Some t') as Hit
    by (apply list_lookup_insert_eq; by eapply lookup_lt_Some).
  constructor; simpl.
  - intros j u Hu. lookup_cases Hu; [done|]. eapply consistent_kept; eauto.
  - intros Hs. destruct (Hn Hs) as [Hs0|(e & ? & ?)]; [|by exists i, t', e].
    destruct (Hnx Hs0) as (j & u & e & Hj & Hu & He).
    destruct (Hk j u _ Hj Hu) as (u' & ? & ?). by exists j, u', e.
  - intros v Hv Hne. destruct (Hp v Hv) as [Hv0|[[_ ?]|[? _]]]; [|by exists i, t'|done].
    destruct (Hval v Hv0 Hne) as (j & u & Hj & Hu).
    destruct (Hk j u _ Hj Hu) as (u' & ? & ?). by exists j, u'.
  - intros Hv. destruct (Hp [] Hv) as [Hv0|[[? _]|(_ & e & ? & ? & ?)]]; [|done|by exists i, t', e].
    destruct (Hemp Hv0) as (j & u & e & Hj & Hu & He & Hr).
    destruct (Hk j u _ Hj Hu) as (u' & ? & ?). exists j, u', e. eauto using recorded_kept.
Qed.

Lemma traces_kept_refl ts s : traces_kept ts s s.
Proof using Type. split; auto. Qed.

Lemma answer_inv_init n : answer_inv (init n).
Proof using Type.
  constructor; simpl; try done. intros i t Hi. by apply lookup_replicate in Hi as [-> _].
Qed.

Lemma answer_inv_main m m' ts s :
  answer_inv {| main := m; threads := ts; sh := s |} →
  answer_inv {| main := m'; threads := ts; sh := s |}.
Proof using Type. by intros [? ? ? ?]. Qed.

Lemma after_query_consistent ts s i t r :
  can i (t_stop t) r →
  consistent ts s {| t_pc := after_query r; t_stop := t_stop t; t_answer := Some r |}.
Proof using can_records can_cancelled.
  intros Hr. unfold consistent, failed_as. destruct r as [e|r]; simpl; [|split; [done|by eapply can_records]].
  assert (ei_code e = CANCELLED → t_stop t = true) as Hc.
  { intros Hc. destruct (t_stop t); [done|]. by apply can_cancelled in Hr. }
  destruct (ei_code e) eqn:He; simpl; exists e; (split; [done|]); by rewrite ?He.
Qed.

(** A thread with the promise still open has not been asked to stop. *)
Lemma open_not_stopped n m ts s i t :
  progress_inv n {| main := m; threads := ts; sh := s |} → ts !! i = Some t →
  t_pc t ≠ Exited → promise s = None → t_stop t = false.
Proof using Type.
  intros Hinv Hi Hex Hnone. destruct (t_stop t) eqn:Hs; [|done]. exfalso.
  pose proof (pi_stop _ _ Hinv i t Hi Hs) as Hg. simpl in Hg.
  destruct m as [k| |k v|k v|r]; try done.
  - destruct (pi_phase _ _ Hinv k v (or_introl eq_refl)) as [Hp _]. simpl in Hp. congruence.
  - destruct (pi_phase _ _ Hinv k v (or_intror eq_refl)) as [Hp _]. simpl in Hp. congruence.
  - by apply Hex, (pi_joined _ _ Hinv i t Hi).
Qed.

Lemma traces_kept_ext ts s s' :
  has_nxdomain s' = has_nxdomain s → batch_error s' = batch_error s → traces_kept ts s s'.
Proof using Type. intros Hn Hb. split; [congruence|by left]. Qed.

Lemma answer_inv_thread n m ts s i t p' s' :
  progress_inv n {| main := m; threads := ts; sh := s |} →
  answer_inv {| main := m; threads := ts; sh := s |} → ts !! i = Some t →
  thread_step (Z.of_nat (length ts)) (t_pc t) s = Some (p', s') →
  answer_inv {| main := m; threads := <[i:=at_pc p' t]> ts; sh := s' |}.
Proof using Type.
  intros Hpi Hinv Hi Hp. pose proof (ai_thread _ Hinv i t Hi) as Hc. simpl in Hc.
  pose proof (answers_kept_insert ts i t (at_pc p' t) Hi (or_intror eq_refl)) as Hk.
  assert (<[i:=at_pc p' t]> ts !! i = Some (at_pc p' t)) as Hit
    by (apply list_lookup_insert_eq; by eapply lookup_lt_Some).
  unfold consistent in Hc.
  destruct (t_pc t) as [| | |r|r| |c|c| |prev|] eqn:Hpc; simpl in Hp; try done;
    injection Hp as <- <-;
    apply (answer_inv_update m m ts s _ i t); try done; try (by right);
    try (by apply traces_kept_ext); try (simpl; by auto).
  - unfold set_promise_value. case_match; by apply traces_kept_ext.
  - right. left. destruct Hc. by exists r.
  - unfold set_promise_value. case_match; simpl; auto.
  - intros v. unfold set_promise_value. destruct (promise s) eqn:Hpr; simpl; [rewrite Hpr; auto|].
    intros [= <-]. right. left. by destruct Hc.
  - split; [done|by left].
  - destruct Hc as (e & ? & He & ?). exists e. split; [done|]. split; [|done]. split; [done|].
    intros Hne. congruence.
  - destruct Hc as (e & ? & He & ?). simpl. intros _. right. by exists e.
  - destruct Hc as (e & ? & (<- & ? & ?) & ?). split; [done|]. right. simpl.
    split; [done|]. split; [done|]. by exists i, (at_pc CountFailure t), e.
  - destruct Hc as (e & ? & (<- & ? & ?) & ?). exists e. split; [done|]. split; [|done].
    split; [done|]. intros _ _. split; [done|]. split; [done|].
    by exists i, (at_pc CountFailure t), e.
  - destruct Hc as (e & ? & He & ?). exists e. split; [done|]. split; [|done].
    eapply (recorded_kept ts _ s); [done| |done]. by apply traces_kept_ext.
  - unfold signal_completion, set_promise_value. repeat case_match; by apply traces_kept_ext.
  - right. right. destruct Hc as (e & ? & He & ?). exists e. split; [done|]. split; [|done].
    eapply (recorded_kept ts _ s); [done| |done].
    unfold signal_completion, set_promise_value. repeat case_match; by apply traces_kept_ext.
  - unfold signal_completion, set_promise_value. repeat case_match; simpl; auto.
  - intros v. unfold signal_completion, set_promise_value.
    destruct (_ =? _)%Z; [|auto]. destruct (promise s) eqn:Hpr; simpl; [rewrite Hpr; auto|]. intros [= <-]. right. right.
    destruct Hc as (e & ? & He & Hstop). split; [done|]. exists e. split; [done|]. split.
    + intros Hcan. specialize (Hstop Hcan).
      rewrite (open_not_stopped n m ts s i t) in Hstop; try done. by rewrite Hpc.
    + eapply (recorded_kept ts _ s); [done| |done]. by apply traces_kept_ext.
Qed.

Lemma answer_inv_step n s s' :
  progress_inv n s → answer_inv s → step host can s s' → answer_inv s'.
Proof using can_records can_cancelled.
  intros Hpi Hinv Hstep.
  destruct Hstep as [i ts s t Ht|i ts s Hi|m i ts s t Ht Hp|m i ts s t r Ht Hp Hr
    |m i ts s t p' s' Ht Hp|ts s v Hv|i v ts s t Ht|i v ts s t Ht Hp|i v ts s Hi];
    try (by eapply answer_inv_main); try (by eapply answer_inv_thread).
  all: pose proof (ai_thread _ Hinv i t Ht) as Hc; simpl in Hc; unfold consistent in Hc.
  - assert (t_pc t = NotStarted) as Hns by (apply (pi_started _ _ Hpi i t Ht); by exists i).
    rewrite Hns in Hc.
    eapply (answer_inv_update _ _ ts s s i t); eauto using traces_kept_refl.
  - rewrite Hp in Hc.
    eapply (answer_inv_update _ _ ts s s i t); eauto using traces_kept_refl.
    unfold consistent. simpl. destruct (t_stop t); simpl; auto.
  - rewrite Hp in Hc.
    eapply (answer_inv_update _ _ ts s s i t); eauto using traces_kept_refl.
    by eapply after_query_consistent.
  - eapply (answer_inv_update _ _ ts s s i t); eauto using traces_kept_refl.
    set (t' := {| t_pc := t_pc t; t_stop := true; t_answer := t_answer t |}).
    eapply (consistent_kept ts _ s s); [by apply (answers_kept_insert ts i t); [|right]
      |apply traces_kept_refl|].
    unfold consistent, failed_as in *. simpl.
    destruct (t_pc t); naive_solver.
Qed.

Lemma answer_inv_reachable n s :
  reachable host can n s → progress_inv n s ∧ answer_inv s.
Proof using can_records can_cancelled.
  intros Hr. apply (rtc_ind_r (λ s, progress_inv n s ∧ answer_inv s) (init n)) in Hr; [done| |].
  - split; [apply progress_inv_init|apply answer_inv_init].
  - intros s1 s2 _ Hstep [Hp Ha]. split; [by eapply progress_inv_step|by eapply answer_inv_step].
Qed.
End answers.

Section finished.
Context (host : bytes) (can : nat → bool → resolution → Prop).

(** Once [run] has returned, nothing moves any more. *)
Lemma finished_result n s r :
  reachable host can n s → main s = Finished r →
  ∃ v, promise (sh s) = Some v ∧ r = run_result host v (sh s)
    ∧ ∀ j t, threads s !! j = Some t → t_pc t = Exited.
Proof using Type.
  intros Hr. revert r.
  assert (progress_inv n s ∧ ∀ r, main s = Finished r →
    ∃ v, promise (sh s) = Some v ∧ r = run_result host v (sh s)) as [Hinv H].
  { apply (rtc_ind_r (λ s, progress_inv n s ∧ ∀ r, main s = Finished r →
      ∃ v, promise (sh s) = Some v ∧ r = run_result host v (sh s)) (init n)) in Hr; [done| |].
    - split; [apply progress_inv_init|done].
    - intros s1 s2 _ Hstep [Hp Hf]. split; [by eapply progress_inv_step|]. intros r.
      destruct Hstep as [| |m i ts s0 t Ht Hpc|m i ts s0 t r0 Ht Hpc Hr0|m i ts s0 t p' s' Ht Hpc
        |ts s0 v Hv|i v ts s0 t Ht|i v ts s0 t Ht Hpc|i v ts s0 Hi]; simpl in *; try done.
      + apply Hf.
      + apply Hf.
      + intros ->. pose proof (pi_joined _ _ Hp i t Ht I) as Hex. rewrite Hex in Hpc. done.
      + intros [= <-]. destruct (pi_phase _ _ Hp i v (or_introl eq_refl)) as [Hv _].
        by exists v. }
  intros r Hmain. destruct (H r Hmain) as (v & Hv & ->). exists v. split; [done|]. split; [done|].
  intros j t Hj. apply (pi_joined _ _ Hinv j t Hj). by rewrite Hmain.
Qed.

(** Answers come from queries. *)
Lemma answers_possible n s j t a :
  reachable host can n s → threads s !! j = Some t → t_answer t = Some a → j < n ∧ ∃ b, can j b a.
Proof using Type.
  intros Hr. revert j t a.
  assert (progress_inv n s ∧ ∀ j t a, threads s !! j = Some t → t_answer t = Some a →
    ∃ b, can j b a) as [Hinv H].
  { apply (rtc_ind_r (λ s, progress_inv n s ∧ ∀ j t a, threads s !! j = Some t →
      t_answer t = Some a → ∃ b, can j b a) (init n)) in Hr; [done| |].
    - split; [apply progress_inv_init|]. simpl. intros j t a Hj Ha.
      by apply lookup_replicate in Hj as [-> _].
    - intros s1 s2 _ Hstep [Hp Hf]. split; [by eapply progress_inv_step|]. intros j u a.
      destruct Hstep as [i ts s0 t Ht| |m i ts s0 t Ht Hpc|m i ts s0 t r0 Ht Hpc Hr0
        |m i ts s0 t p' s' Ht Hpc|ts s0 v Hv|i v ts s0 t Ht|i v ts s0 t Ht Hpc|i v ts s0 Hi];
        simpl in *; try (by apply Hf);
        intros Hj Ha; lookup_cases Hj; simpl in Ha; try (by eapply Hf).
      injection Ha as <-. by eexists. }
  intros j t a Hj Ha. split; [|by eapply H].
  apply lookup_lt_Some in Hj. pose proof (pi_length _ _ Hinv). simpl in *. congruence || lia.
Qed.
End finished.

Lemma batch_sound (host : bytes) (can : nat → bool → resolution → Prop) (n : nat)
    (s : state) (result : resolution) :
  (∀ i b r, can i b (inr r) → r ≠ []) →
  (∀ i e, can i false (inl e) → ei_code e ≠ CANCELLED) →
  reachable host can n s → main s = Finished result →
  match result with
  | inr r => ∃ j t, threads s !! j = Some t ∧ t_answer t = Some (inr r)
  | inl e =>
      (∃ j t e', threads s !! j = Some t ∧ t_answer t = Some (inl e') ∧ ei_code e' = ei_code e)
      ∧ (ei_code e = NX_DOMAIN ↔
         ∃ j t e', threads s !! j = Some t ∧ t_answer t = Some (inl e') ∧ ei_code e' = NX_DOMAIN)
  end.
Proof.
  intros Hrec Hcan Hr Hmain.
  destruct (finished_result host can n s result Hr Hmain) as (v & Hv & -> & Hex).
  destruct (answer_inv_reachable host can Hrec Hcan n s Hr) as [_ Hinv].
  unfold run_result. case_bool_decide as Hne; [by eapply ai_value|]. subst v.
  destruct (ai_empty _ Hinv Hv) as (j & t & e & Hj & Ht & Hcanc & Hnx & Herr).
  assert (∀ j t e', threads s !! j = Some t → t_answer t = Some (inl e') → ei_code e' = NX_DOMAIN →
    has_nxdomain (sh s) = true) as Hflag.
  { intros j' t' e' Hj' Ht' He'. pose proof (ai_thread _ Hinv j' t' Hj') as Hc.
    unfold consistent in Hc. rewrite (Hex j' t' Hj') in Hc.
    destruct Hc as [?|[(? & ? & _)|(e'' & ? & [Hrn _] & _)]]; [congruence|congruence|].
    apply Hrn. congruence. }
  destruct (has_nxdomain (sh s)) eqn:Hn; cbn [ei_code].
  { destruct (ai_nx _ Hinv Hn) as (j' & t' & e' & ? & ? & ?).
    split; [by exists j', t', e'|]. split; [|done]. intros _. by exists j', t', e'. }
  assert (ei_code e ≠ NX_DOMAIN) as Hne by (intros He; by specialize (Hnx He)).
  destruct (Herr Hne Hcanc) as (Hb1 & Hb2 & j' & t' & e' & ? & ? & ?).
  destruct (has_definitive (sh s)); cbn [ei_code]; (split; [by exists j', t', e'|]);
    (split; [done|]); intros (j0 & t0 & e0 & Hj0 & Ht0 & He0); by specialize (Hflag _ _ _ Hj0 Ht0 He0).
Qed.

(** * ConcurrentRunner *)

Module ConcurrentRunner.

(* @fn src/src/dns/dispatcher.cpp | MAX_CONCURRENT_RESOLVERS = 3 | ConcurrentRunner::MAX_CONCURRENT_RESOLVERS *)
Definition MAX_CONCURRENT_RESOLVERS : nat := 3.

(** What the loop does with a batch's result: return it, or go on with a last error. *)
(* @src src/src/dns/dispatcher.cpp 452 467 ConcurrentRunner::run (after a batch) *)
Definition after_batch (last_error : DnsErrorInfo) (result : resolution) : resolution + DnsErrorInfo :=
  match result with
  | inr r => if bool_decide (r ≠ []) then inl result else inr last_error
  | inl err =>
      match ei_code err with
      | NX_DOMAIN | PARSE | CONFIG => inl result
      | _ => inr err
      end
  end.

Section run.
Context (host : bytes) (can : nat → bool → resolution → Prop) (total : nat).

(** A batch of [n] resolvers starting at [offset] may return [result]. *)
Definition batch_outcome (offset n : nat) (result : resolution) : Prop :=
  ∃ s, reachable host (λ i, can (offset + i)) n s ∧ main s = Finished result.

(** The rounds of the loop from [offset] on. *)
(* @fn src/src/dns/dispatcher.cpp | for (size_t offset = 0; offset < total; | ConcurrentRunner::run (loop) *)
Inductive rounds : nat → DnsErrorInfo → resolution → Prop :=
| rounds_end offset last_error :
    total ≤ offset → rounds offset last_error (inl last_error)
| rounds_return offset last_error result final :
    offset < total →
    batch_outcome offset (min (offset + MAX_CONCURRENT_RESOLVERS) total - offset) result →
    after_batch last_error result = inl final →
    rounds offset last_error final
| rounds_next offset last_error result last_error' final :
    offset < total →
    batch_outcome offset (min (offset + MAX_CONCURRENT_RESOLVERS) total - offset) result →
    after_batch last_error result = inr last_error' →
    rounds (offset + MAX_CONCURRENT_RESOLVERS) last_error' final →
    rounds offset last_error final.

(* @src src/src/dns/dispatcher.cpp 437 475 ConcurrentRunner::run *)
Definition run : resolution → Prop := rounds 0 (no_records host).

Lemma rounds_sound offset last_error final :
  (∀ i b r, can i b (inr r) → r ≠ []) →
  (∀ i e, can i false (inl e) → ei_code e ≠ CANCELLED) →
  rounds offset last_error final →
  match final with
  | inr r => r ≠ [] ∧ ∃ i b, i < total ∧ can i b (inr r)
  | inl e => (e = last_error ∧ total ≤ offset)
      ∨ ∃ i b e', i < total ∧ can i b (inl e') ∧ ei_code e' = ei_code e
  end.
Proof using Type.
  intros Hrec Hcan.
  assert (∀ offset n result, batch_outcome offset n result → offset + n ≤ total →
    match result with
    | inr r => r ≠ [] ∧ ∃ i b, i < total ∧ can i b (inr r)
    | inl e => ∃ i b e', i < total ∧ can i b (inl e') ∧ ei_code e' = ei_code e
    end) as Hbatch.
  { intros off n result (s & Hr & Hm) Hn.
    pose proof (batch_sound host (λ i, can (off + i)) n s result
      (λ i b r, Hrec (off + i) b r) (λ i e, Hcan (off + i) e) Hr Hm) as Hs.
    destruct result as [e|r].
    - destruct Hs as [(j & t & e' & Hj & Ht & He) _].
      destruct (answers_possible _ _ _ _ _ _ _ Hr Hj Ht) as [? [b ?]].
      exists (off + j), b, e'. split; [lia|done].
    - destruct Hs as (j & t & Hj & Ht).
      destruct (answers_possible _ _ _ _ _ _ _ Hr Hj Ht) as [? [b Hb]].
      split; [by eapply Hrec|]. exists (off + j), b. split; [lia|done]. }
  intros Hrounds. induction Hrounds as [offset last_error Ho|offset last_error result final Ho Hb Ha
    |offset last_error result last_error' final Ho Hb Ha Hnext IH]; [by left| |].
  - apply Hbatch in Hb; [|lia]. destruct result as [e|r]; simpl in Ha.
    + destruct (ei_code e) eqn:He; try done; injection Ha as <-; right; by rewrite He in *.
    + case_bool_decide; [|done]. by injection Ha as <-.
  - apply Hbatch in Hb; [|lia]. destruct final as [e|r]; [|done].
    right. destruct IH as [[-> _]|?]; [|done].
    destruct result as [e'|r]; simpl in Ha.
    + destruct (ei_code e') eqn:He; try done; injection Ha as ->; by rewrite He in *.
    + case_bool_decide as Hr; [done|]. by destruct Hb as [Hne _].
Qed.
End run.
End ConcurrentRunner.

(** * Properties *)

(** C11: A batch always finishes: with at least one resolver and queries that
    return, every execution has at most 11 steps per resolver and 4 more, and it
    can stop nowhere but at the result; the waiting thread is never left with a
    promise nobody will set. *)
Theorem batch_terminates (host : bytes) (can : nat → bool → resolution → Prop) (n : nat) :
  n ≠ 0 → (∀ i b, ∃ r, can i b r) →
  (∀ k s, nsteps (step host can) k (init n) s → k ≤ 11 * n + 4)
  ∧ (∀ s, reachable host can n s →
       (∃ r, main s = Finished r) ∨ ∃ s', step host can s s').
Proof.
  intros Hn Hcan. split.
  - intros k s Hk. pose proof (nsteps_measure host can n k s Hk). rewrite measure_init in *. lia.
  - intros s Hs. eapply progress_inv_progress; [|done|done]. by eapply progress_inv_reachable.
Qed.

Definition any_answer (i : nat) (stop : bool) (r : resolution) : Prop :=
  r = inr [str "192.0.2.1"] ∨ r = inl {| ei_code := NX_DOMAIN; ei_message := [] |}.

Lemma batch_terminates_witness :
  1 ≠ 0 ∧ ∀ k s, nsteps (step (str "a.b") any_answer) k (init 1) s → k ≤ 15.
Proof.
  split; [discriminate|].
  apply (batch_terminates (str "a.b") any_answer 1 ltac:(discriminate)).
  intros i b. eexists. left. reflexivity.
Defined.

(** A batch's result is some resolver's: records it returns are the answer of
    one of the resolvers; an error it returns has the code of an error some
    resolver answered, and that code is NX_DOMAIN exactly when a resolver
    answered NX_DOMAIN (whatever the interleaving of the threads). *)
Theorem batch_result_sound (host : bytes) (can : nat → bool → resolution → Prop) (n : nat)
    (s : state) (result : resolution) :
  (∀ i b r, can i b (inr r) → r ≠ []) →
  (∀ i e, can i false (inl e) → ei_code e ≠ CANCELLED) →
  reachable host can n s → main s = Finished result →
  match result with
  | inr r => ∃ j t, threads s !! j = Some t ∧ t_answer t = Some (inr r)
  | inl e =>
      (∃ j t e', threads s !! j = Some t ∧ t_answer t = Some (inl e') ∧ ei_code e' = ei_code e)
      ∧ (ei_code e = NX_DOMAIN ↔
         ∃ j t e', threads s !! j = Some t ∧ t_answer t = Some (inl e') ∧ ei_code e' = NX_DOMAIN)
  end.
Proof. apply batch_sound. Qed.

(** Two resolvers: the first answers with records, the second fails; a batch in
    which the first counts itself done before it sets the promise. *)
Definition success_and_failure (i : nat) (stop : bool) (r : resolution) : Prop :=
  if i =? 0 then r = inr [str "192.0.2.1"] else r = inl {| ei_code := CONNECTION; ei_message := [] |}.

(** The state after the first resolver has been launched and queried, and so on:
    the final state of the schedule below. *)
Definition lost_state (host : bytes) : state :=
  {| main := Finished (inl {| ei_code := CONNECTION; ei_message :=
       str "DNS lookup for " ++ quoted host ++ str " returned " ++ error_to_str CONNECTION |});
     threads := [{| t_pc := Exited; t_stop := true; t_answer := Some (inr [str "192.0.2.1"]) |};
                 {| t_pc := Exited; t_stop := true;
                    t_answer := Some (inl {| ei_code := CONNECTION; ei_message := [] |}) |}];
     sh := {| completed := 2; has_nxdomain := false; has_definitive := false;
              batch_error := CONNECTION; promise := Some [] |} |}.

(** One step of a schedule. *)
Ltac schedule_step lem :=
  eapply rtc_l; [eapply lem; reflexivity|cbn [length insert list_insert at_pc t_stop t_answer t_pc]].

Lemma lost_schedule (host : bytes) :
  reachable host success_and_failure 2 (lost_state host).
Proof.
  unfold reachable, init, lost_state. cbn [replicate].
  schedule_step step_launch. schedule_step step_launch. schedule_step step_launched.
  schedule_step (step_check host success_and_failure Waiting 0).
  schedule_step (step_check host success_and_failure Waiting 1).
  schedule_step (step_query host success_and_failure Waiting 0).
  schedule_step (step_query host success_and_failure Waiting 1).
  (* the first resolver counts itself, then the second stores its error, counts
     itself and, being the last, completes the promise with nothing *)
  schedule_step (step_thread host success_and_failure Waiting 0).
  schedule_step (step_thread host success_and_failure Waiting 1).
  schedule_step (step_thread host success_and_failure Waiting 1).
  schedule_step (step_thread host success_and_failure Waiting 1).
  (* the first resolver's records come too late *)
  schedule_step (step_thread host success_and_failure Waiting 0).
  schedule_step step_get.
  schedule_step step_stop. schedule_step step_join. schedule_step step_stop. schedule_step step_join.
  schedule_step step_finish. apply rtc_refl.
Qed.

(** A successful answer can be lost: there is an execution of a batch of two
    resolvers in which the first answers with records, yet the batch returns the
    second's error, because the first increments [completed_] before it sets the
    promise and the second, seeing itself last, sets the promise to the empty
    vector in between. *)
Theorem batch_success_can_be_lost (host : bytes) :
  ∃ s e t, reachable host success_and_failure 2 s ∧ main s = Finished (inl e)
    ∧ threads s !! 0 = Some t ∧ t_answer t = Some (inr [str "192.0.2.1"]).
Proof.
  exists (lost_state host). eexists _, _. split; [apply lost_schedule|]. done.
Qed.

Lemma batch_result_sound_witness :
  ∃ j t e', threads (lost_state (str "a.b")) !! j = Some t ∧ t_answer t = Some (inl e')
    ∧ ei_code e' = CONNECTION.
Proof.
  refine (proj1 (batch_result_sound (str "a.b") success_and_failure 2 (lost_state (str "a.b")) _
    _ _ (lost_schedule _) eq_refl)).
  - intros i b r Hr. unfold success_and_failure in Hr. destruct (i =? 0); [|discriminate Hr].
    injection Hr as ->. discriminate.
  - intros i e He. unfold success_and_failure in He. destruct (i =? 0); [discriminate He|].
    injection He as ->. discriminate.
Defined.

(** * ResolverDispatcher *)

Module ResolverDispatcher.
Section resolve.
Context {W : Type} `{Retry.Sleep W}.
Context (inet_ntop4 inet_ntop6 : bytes → bytes) (type_name rcode_name : Z → bytes).

Abbreviation answers := (Dispatcher.answers inet_ntop4 inet_ntop6 type_name rcode_name).

(** The answers the resolvers may give a batch, in whatever world their threads
    run.  A query whose thread was not asked to stop is not cancelled. *)
Definition may_answer (resolvers : list (ResolverBase W)) (host : bytes) (type : RecordKind)
    (i : nat) (stop : bool) (r : resolution) : Prop :=
  ∃ resolver w w', resolvers !! i = Some resolver ∧ answers resolver host type w r w'
    ∧ (stop = false → ∀ e, r = inl e → ei_code e ≠ CANCELLED).

(** [order] is the permutation [std::shuffle] makes. *)
(* @fn src/src/dns/dispatcher.cpp | ResolverDispatcher::Impl::resolve_multi(const std::string &host, RecordKind type) const { ^1 | ResolverDispatcher::Impl::resolve_multi *)
Definition resolve_multi (resolvers : list (ResolverBase W)) (strategy : ResolverStrategy)
    (host : bytes) (type : RecordKind) (w : W) (result : resolution) : Prop :=
  match strategy with
  | FALLBACK => ∃ order w', order ≡ₚ seq 0 (length resolvers)
      ∧ fallback_run inet_ntop4 inet_ntop6 type_name rcode_name resolvers host type order w
        = (match result with inl e => Throw e | inr r => Ret r end, w')
  | CONCURRENT =>
      ConcurrentRunner.run host (may_answer resolvers host type) (length resolvers) result
  end.

(* @fn src/src/dns/dispatcher.cpp | ResolverDispatcher::Impl::resolve(const std::string &host, RecordKind type, std::uint32_t max_retries, ==> std::uint32_t backoff_ms) const { ^2 | ResolverDispatcher::Impl::resolve *)
Definition resolve (resolvers : list (ResolverBase W)) (strategy : ResolverStrategy)
    (host : bytes) (type : RecordKind) (max_retries backoff_ms : Z) (w : W) (result : resolution)
    : Prop :=
  match resolvers with
  | [resolver] => ∃ w', single_run inet_ntop4 inet_ntop6 type_name rcode_name resolver host type
      max_retries backoff_ms w = (Ret result, w')
  | _ => resolve_multi resolvers strategy host type w result
  end.

Lemma may_answer_records resolvers host type i b r :
  may_answer resolvers host type i b (inr r) → r ≠ [].
Proof using Type. intros (res & w & w' & _ & Ha & _). by eapply try_resolve_nonempty. Qed.

(** The retried call's result is an answer. *)
Lemma single_run_answer resolver host type max_retries backoff_ms w result w' :
  resolver_total inet_ntop4 inet_ntop6 type_name rcode_name resolver →
  (0 ≤ max_retries < 4294967295)%Z →
  single_run inet_ntop4 inet_ntop6 type_name rcode_name resolver host type
    max_retries backoff_ms w = (Ret result, w') →
  ∃ w1 w2, answers resolver host type w1 result w2.
Proof using Type.
  intros Htot Hmax. unfold single_run, Io.st_bind, mbind.
  destruct (Retry.retry_on_error _ _ _ _ w) as [[[r n]|e| |] w1] eqn:Hrun; try done. intros [= <- <-].
  apply Retry.retry_answer in Hrun as (w2 & w3 & Ha); [by exists w2, w3| |done].
  intros w0. destruct (Htot host type w0) as (res & w2 & Ha). eexists _, _. split; [exact Ha|]. by destruct res.
Qed.
End resolve.
End ResolverDispatcher.
Import ResolverDispatcher.

Lemma soft_failures_last {W} f4 f6 tn rn (resolvers : list (ResolverBase W)) host type idxs e0 w e w' :
  soft_failures f4 f6 tn rn resolvers host type idxs e0 w e w' →
  (idxs = [] ∧ e = e0)
  ∨ ∃ resolver w1 w2, resolver ∈ resolvers ∧ Dispatcher.answers f4 f6 tn rn resolver host type w1 (inl e) w2.
Proof.
  induction 1 as [e w|idx resolver idxs e0 w e1 w1 e w' Hres Hans Hd Hs IH]; [by left|right].
  destruct IH as [[-> ->]|?]; [|done]. exists resolver, w, w1. split; [|done].
  by eapply list_elem_of_lookup_2.
Qed.

(** What [resolve_sound] states of a result. *)
Definition some_answer {W} f4 f6 tn rn (resolvers : list (ResolverBase W)) host type
    (result : resolution) : Prop :=
  match result with
  | inr r => r ≠ [] ∧ ∃ resolver w1 w2, resolver ∈ resolvers
      ∧ Dispatcher.answers f4 f6 tn rn resolver host type w1 (inr r) w2
  | inl e => (resolvers = [] ∧ ei_code e = NODATA)
      ∨ ∃ resolver w1 w2 e', resolver ∈ resolvers
          ∧ Dispatcher.answers f4 f6 tn rn resolver host type w1 (inl e') w2 ∧ ei_code e' = ei_code e
  end.

Section some_answer.
Context {W : Type} `{Retry.Sleep W} (f4 f6 : bytes → bytes) (tn rn : Z → bytes).
Context (resolvers : list (ResolverBase W)) (host : bytes) (type : RecordKind).

Lemma some_answer_intro resolver w1 w2 result :
  resolver ∈ resolvers → Dispatcher.answers f4 f6 tn rn resolver host type w1 result w2 →
  some_answer f4 f6 tn rn resolvers host type result.
Proof using Type.
  intros Hin Ha. destruct result as [e|r]; simpl.
  - right. by exists resolver, w1, w2, e.
  - split; [by eapply try_resolve_nonempty|by exists resolver, w1, w2].
Qed.

Lemma fallback_sound w result :
  Forall (resolver_total f4 f6 tn rn) resolvers →
  resolve_multi f4 f6 tn rn resolvers FALLBACK host type w result →
  some_answer f4 f6 tn rn resolvers host type result.
Proof using Type.
  intros Htot (order & w' & Hperm & Hrun). unfold fallback_run in Hrun.
  destruct (fallback_loop_spec f4 f6 tn rn resolvers host type order (no_records host) w Htot)
    as (tried & rest & -> & e & w1 & Hsoft & Hrest).
  { rewrite Hperm. apply Forall_seq. lia. }
  destruct rest as [|idx rest].
  - rewrite Hrest in Hrun. destruct result; [|done]. injection Hrun as <- <-.
    destruct (soft_failures_last _ _ _ _ _ _ _ _ _ _ _ _ Hsoft) as [[-> ->]|(res & w2 & w3 & Hin & Ha)].
    + left. split; [|done]. simpl in Hperm. apply Permutation_nil_l in Hperm. by destruct resolvers.
    + by eapply some_answer_intro.
  - destruct Hrest as (res & r & w2 & Hl & Ha & Hr).
    assert (r = result) as ->.
    { destruct r as [e'|r]; [destruct Hr as [_ Hr]|]; rewrite Hr in Hrun; destruct result; congruence. }
    eapply some_answer_intro; [by eapply list_elem_of_lookup_2|done].
Qed.

Lemma concurrent_sound w result :
  resolve_multi f4 f6 tn rn resolvers CONCURRENT host type w result →
  some_answer f4 f6 tn rn resolvers host type result.
Proof using Type.
  unfold resolve_multi, ConcurrentRunner.run. intros Hrun.
  pose proof (ConcurrentRunner.rounds_sound host (may_answer f4 f6 tn rn resolvers host type)
    (length resolvers) 0 (no_records host) result
    (λ i b r, may_answer_records f4 f6 tn rn resolvers host type i b r)
    ltac:(intros i e (? & ? & ? & _ & _ & Hc); by apply Hc) Hrun) as Hs.
  destruct result as [e|r]; simpl.
  - destruct Hs as [[-> Hnil]|(i & b & e' & Hi & (res & w1 & w2 & Hl & Ha & _) & He)].
    + left. split; [|done]. destruct resolvers; [done|simpl in Hnil; lia].
    + right. exists res, w1, w2, e'. split; [by eapply list_elem_of_lookup_2|done].
  - destruct Hs as (Hne & i & b & Hi & res & w1 & w2 & Hl & Ha & _). split; [done|].
    exists res, w1, w2. split; [by eapply list_elem_of_lookup_2|done].
Qed.
End some_answer.

(** C10: Whatever the number of resolvers and the strategy, [resolve] invents
    nothing: records it returns are non-empty and the answer of one of the
    resolvers; an error it returns has the code of an answer of one of the
    resolvers, or is the NODATA error when there is no resolver at all. *)
Theorem resolve_sound {W} `{Retry.Sleep W} f4 f6 tn rn (resolvers : list (ResolverBase W))
    (strategy : ResolverStrategy) (host : bytes) (type : RecordKind) (max_retries backoff_ms : Z)
    (w : W) (result : resolution) :
  Forall (resolver_total f4 f6 tn rn) resolvers → (0 ≤ max_retries < 4294967295)%Z →
  resolve f4 f6 tn rn resolvers strategy host type max_retries backoff_ms w result →
  some_answer f4 f6 tn rn resolvers host type result.
Proof.
  intros Htot Hmax Hres.
  assert (resolve_multi f4 f6 tn rn resolvers strategy host type w result →
    some_answer f4 f6 tn rn resolvers host type result) as Hmulti
    by (destruct strategy; [by apply fallback_sound|by apply concurrent_sound]).
  unfold resolve in Hres. destruct resolvers as [|resolver [|resolver' resolvers']]; auto.
  destruct Hres as [w' Hrun].
  apply single_run_answer in Hrun as (w1 & w2 & Ha); [|by inversion Htot|done].
  eapply some_answer_intro; [|done]. by left.
Qed.

#[local] Instance no_sleep : Retry.Sleep unit := λ _ w, w.

Lemma resolve_sound_witness :
  resolve id id no_name no_name two_resolvers FALLBACK (str "a.b") KIND_A 1 50 tt
    (inr [[10; 0; 0; 7]%Z]) ∧
  ∃ resolver, resolver ∈ two_resolvers.
Proof.
  assert (resolve id id no_name no_name two_resolvers FALLBACK (str "a.b") KIND_A 1 50 tt
    (inr [[10; 0; 0; 7]%Z])) as Hres.
  { exists [1; 0], tt. split; [apply Permutation_swap|]. vm_compute. reflexivity. }
  split; [exact Hres|].
  destruct (resolve_sound id id no_name no_name two_resolvers FALLBACK (str "a.b") KIND_A 1 50 tt
    (inr [[10; 0; 0; 7]%Z])) as (_ & resolver & _ & _ & Hin & _).
  - repeat constructor; intros host type w.
    + eexists (inr [_]), w. vm_compute. reflexivity.
    + eexists (inl _), w. reflexivity.
  - lia.
  - exact Hres.
  - exists resolver. exact Hin.
Defined.
