(* ===== verification/SystemDispatcher.v ===== *)
(** [src/dns/dispatcher_system.cpp]: the dispatcher of builds over libresolv.
    Its batches share a state under a mutex and detach their threads; the
    critical sections are the steps of a transition system.  Its contract is
    compared with that of the native dispatcher ([Dispatcher], [Batch]). *)
From S2P Require Import Prelude CppString Address DnsTypes DnsParser Config Io SystemParser Retry Dispatcher Batch.
Import SystemParser.

Module SystemDispatcher.

(* @fn src/src/dns/dispatcher_system.cpp | static constexpr size_t MAX_CONCURRENT_RESOLVERS = 3 | Impl::MAX_CONCURRENT_RESOLVERS *)
Definition MAX_CONCURRENT_RESOLVERS : nat := 3.

(* @fn src/src/dns/dispatcher_system.cpp | bool ResolverDispatcher::Impl::is_retryable( | Impl::is_retryable *)
Definition is_retryable (error : DnsError) : bool :=
  match error with
  | RETRY | UNKNOWN | CONNECTION => true
  | _ => false
  end.

Section sequential.
Context {W : Type}.
Context `{NsParser} `{IT : InetText} (error_message type_name rcode_name : Z → bytes).

(* @fn src/src/dns/dispatcher_system.cpp | switch (parsed.rcode) { | Impl::try_resolve (classification) *)
Definition classify (host : bytes) (parsed : FormattedResponse) : outcome DnsErrorInfo (list bytes) :=
  let rcode := fmt_rcode parsed in
  if (rcode =? NOERROR)%Z then
    if bool_decide (fmt_records parsed ≠ []) then Ret (fmt_records parsed) else Throw (no_records host)
  else if (rcode =? NXDOMAIN)%Z then Throw {| ei_code := NX_DOMAIN; ei_message :=
      str "Domain " ++ quoted host ++ str " does not exist (NXDOMAIN)" |}
  else if (rcode =? SERVFAIL)%Z then Throw {| ei_code := RETRY; ei_message :=
      str "DNS server returned SERVFAIL for " ++ quoted host |}
  else if (rcode =? REFUSED)%Z then Throw {| ei_code := SERVER_REFUSED; ei_message :=
      str "DNS server refused query for " ++ quoted host |}
  else Throw {| ei_code := UNKNOWN; ei_message :=
      str "DNS lookup for " ++ quoted host ++ str " returned RCODE " ++ rcode_name rcode |}.

(** The parser's exception is the error. *)
(* @fn src/src/dns/dispatcher_system.cpp | ResolverDispatcher::Impl::try_resolve( | Impl::try_resolve *)
Definition try_resolve (resolver : ResolverBase W) (host : bytes) (type : RecordKind) :
    st W DnsErrorInfo (list bytes) :=
  raw ← res_query resolver host type;
  parsed ← catch (lift (parse_strings error_message type_name raw)) throw;
  lift (classify host parsed).

(** Every error, after the retries, is an empty vector. *)
(* @fn src/src/dns/dispatcher_system.cpp | ResolverDispatcher::Impl::resolve_single( | Impl::resolve_single *)
Definition resolve_single `{Sleep W} (resolver : ResolverBase W) (host : bytes) (type : RecordKind)
    (max_retries backoff_ms : Z) : st W Empty_set (list bytes) :=
  '(result, _) ← retry_on_error (try_resolve resolver host type)
    (λ e, is_retryable (ei_code e)) backoff_ms max_retries;
  match result with
  | inl _ => mret []
  | inr records => mret records
  end.

(* @fn src/src/dns/dispatcher_system.cpp | for (const auto idx: indices) { | Impl::resolve_fallback (loop) *)
Fixpoint fallback_loop (resolvers : list (ResolverBase W)) (host : bytes) (type : RecordKind) (indices : list nat) :
    st W DnsErrorInfo (list bytes) :=
  match indices with
  | [] => mret []
  | idx :: indices =>
      resolver ← lift (deref (resolvers !! idx));
      result ← attempt (try_resolve resolver host type);
      match result with
      | inr records => mret records
      | inl error =>
          match ei_code error with
          | NX_DOMAIN | PARSE | CONFIG => throw error
          | NODATA | RETRY | UNKNOWN | CONNECTION | SERVER_REFUSED | CANCELLED =>
              fallback_loop resolvers host type indices
          end
      end
  end.

(** [indices] is the shuffled index vector; the last error is only logged. *)
(* @fn src/src/dns/dispatcher_system.cpp | Impl::resolve_fallback(const std::string &host, RecordKind type) const { | Impl::resolve_fallback *)
Definition resolve_fallback (resolvers : list (ResolverBase W)) (host : bytes) (type : RecordKind) (indices : list nat) :
    st W DnsErrorInfo (list bytes) :=
  fallback_loop resolvers host type indices.
End sequential.

(** * One batch *)

(** The fields that the mutex guards.  The cancellation source has been triggered
    exactly when there is a result. *)
(* @src src/src/dns/dispatcher_system.cpp 67 79 Impl::ConcurrentState *)
Record ConcurrentState := {
  result : list bytes;
  has_result : bool;
  has_nxdomain : bool;
  definitive_error : option DnsErrorInfo;
  transient_error : option DnsErrorInfo;
  completed : Z
}.

Definition fresh_state : ConcurrentState :=
  {| result := []; has_result := false; has_nxdomain := false; definitive_error := None;
     transient_error := None; completed := 0 |}.

(** The fastest resolver's records are kept, and trigger the cancellation. *)
(* @fn src/src/dns/dispatcher_system.cpp | if (result) { ==> if (!state->has_result) { | Impl::dispatch_query (success) *)
Definition record_result (records : list bytes) (s : ConcurrentState) : ConcurrentState :=
  if has_result s then s else
  {| result := records; has_result := true; has_nxdomain := has_nxdomain s;
     definitive_error := definitive_error s; transient_error := transient_error s; completed := completed s |}.

(** [if (!error.has_value()) error = e;] *)
Definition keep_first (old : option DnsErrorInfo) (e : DnsErrorInfo) : option DnsErrorInfo :=
  match old with None => Some e | Some _ => old end.

(** A refusal replaces any definitive error but NXDOMAIN. *)
Definition keep_nxdomain (old : option DnsErrorInfo) (e : DnsErrorInfo) : option DnsErrorInfo :=
  match old with
  | Some old' => if bool_decide (ei_code old' = NX_DOMAIN) then old else Some e
  | None => Some e
  end.

Definition with_errors (nx : bool) (definitive transient : option DnsErrorInfo) (s : ConcurrentState) :
    ConcurrentState :=
  {| result := result s; has_result := has_result s; has_nxdomain := nx;
     definitive_error := definitive; transient_error := transient; completed := completed s + 1 |}.

(* @fn src/src/dns/dispatcher_system.cpp | switch (err_code) { | Impl::dispatch_query (errors) *)
Definition record_error (error : DnsErrorInfo) (s : ConcurrentState) : ConcurrentState :=
  match ei_code error with
  | RETRY | UNKNOWN | CONNECTION =>
      with_errors (has_nxdomain s) (definitive_error s) (keep_first (transient_error s) error) s
  | NX_DOMAIN => with_errors true (keep_first (definitive_error s) error) (transient_error s) s
  | SERVER_REFUSED =>
      with_errors (has_nxdomain s) (keep_nxdomain (definitive_error s) error) (transient_error s) s
  | NODATA => with_errors (has_nxdomain s) (definitive_error s) (transient_error s) s
  | PARSE | CONFIG | CANCELLED =>
      with_errors (has_nxdomain s) (keep_first (definitive_error s) error) (transient_error s) s
  end.

(** What a thread does once its query is answered, in one critical section; a
    cancelled one does nothing at all. *)
(* @fn src/src/dns/dispatcher_system.cpp | void ResolverDispatcher::Impl::dispatch_query( | Impl::dispatch_query *)
Definition dispatch_query (answer : resolution) (s : ConcurrentState) : ConcurrentState :=
  match answer with
  | inr records => record_result records s
  | inl error => if bool_decide (ei_code error = CANCELLED) then s else record_error error s
  end.

(** ** Interleavings *)

Inductive pc := NotStarted | Querying | Answered (r : resolution) | Gone.

(** [t_answer] is the answer its query got (not read by any step). *)
Record thread := { t_pc : pc; t_answer : option resolution }.

(** The thread that runs [resolve_concurrent]: launching, in [cv.wait], past it
    with the state that it found. *)
(* @src src/src/dns/dispatcher_system.cpp 391 428 Impl::resolve_concurrent (control points) *)
Inductive main_pc := Launching (i : nat) | InWait | Woken (found : ConcurrentState).

Record batch := { main : main_pc; threads : list thread; shared : ConcurrentState }.

(* @fn src/src/dns/dispatcher_system.cpp | state->cv.wait(lock, [&state] | Impl::resolve_concurrent (wait) *)
Definition wakes (total : nat) (s : ConcurrentState) : bool :=
  has_result s || (completed s =? Z.of_nat total)%Z.

Definition init (total : nat) : batch :=
  {| main := Launching 0; threads := replicate total {| t_pc := NotStarted; t_answer := None |};
     shared := fresh_state |}.

(** [can i triggered r]: the query of resolver [i] may be answered by [r], the
    cancellation having been triggered or not.  The threads are detached: they
    go on after the waiting thread. *)
(* @src src/src/dns/dispatcher_system.cpp 391 428 Impl::resolve_concurrent (batch) *)
Inductive step (can : nat → bool → resolution → Prop) : batch → batch → Prop :=
| step_launch i ts s t :
    ts !! i = Some t →
    step can {| main := Launching i; threads := ts; shared := s |}
      {| main := Launching (S i); threads := <[i := {| t_pc := Querying; t_answer := None |}]> ts; shared := s |}
| step_launched i ts s :
    i = length ts →
    step can {| main := Launching i; threads := ts; shared := s |} {| main := InWait; threads := ts; shared := s |}
| step_query m i ts s t r :
    ts !! i = Some t → t_pc t = Querying → can i (has_result s) r →
    step can {| main := m; threads := ts; shared := s |}
      {| main := m; threads := <[i := {| t_pc := Answered r; t_answer := Some r |}]> ts; shared := s |}
| step_dispatch m i ts s t r :
    ts !! i = Some t → t_pc t = Answered r →
    step can {| main := m; threads := ts; shared := s |}
      {| main := m; threads := <[i := {| t_pc := Gone; t_answer := t_answer t |}]> ts; shared := dispatch_query r s |}
| step_wake ts s :
    wakes (length ts) s = true →
    step can {| main := InWait; threads := ts; shared := s |} {| main := Woken s; threads := ts; shared := s |}.

Definition reachable (can : nat → bool → resolution → Prop) (total : nat) : batch → Prop := rtc (step can) (init total).

(** ** The batches of [resolve_concurrent] *)

(** What the loop does with the state that it found: leave, with records or an
    exception, or go on with a last error. *)
(* @src src/src/dns/dispatcher_system.cpp 430 452 Impl::resolve_concurrent (after a batch) *)
Definition after_batch (last_error : DnsErrorInfo) (s : ConcurrentState) :
    outcome DnsErrorInfo (list bytes) + DnsErrorInfo :=
  if has_result s then inl (Ret (result s)) else
  if has_nxdomain s then inl (match definitive_error s with Some e => Throw e | None => Undef end) else
  match definitive_error s with
  | Some e =>
      if negb (is_retryable (ei_code e)) && negb (bool_decide (ei_code e = SERVER_REFUSED))
      then inl (Throw e) else inr e
  | None => inr (default last_error (transient_error s))
  end.

Section concurrent.
Context (can : nat → bool → resolution → Prop) (total : nat).

Definition batch_finds (offset n : nat) (found : ConcurrentState) : Prop :=
  ∃ b, reachable (λ i, can (offset + i)) n b ∧ main b = Woken found.

(* @fn src/src/dns/dispatcher_system.cpp | for (size_t offset = 0; offset < total; | Impl::resolve_concurrent (loop) *)
Inductive rounds : nat → DnsErrorInfo → outcome DnsErrorInfo (list bytes) → Prop :=
| rounds_end offset last_error : total ≤ offset → rounds offset last_error (Ret [])
| rounds_leave offset last_error found final :
    offset < total →
    batch_finds offset (min (offset + MAX_CONCURRENT_RESOLVERS) total - offset) found →
    after_batch last_error found = inl final →
    rounds offset last_error final
| rounds_next offset last_error found last_error' final :
    offset < total →
    batch_finds offset (min (offset + MAX_CONCURRENT_RESOLVERS) total - offset) found →
    after_batch last_error found = inr last_error' →
    rounds (offset + MAX_CONCURRENT_RESOLVERS) last_error' final →
    rounds offset last_error final.

(* @fn src/src/dns/dispatcher_system.cpp | Impl::resolve_concurrent(const std::string &host, RecordKind type) const { | Impl::resolve_concurrent *)
Definition resolve_concurrent (host : bytes) : outcome DnsErrorInfo (list bytes) → Prop :=
  rounds 0 (no_records host).
End concurrent.

(** * The dispatcher *)

Section resolve.
Context {W : Type} `{Sleep W}.
Context `{NsParser} `{IT : InetText} (error_message type_name rcode_name : Z → bytes).
Context (resolvers : list (ResolverBase W)) (host : bytes) (type : RecordKind).

(** The answers the resolvers may give a batch, in whatever world their threads
    run.  A query is not cancelled before the cancellation is triggered. *)
Definition may_answer (i : nat) (triggered : bool) (r : resolution) : Prop :=
  ∃ resolver w w', resolvers !! i = Some resolver
    ∧ try_resolve error_message type_name rcode_name resolver host type w
      = (match r with inl e => Throw e | inr records => Ret records end, w')
    ∧ (triggered = false → ∀ e, r = inl e → ei_code e ≠ CANCELLED).

(** [order] is the permutation [std::shuffle] makes. *)
(* @fn src/src/dns/dispatcher_system.cpp | Impl::resolve_multi(const std::string &host, RecordKind type) const { | Impl::resolve_multi *)
Definition resolve_multi (strategy : ResolverStrategy) (w : W) (final : outcome DnsErrorInfo (list bytes)) : Prop :=
  match strategy with
  | FALLBACK => ∃ order w', order ≡ₚ seq 0 (length resolvers)
      ∧ resolve_fallback error_message type_name rcode_name resolvers host type order w = (final, w')
  | CONCURRENT => resolve_concurrent may_answer (length resolvers) host final
  end.

(** The exceptions are the errors of the result. *)
(* @fn src/src/dns/dispatcher_system.cpp | ResolverDispatcher::Impl::resolve(const std::string &host | Impl::resolve *)
Definition resolve (strategy : ResolverStrategy) (max_retries backoff_ms : Z) (w : W) (final : resolution) : Prop :=
  match resolvers with
  | [resolver] => ∃ records w', final = inr records
      ∧ resolve_single error_message type_name rcode_name resolver host type max_retries backoff_ms w
        = (Ret records, w')
  | _ => resolve_multi strategy w (match final with inl e => Throw e | inr records => Ret records end)
  end.
End resolve.
End SystemDispatcher.
Import SystemDispatcher.

(** * The sequential strategies and the native ones *)

(** What a caller that falls back to an empty vector makes of a result:
    [Updater::Impl::dns_lookup]. *)
Definition value_or_empty (r : resolution) : list bytes :=
  match r with inl _ => [] | inr records => records end.

(** A resolver of this build and one of the native build, on one world, that
    answer a query alike. *)
Section agreement.
Context {W : Type} `{NsParser} `{IT : InetText} (error_message type_name rcode_name : Z → bytes).
Context (f4 f6 : bytes → bytes) (tn rn : Z → bytes) (host : bytes) (type : RecordKind).

Abbreviation native r := (Dispatcher.try_resolve f4 f6 tn rn r host type).
Abbreviation system r := (try_resolve error_message type_name rcode_name r host type).

Definition agree (s n : ResolverBase W) : Prop := ∀ w, system s w = native n w.

Lemma resolve_single_agrees `{Sleep W} s n max_retries backoff_ms w result w' :
  agree s n →
  single_run f4 f6 tn rn n host type max_retries backoff_ms w = (Ret result, w') →
  resolve_single error_message type_name rcode_name s host type max_retries backoff_ms w
  = (Ret (value_or_empty result), w').
Proof using Type.
  intros Ha. unfold single_run, resolve_single, mbind, st_bind.
  rewrite (retry_ext (system s) (native n) (λ e, is_retryable (ei_code e)) (λ e, Dispatcher.is_retryable (ei_code e)))
    by (done || by intros e; destruct (ei_code e)).
  destruct (retry_on_error _ _ _ _ w) as [[[r k]|e| |] w1]; try done. intros [= <- <-]. by destruct r.
Qed.

(** The same definitive errors leave both loops; they differ in what they make
    of the last soft one. *)
Lemma fallback_agrees (ss ns : list (ResolverBase W)) indices last_error w o w' :
  Forall2 agree ss ns →
  Dispatcher.fallback_loop f4 f6 tn rn ns host type indices last_error w = (o, w') →
  ∃ o', fallback_loop error_message type_name rcode_name ss host type indices w = (o', w')
    ∧ match o with Throw e => o' = Throw e ∨ o' = Ret [] | _ => o' = o end.
Proof using Type.
  intros Ha. revert last_error w. induction indices as [|idx indices IH]; intros last_error w;
    cbn [Dispatcher.fallback_loop fallback_loop].
  { intros [= <- <-]. eexists. split; [done|by right]. }
  unfold mbind, st_bind, lift, deref, attempt. destruct (proj1 (Forall2_lookup _ _ _) Ha idx) as [s n Hsn|]; [|intros [= <- <-]; by eexists].
  rewrite (Hsn w). destruct (native n w) as [[r|e| |] w1]; try (intros [= <- <-]; by eexists).
  destruct (is_definitive (ei_code e)) eqn:Hd.
  - intros [= <- <-]. destruct (ei_code e) eqn:He; try done; eexists; (split; [reflexivity|by left]).
  - intros Hn. destruct (IH e w1 Hn) as (o' & Ho & Hc). exists o'. split; [by destruct (ei_code e)|done].
Qed.
End agreement.

(** * Batches *)

(** The error of a resolver that has answered with one. *)
Definition failed_with (ts : list thread) (e : DnsErrorInfo) : Prop :=
  ∃ j t, ts !! j = Some t ∧ t_answer t = Some (inl e).

(** Whether a thread has counted itself. *)
Definition counted (t : thread) : nat :=
  match t_pc t, t_answer t with
  | Gone, Some (inl e) => if bool_decide (ei_code e = CANCELLED) then 0 else 1
  | _, _ => 0
  end.

Definition consistent (s : ConcurrentState) (t : thread) : Prop :=
  match t_pc t with
  | NotStarted | Querying => t_answer t = None
  | Answered r => t_answer t = Some r
  | Gone => t_answer t ≠ None
      ∧ (∀ r, t_answer t = Some (inr r) → has_result s = true)
      ∧ (∀ e, t_answer t = Some (inl e) → ei_code e = NX_DOMAIN → has_nxdomain s = true)
  end
  ∧ ∀ e, t_answer t = Some (inl e) → ei_code e = CANCELLED → has_result s = true.

(** What the shared state says of the answers. *)
Record traces (ts : list thread) (s : ConcurrentState) : Prop := {
  tr_count : completed s = Z.of_nat (sum_with counted ts);
  tr_result : has_result s = true → ∃ j t, ts !! j = Some t ∧ t_answer t = Some (inr (result s));
  tr_definitive e : definitive_error s = Some e →
    failed_with ts e ∧ is_retryable (ei_code e) = false ∧ ei_code e ≠ NODATA;
  tr_transient e : transient_error s = Some e → failed_with ts e ∧ is_retryable (ei_code e) = true;
  tr_nxdomain : has_nxdomain s = true → definitive_error s ≠ None ∧ ∃ e, failed_with ts e ∧ ei_code e = NX_DOMAIN
}.

Definition launching (i : nat) (m : main_pc) : Prop := match m with Launching k => k ≤ i | _ => False end.

Record batch_inv (n : nat) (b : batch) : Prop := {
  bi_length : length (threads b) = n;
  bi_started i t : threads b !! i = Some t → (t_pc t = NotStarted ↔ launching i (main b));
  bi_launch k : main b = Launching k → k ≤ n;
  bi_threads i t : threads b !! i = Some t → consistent (shared b) t;
  bi_traces : traces (threads b) (shared b);
  bi_found found : main b = Woken found → wakes n found = true
    ∧ (if has_result found then ∃ j t, threads b !! j = Some t ∧ t_answer t = Some (inr (result found))
       else shared b = found)
}.

(** Answers are not forgotten. *)
Definition answers_kept (ts ts' : list thread) : Prop :=
  ∀ j t a, ts !! j = Some t → t_answer t = Some a → ∃ t', ts' !! j = Some t' ∧ t_answer t' = Some a.

Lemma sys_answers_kept_insert ts i t t' :
  ts !! i = Some t → (t_answer t = None ∨ t_answer t' = t_answer t) → answers_kept ts (<[i:=t']> ts).
Proof.
  intros Hi Ha j u a Hj Hu. destruct (decide (j = i)) as [->|Hne].
  - exists t'. rewrite list_lookup_insert_eq by (by eapply lookup_lt_Some). split; [done|]. destruct Ha; congruence.
  - exists u. by rewrite list_lookup_insert_ne.
Qed.

Lemma failed_with_kept ts ts' e : answers_kept ts ts' → failed_with ts e → failed_with ts' e.
Proof. intros Hk (j & t & Hj & Ht). destruct (Hk j t _ Hj Ht) as (t' & ? & ?). by exists j, t'. Qed.

Lemma found_kept ts ts' found : answers_kept ts ts' →
  (∃ j t, ts !! j = Some t ∧ t_answer t = Some (inr (result found))) →
  ∃ j t, ts' !! j = Some t ∧ t_answer t = Some (inr (result found)).
Proof. intros Hk (j & t & Hj & Ht). destruct (Hk j t _ Hj Ht) as (t' & ? & ?). by exists j, t'. Qed.

(** Threads that change without being counted. *)
Lemma traces_kept ts ts' s :
  answers_kept ts ts' → sum_with counted ts' = sum_with counted ts → traces ts s → traces ts' s.
Proof.
  intros Hk Hc [Hcnt Hres Hdef Htr Hnx]. constructor.
  - by rewrite Hc.
  - intros Hr. destruct (Hres Hr) as (j & t & Hj & Ht). destruct (Hk j t _ Hj Ht) as (t' & ? & ?). by exists j, t'.
  - intros e He. destruct (Hdef e He) as (? & ? & ?). split; [by eapply failed_with_kept|done].
  - intros e He. destruct (Htr e He) as (? & ?). split; [by eapply failed_with_kept|done].
  - intros Hn. destruct (Hnx Hn) as (? & e & ? & ?). split; [done|]. exists e. split; [by eapply failed_with_kept|done].
Qed.

Lemma record_error_fields e s :
  result (record_error e s) = result s ∧ has_result (record_error e s) = has_result s
  ∧ completed (record_error e s) = (completed s + 1)%Z
  ∧ has_nxdomain (record_error e s) = has_nxdomain s || bool_decide (ei_code e = NX_DOMAIN).
Proof. unfold record_error. destruct (ei_code e); simpl; rewrite ?orb_false_r, ?orb_true_r; done. Qed.

Lemma dispatch_monotone r s :
  (has_result s = true → has_result (dispatch_query r s) = true)
  ∧ (has_nxdomain s = true → has_nxdomain (dispatch_query r s) = true).
Proof.
  destruct r as [e|r]; simpl.
  - case_bool_decide; [done|]. destruct (record_error_fields e s) as (_ & -> & _ & ->). by destruct (has_nxdomain s).
  - unfold record_result. by destruct (has_result s) eqn:?; simpl.
Qed.

Lemma sys_consistent_kept s s' t :
  (has_result s = true → has_result s' = true) → (has_nxdomain s = true → has_nxdomain s' = true) →
  consistent s t → consistent s' t.
Proof.
  intros Hr Hn [Hp Hc]. split; [|by eauto]. destruct (t_pc t); try done.
  destruct Hp as (? & ? & ?). split_and!; eauto.
Qed.

Lemma keep_some o e : keep_first o e ≠ None ∧ keep_nxdomain o e ≠ None.
Proof. destruct o; simpl; [case_bool_decide|]; done. Qed.

Definition gone (t : thread) : thread := {| t_pc := Gone; t_answer := t_answer t |}.

Lemma traces_error ts i t e s :
  traces ts s → ts !! i = Some t → t_pc t = Answered (inl e) → t_answer t = Some (inl e) → ei_code e ≠ CANCELLED →
  traces (<[i := gone t]> ts) (record_error e s).
Proof.
  intros Htr Hi Hp Ha Hc. pose proof (sum_with_insert counted ts i t (gone t) Hi) as Hsum.
  assert (counted t = 0) as Ht by (unfold counted; by rewrite Hp).
  assert (counted (gone t) = 1) as Ht' by (unfold counted; simpl; rewrite Ha; by rewrite bool_decide_false).
  rewrite Ht, Ht' in Hsum.
  assert (answers_kept ts (<[i := gone t]> ts)) as Hk by (apply (sys_answers_kept_insert _ _ _ _ Hi); by right).
  assert (failed_with (<[i := gone t]> ts) e) as He by (eapply failed_with_kept; [done|by exists i, t]).
  destruct Htr as [Hcnt Hres Hdef Htrans Hnx].
  destruct (record_error_fields e s) as (Hr & Hh & Hcomp & Hn).
  constructor.
  - rewrite Hcomp, Hcnt. lia.
  - rewrite Hr, Hh. intros Hs. by apply (found_kept _ _ s Hk), Hres.
  - intros e' He'. assert (e' = e ∧ is_retryable (ei_code e) = false ∧ ei_code e ≠ NODATA ∨ definitive_error s = Some e') as [(-> & ? & ?)|Hd].
    { unfold record_error in He'. destruct (ei_code e) eqn:Hce; simpl in He'; try (by right);
        unfold keep_first, keep_nxdomain in He'; destruct (definitive_error s) as [old|]; try case_bool_decide; simplify_eq; auto. }
    + done.
    + destruct (Hdef _ Hd) as (? & ?). split; [by eapply failed_with_kept|done].
  - intros e' He'. assert (e' = e ∧ is_retryable (ei_code e) = true ∨ transient_error s = Some e') as [[-> ?]|Hd].
    { unfold record_error in He'. destruct (ei_code e) eqn:Hce; simpl in He'; try (by right);
        unfold keep_first in He'; destruct (transient_error s) as [old|]; simplify_eq; auto. }
    + done.
    + destruct (Htrans _ Hd) as (? & ?). split; [by eapply failed_with_kept|done].
  - rewrite Hn. intros [Hs|Hs]%orb_true_iff; prop_of_bool.
    + destruct (Hnx Hs) as (Hd & e' & ? & ?). split; [|exists e'; split; [by eapply failed_with_kept|done]].
      unfold record_error. destruct (ei_code e); simpl; first [done|apply keep_some].
    + split; [|by exists e]. unfold record_error. rewrite Hs. apply keep_some.
Qed.

Lemma traces_dispatch ts i t r s :
  traces ts s → ts !! i = Some t → t_pc t = Answered r → consistent s t →
  traces (<[i := gone t]> ts) (dispatch_query r s).
Proof.
  intros Htr Hi Hp [Hcons Hcanc]. rewrite Hp in Hcons.
  assert (answers_kept ts (<[i := gone t]> ts)) as Hk by (apply (sys_answers_kept_insert _ _ _ _ Hi); by right).
  assert (counted t = 0) as Ht by (unfold counted; by rewrite Hp).
  pose proof (sum_with_insert counted ts i t (gone t) Hi) as Hsum.
  assert (counted (gone t) = 0 → traces (<[i := gone t]> ts) s) as Hkeep
    by (intros Hg; apply (traces_kept ts); [done|lia|done]).
  destruct r as [e|records]; simpl.
  - case_bool_decide as Hc; [|by apply traces_error].
    apply Hkeep. unfold counted. simpl. rewrite Hcons. by rewrite bool_decide_true.
  - specialize (Hkeep ltac:(unfold counted; simpl; by rewrite Hcons)).
    unfold record_result. destruct (has_result s) eqn:Hs; [done|].
    destruct Hkeep as [Hcnt Hres Hdef Htrans Hnx]. constructor; simpl; try done.
    intros _. exists i, (gone t). split; [|done]. apply list_lookup_insert_eq. by eapply lookup_lt_Some.
Qed.

Lemma consistent_dispatch t r s :
  t_pc t = Answered r → consistent s t → consistent (dispatch_query r s) (gone t).
Proof.
  intros Hp [Ha Hc]. rewrite Hp in Ha. destruct (dispatch_monotone r s) as [Hr Hn].
  split; simpl; [|intros e He Hce; apply Hr; by eapply Hc].
  rewrite Ha. split_and!; [done|intros records [= ->]|intros e [= ->] He].
  - simpl. unfold record_result. by destruct (has_result s) eqn:?.
  - simpl. rewrite bool_decide_false by (by rewrite He). destruct (record_error_fields e s) as (_ & _ & _ & ->).
    rewrite bool_decide_true by done. by rewrite orb_true_r.
Qed.

Lemma counted_le t : counted t ≤ 1.
Proof. unfold counted. repeat case_match; lia. Qed.

(** When all have counted themselves, each has. *)
Lemma all_counted ts i t : sum_with counted ts = length ts → ts !! i = Some t → counted t = 1.
Proof.
  revert i. induction ts as [|u ts IH]; intros i Hsum Hi; [done|].
  assert (sum_with counted ts ≤ length ts) as Hle
    by (rewrite <- sum_with_length; apply sum_with_le; intros; apply counted_le).
  pose proof (counted_le u). change (sum_with counted (u :: ts)) with (counted u + sum_with counted ts) in Hsum.
  simpl in Hsum. destruct i as [|i]; [injection Hi as <-; lia|]. by apply (IH i); [lia|].
Qed.

Lemma counted_inv t : counted t = 1 → t_pc t = Gone ∧ ∃ e, t_answer t = Some (inl e) ∧ ei_code e ≠ CANCELLED.
Proof.
  unfold counted. intros Hc. destruct (t_pc t); try done. destruct (t_answer t) as [[e|r]|] eqn:Ha; try done.
  case_bool_decide; [done|]. split; [done|]. by exists e.
Qed.

Section batches.
Context (can : nat → bool → resolution → Prop) (n : nat).
(** A query is not cancelled before the cancellation is triggered. *)
Context (can_cancelled : ∀ i e, can i false (inl e) → ei_code e ≠ CANCELLED).

Lemma batch_inv_init : batch_inv n (init n).
Proof using Type.
  constructor; simpl.
  - by rewrite length_replicate.
  - intros i t Hi. apply lookup_replicate in Hi as [-> Hi]. simpl. split; [lia|done].
  - intros k [= <-]. lia.
  - intros i t Hi. by apply lookup_replicate in Hi as [-> Hi].
  - constructor; simpl; try done. induction n as [|m IH]; [done|]. exact IH.
  - done.
Qed.

(** A thread that has been started changes, and perhaps the shared state. *)
Lemma batch_inv_update m ts s s' i t t' :
  batch_inv n {| main := m; threads := ts; shared := s |} → ts !! i = Some t →
  t_pc t ≠ NotStarted → t_pc t' ≠ NotStarted → counted t = 0 →
  (t_answer t = None ∨ t_answer t' = t_answer t) →
  (has_result s = true → has_result s' = true) → (has_nxdomain s = true → has_nxdomain s' = true) →
  consistent s' t' → traces (<[i := t']> ts) s' →
  (∀ found, m = Woken found → has_result found = false → s' = s) →
  batch_inv n {| main := m; threads := <[i := t']> ts; shared := s' |}.
Proof using Type.
  intros [Hlen Hst Hl Hthr Htr Hf] Hi Hns Hns' Hcnt Ha Hr Hn Hc Htr' Hsame. constructor; simpl in *.
  - by rewrite length_insert.
  - intros j u Hu. apply list_lookup_insert_Some in Hu as [(-> & -> & _)|[_ Hu]]; [|by apply Hst].
    split; [done|]. intros Hk. by apply (Hst _ _ Hi) in Hk.
  - done.
  - intros j u Hu. apply list_lookup_insert_Some in Hu as [(-> & -> & _)|[_ Hu]]; [done|].
    eapply sys_consistent_kept; [done|done|by eapply Hthr].
  - done.
  - intros found Hfound. destruct (Hf found Hfound) as [Hw Hres]. split; [done|].
    destruct (has_result found) eqn:Hhr.
    + eapply found_kept; [by apply (sys_answers_kept_insert _ _ _ _ Hi)|done].
    + rewrite <- Hres. by eapply Hsame.
Qed.

Lemma batch_inv_launch i ts s t :
  batch_inv n {| main := Launching i; threads := ts; shared := s |} → ts !! i = Some t →
  batch_inv n {| main := Launching (S i); threads := <[i := {| t_pc := Querying; t_answer := None |}]> ts; shared := s |}.
Proof using Type.
  intros [Hlen Hst Hl Hthr Htr Hf] Hi. simpl in *. pose proof (lookup_lt_Some _ _ _ Hi) as Hlt.
  assert (t_pc t = NotStarted) as Hns by (apply (Hst i t Hi); simpl; lia).
  assert (t_answer t = None) as Hna by (destruct (Hthr i t Hi) as [Ha _]; by rewrite Hns in Ha).
  constructor; simpl.
  - by rewrite length_insert.
  - intros j u Hu. apply list_lookup_insert_Some in Hu as [(-> & <- & _)|[Hne Hu]].
    + simpl. split; [done|lia].
    + rewrite (Hst j u) by done. simpl. lia.
  - intros k [= <-]. lia.
  - intros j u Hu. apply list_lookup_insert_Some in Hu as [(-> & <- & _)|[Hne Hu]]; [done|by eapply Hthr].
  - apply (traces_kept ts); [apply (sys_answers_kept_insert _ _ _ _ Hi); by left| |done].
    pose proof (sum_with_insert counted ts i t {| t_pc := Querying; t_answer := None |} Hi) as Hsum.
    unfold counted at 2 4 in Hsum. rewrite Hns in Hsum. simpl in Hsum. lia.
  - done.
Qed.

Lemma batch_inv_step b b' : batch_inv n b → step can b b' → batch_inv n b'.
Proof using can_cancelled.
  intros Hinv Hstep. pose proof Hinv as [Hlen Hst Hl Hthr Htr Hf].
  destruct Hstep as [i ts s t Hi|i ts s Hi|m i ts s t r Hi Hp Hr|m i ts s t r Hi Hp|ts s Hw]; simpl in *.
  - by eapply batch_inv_launch.
  - constructor; simpl; try done. intros j t Hj. rewrite (Hst j t Hj). simpl. split; [|done].
    intros Hk. apply lookup_lt_Some in Hj. lia.
  - assert (t_answer t = None) as Hna by (destruct (Hthr i t Hi) as [Ha _]; by rewrite Hp in Ha).
    apply (batch_inv_update m ts s s i t); try done; rewrite ?Hp; try done; [unfold counted; by rewrite Hp|by left| |].
    + split; simpl; [done|]. intros e [= ->] Hc. destruct (has_result s) eqn:Hs; [done|].
      by destruct (can_cancelled i e).
    + apply (traces_kept ts); [apply (sys_answers_kept_insert _ _ _ _ Hi); by left| |done].
      pose proof (sum_with_insert counted ts i t {| t_pc := Answered r; t_answer := Some r |} Hi) as Hsum.
      unfold counted at 2 4 in Hsum. rewrite Hp in Hsum. simpl in Hsum. lia.
  - assert (counted t = 0) as Hcnt by (unfold counted; by rewrite Hp).
    destruct (dispatch_monotone r s) as [Hres Hnx].
    apply (batch_inv_update m ts s (dispatch_query r s) i t (gone t)); try done; rewrite ?Hp; try done; [by right|..].
    + apply consistent_dispatch; [done|by eapply Hthr].
    + apply traces_dispatch; [done|done|done|by eapply Hthr].
    + intros found -> Hfr. exfalso. destruct (Hf found eq_refl) as [Hw Hs]. rewrite Hfr in Hs. subst found.
      unfold wakes in Hw. rewrite Hfr in Hw. simpl in Hw. prop_of_bool.
      pose proof (tr_count _ _ Htr) as Hc. rewrite Hw in Hc.
      rewrite (all_counted ts i t ltac:(lia) Hi) in Hcnt. done.
  - constructor; simpl; try done.
    intros found [= <-]. rewrite Hlen in Hw. split; [done|]. destruct (has_result s) eqn:Hs; [|done].
    by apply (tr_result _ _ Htr).
Qed.

Lemma batch_inv_reachable b : reachable can n b → batch_inv n b.
Proof using can_cancelled.
  intros Hr. apply (rtc_ind_r (batch_inv n) (init n)) in Hr; [done|apply batch_inv_init|].
  intros b1 b2 _ Hs IH. by eapply batch_inv_step.
Qed.

(** A batch that has been given up has been answered with errors only. *)
Lemma all_failed ts s :
  traces ts s → has_result s = false → wakes (length ts) s = true →
  ∀ i t, ts !! i = Some t → t_pc t = Gone ∧ ∃ e, t_answer t = Some (inl e) ∧ ei_code e ≠ CANCELLED.
Proof using Type.
  intros Htr Hs Hw i t Hi. apply counted_inv, (all_counted ts i); [|done].
  pose proof (tr_count _ _ Htr) as Hc. unfold wakes in Hw. rewrite Hs in Hw. simpl in Hw. prop_of_bool. lia.
Qed.
End batches.

(** ** Termination and progress *)

Definition pc_rank (p : pc) : nat :=
  match p with NotStarted => 3 | Querying => 2 | Answered _ => 1 | Gone => 0 end.

Definition main_rank (n : nat) (m : main_pc) : nat :=
  match m with Launching i => n - i + 2 | InWait => 1 | Woken _ => 0 end.

Definition measure (b : batch) : nat :=
  main_rank (length (threads b)) (main b) + sum_with (λ t, pc_rank (t_pc t)) (threads b).

Section progress.
Context (can : nat → bool → resolution → Prop) (n : nat).

Lemma sys_step_measure b b' :
  (∀ i t, threads b !! i = Some t → (t_pc t = NotStarted ↔ launching i (main b))) →
  step can b b' → measure b' < measure b.
Proof using Type.
  intros Hst Hstep. unfold measure.
  destruct Hstep as [i ts s t Hi|i ts s Hi|m i ts s t r Hi Hp Hr|m i ts s t r Hi Hp|ts s Hw]; simpl in *;
    rewrite ?length_insert; try lia.
  - pose proof (sum_with_insert (λ t, pc_rank (t_pc t)) ts i t {| t_pc := Querying; t_answer := None |} Hi) as Hs.
    assert (t_pc t = NotStarted) as Hns by (apply (Hst i t Hi); simpl; lia).
    simpl in Hs. rewrite Hns in Hs. simpl in Hs. lia.
  - pose proof (sum_with_insert (λ t, pc_rank (t_pc t)) ts i t {| t_pc := Answered r; t_answer := Some r |} Hi) as Hs.
    simpl in Hs. rewrite Hp in Hs. simpl in Hs. lia.
  - pose proof (sum_with_insert (λ t, pc_rank (t_pc t)) ts i t (gone t) Hi) as Hs.
    simpl in Hs. rewrite Hp in Hs. simpl in Hs. unfold gone in Hs. lia.
Qed.

Lemma sys_measure_init : measure (init n) = 4 * n + 2.
Proof using Type.
  unfold measure. cbn [init main threads main_rank]. rewrite length_replicate.
  assert (sum_with (λ t, pc_rank (t_pc t)) (replicate n {| t_pc := NotStarted; t_answer := None |}) = 3 * n) as ->; [|lia].
  unfold sum_with. induction n as [|m IH]; [done|]. cbn [replicate map sum_list]. unfold sum_list in *. simpl in *. lia.
Qed.

Context (can_cancelled : ∀ i e, can i false (inl e) → ei_code e ≠ CANCELLED).

Lemma sys_nsteps_measure k b : nsteps (step can) k (init n) b → measure b + k ≤ 4 * n + 2.
Proof using can_cancelled.
  rewrite <- sys_measure_init. pose proof (batch_inv_init n) as Hinit. revert Hinit. generalize (init n).
  intros b0 Hinit Hk. induction Hk as [b|k b1 b2 b3 Hstep Hk IH]; [lia|].
  pose proof (sys_step_measure _ _ (bi_started _ _ Hinit) Hstep).
  specialize (IH (batch_inv_step can n can_cancelled _ _ Hinit Hstep)). lia.
Qed.

Lemma all_gone_or (ts : list thread) :
  (∀ i t, ts !! i = Some t → t_pc t = Gone) ∨ (∃ i t, ts !! i = Some t ∧ t_pc t ≠ Gone).
Proof using Type.
  induction ts as [|u ts [IH|(i & t & Hi & Ht)]]; [by left| |by right; exists (S i), t].
  destruct (t_pc u) eqn:Hu; try (right; exists 0, u; split; [done|congruence]).
  left. intros [|i] t Hi; simpl in Hi; [congruence|by eapply IH].
Qed.

(** The waiting thread is never left alone with threads that have all gone. *)
Lemma batch_progress b :
  batch_inv n b → (∀ i tr, ∃ r, can i tr r) → (∃ found, main b = Woken found) ∨ ∃ b', step can b b'.
Proof using Type.
  intros [Hlen Hst Hl Hthr Htr Hf] Hcan. destruct b as [m ts s]. simpl in *.
  destruct m as [i| |found]; [right|right|by left; exists found].
  - destruct (ts !! i) as [t|] eqn:Hi; [eexists; by eapply step_launch|].
    eexists. apply step_launched. apply lookup_ge_None in Hi. specialize (Hl i eq_refl). lia.
  - destruct (wakes (length ts) s) eqn:Hw; [eexists; by apply step_wake|].
    destruct (all_gone_or ts) as [Hall|(i & t & Hi & Ht)].
    + exfalso. unfold wakes in Hw. apply orb_false_iff in Hw as [Hr Hc]. prop_of_bool. apply Hc.
      rewrite (tr_count _ _ Htr). f_equal. rewrite <- (sum_with_length ts). apply Nat.le_antisymm.
      * apply sum_with_le. intros. apply counted_le.
      * apply sum_with_le. intros i t Hi. unfold counted. rewrite (Hall i t Hi).
        destruct (Hthr i t Hi) as [Hgone Hcanc]. rewrite (Hall i t Hi) in Hgone. destruct Hgone as (Hans & Hrec & _).
        destruct (t_answer t) as [[e|r]|] eqn:Ha; [|by specialize (Hrec r eq_refl); congruence|done].
        case_bool_decide; [|lia]. specialize (Hcanc e eq_refl). rewrite (Hcanc ltac:(done)) in Hr. done.
    + destruct (t_pc t) as [| |r|] eqn:Hp; [|destruct (Hcan i (has_result s)) as [r Hr]; eexists; by eapply step_query
        |eexists; by eapply step_dispatch|done].
      by apply (Hst i t Hi) in Hp.
Qed.

(** The answers are ones that the resolvers may give. *)
Lemma sys_answers_possible b j t a :
  reachable can n b → threads b !! j = Some t → t_answer t = Some a → j < n ∧ ∃ tr, can j tr a.
Proof using can_cancelled.
  intros Hr Hj Ha. pose proof (bi_length _ _ (batch_inv_reachable can n can_cancelled b Hr)) as Hlen.
  split; [apply lookup_lt_Some in Hj; lia|]. clear Hlen. revert j t a Hj Ha. revert b Hr.
  apply (rtc_ind_r (λ b, ∀ j t a, threads b !! j = Some t → t_answer t = Some a → ∃ tr, can j tr a) (init n)).
  - simpl. intros j t a Hj Ha. by apply lookup_replicate in Hj as [-> _].
  - intros b1 b2 _ Hstep IH j u a.
    destruct Hstep as [i ts s t Hi|i ts s Hi|m i ts s t r Hi Hp Hr|m i ts s t r Hi Hp|ts s Hw]; simpl in *;
      try (by apply IH); intros Hj Ha; apply list_lookup_insert_Some in Hj as [(<- & <- & _)|[_ Hj]];
      simpl in Ha; simplify_eq; eauto.
Qed.
End progress.

(** ** What a batch finds *)

Record batch_found (n : nat) (ts : list thread) (found : ConcurrentState) : Prop := {
  bf_result : has_result found = true → ∃ j t, ts !! j = Some t ∧ t_answer t = Some (inr (result found));
  bf_failed : has_result found = false → ∀ j t, ts !! j = Some t → ∃ e, t_answer t = Some (inl e);
  bf_nxdomain : has_result found = false →
    (has_nxdomain found = true ↔ ∃ e, failed_with ts e ∧ ei_code e = NX_DOMAIN);
  bf_leaves last_error o : after_batch last_error found = inl o →
    (has_result found = true ∧ o = Ret (result found)) ∨ (∃ e, o = Throw e ∧ failed_with ts e);
  bf_goes_on last_error e : after_batch last_error found = inr e → has_result found = false
}.

Section found.
Context (can : nat → bool → resolution → Prop) (n : nat).
Context (can_cancelled : ∀ i e, can i false (inl e) → ei_code e ≠ CANCELLED).

Lemma batch_finds_spec b found : reachable can n b → main b = Woken found → batch_found n (threads b) found.
Proof using can_cancelled.
  intros Hr Hm. destruct (batch_inv_reachable can n can_cancelled b Hr) as [Hlen Hst Hl Hthr Htr Hf].
  destruct (Hf found Hm) as [Hw Hres]. destruct (has_result found) eqn:Hhr.
  - constructor; rewrite ?Hhr; try done; unfold after_batch; rewrite Hhr; [|done].
    intros last o [= <-]. by left.
  - subst found. rewrite <- Hlen in Hw. pose proof (all_failed _ _ Htr Hhr Hw) as Hall.
    assert (∀ last o, after_batch last (shared b) = inl o → ∃ e, o = Throw e ∧ failed_with (threads b) e) as Hleave.
    { intros last o. unfold after_batch. rewrite Hhr.
      destruct (has_nxdomain (shared b)) eqn:Hn.
      - destruct (tr_nxdomain _ _ Htr Hn) as [Hd _]. destruct (definitive_error (shared b)) as [e|] eqn:He; [|done].
        intros [= <-]. exists e. split; [done|]. by apply (tr_definitive _ _ Htr).
      - destruct (definitive_error (shared b)) as [e|] eqn:He; [|done]. destruct (negb _ && _); [|done].
        intros [= <-]. exists e. split; [done|]. by apply (tr_definitive _ _ Htr). }
    constructor; rewrite ?Hhr; try done.
    + intros _ j t Hj. destruct (Hall j t Hj) as (_ & e & ? & _). by exists e.
    + intros _. split; [apply (tr_nxdomain _ _ Htr)|]. intros (e & (j & t & Hj & Ha) & He).
      destruct (Hthr j t Hj) as [Hgone _]. rewrite (proj1 (Hall j t Hj)) in Hgone.
      by apply (proj2 (proj2 Hgone) e).
    + intros last o Ho. right. by eapply Hleave.
Qed.
End found.

Section rounds.
Context (can : nat → bool → resolution → Prop) (total : nat).
Context (can_cancelled : ∀ i e, can i false (inl e) → ei_code e ≠ CANCELLED).

Lemma sys_rounds_sound offset last_error final :
  rounds can total offset last_error final →
  match final with
  | Ret records => records = [] ∨ ∃ i tr, i < total ∧ can i tr (inr records)
  | Throw e => ∃ i tr, i < total ∧ can i tr (inl e)
  | _ => False
  end.
Proof using can_cancelled.
  induction 1 as [offset last_error Ho|offset last_error found final Ho (b & Hr & Hm) Ha|]; [by left| |done].
  pose proof (batch_finds_spec _ _ (λ i, can_cancelled (offset + i)) b found Hr Hm) as Hb.
  assert (∀ j t a, threads b !! j = Some t → t_answer t = Some a → ∃ i tr, i < total ∧ can i tr a) as Hcan.
  { intros j t a Hj Ht. destruct (sys_answers_possible _ _ (λ i, can_cancelled (offset + i)) b j t a Hr Hj Ht) as [Hlt [tr ?]].
    exists (offset + j), tr. split; [lia|done]. }
  destruct (bf_leaves _ _ _ Hb _ _ Ha) as [[Hhr ->]|(e & -> & j & t & Hj & Ht)].
  - right. destruct (bf_result _ _ _ Hb Hhr) as (j & t & Hj & Ht). by eapply Hcan.
  - by eapply Hcan.
Qed.
End rounds.

(** * The dispatcher's answers *)

Section answers.
Context {W : Type} `{NsParser} `{IT : InetText} (error_message type_name rcode_name : Z → bytes).
Context (resolvers : list (ResolverBase W)) (host : bytes) (type : RecordKind).

Abbreviation query r := (try_resolve error_message type_name rcode_name r host type).

(** A result that a resolver answered. *)
Definition answered (final : resolution) : Prop :=
  ∃ resolver w1 w2, resolver ∈ resolvers
    ∧ query resolver w1 = (match final with inl e => Throw e | inr records => Ret records end, w2).

(** What a result may be: nothing, or what a resolver answered. *)
Definition nothing_or_answered (o : outcome DnsErrorInfo (list bytes)) : Prop :=
  match o with
  | Ret records => records = [] ∨ answered (inr records)
  | Throw e => answered (inl e)
  | _ => True
  end.

Lemma fallback_answered indices w o w' :
  fallback_loop error_message type_name rcode_name resolvers host type indices w = (o, w') → nothing_or_answered o.
Proof using Type.
  revert w. induction indices as [|idx indices IH]; intros w; cbn [fallback_loop].
  { intros [= <- <-]. by left. }
  unfold mbind, st_bind, lift, deref, attempt. destruct (resolvers !! idx) as [resolver|] eqn:Hl; [|by intros [= <- <-]].
  assert (resolver ∈ resolvers) as Hin by (by eapply list_elem_of_lookup_2).
  destruct (query resolver w) as [[r|e| |] w1] eqn:Ht; try (by intros [= <- <-]).
  - intros [= <- <-]. right. by exists resolver, w, w1.
  - assert (answered (inl e)) as He by (by exists resolver, w, w1).
    destruct (ei_code e); try (by apply IH); by intros [= <- <-].
Qed.

Lemma single_answered `{Sleep W} resolver max_retries backoff_ms w records w' :
  resolver ∈ resolvers → func_total (query resolver) → (0 ≤ max_retries < 4294967295)%Z →
  resolve_single error_message type_name rcode_name resolver host type max_retries backoff_ms w = (Ret records, w') →
  nothing_or_answered (Ret records).
Proof using Type.
  intros Hin Htot Hmax. unfold resolve_single, mbind, st_bind.
  destruct (retry_on_error _ _ _ _ w) as [[[r n]|e| |] w1] eqn:Hr; try done.
  apply retry_answer in Hr as (w2 & w3 & Ha); [|done|done].
  destruct r as [e|r]; intros [= <- <-]; [by left|right]. by exists resolver, w2, w3.
Qed.

Lemma concurrent_answered o :
  resolve_concurrent (may_answer error_message type_name rcode_name resolvers host type) (length resolvers) host o →
  nothing_or_answered o.
Proof using Type.
  intros Hr. apply sys_rounds_sound in Hr; [|intros i e (? & ? & ? & _ & _ & Hc); by apply Hc].
  destruct o as [records|e| |]; try done.
  - destruct Hr as [|(i & tr & _ & resolver & w1 & w2 & Hl & Ha & _)]; [by left|right].
    exists resolver, w1, w2. split; [by eapply list_elem_of_lookup_2|done].
  - destruct Hr as (i & tr & _ & resolver & w1 & w2 & Hl & Ha & _).
    exists resolver, w1, w2. split; [by eapply list_elem_of_lookup_2|done].
Qed.

Lemma multi_answered strategy w o :
  resolve_multi error_message type_name rcode_name resolvers host type strategy w o → nothing_or_answered o.
Proof using Type.
  destruct strategy; simpl; [intros (order & w' & _ & Hr); by eapply fallback_answered|apply concurrent_answered].
Qed.

(** With any number of resolvers but one. *)
Lemma resolve_many `{Sleep W} strategy max_retries backoff_ms w final :
  length resolvers ≠ 1 →
  resolve error_message type_name rcode_name resolvers host type strategy max_retries backoff_ms w final
  ↔ resolve_multi error_message type_name rcode_name resolvers host type strategy w
      (match final with inl e => Throw e | inr records => Ret records end).
Proof using Type. intros Hn. unfold resolve. by destruct resolvers as [|? [|? ?]]. Qed.
End answers.

(** * Properties *)

(** A batch of the libresolv build ends, and unlike the native one never loses
    a success: every execution of [n] resolvers whose queries return has at most
    [4 n + 2] steps and none leaves the waiting thread waiting for ever.  If it
    finds a result, it is the records that some resolver answered; if it finds
    none, every resolver has answered with an error, it knows of an NXDOMAIN
    exactly when there was one, and the exception with which the loop may be left
    is the error of one of them. *)
Theorem system_batch_spec (can : nat → bool → resolution → Prop) (n : nat) :
  (∀ i tr, ∃ r, can i tr r) → (∀ i e, can i false (inl e) → ei_code e ≠ CANCELLED) →
  (∀ k b, nsteps (step can) k (init n) b → k ≤ 4 * n + 2)
  ∧ ∀ b, reachable can n b →
      ((∃ found, main b = Woken found) ∨ ∃ b', step can b b')
      ∧ ∀ found, main b = Woken found → batch_found n (threads b) found.
Proof.
  intros Hcan Hcancelled. split.
  - intros k b Hk. pose proof (sys_nsteps_measure can n Hcancelled k b Hk). lia.
  - intros b Hb. split.
    + apply (batch_progress can n b); [by apply (batch_inv_reachable can)|done].
    + intros found Hm. by apply (batch_finds_spec can n Hcancelled b).
Qed.

(** C12: The dispatcher of the libresolv build invents nothing: what it returns is
    no records at all or what one of the resolvers answered.  And for its callers
    it is the native dispatcher wherever that one does not query concurrently:
    whatever the native dispatcher may return with resolvers that answer alike,
    this one may return too, up to an error that becomes an empty vector, which
    is what the updater makes of errors. *)
Theorem system_resolve_spec {W} `{Sleep W} `{NsParser} `{IT : InetText} em tn rn f4 f6 tn' rn'
    (resolvers natives : list (ResolverBase W)) (host : bytes) (type : RecordKind)
    (strategy : ResolverStrategy) (max_retries backoff_ms : Z) (w : W) :
  Forall (λ r, func_total (try_resolve em tn rn r host type)) resolvers → (0 ≤ max_retries < 4294967295)%Z →
  (∀ final, resolve em tn rn resolvers host type strategy max_retries backoff_ms w final →
     final = inr [] ∨ answered em tn rn resolvers host type final)
  ∧ (Forall2 (agree em tn rn f4 f6 tn' rn' host type) resolvers natives →
     strategy = FALLBACK ∨ length resolvers = 1 →
     ∀ final, ResolverDispatcher.resolve f4 f6 tn' rn' natives strategy host type max_retries backoff_ms w final →
     ∃ final', resolve em tn rn resolvers host type strategy max_retries backoff_ms w final'
       ∧ (final' = final ∨ final' = inr [] ∧ value_or_empty final = [])).
Proof.
  intros Htot Hmax. split.
  - intros final Hr. destruct (decide (length resolvers = 1)) as [Hone|Hmany].
    + destruct resolvers as [|resolver [|? ?]]; try done. destruct Hr as (records & w' & -> & Hs).
      apply Forall_cons_1 in Htot as [Htot _].
      destruct (single_answered em tn rn [resolver] host type resolver max_retries backoff_ms w records w'
        (list_elem_of_here _ _) Htot Hmax Hs) as [->|?]; [by left|by right].
    + apply resolve_many, multi_answered in Hr; [|done]. destruct final as [e|records]; [by right|].
      destruct Hr as [->|?]; [by left|by right].
  - intros Ha Hor final Hr. pose proof (Forall2_length _ _ _ Ha) as Hlen.
    destruct (decide (length resolvers = 1)) as [Hone|Hmany].
    + destruct Ha as [|s n ss ns Hsn Ha]; [done|]. destruct Ha; [|done]. destruct Hr as [w' Hr].
      exists (inr (value_or_empty final)). split; [|by destruct final; [right|left]].
      exists (value_or_empty final), w'. split; [done|]. by eapply resolve_single_agrees.
    + destruct Hor as [->|]; [|done].
      assert (ResolverDispatcher.resolve_multi f4 f6 tn' rn' natives FALLBACK host type w final) as (order & w' & Hp & Hrun)
        by (unfold ResolverDispatcher.resolve in Hr; by destruct natives as [|? [|? ?]]).
      destruct (fallback_agrees em tn rn f4 f6 tn' rn' host type resolvers natives order (no_records host) w _ w' Ha Hrun)
        as (o' & Ho & Hc). rewrite <- Hlen in Hp.
      destruct final as [e|records]; [destruct Hc as [->| ->]; [exists (inl e)|exists (inr [])]|subst o'; exists (inr records)];
        (split; [apply resolve_many; [done|by exists order, w']|auto]).
Qed.

(** * Examples *)

(** A refusal that comes before an NXDOMAIN takes its place. *)
Lemma refused_hides_nxdomain (refused nxdomain last_error : DnsErrorInfo) :
  ei_code refused = SERVER_REFUSED → ei_code nxdomain = NX_DOMAIN →
  after_batch last_error (dispatch_query (inl nxdomain) (dispatch_query (inl refused) fresh_state))
  = inl (Throw refused).
Proof. intros Hr Hn. unfold dispatch_query, record_error. rewrite Hr, Hn. done. Qed.

Definition records_or_timeout (i : nat) (triggered : bool) (r : resolution) : Prop :=
  r = (if i =? 0 then inr [str "192.0.2.1"] else inl {| ei_code := RETRY; ei_message := [] |}).

(** The first resolver answers with records; the second has failed before. *)
Definition sample_batch : batch :=
  {| main := Woken {| result := [str "192.0.2.1"]; has_result := true; has_nxdomain := false;
       definitive_error := None; transient_error := Some {| ei_code := RETRY; ei_message := [] |}; completed := 1 |};
     threads := [{| t_pc := Gone; t_answer := Some (inr [str "192.0.2.1"]) |};
                 {| t_pc := Gone; t_answer := Some (inl {| ei_code := RETRY; ei_message := [] |}) |}];
     shared := {| result := [str "192.0.2.1"]; has_result := true; has_nxdomain := false;
       definitive_error := None; transient_error := Some {| ei_code := RETRY; ei_message := [] |}; completed := 1 |} |}.

Lemma sample_batch_reachable : reachable records_or_timeout 2 sample_batch.
Proof.
  unfold reachable, init, sample_batch. cbn [replicate].
  do 2 (eapply rtc_l; [by eapply step_launch|cbn [insert list_insert]]).
  eapply rtc_l; [by apply step_launched|].
  eapply rtc_l; [by eapply (step_query records_or_timeout InWait 0)|cbn [insert list_insert]].
  eapply rtc_l; [by eapply (step_query records_or_timeout InWait 1)|cbn [insert list_insert]].
  eapply rtc_l; [by eapply (step_dispatch records_or_timeout InWait 1)|cbn [insert list_insert]].
  eapply rtc_l; [by eapply (step_dispatch records_or_timeout InWait 0)|cbn [insert list_insert]].
  eapply rtc_l; [by apply step_wake|]. apply rtc_refl.
Qed.

Lemma system_batch_spec_witness :
  (∀ k b, nsteps (step records_or_timeout) k (init 2) b → k ≤ 10)
  ∧ ∃ j t, threads sample_batch !! j = Some t ∧ t_answer t = Some (inr [str "192.0.2.1"]).
Proof.
  destruct (system_batch_spec records_or_timeout 2) as [Hk Hb].
  - intros i tr. eexists. reflexivity.
  - intros i e. unfold records_or_timeout. destruct (i =? 0); [discriminate|]. intros [= ->]. discriminate.
  - split; [exact Hk|]. destruct (Hb _ sample_batch_reachable) as [_ Hf].
    exact (bf_result _ _ _ (Hf _ eq_refl) eq_refl).
Defined.

#[local] Instance no_sleep : Retry.Sleep unit := λ _ w, w.

(** A parser that finds the address 10.0.0.7 in every message. *)
#[local] Instance one_address : NsParser := {
  ns_msg := unit;
  ns_initparse _ := Some tt;
  ns_msg_count _ := 1;
  ns_parserr _ _ := inr {| ns_rr_name := []; ns_rr_type := ns_t_a; ns_rr_class := 1; ns_rr_ttl := 60;
                           ns_rr_rdlen := 4; ns_rr_rdata := length a_response - 4 |};
  ns_name_uncompress _ _ := None
}.

#[local] Instance raw_text : InetText :=
  {| inet_pton4 := λ _, None; inet_pton6 := λ _, None; inet_ntop4 := id; inet_ntop6 := id |}.

Lemma system_resolve_spec_witness :
  ∃ final, resolve no_name no_name no_name two_resolvers (str "a.b") KIND_A FALLBACK 1 50 tt final
    ∧ final = inr [[10; 0; 0; 7]%Z].
Proof.
  destruct (system_resolve_spec no_name no_name no_name id id no_name no_name two_resolvers two_resolvers
    (str "a.b") KIND_A FALLBACK 1 50 tt) as [_ Hs].
  - repeat constructor; intros w; eexists _, w; (split; [vm_compute; reflexivity|exact I]).
  - lia.
  - destruct (Hs ltac:(repeat constructor; intros w; vm_compute; reflexivity) (or_introl eq_refl) (inr [[10; 0; 0; 7]%Z]))
      as (final & Hf & Hc).
    + exists [1; 0], tt. split; [apply Permutation_swap|]. vm_compute. reflexivity.
    + exists final. split; [exact Hf|]. destruct Hc as [Hc|[_ Hc]]; [exact Hc|discriminate Hc].
Defined.
