(* ===== verification/SystemResolver.v ===== *)
(** [src/dns/resolver/classic_system.cpp]: the classic resolver of builds over
    libresolv, with glibc's resolver state. *)
From S2P Require Import Prelude CppString Address DnsTypes Config Io Socket.

(** The fields of glibc's [__res_state] that the source sets.  [ext_nsaddrs]
    holds the IPv6 servers; a slot without one is a null pointer. *)
Record res_state := {
  retrans : Z;
  retry : Z;
  nscount : Z;
  nsaddr_list : list SocketAddr;
  ext_nscount : Z;
  ext_nscount6 : Z;
  ext_nsmap0 : Z;
  ext_nsaddrs : list (option SocketAddr)
}.

Definition MAXNS : Z := 3.

Definition HOST_NOT_FOUND : Z := 1.
Definition TRY_AGAIN : Z := 2.
Definition NO_DATA : Z := 4.

(** libresolv: its calls on a state, [h_errno], and as ghosts the states that are
    alive and the number of queries made.  A query gives the length of the
    answer, or a negative number, and the octets left in the buffer. *)
Class LibResolv (K : Type) := {
  res_ninit : K → res_state * K;
  res_nquery : res_state → bytes → Z → nat → K → (Z * bytes) * (res_state * K);
  res_ndestroy : res_state → K → K;
  h_errno : K → Z;
  live_states : K → nat;
  queries : K → nat
}.

(** A message has at most 65535 octets; the buffer is as long as it was. *)
Class LibResolvOk (K : Type) `{LibResolv K} := {
  ninit_alive k : live_states (res_ninit k).2 = S (live_states k) ∧ queries (res_ninit k).2 = queries k;
  ninit_servers k : Z.to_nat (nscount (res_ninit k).1) ≤ length (nsaddr_list (res_ninit k).1);
  nquery_counts s n t len k r b s' k' : res_nquery s n t len k = ((r, b), (s', k')) →
    live_states k' = live_states k ∧ queries k' = S (queries k) ∧ (r ≤ 65535)%Z ∧ length b = len;
  ndestroy_dead s k : live_states (res_ndestroy s k) = pred (live_states k) ∧ queries (res_ndestroy s k) = queries k
}.

Module SystemResolver.

(* @fn src/src/dns/resolver/classic_system.cpp | constexpr int MAXIMUM_UDP_SIZE | MAXIMUM_UDP_SIZE *)
Definition MAXIMUM_UDP_SIZE : Z := 512.

Section resolver.
Context {K : Type} `{LibResolv K} `{IT : InetText}.
(** [inet_addr]: the octets of an IPv4 address, in network order. *)
Context (inet_addr : bytes → bytes).

Abbreviation io := (st K DnsErrorInfo).

(* @fn src/src/dns/resolver/classic_system.cpp | ResolverContext() { | ResolverContext::ResolverContext *)
Definition create (k : K) : res_state * K :=
  let '(s, k) := res_ninit k in
  ({| retrans := 1; retry := 1; nscount := nscount s; nsaddr_list := nsaddr_list s;
          ext_nscount := ext_nscount s; ext_nscount6 := ext_nscount6 s; ext_nsmap0 := ext_nsmap0 s;
          ext_nsaddrs := ext_nsaddrs s |}, k).

(* @fn src/src/dns/resolver/classic_system.cpp | static void destroy(struct __res_state *s) { | ResolverContext::destroy *)
Definition destroy (s : res_state) (k : K) : K := res_ndestroy s k.

(** The slots of resolv.conf are zeroed, those of IPv6 servers freed; an address
    that [inet_pton] does not accept leaves the zeros of [calloc]. *)
(* @fn src/src/dns/resolver/classic_system.cpp | void set_ipv6_nameserver(const Config::DnsServer &server) { | ResolverContext::set_ipv6_nameserver *)
Definition set_ipv6_nameserver (server : DnsServer) (s : res_state) : res_state :=
  {| retrans := retrans s; retry := retry s; nscount := 1;
     nsaddr_list := replicate (Z.to_nat (nscount s)) AF_UNSPEC ++ drop (Z.to_nat (nscount s)) (nsaddr_list s);
     ext_nscount := 1; ext_nscount6 := 1; ext_nsmap0 := MAXNS + 1;
     ext_nsaddrs := Some (AF_INET6 (u16 (ds_port server)) (default (repeat 0%Z 16) (inet_pton6 (c_str (ds_address server)))) 0)
       :: replicate (Z.to_nat (MAXNS - 1)) None |}.

(* @fn src/src/dns/resolver/classic_system.cpp | void set_nameserver(const Config::DnsServer &server) { | ResolverContext::set_nameserver *)
Definition set_nameserver (server : DnsServer) (s : res_state) : res_state :=
  match parse4 (ds_address server) with
  | Some _ =>
      {| retrans := retrans s; retry := retry s; nscount := 1;
         nsaddr_list := <[0 := AF_INET (u16 (ds_port server)) (inet_addr (c_str (ds_address server)))]> (nsaddr_list s);
         ext_nscount := ext_nscount s; ext_nscount6 := ext_nscount6 s; ext_nsmap0 := ext_nsmap0 s;
         ext_nsaddrs := ext_nsaddrs s |}
  | None => set_ipv6_nameserver server s
  end.

(* @fn src/src/dns/resolver/classic_system.cpp | DnsError get_dns_lookup_err(int error) { | get_dns_lookup_err *)
Definition get_dns_lookup_err (error : Z) : DnsError :=
  if (error =? HOST_NOT_FOUND)%Z then NX_DOMAIN
  else if (error =? NO_DATA)%Z then NODATA
  else if (error =? TRY_AGAIN)%Z then RETRY
  else UNKNOWN.

(** A computation of the function that owns the context. *)
Abbreviation cio := (st (res_state * K) DnsErrorInfo).

(* @fn src/src/dns/resolver/classic_system.cpp | int query(const char *name, int type | ResolverContext::query *)
Definition context_query (name : bytes) (type : Z) (len : nat) : cio (Z * bytes) := λ c,
  let '(r, c') := res_nquery c.1 name type len c.2 in (Ret r, c').

(** The buffer grows until an answer fits. *)
(* @fn src/src/dns/resolver/classic_system.cpp | do { | do_query (loop) *)
Fixpoint query_loop (fuel : nat) (host_str : bytes) (ns_type buffer_size received_size : Z) : cio bytes :=
  if (Sock.INT_MAX <? received_size + buffer_size)%Z then lift Undef else
  let buffer_size := (received_size + buffer_size)%Z in
  r ← context_query host_str ns_type (Z.to_nat buffer_size);
  let '(received_size, buffer) := r in
  if (received_size <? 0)%Z then
    error_type ← gets (λ c, get_dns_lookup_err (h_errno c.2));
    throw {| ei_code := error_type; ei_message := str "DNS lookup failed for domain " ++ quoted host_str
             ++ str ", error: " ++ error_to_str error_type |}
  else if (buffer_size <=? received_size)%Z then
    match fuel with
    | O => lift OutOfFuel
    | S fuel => query_loop fuel host_str ns_type buffer_size received_size
    end
  else mret (take (Z.to_nat received_size) buffer).

(* @fn src/src/dns/resolver/classic_system.cpp | std::vector<std::uint8_t> do_query( | do_query *)
Definition do_query (host_str : bytes) (ns_type : Z) : cio bytes :=
  query_loop 7 host_str ns_type MAXIMUM_UDP_SIZE 0.

(** The context is made on entry and destroyed however the scope is left. *)
(* @fn src/src/dns/resolver/classic_system.cpp | ClassicResolver::Impl::query(const std::string &host_str | ClassicResolver::Impl::query *)
Definition query (server : DnsServer) (host_str : bytes) (type : RecordKind) : io bytes := λ k,
  let ns_type_val := record_type_code (type_to_record_type type) in
  let '(ctx, k) := create k in
  let '(r, (ctx, k)) := do_query host_str ns_type_val (set_nameserver server ctx, k) in
  (r, destroy ctx k).
End resolver.
End SystemResolver.
Import SystemResolver.

(** * Proofs *)

Section proofs.
Context {K : Type} `{LibResolvOk K} `{IT : InetText} (inet_addr : bytes → bytes).

(** What a call has done to the library's counters, with at most [n] queries. *)
Definition queried (n : nat) (k k' : K) : Prop :=
  live_states k' = live_states k ∧ queries k < queries k' ≤ queries k + n.

(** The buffer at least doubles with every query that fills it. *)
Lemma query_loop_spec fuel host_str ns_type bs rs c :
  (0 ≤ rs ≤ 65535)%Z → (0 < bs ≤ 65536)%Z → (65535 < (rs + bs) * 2 ^ Z.of_nat fuel)%Z →
  swp (query_loop fuel host_str ns_type bs rs)
    (λ b c', queried (S fuel) c.2 c'.2 ∧ (Z.of_nat (length b) ≤ 65535)%Z)
    (λ e c', queried (S fuel) c.2 c'.2 ∧ ei_code e = get_dns_lookup_err (h_errno c'.2)) c.
Proof using Type*.
  unfold queried. revert bs rs c. induction fuel as [|fuel IH]; intros bs rs c Hr Hb Hfuel;
    cbn [query_loop]; unfold Sock.INT_MAX; (rewrite (proj2 (Z.ltb_ge _ _)) by lia); apply swp_bind;
    unfold swp at 1, context_query;
    destruct (res_nquery c.1 host_str ns_type (Z.to_nat (rs + bs)) c.2) as [[r b] [ctx' k']] eqn:Hq;
    destruct (nquery_counts _ _ _ _ _ _ _ _ _ Hq) as (Hl & Hn & Hr' & Hlen); cbn [wp fst snd];
    (destruct (r <? 0)%Z eqn:Hneg; prop_of_bool;
       [apply swp_bind, swp_gets, swp_throw; cbn [snd]; split_and!; [done|lia|lia|done]|]);
    (destruct (rs + bs <=? r)%Z eqn:Hfull; prop_of_bool;
       [|apply swp_ret; cbn [snd]; rewrite length_take; split_and!; [done|lia|lia|lia]]).
  - change (2 ^ Z.of_nat 0)%Z with 1%Z in Hfuel. lia.
  - rewrite Nat2Z.inj_succ, Z.pow_succ_r in Hfuel by lia.
    eapply swp_mono; [apply IH; [lia|lia|nia]| |]; cbv beta; cbn [snd].
    + intros a c2 ((? & ? & ?) & ?). split_and!; [congruence|lia|lia|done].
    + intros e c2 ((? & ? & ?) & ?). split_and!; [congruence|lia|lia|done].
Qed.

(** A query makes at most eight of the library's, ends, and leaves no resolver
    state behind; what it returns is one message. *)
Lemma system_query_ok server host_str type k :
  swp (query inet_addr server host_str type)
    (λ b k', live_states k' = live_states k ∧ queries k < queries k' ≤ queries k + 8 ∧ (Z.of_nat (length b) ≤ 65535)%Z)
    (λ e k', live_states k' = live_states k ∧ queries k < queries k' ≤ queries k + 8
       ∧ ei_code e ∈ [NX_DOMAIN; NODATA; RETRY; UNKNOWN]) k.
Proof using Type*.
  unfold swp, query, create. pose proof (ninit_alive k) as [Hl Hn].
  destruct (res_ninit k) as [s k1]. cbn [fst snd] in Hl, Hn.
  match goal with |- context [do_query host_str ?t ?c] => set (ty := t); set (c0 := c) end.
  assert (c0.2 = k1) as Hc0 by done.
  pose proof (query_loop_spec 7 host_str ty MAXIMUM_UDP_SIZE 0 c0 ltac:(lia) ltac:(done) ltac:(done)) as Hq.
  change (query_loop 7 host_str ty MAXIMUM_UDP_SIZE 0) with (do_query host_str ty) in Hq. unfold swp in Hq.
  destruct (do_query host_str ty c0) as [r [ctx k2]]. cbn [fst snd] in Hq |- *. rewrite Hc0 in Hq.
  destruct (ndestroy_dead ctx k2) as [Hd Hdq]. unfold destroy.
  destruct r as [b|e| |]; simpl in *; try done; destruct Hq as ((Hl2 & Hn2 & Hn3) & Hres).
  - rewrite Hd, Hl2, Hl. split_and!; [done|lia|lia|done].
  - rewrite Hd, Hl2, Hl. split_and!; [done|lia|lia|]. rewrite Hres. unfold get_dns_lookup_err. repeat case_match; set_solver.
Qed.
End proofs.

(** * Properties *)

(** A query through libresolv ends whatever libresolv answers: after at most
    eight queries of the library, because the buffer grows to more than a message
    can fill.  It returns one message, without reading beyond the buffer, or an
    error that says what [h_errno] said; on both ways the resolver state has been
    destroyed, and no other. *)
Theorem system_query_spec {K} `{LibResolvOk K} `{IT : InetText} (inet_addr : bytes → bytes) (server : DnsServer)
    (host_str : bytes) (type : RecordKind) (k : K) :
  ∃ k', live_states k' = live_states k ∧ queries k < queries k' ≤ queries k + 8
    ∧ ((∃ b, query inet_addr server host_str type k = (Ret b, k') ∧ (Z.of_nat (length b) ≤ 65535)%Z)
       ∨ ∃ e, query inet_addr server host_str type k = (Throw e, k') ∧ ei_code e ∈ [NX_DOMAIN; NODATA; RETRY; UNKNOWN]).
Proof.
  destruct (swp_cases _ _ _ _ (system_query_ok inet_addr server host_str type k))
    as [(b & k' & Heq & Hl & Hn & Hb)|(e & k' & Heq & Hl & Hn & He)]; exists k'; split_and!; eauto; lia.
Qed.

(** * Witness *)

(** A library whose answers have 600 octets: the first buffer is too small. *)
Definition blank_state : res_state :=
  {| retrans := 5; retry := 2; nscount := 1; nsaddr_list := [AF_INET 53 [127; 0; 0; 53]%Z]; ext_nscount := 0;
     ext_nscount6 := 0; ext_nsmap0 := 0; ext_nsaddrs := [] |}.

#[local] Instance sample_libresolv : LibResolv (nat * nat) := {
  res_ninit k := (blank_state, (S k.1, k.2));
  res_nquery s _ _ len k := ((600%Z, replicate len 7%Z), (s, (k.1, S k.2)));
  res_ndestroy _ k := (pred k.1, k.2);
  h_errno _ := 0%Z;
  live_states := fst;
  queries := snd
}.

#[local] Instance sample_libresolv_ok : LibResolvOk (nat * nat).
Proof.
  split.
  - by intros k.
  - intros k. simpl. lia.
  - intros s n t len k r b s' k' [= <- <- <- <-]. simpl. by rewrite length_replicate.
  - by intros s k.
Qed.

Lemma system_query_spec_witness :
  ∃ k', live_states k' = 0 ∧ queries k' = 2
    ∧ query (IT := {| inet_pton4 := λ _, None; inet_pton6 := λ _, None; inet_ntop4 := id; inet_ntop6 := id |})
        id {| ds_address := str "::1"; ds_port := 53 |} (str "a.b") KIND_A (0, 0) = (Ret (replicate 600 7%Z), k').
Proof.
  destruct (system_query_spec (IT := {| inet_pton4 := λ _, None; inet_pton6 := λ _, None; inet_ntop4 := id; inet_ntop6 := id |})
    id {| ds_address := str "::1"; ds_port := 53 |} (str "a.b") KIND_A (0, 0)) as (k' & Hl & Hq & [(b & Heq & _)|(e & Heq & _)]).
  - exists k'. split; [exact Hl|]. rewrite Heq. vm_compute in Heq. injection Heq as <- <-. split; reflexivity.
  - vm_compute in Heq. discriminate Heq.
Defined.
