(* ===== verification/Cache.v ===== *)
(** [src/util/cache.hpp]: the cache with a time to live, its operations (each
    under the mutex, hence atomic), and [get_or_compute] as a transition system
    in which threads interleave between those critical sections. *)
From S2P Require Import Prelude.

Section cache.
Context {Key Value Exn : Type} `{Countable Key}.
(** [ttl_], in nanoseconds. *)
Context (ttl_ : Z).

(** * The sequential operations *)

(* @fn src/src/util/cache.hpp | struct Entry { | TtlCache::Entry *)
Record Entry := { timestamp : Z; value : Value }.

Abbreviation cache_map := (gmap Key Entry).

(* @fn src/src/util/cache.hpp | bool expired(const Entry &entry) const { | TtlCache::expired *)
Definition expired (now : Z) (entry : Entry) : bool := (ttl_ <=? now - timestamp entry)%Z.

(** The caller holds the mutex; the map is returned as an expired entry is erased. *)
(* @fn src/src/util/cache.hpp | std::optional<Value> do_get(const Key &key) { ^1 | TtlCache::do_get *)
Definition do_get (now : Z) (key : Key) (m : cache_map) : option Value * cache_map :=
  match m !! key with
  | None => (None, m)
  | Some entry => if expired now entry then (None, delete key m) else (Some (value entry), m)
  end.

(* @fn src/src/util/cache.hpp | std::optional<Value> get(const Key &key) { | TtlCache::get *)
Definition get (now : Z) (key : Key) (m : cache_map) : option Value * cache_map := do_get now key m.

(* @fn src/src/util/cache.hpp | void set(const Key &key, Value value) { | TtlCache::set *)
Definition set_entry (now : Z) (key : Key) (v : Value) (m : cache_map) : cache_map :=
  <[key := {| timestamp := now; value := v |}]> m.

(* @fn src/src/util/cache.hpp | bool contains(const Key &key) { | TtlCache::contains *)
Definition contains (now : Z) (key : Key) (m : cache_map) : bool * cache_map :=
  let '(o, m) := do_get now key m in (bool_decide (is_Some o), m).

(* @fn src/src/util/cache.hpp | void remove(const Key &key) { | TtlCache::remove *)
Definition remove (key : Key) (m : cache_map) : cache_map := delete key m.

(* @fn src/src/util/cache.hpp | void clear() { | TtlCache::clear *)
Definition clear : cache_map := ∅.

(* @fn src/src/util/cache.hpp | void invalidate_if(Pred &&pred) { ^1 | TtlCache::invalidate_if *)
Definition invalidate_if (pred : Key → Value → bool) (m : cache_map) : cache_map :=
  filter (λ '(k, e), pred k (value e) = false) m.

(* @fn src/src/util/cache.hpp | std::size_t size() const { | TtlCache::size *)
Definition cache_size (m : cache_map) : nat := size m.

(* @fn src/src/util/cache.hpp | bool empty() const { | TtlCache::empty *)
Definition cache_empty (m : cache_map) : bool := bool_decide (m = ∅).

(** * [get_or_compute] *)

(** Where a call is: each constructor is its next atomic action. *)
(* @fn src/src/util/cache.hpp | Value get_or_compute(const Key &key, Fn &&factory) { | TtlCache::get_or_compute (control points) *)
Inductive pc :=
| Enter (key : Key)
| Computing (key : Key) (promise : nat)
| SetValue (key : Key) (promise : nat) (v : Value)
| Store (key : Key) (promise : nat) (v : Value)
| SetException (key : Key) (promise : nat) (e : Exn)
| Erase (key : Key) (promise : nat) (e : Exn)
| Wait (key : Key) (promise : nat)
| Returned (key : Key) (v : Value)
| Threw (key : Key) (e : Exn).

(** [promises] are the shared states of the futures: absent while not ready. *)
(* @src src/src/util/cache.hpp 186 189 TtlCache (members) *)
Record state := {
  now : Z;
  map_ : cache_map;
  pending_ : gmap Key nat;
  promises : gmap nat (Exn + Value);
  next : nat;
  threads : gmap nat pc
}.

Definition with_threads (ts : gmap nat pc) (s : state) : state :=
  {| now := now s; map_ := map_ s; pending_ := pending_ s; promises := promises s;
     next := next s; threads := ts |}.
Definition with_map (m : cache_map) (s : state) : state :=
  {| now := now s; map_ := m; pending_ := pending_ s; promises := promises s;
     next := next s; threads := threads s |}.
Definition at_pc (i : nat) (p : pc) (s : state) : state := with_threads (<[i := p]> (threads s)) s.

(** The first critical section: hit, join the pending computation, or become
    the one that computes. *)
(* @src src/src/util/cache.hpp 99 117 TtlCache::get_or_compute (lookup) *)
Definition enter (i : nat) (key : Key) (s : state) : state :=
  let '(cached, m) := do_get (now s) key (map_ s) in
  match cached with
  | Some v => at_pc i (Returned key v) (with_map m s)
  | None =>
      match pending_ s !! key with
      | Some p => at_pc i (Wait key p) (with_map m s)
      | None =>
          {| now := now s; map_ := m; pending_ := <[key := next s]> (pending_ s);
             promises := promises s; next := S (next s);
             threads := <[i := Computing key (next s)]> (threads s) |}
      end
  end.

(** [promise->set_value] and [promise->set_exception]. *)
Definition resolve (p : nat) (r : Exn + Value) (s : state) : state :=
  {| now := now s; map_ := map_ s; pending_ := pending_ s; promises := <[p := r]> (promises s);
     next := next s; threads := threads s |}.

(** The second critical section, after a result and after an exception. *)
(* @src src/src/util/cache.hpp 125 128 TtlCache::get_or_compute (store) *)
Definition store (i : nat) (key : Key) (v : Value) (s : state) : state :=
  {| now := now s; map_ := set_entry (now s) key v (map_ s); pending_ := delete key (pending_ s);
     promises := promises s; next := next s; threads := <[i := Returned key v]> (threads s) |}.
(* @src src/src/util/cache.hpp 132 134 TtlCache::get_or_compute (exception) *)
Definition erase (i : nat) (key : Key) (e : Exn) (s : state) : state :=
  {| now := now s; map_ := map_ s; pending_ := delete key (pending_ s);
     promises := promises s; next := next s; threads := <[i := Threw key e]> (threads s) |}.

(** What the factories may return for a key, and what other callers may [set]. *)
Context (factory : Key → Exn + Value → Prop) (settable : Key → Value → Prop).

(* @fn src/src/util/cache.hpp | Value get_or_compute(const Key &key, Fn &&factory) { | TtlCache::get_or_compute *)
Inductive thread_step (i : nat) (s : state) : pc → state → Prop :=
| ts_enter key : thread_step i s (Enter key) (enter i key s)
| ts_value key p v :
    factory key (inr v) → thread_step i s (Computing key p) (at_pc i (SetValue key p v) s)
| ts_throw key p e :
    factory key (inl e) → thread_step i s (Computing key p) (at_pc i (SetException key p e) s)
| ts_set key p v :
    thread_step i s (SetValue key p v) (at_pc i (Store key p v) (resolve p (inr v) s))
| ts_store key p v : thread_step i s (Store key p v) (store i key v s)
| ts_set_exn key p e :
    thread_step i s (SetException key p e) (at_pc i (Erase key p e) (resolve p (inl e) s))
| ts_erase key p e : thread_step i s (Erase key p e) (erase i key e s)
| ts_get key p v :
    promises s !! p = Some (inr v) → thread_step i s (Wait key p) (at_pc i (Returned key v) s)
| ts_rethrow key p e :
    promises s !! p = Some (inl e) → thread_step i s (Wait key p) (at_pc i (Threw key e) s).

Inductive step : state → state → Prop :=
| step_thread i p s s' : threads s !! i = Some p → thread_step i s p s' → step s s'
| step_call i key s : threads s !! i = None → step s (at_pc i (Enter key) s)
| step_time t s :
    (now s ≤ t)%Z →
    step s {| now := t; map_ := map_ s; pending_ := pending_ s; promises := promises s;
              next := next s; threads := threads s |}
| step_set key v s : settable key v → step s (with_map (set_entry (now s) key v (map_ s)) s)
| step_get key s : step s (with_map (get (now s) key (map_ s)).2 s)
| step_remove key s : step s (with_map (remove key (map_ s)) s)
| step_clear s : step s (with_map clear s)
| step_invalidate pred s : step s (with_map (invalidate_if pred (map_ s)) s).

Definition init (t : Z) : state :=
  {| now := t; map_ := ∅; pending_ := ∅; promises := ∅; next := 0; threads := ∅ |}.

Definition reachable (s : state) : Prop := ∃ t, rtc step (init t) s.
End cache.

(** * Invariants *)

Section invariants.
Context {Key Value Exn : Type} `{Countable Key}.
Context (ttl_ : Z) (factory : Key → Exn + Value → Prop) (settable : Key → Value → Prop).
Abbreviation state := (@state Key Value Exn _ _).
Abbreviation pc := (@pc Key Value Exn).
Abbreviation step := (step ttl_ factory settable).

(** The key a thread is computing and the promise it will satisfy. *)
Definition owned (c : pc) : option (Key * nat) :=
  match c with
  | Computing k p | SetValue k p _ | Store k p _ | SetException k p _ | Erase k p _ => Some (k, p)
  | _ => None
  end.

(** Where a value or an exception for a key may come from. *)
Definition origin (k : Key) (r : Exn + Value) : Prop :=
  factory k r ∨ (∃ v, r = inr v ∧ settable k v).

Definition pc_origin (c : pc) : Prop :=
  match c with
  | SetValue k _ v | Store k _ v | Returned k v => origin k (inr v)
  | SetException k _ e | Erase k _ e | Threw k e => origin k (inl e)
  | _ => True
  end.

(** The promise a thread has already satisfied. *)
Definition satisfied (c : pc) : option nat :=
  match c with Store _ p _ | Erase _ p _ => Some p | _ => None end.

Record inv (s : state) : Prop := {
  iv_owner i c k p : threads s !! i = Some c → owned c = Some (k, p) → pending_ s !! k = Some p;
  iv_unique i j c d k p q : threads s !! i = Some c → threads s !! j = Some d →
    owned c = Some (k, p) → owned d = Some (k, q) → i = j;
  iv_pending k p : pending_ s !! k = Some p → ∃ i c, threads s !! i = Some c ∧ owned c = Some (k, p);
  iv_fresh k p : pending_ s !! k = Some p → p < next s;
  iv_fresh_wait i k p : threads s !! i = Some (Wait k p) → p < next s;
  iv_inj k l p : pending_ s !! k = Some p → pending_ s !! l = Some p → k = l;
  iv_same i k l p : threads s !! i = Some (Wait k p) → pending_ s !! l = Some p → k = l;
  iv_satisfied i c p : threads s !! i = Some c → satisfied c = Some p → is_Some (promises s !! p);
  iv_wait i k p : threads s !! i = Some (Wait k p) →
    is_Some (promises s !! p) ∨ pending_ s !! k = Some p;
  iv_map k e : map_ s !! k = Some e → origin k (inr (value e));
  iv_pc i c : threads s !! i = Some c → pc_origin c;
  iv_promise i k p r : threads s !! i = Some (Wait k p) → promises s !! p = Some r → origin k r;
  iv_promise_pending k p r : pending_ s !! k = Some p → promises s !! p = Some r → origin k r;
  iv_promise_fresh p r : promises s !! p = Some r → p < next s
}.

Lemma do_get_map t (k : Key) (m : gmap Key (@Entry Value)) e j :
  (do_get ttl_ t k m).2 !! j = Some e → m !! j = Some e.
Proof using Type.
  unfold do_get. destruct (m !! k) as [entry|]; simpl; [|auto].
  destruct (expired ttl_ t entry); simpl; [|auto]. by intros [_ ?]%lookup_delete_Some.
Qed.

Lemma inv_init t : inv (init t).
Proof using Type. constructor; simpl; intros; simplify_map_eq. Qed.

Lemma inv_with_map m s :
  inv s → (∀ k e, m !! k = Some e → origin k (inr (value e))) → inv (with_map m s).
Proof using Type. intros [] Hm. by constructor. Qed.

(** Thread [i] moves without touching the pending map or the promises. *)
Lemma inv_at_pc s i c c' :
  inv s → (threads s !! i = Some c ∨ (threads s !! i = None ∧ owned c' = None)) →
  (threads s !! i = Some c → owned c' = owned c) → satisfied c' = None → pc_origin c' →
  (∀ k p, c' = Wait k p → pending_ s !! k = Some p) → inv (at_pc i c' s).
Proof using Type.
  intros [Ho Hu Hp Hf Hfw Hi Hs Hsat Hw Hm Hpc Hpr Hpp Hpf] Hc Hown Hns Hor Hwait.
  assert (∀ k p, owned c' = Some (k, p) → ∃ c, threads s !! i = Some c ∧ owned c = Some (k, p)) as Hold.
  { intros k p Hk. destruct Hc as [Hc|[_ Hc]]; [|congruence]. exists c. split; [done|].
    by rewrite <- Hown. }
  constructor; simpl; try done.
  - intros j d k p [[<- <-]|[_ Hj]]%lookup_insert_Some Hd; [|by eapply Ho].
    destruct (Hold k p Hd) as (c0 & ? & ?). by eapply Ho.
  - intros j l d d' k p q [[<- <-]|[? Hj]]%lookup_insert_Some [[<- <-]|[? Hl]]%lookup_insert_Some Hd Hd';
      [done| | |by eapply Hu].
    + destruct (Hold k p Hd) as (c0 & ? & ?). by eapply Hu.
    + destruct (Hold k q Hd') as (c0 & ? & ?). by eapply Hu.
  - intros k p Hk. destruct (Hp k p Hk) as (j & d & Hj & Hd). destruct (decide (i = j)) as [<-|Hne].
    + exists i, c'. rewrite lookup_insert_eq. split; [done|].
      destruct Hc as [Hc|[Hc _]]; [|congruence]. rewrite Hown by done. congruence.
    + exists j, d. by rewrite lookup_insert_ne.
  - intros j k p [[<- ->]|[_ Hj]]%lookup_insert_Some; [|by eapply Hfw]. eapply Hf. by eapply Hwait.
  - intros j k l p [[<- ->]|[_ Hj]]%lookup_insert_Some Hl; [|by eapply Hs].
    eapply Hi; [by eapply Hwait|done].
  - intros j d p [[<- <-]|[_ Hj]]%lookup_insert_Some Hd; [congruence|by eapply Hsat].
  - intros j k p [[<- ->]|[_ Hj]]%lookup_insert_Some; [right; by eapply Hwait|by eapply Hw].
  - intros j d [[<- <-]|[_ Hj]]%lookup_insert_Some; [done|by eapply Hpc].
  - intros j k p r [[<- ->]|[_ Hj]]%lookup_insert_Some Hr; [|by eapply Hpr].
    eapply Hpp; [by eapply Hwait|done].
Qed.

(** The owner of a promise satisfies it. *)
Lemma inv_resolve s i c c' k p r :
  inv s → threads s !! i = Some c → owned c = Some (k, p) → owned c' = Some (k, p) →
  pc_origin c' → origin k r → inv (at_pc i c' (resolve p r s)).
Proof using Type.
  intros [Ho Hu Hp Hf Hfw Hi Hs Hsat Hw Hm Hpc Hpr Hpp Hpf] Hc Hown Hown' Hor Hr.
  pose proof (Ho _ _ _ _ Hc Hown) as Hpk.
  constructor; simpl; try done.
  - intros j d k' p' [[<- <-]|[_ Hj]]%lookup_insert_Some Hd; [|by eapply Ho]. congruence.
  - intros j l d d' k' p' q [[<- <-]|[? Hj]]%lookup_insert_Some [[<- <-]|[? Hl]]%lookup_insert_Some Hd Hd';
      [done| | |by eapply Hu]; assert (owned c' = owned c) as Heq by congruence;
      rewrite Heq in *; by eapply Hu.
  - intros k' p' Hk. destruct (Hp k' p' Hk) as (j & d & Hj & Hd). destruct (decide (i = j)) as [<-|Hne].
    + exists i, c'. rewrite lookup_insert_eq. split; [done|]. congruence.
    + exists j, d. by rewrite lookup_insert_ne.
  - intros j k' p' [[<- ->]|[_ Hj]]%lookup_insert_Some; [done|by eapply Hfw].
  - intros j k' l p' [[<- ->]|[_ Hj]]%lookup_insert_Some; [done|by eapply Hs].
  - intros j d p' Hj Hd. apply lookup_insert_is_Some. apply lookup_insert_Some in Hj as [[<- <-]|[_ Hj]].
    + left. destruct c'; simpl in *; congruence.
    + destruct (decide (p = p')); [by left|right]. split; [done|by eapply Hsat].
  - intros j k' p' [[<- ->]|[_ Hj]]%lookup_insert_Some; [done|].
    destruct (Hw j k' p' Hj); [left|by right]. apply lookup_insert_is_Some.
    destruct (decide (p = p')); [by left|by right].
  - intros j d [[<- <-]|[_ Hj]]%lookup_insert_Some; [done|by eapply Hpc].
  - intros j k' p' r' [[<- ->]|[_ Hj]]%lookup_insert_Some; [done|].
    intros [[<- <-]|[_ Hr']]%lookup_insert_Some; [|by eapply Hpr].
    by rewrite (Hs j k' k p Hj Hpk).
  - intros k' p' r' Hk' [[<- <-]|[_ Hr']]%lookup_insert_Some; [|by eapply Hpp].
    by rewrite (Hi k' k p Hk' Hpk).
  - intros p' r' [[<- <-]|[_ Hr']]%lookup_insert_Some; [by eapply Hf|by eapply Hpf].
Qed.

(** The owner leaves the pending map after satisfying its promise. *)
Lemma inv_release s i c c' k p m :
  inv s → threads s !! i = Some c → owned c = Some (k, p) → satisfied c = Some p →
  owned c' = None → satisfied c' = None → (∀ l q, c' ≠ Wait l q) → pc_origin c' →
  (∀ l e, m !! l = Some e → origin l (inr (value e))) →
  inv {| now := now s; map_ := m; pending_ := delete k (pending_ s); promises := promises s;
         next := next s; threads := <[i := c']> (threads s) |}.
Proof using Type.
  intros [Ho Hu Hp Hf Hfw Hi Hs Hsat Hw Hm Hpc Hpr Hpp Hpf] Hc Hown Hst Hown' Hst' Hnw Hor Hmap.
  pose proof (Ho _ _ _ _ Hc Hown) as Hpk.
  constructor; simpl; try done.
  - intros j d k' p' [[<- <-]|[Hne Hj]]%lookup_insert_Some Hd; [congruence|].
    apply lookup_delete_Some. split; [|by eapply Ho]. intros <-. apply Hne. by eapply Hu.
  - intros j l d d' k' p' q [[<- <-]|[? Hj]]%lookup_insert_Some [[<- <-]|[? Hl]]%lookup_insert_Some Hd Hd';
      [done|congruence|congruence|by eapply Hu].
  - intros k' p' [Hne Hk]%lookup_delete_Some. destruct (Hp k' p' Hk) as (j & d & Hj & Hd).
    exists j, d. rewrite lookup_insert_ne; [done|]. intros <-. congruence.
  - intros k' p' [_ Hk]%lookup_delete_Some. by eapply Hf.
  - intros j k' p' [[<- ->]|[_ Hj]]%lookup_insert_Some; [by destruct (Hnw k' p')|by eapply Hfw].
  - intros k' l p' [_ Hk]%lookup_delete_Some [_ Hl]%lookup_delete_Some. by eapply Hi.
  - intros j k' l p' [[<- ->]|[_ Hj]]%lookup_insert_Some; [by destruct (Hnw k' p')|].
    intros [_ Hl]%lookup_delete_Some. by eapply Hs.
  - intros j d p' [[<- <-]|[_ Hj]]%lookup_insert_Some; [congruence|by eapply Hsat].
  - intros j k' p' [[<- ->]|[_ Hj]]%lookup_insert_Some; [by destruct (Hnw k' p')|].
    destruct (Hw j k' p' Hj) as [?|Hk']; [by left|]. destruct (decide (k = k')) as [<-|Hne].
    + left. assert (p' = p) as -> by congruence. exact (Hsat _ _ _ Hc Hst).
    + right. by apply lookup_delete_Some.
  - intros j d [[<- <-]|[_ Hj]]%lookup_insert_Some; [done|by eapply Hpc].
  - intros j k' p' r [[<- ->]|[_ Hj]]%lookup_insert_Some; [by destruct (Hnw k' p')|by eapply Hpr].
  - intros k' p' r [_ Hk]%lookup_delete_Some. by eapply Hpp.
Qed.

(** A thread that misses and finds nothing pending becomes the owner. *)
Lemma inv_claim s i k m :
  inv s → threads s !! i = Some (Enter k) → pending_ s !! k = None →
  (∀ l e, m !! l = Some e → origin l (inr (value e))) →
  inv {| now := now s; map_ := m; pending_ := <[k := next s]> (pending_ s); promises := promises s;
         next := S (next s); threads := <[i := Computing k (next s)]> (threads s) |}.
Proof using Type.
  intros [Ho Hu Hp Hf Hfw Hi Hs Hsat Hw Hm Hpc Hpr Hpp Hpf] Hc Hk Hmap.
  assert (∀ j d p, threads s !! j = Some d → owned d = Some (k, p) → False) as Hno
    by (intros j d p Hj Hd; pose proof (Ho _ _ _ _ Hj Hd); congruence).
  constructor; simpl; try done.
  - intros j d k' p' [[<- <-]|[Hne Hj]]%lookup_insert_Some Hd.
    + injection Hd as <- <-. by apply lookup_insert_eq.
    + rewrite lookup_insert_ne; [by eapply Ho|]. intros <-. by eapply Hno.
  - intros j l d d' k' p' q [[<- <-]|[? Hj]]%lookup_insert_Some [[<- <-]|[? Hl]]%lookup_insert_Some Hd Hd';
      [done| | |by eapply Hu].
    + injection Hd as <- <-. by destruct (Hno l d' q).
    + injection Hd' as <- <-. by destruct (Hno j d p').
  - intros k' p' [[<- <-]|[Hne Hk']]%lookup_insert_Some.
    + exists i, (Computing k (next s)). by rewrite lookup_insert_eq.
    + destruct (Hp k' p' Hk') as (j & d & Hj & Hd). exists j, d.
      rewrite lookup_insert_ne; [done|]. intros <-. rewrite Hc in Hj. by injection Hj as <-.
  - intros k' p' [[<- <-]|[Hne Hk']]%lookup_insert_Some; [lia|]. apply Hf in Hk'. lia.
  - intros j k' p' [[<- ?]|[_ Hj]]%lookup_insert_Some; [done|]. apply Hfw in Hj. lia.
  - intros k' l p' [[<- <-]|[? Hk']]%lookup_insert_Some [[<- ?]|[? Hl]]%lookup_insert_Some;
      [done| | |by eapply Hi].
    + apply Hf in Hl. lia.
    + subst p'. apply Hf in Hk'. lia.
  - intros j k' l p' [[<- ?]|[_ Hj]]%lookup_insert_Some; [done|].
    intros [[<- <-]|[? Hl]]%lookup_insert_Some; [|by eapply Hs]. apply Hfw in Hj. lia.
  - intros j d p' [[<- <-]|[_ Hj]]%lookup_insert_Some; [done|by eapply Hsat].
  - intros j k' p' [[<- ?]|[_ Hj]]%lookup_insert_Some; [done|].
    destruct (Hw j k' p' Hj) as [?|Hk']; [by left|right].
    rewrite lookup_insert_ne; [done|]. intros <-. congruence.
  - intros j d [[<- <-]|[_ Hj]]%lookup_insert_Some; [done|by eapply Hpc].
  - intros j k' p' r [[<- ?]|[_ Hj]]%lookup_insert_Some; [done|by eapply Hpr].
  - intros k' p' r [[<- <-]|[? Hk']]%lookup_insert_Some Hr; [|by eapply Hpp].
    apply Hpf in Hr. lia.
  - intros p' r Hr. apply Hpf in Hr. lia.
Qed.

Lemma inv_step s s' : inv s → step s s' → inv s'.
Proof using Type.
  intros Hinv Hstep. pose proof (iv_map _ Hinv) as Hmap.
  assert (∀ t k l e, (do_get ttl_ t k (map_ s)).2 !! l = Some e → origin l (inr (value e))) as Hget
    by (intros t k l e ?%do_get_map; by eapply Hmap).
  destruct Hstep as [i c s s' Hc Hts|i k s Hc|t s Ht|k v s Hset|k s|k s|s|pred s].
  - pose proof (iv_pc _ Hinv i c Hc) as Hor.
    destruct Hts as [k|k p v Hv|k p e He|k p v|k p v|k p e|k p e|k p v Hv|k p e He]; simpl in Hor.
    + unfold enter. specialize (Hget (now s) k).
      destruct (do_get ttl_ (now s) k (map_ s)) as [[v|] m] eqn:Hg.
      * apply (inv_at_pc (with_map m s) i (Enter k));
          [by apply inv_with_map|by left|done|done| |done]. simpl.
        unfold do_get in Hg. destruct (map_ s !! k) as [e|] eqn:He; [|done].
        destruct (expired ttl_ (now s) e); [done|]. injection Hg as <- <-. by apply Hmap.
      * destruct (pending_ s !! k) as [p|] eqn:Hp; [|by apply inv_claim].
        apply (inv_at_pc (with_map m s) i (Enter k));
          [by apply inv_with_map|by left|done|done|done|]. by intros k' p' [= <- <-].
    + apply (inv_at_pc s i (Computing k p)); [done|by left|done|done|by left|done].
    + apply (inv_at_pc s i (Computing k p)); [done|by left|done|done|by left|done].
    + by eapply inv_resolve.
    + eapply inv_release; simpl; eauto; try done.
      unfold set_entry. intros l e [[<- <-]|[_ ?]]%lookup_insert_Some; [done|by apply Hmap].
    + by eapply inv_resolve.
    + by eapply inv_release.
    + apply (inv_at_pc s i (Wait k p));
        [done|by left|done|done|by eapply (iv_promise _ Hinv)|done].
    + apply (inv_at_pc s i (Wait k p));
        [done|by left|done|done|by eapply (iv_promise _ Hinv)|done].
  - apply (inv_at_pc s i (Enter k)); [done|by right|congruence|done|done|done].
  - by destruct Hinv.
  - apply inv_with_map; [done|]. unfold set_entry. intros l e [[<- <-]|[_ ?]]%lookup_insert_Some; [|by apply Hmap].
    right. by exists v.
  - apply inv_with_map; [done|]. intros l e. apply Hget.
  - apply inv_with_map; [done|]. unfold remove. intros l e [_ ?]%lookup_delete_Some. by apply Hmap.
  - apply inv_with_map; [done|]. intros l e ?. simplify_map_eq.
  - apply inv_with_map; [done|]. unfold invalidate_if. intros l e [? _]%map_lookup_filter_Some. by apply Hmap.
Qed.

Lemma inv_reachable s : reachable ttl_ factory settable s → inv s.
Proof using Type.
  intros [t Hr]. apply (rtc_ind_r inv (init t)) in Hr; [done|apply inv_init|].
  intros s1 s2 _ Hstep IH. by eapply inv_step.
Qed.
End invariants.

(** * Properties *)

(** C13: Only one thread at a time computes a key: in every reachable state, two
    calls of [get_or_compute] that are past the lookup and have not left the
    pending map for the same key are the same call, and every pending key has
    such a call. *)
Theorem cache_single_flight {Key Value Exn} `{Countable Key} (ttl : Z)
    (factory : Key → Exn + Value → Prop) (settable : Key → Value → Prop) s :
  reachable ttl factory settable s →
  (∀ i j c d k p q, threads s !! i = Some c → threads s !! j = Some d →
     owned c = Some (k, p) → owned d = Some (k, q) → i = j)
  ∧ (∀ k p, pending_ s !! k = Some p → ∃ i c, threads s !! i = Some c ∧ owned c = Some (k, p)).
Proof.
  intros Hr. pose proof (inv_reachable _ _ _ s Hr) as Hinv.
  split; [apply (iv_unique _ _ _ Hinv)|apply (iv_pending _ _ _ Hinv)].
Qed.

(** C14: No caller waits for ever: in every reachable state where some call has not
    ended, some call can take its next step, provided the factory returns or
    throws; in particular a future that is waited for and not ready has a
    thread that will satisfy it, also after [remove], [clear] and expiry. *)
Theorem cache_no_lost_waiter {Key Value Exn} `{Countable Key} (ttl : Z)
    (factory : Key → Exn + Value → Prop) (settable : Key → Value → Prop) s i c :
  (∀ k, ∃ r, factory k r) → reachable ttl factory settable s →
  threads s !! i = Some c → (∀ k v, c ≠ Returned k v) → (∀ k e, c ≠ Threw k e) →
  ∃ j d s', threads s !! j = Some d ∧ thread_step ttl factory j s d s'.
Proof.
  intros Hf Hr Hi Hnr Hnt. pose proof (inv_reachable _ _ _ s Hr) as Hinv.
  assert (∀ j d k p, threads s !! j = Some d → owned d = Some (k, p) →
    ∃ s', thread_step ttl factory j s d s') as Hown.
  { intros j d k p Hj Hd. destruct d as [|k' p'| | | | | | |]; simpl in Hd; try done;
      try (eexists; solve [constructor]).
    destruct (Hf k') as [[e|v] Hr']; [eexists; by apply ts_throw|eexists; by apply ts_value]. }
  destruct c as [k|k p|k p v|k p v|k p e|k p e|k p|k v|k e];
    try (edestruct (Hown i) as [s' Hs']; [exact Hi|reflexivity|by eexists i, _, s']).
  - exists i, (Enter k). eexists. split; [done|constructor].
  - destruct (iv_wait _ _ _ Hinv i k p Hi) as [[[e|v] Hp]|Hp].
    + eexists i, _, _. split; [done|by apply ts_rethrow].
    + eexists i, _, _. split; [done|by apply ts_get].
    + destruct (iv_pending _ _ _ Hinv k p Hp) as (j & d & Hj & Hd).
      destruct (Hown j d k p Hj Hd) as [s' Hs']. by exists j, d, s'.
  - by destruct (Hnr k v).
  - by destruct (Hnt k e).
Qed.

(** A value [get_or_compute] returns for a key was computed by the factory for
    that key or stored by [set] under it, and an exception it throws was thrown
    by the factory for that key; the same holds of every cached value. *)
Theorem cache_value_origin {Key Value Exn} `{Countable Key} (ttl : Z)
    (factory : Key → Exn + Value → Prop) (settable : Key → Value → Prop) s :
  reachable ttl factory settable s →
  (∀ i k v, threads s !! i = Some (Returned k v) → factory k (inr v) ∨ settable k v)
  ∧ (∀ i k e, threads s !! i = Some (Threw k e) → factory k (inl e))
  ∧ (∀ k entry, map_ s !! k = Some entry → factory k (inr (value entry)) ∨ settable k (value entry)).
Proof.
  intros Hr. pose proof (inv_reachable _ _ _ s Hr) as Hinv. split; [|split].
  - intros i k v Hi. destruct (iv_pc _ _ _ Hinv i _ Hi) as [?|(v' & [= ->] & ?)]; [by left|by right].
  - intros i k e Hi. by destruct (iv_pc _ _ _ Hinv i _ Hi) as [?|(v' & ? & ?)].
  - intros k entry Hk.
    destruct (iv_map _ _ _ Hinv k _ Hk) as [?|(v' & [= ->] & ?)]; [by left|by right].
Qed.

(** Time to live: [get] returns a value exactly when it was stored less than
    [ttl] ago and not removed since, and otherwise erases what is left of the
    entry; other keys are untouched. *)
Theorem cache_get_fresh {Key Value} `{Countable Key} (ttl now : Z) (key : Key)
    (m : gmap Key (@Entry Value)) :
  (get ttl now key m).1 =
    match m !! key with
    | Some e => if decide (now - timestamp e < ttl)%Z then Some (value e) else None
    | None => None
    end
  ∧ ((get ttl now key m).1 = None → (get ttl now key m).2 !! key = None)
  ∧ (∀ k, k ≠ key → (get ttl now key m).2 !! k = m !! k).
Proof.
  unfold get, do_get, expired. destruct (m !! key) as [e|] eqn:He; simpl.
  - destruct (ttl <=? now - timestamp e)%Z eqn:Ht; prop_of_bool; simpl.
    + rewrite decide_False by lia. split; [done|]. split; [intros _; apply lookup_delete_eq|].
      intros k Hk. by apply lookup_delete_ne.
    + rewrite decide_True by lia. done.
  - done.
Qed.

(** Two callers of the same key: the first computes, the second waits. *)
Definition same_key_state : @state nat nat bool _ _ :=
  {| now := 0; map_ := ∅; pending_ := {[ 7 := 0 ]}; promises := ∅; next := 1;
     threads := {[ 0 := Computing 7 0; 1 := Wait 7 0 ]} |}.

Lemma same_key_reachable : reachable 5 (λ k r, r = inr (k + 1)) (λ _ _, False) same_key_state.
Proof.
  exists 0%Z. eapply rtc_l; [apply (step_call _ _ _ 0 7); reflexivity|].
  eapply rtc_l; [apply (step_call _ _ _ 1 7); reflexivity|].
  eapply rtc_l; [eapply (step_thread _ _ _ 0); [reflexivity|apply ts_enter]|].
  eapply rtc_l; [eapply (step_thread _ _ _ 1); [reflexivity|apply ts_enter]|].
  assert (∀ s s' : @state nat nat bool _ _, s = s' →
    rtc (step 5 (λ k r, r = inr (k + 1)) (λ _ _, False)) s s') as Heq by (by intros s ? <-).
  apply Heq. vm_compute. reflexivity.
Qed.

Lemma cache_single_flight_witness :
  ∃ i c, threads same_key_state !! i = Some c ∧ owned c = Some (7, 0).
Proof.
  exact (proj2 (cache_single_flight 5 _ _ same_key_state same_key_reachable) 7 0 eq_refl).
Defined.

Lemma cache_no_lost_waiter_witness :
  threads same_key_state !! 1 = Some (Wait 7 0) ∧
  ∃ j d s', threads same_key_state !! j = Some d
    ∧ thread_step 5 (λ k (r : bool + nat), r = inr (k + 1)) j same_key_state d s'.
Proof.
  split; [reflexivity|].
  apply (cache_no_lost_waiter 5 _ (λ _ _, False) same_key_state 1 (Wait 7 0)); try discriminate.
  - intros k. eexists. reflexivity.
  - exact same_key_reachable.
  - reflexivity.
Defined.

(** The first of them has run to its end, the second still waits. *)
Definition computed_state : @state nat nat bool _ _ :=
  {| now := 0; map_ := {[ 7 := {| timestamp := 0; value := 8 |} ]}; pending_ := ∅;
     promises := {[ 0 := inr 8 ]}; next := 1; threads := {[ 0 := Returned 7 8; 1 := Wait 7 0 ]} |}.

Lemma computed_reachable : reachable 5 (λ k r, r = inr (k + 1)) (λ _ _, False) computed_state.
Proof.
  destruct same_key_reachable as [t Hr]. exists t. etrans; [exact Hr|].
  eapply rtc_l; [eapply (step_thread _ _ _ 0); [reflexivity|by apply (ts_value _ _ _ _ _ _ 8)]|].
  eapply rtc_l; [eapply (step_thread _ _ _ 0); [reflexivity|apply ts_set]|].
  eapply rtc_l; [eapply (step_thread _ _ _ 0); [reflexivity|apply ts_store]|].
  assert (∀ s s' : @state nat nat bool _ _, s = s' →
    rtc (step 5 (λ k r, r = inr (k + 1)) (λ _ _, False)) s s') as Heq by (by intros s ? <-).
  apply Heq. vm_compute. reflexivity.
Qed.

Lemma cache_value_origin_witness :
  threads computed_state !! 0 = Some (Returned 7 8) ∧ ((inr 8 : bool + nat) = inr (7 + 1) ∨ False).
Proof.
  split; [reflexivity|].
  exact (proj1 (cache_value_origin 5 _ (λ _ _, False) computed_state computed_reachable) 0 7 8 eq_refl).
Defined.
