(* ===== verification/Registry.v ===== *)
(** [src/dns/factory.cpp], [src/dns/resolver_registry.cpp] and the registrars of
    the three resolvers: which resolvers a configuration gives, with which
    host, port and path. *)
From S2P Require Import Prelude CppString Address Uri DnsTypes Config ClassicResolver.
Import Classic.

(** A constructed resolver: its class and the constructor's arguments. *)
Inductive resolver :=
| ClassicResolver (server : DnsServer) (addr : AddrResult)
| DotResolver (host : bytes) (port : Z) (label : bytes)
| DohResolver (host : bytes) (port : Z) (path label : bytes).

(** What the factories throw: a [DnsLookupException], or what [Uri] throws. *)
Inductive registry_error :=
| Lookup (e : DnsErrorInfo)
| FromUri (e : UriError).

Section registry.
Context `{InetText}.

Definition of_uri {A} (m : outcome UriError A) : outcome registry_error A :=
  match m with
  | Ret a => Ret a
  | Throw e => Throw (FromUri e)
  | Undef => Undef
  | OutOfFuel => OutOfFuel
  end.

(** The constructor resolves the address; it also parses it as a URI, for logs. *)
(* @src src/src/dns/resolver/classic_native.cpp 358 362 ClassicResolver (registrar) *)
Definition create_classic (server : DnsServer) : outcome registry_error resolver :=
  _ ← of_uri (Uri.parse (ds_address server));
  match make_addr server with
  | Ret addr => Ret (ClassicResolver server addr)
  | Throw e => Throw (Lookup e)
  | Undef => Undef
  | OutOfFuel => OutOfFuel
  end.

(** The port, an [int], is narrowed to 16 bits. *)
(* @src src/src/dns/resolver/dot.cpp 409 417 DotResolver (registrar) *)
Definition create_dot (server : DnsServer) : outcome registry_error resolver :=
  uri ← of_uri (Uri.parse (ds_address server));
  host ← of_uri (get_host uri);
  port ← of_uri (get_port uri);
  origin ← of_uri (get_origin uri);
  Ret (DotResolver host (u16 port) origin).

(* @src src/src/dns/resolver/doh.cpp 264 279 DohResolver (registrar) *)
Definition create_doh (server : DnsServer) : outcome registry_error resolver :=
  uri ← of_uri (Uri.parse (ds_address server));
  host ← of_uri (get_host uri);
  p ← of_uri (get_port uri);
  port ← (if negb (p =? 0)%Z then of_uri (get_port uri) else Ret 443%Z);
  path ← of_uri (get_path uri);
  let path := if bool_decide (path = []) then str "/" else path in
  origin ← of_uri (get_origin uri);
  Ret (DohResolver host (u16 port) path origin).

(** The registry, filled by the registrars before [main]. *)
(* @src src/src/dns/resolver_registry.cpp 17 28 DnsResolverRegistry::register_factory *)
Definition factories : list (bytes * (DnsServer → outcome registry_error resolver)) :=
  [([], create_classic); (str "tls", create_dot); (str "https", create_doh)].

Definition find_factory (schema : bytes) : option (DnsServer → outcome registry_error resolver) :=
  '(_, (_, f)) ← list_find (λ e, e.1 = schema) factories; Some f.

(* @fn src/src/dns/resolver_registry.cpp | std::unique_ptr<ResolverBase> create( | DnsResolverRegistry::create *)
Definition create (server : DnsServer) : outcome registry_error resolver :=
  uri ← of_uri (Uri.parse (ds_address server));
  schema ← of_uri (get_schema uri);
  let it := find_factory schema in
  let it := match it with
            | None => if bool_decide (schema = []) then find_factory [] else None
            | Some f => Some f
            end in
  match it with
  | None => Throw (Lookup {| ei_code := CONFIG;
      ei_message := str "No resolver factory registered for schema " ++ quoted schema
        ++ str " (server: " ++ ds_address server ++ str ")" |})
  | Some f => f server
  end.

(** [YADDNSC_DEFAULT_DNS_SERVER] and its port, chosen when the build is configured. *)
Context (default_server : DnsServer).

(* @src src/src/dns/factory.cpp 25 40 DnsResolverFactory::create (servers) *)
Definition dns_servers (r : ResolverConfig) : list DnsServer :=
  let servers :=
    if use_custom_server r then
      if negb (bool_decide (rc_servers r = [])) then rc_servers r
      else if negb (bool_decide (rc_address r = []))
      then [{| ds_address := rc_address r; ds_port := rc_port r |}]
      else []
    else [] in
  match servers with [] => [default_server] | _ => servers end.

(** The name that is logged for a resolver. *)
(* @src src/src/dns/factory.cpp 47 51 DnsResolverFactory::create (log) *)
Definition log_name (server : DnsServer) : outcome registry_error bytes :=
  uri ← of_uri (Uri.parse (ds_address server));
  schema ← of_uri (get_schema uri);
  if bool_decide (schema = []) then of_uri (get_host_literal uri) else of_uri (get_origin uri).

(* @src src/src/dns/factory.cpp 45 52 DnsResolverFactory::create (loop) *)
Fixpoint create_all (servers : list DnsServer) : outcome registry_error (list resolver) :=
  match servers with
  | [] => Ret []
  | server :: rest =>
      r ← create server;
      _ ← log_name server;
      rs ← create_all rest;
      Ret (r :: rs)
  end.

(* @fn src/src/dns/factory.cpp | ResolverDispatcher DnsResolverFactory::create( | DnsResolverFactory::create *)
Definition factory_create (r : ResolverConfig) : outcome registry_error (list resolver * ResolverStrategy) :=
  resolvers ← create_all (dns_servers r);
  Ret (resolvers, rc_strategy r).
End registry.

(** * Properties *)

Section proofs.
Context `{InetText}.

(** The exceptions of the factories: a CONFIG error, or a URI that does not parse. *)
Definition registry_failure (e : registry_error) : Prop :=
  match e with
  | Lookup i => ei_code i = CONFIG
  | FromUri e => ∃ hint, e = RuntimeError (str "Unclosed IPv6 literal bracket: " ++ hint)
  end.

Lemma wp_of_uri_parse {A} uri (k : Uri → outcome registry_error A) Q :
  (∀ u, Uri.parse uri = Ret u → wp (k u) Q registry_failure) →
  wp (of_uri (Uri.parse uri) ≫= k) Q registry_failure.
Proof.
  intros Hk. pose proof (wp_parse uri) as Hp.
  destruct (Uri.parse uri) as [u|e| |] eqn:Hu; simpl in Hp |- *; [by apply Hk| |done..].
  destruct Hp as (p & n & He & _). exact He.
Qed.

(** A view that is inside the string cannot fail. *)
Lemma of_uri_view {A} uri u sl (k : bytes → outcome registry_error A) Q T :
  Uri.parse uri = Ret u → slice_ok (raw_uri_ u) sl → (∀ b, view (E:=UriError) u sl = Ret b → wp (k b) Q T) →
  wp (of_uri (view u sl) ≫= k) Q T.
Proof.
  intros Hu Hs Hk. pose proof (view_defined uri u sl Hu Hs) as Hd. unfold view, slice_view in *.
  destruct (_ <=? _); [|done]. by apply Hk.
Qed.

Lemma wp_of_uri_host {A} uri u (k : bytes → outcome registry_error A) Q T :
  Uri.parse uri = Ret u → (∀ b, get_host (E:=UriError) u = Ret b → wp (k b) Q T) →
  wp (of_uri (get_host u) ≫= k) Q T.
Proof. intros Hu Hk. eapply of_uri_view; [exact Hu|apply (wf_host uri), parse_in_bounds_ok, Hu|exact Hk]. Qed.

Lemma wp_of_uri_schema {A} uri u (k : bytes → outcome registry_error A) Q T :
  Uri.parse uri = Ret u → (∀ b, get_schema (E:=UriError) u = Ret b → wp (k b) Q T) →
  wp (of_uri (get_schema u) ≫= k) Q T.
Proof. intros Hu Hk. eapply of_uri_view; [exact Hu|apply (wf_schema uri), parse_in_bounds_ok, Hu|exact Hk]. Qed.

(** With a scheme there is a port. *)
Lemma schema_port uri u schema :
  Uri.parse uri = Ret u → get_schema (E:=UriError) u = Ret schema → schema ≠ [] → ∃ p, port_ u = Some p.
Proof.
  intros Hu Hs Hne. destruct (port_ u) as [p|] eqn:Hp; [by exists p|]. exfalso. apply Hne.
  apply (wf_no_port uri u (parse_in_bounds_ok uri u Hu)) in Hp as [Hno _].
  unfold get_schema in Hs. rewrite Hno, view_no_slice in Hs. congruence.
Qed.

Lemma host_literal_defined uri u :
  Uri.parse uri = Ret u → ∃ h, get_host_literal (E:=UriError) u = Ret h.
Proof.
  intros Hu. pose proof (host_defined uri u Hu) as Hh. unfold get_host_literal, get_host in *.
  destruct (view u (host_ u)) as [h|e| |] eqn:Hv; [|by unfold view, slice_view in Hv; destruct (_ <=? _)|done..].
  destruct (is_ipv6_ u); simpl; eauto.
Qed.

Lemma origin_defined uri u schema :
  Uri.parse uri = Ret u → get_schema (E:=UriError) u = Ret schema → schema ≠ [] →
  ∃ o, get_origin (E:=UriError) u = Ret o.
Proof.
  intros Hu Hs Hne. destruct (schema_port uri u schema Hu Hs Hne) as [p Hp].
  destruct (host_literal_defined uri u Hu) as [h Hh].
  unfold get_origin. unfold get_schema in Hs. rewrite Hs, Hh, Hp. simpl. eauto.
Qed.

Lemma path_defined uri u : Uri.parse uri = Ret u → ∃ p, get_path (E:=UriError) u = Ret p.
Proof.
  intros Hu. unfold get_path. destruct (slice_empty _); [eauto|].
  pose proof (wf_path uri u (parse_in_bounds_ok uri u Hu)) as Hs. unfold slice_ok in Hs.
  unfold view, slice_view. rewrite (proj2 (Nat.leb_le _ _)) by lia. eauto.
Qed.

(** The resolver [rs] is the one that [server]'s address asks for. *)
Definition resolver_for (server : DnsServer) (rs : resolver) : Prop :=
  ∃ u, Uri.parse (ds_address server) = Ret u ∧
  match rs with
  | ClassicResolver s addr =>
      get_schema (E:=UriError) u = Ret [] ∧ s = server ∧ make_addr server = Ret addr
  | DotResolver host port label =>
      get_schema (E:=UriError) u = Ret (str "tls") ∧ get_host (E:=UriError) u = Ret host
      ∧ (∃ p, get_port (E:=UriError) u = Ret p ∧ port = u16 p) ∧ get_origin (E:=UriError) u = Ret label
  | DohResolver host port path label =>
      get_schema (E:=UriError) u = Ret (str "https") ∧ get_host (E:=UriError) u = Ret host
      ∧ (∃ p, get_port (E:=UriError) u = Ret p ∧ port = u16 (if (p =? 0)%Z then 443 else p)%Z)
      ∧ get_path (E:=UriError) u = Ret path ∧ path ≠ [] ∧ get_origin (E:=UriError) u = Ret label
  end.

Lemma wp_of_uri_eq {A B} (m : outcome UriError A) a (k : A → outcome registry_error B) Q T :
  m = Ret a → wp (k a) Q T → wp (of_uri m ≫= k) Q T.
Proof. by intros ->. Qed.

(** The path of a URI with a scheme is not empty. *)
Lemma path_nonempty uri u schema path :
  Uri.parse uri = Ret u → get_schema (E:=UriError) u = Ret schema → schema ≠ [] →
  get_path (E:=UriError) u = Ret path → path ≠ [].
Proof.
  intros Hu. pose proof (wf_path uri u (parse_in_bounds_ok uri u Hu)) as Hw. unfold slice_ok in Hw.
  unfold get_schema, get_path, view, slice_view, slice_empty. intros Hs Hne Hp.
  destruct (pos (schema_ u) <=? _); [|done]. injection Hs as <-.
  destruct (len (path_ u) =? 0) eqn:He.
  - destruct (len (schema_ u) =? 0) eqn:Hl; [|by injection Hp as <-].
    apply Nat.eqb_eq in Hl. by rewrite Hl in Hne.
  - destruct (pos (path_ u) <=? _); [|done]. injection Hp as <-. apply Nat.eqb_neq in He.
    intros Hnil. apply (f_equal length) in Hnil. rewrite sub_length in Hnil by lia. done.
Qed.

Lemma create_classic_ok server u :
  Uri.parse (ds_address server) = Ret u → get_schema (E:=UriError) u = Ret [] →
  wp (create_classic server) (resolver_for server) registry_failure.
Proof.
  intros Hu Hs. unfold create_classic. eapply wp_of_uri_eq; [exact Hu|].
  destruct (make_addr server) as [addr|e| |] eqn:Hm; simpl.
  - by exists u.
  - unfold make_addr in Hm. destruct (Address.parse _); [destruct (from_inet _ _)|]; by simplify_eq.
  - unfold make_addr in Hm. destruct (Address.parse _); [destruct (from_inet _ _)|]; by simplify_eq.
  - unfold make_addr in Hm. destruct (Address.parse _); [destruct (from_inet _ _)|]; by simplify_eq.
Qed.

Lemma create_dot_ok server u :
  Uri.parse (ds_address server) = Ret u → get_schema (E:=UriError) u = Ret (str "tls") →
  wp (create_dot server) (resolver_for server) registry_failure.
Proof.
  intros Hu Hs. unfold create_dot. eapply wp_of_uri_eq; [exact Hu|].
  eapply wp_of_uri_host; [exact Hu|]. intros h Hh.
  destruct (schema_port _ _ _ Hu Hs) as [p Hp]; [done|].
  destruct (origin_defined _ _ _ Hu Hs) as [o Ho]; [done|].
  assert (get_port (E:=UriError) u = Ret p) as Hg by (unfold get_port; by rewrite Hp).
  eapply wp_of_uri_eq; [exact Hg|]. eapply wp_of_uri_eq; [exact Ho|].
  exists u. repeat split; eauto.
Qed.

Lemma create_doh_ok server u :
  Uri.parse (ds_address server) = Ret u → get_schema (E:=UriError) u = Ret (str "https") →
  wp (create_doh server) (resolver_for server) registry_failure.
Proof.
  intros Hu Hs. unfold create_doh. eapply wp_of_uri_eq; [exact Hu|].
  eapply wp_of_uri_host; [exact Hu|]. intros h Hh.
  destruct (schema_port _ _ _ Hu Hs) as [p Hp]; [done|].
  destruct (origin_defined _ _ _ Hu Hs) as [o Ho]; [done|].
  destruct (path_defined _ _ Hu) as [pa Hpa].
  pose proof (path_nonempty _ _ _ _ Hu Hs ltac:(done) Hpa) as Hne.
  assert (get_port (E:=UriError) u = Ret p) as Hg by (unfold get_port; by rewrite Hp).
  eapply wp_of_uri_eq; [exact Hg|].
  assert ((if negb (p =? 0)%Z then of_uri (get_port u) else Ret 443%Z)
    = Ret (if (p =? 0)%Z then 443 else p)%Z) as ->.
  { rewrite Hg. by destruct (p =? 0)%Z. }
  cbn [mbind outcome_bind]. eapply wp_of_uri_eq; [exact Hpa|].
  rewrite (bool_decide_eq_false_2 (pa = [])) by exact Hne.
  eapply wp_of_uri_eq; [exact Ho|]. exists u. repeat split; eauto.
Qed.

Lemma find_factory_eq schema :
  find_factory schema =
    if decide (schema = []) then Some create_classic
    else if decide (schema = str "tls") then Some create_dot
    else if decide (schema = str "https") then Some create_doh else None.
Proof.
  unfold find_factory, factories. cbn [list_find fst].
  destruct (decide ([] = schema)), (decide (schema = [])); try congruence; [done|].
  destruct (decide (str "tls" = schema)), (decide (schema = str "tls")); try congruence; [done|].
  destruct (decide (str "https" = schema)), (decide (schema = str "https")); try congruence; done.
Qed.

Lemma create_ok server :
  wp (create server) (resolver_for server) registry_failure.
Proof.
  unfold create. apply wp_of_uri_parse. intros u Hu.
  eapply wp_of_uri_schema; [exact Hu|]. intros schema Hs. cbv zeta. rewrite !find_factory_eq.
  destruct (decide (schema = [])) as [->|Hne]; [by apply create_classic_ok with u|].
  destruct (decide (schema = str "tls")) as [->|]; [by apply create_dot_ok with u|].
  destruct (decide (schema = str "https")) as [->|]; [by apply create_doh_ok with u|].
  by rewrite bool_decide_eq_false_2.
Qed.

Lemma log_name_ok server :
  wp (log_name server) (λ _, True) registry_failure.
Proof.
  unfold log_name. apply wp_of_uri_parse. intros u Hu.
  eapply wp_of_uri_schema; [exact Hu|]. intros schema Hs.
  case_bool_decide as Hne.
  - destruct (host_literal_defined _ _ Hu) as [h ->]. done.
  - destruct (origin_defined _ _ _ Hu Hs Hne) as [o ->]. done.
Qed.

Lemma create_all_ok servers :
  wp (create_all servers) (Forall2 resolver_for servers) registry_failure.
Proof.
  induction servers as [|server rest IH]; simpl; [constructor|].
  eapply wp_call; [apply create_ok|]. intros r _ Hr.
  eapply wp_call; [apply log_name_ok|]. intros _ _ _.
  eapply wp_call; [apply IH|]. intros rs _ Hrs. by constructor.
Qed.

Lemma dns_servers_nonempty default_server r : dns_servers default_server r ≠ [].
Proof. unfold dns_servers. by destruct (if use_custom_server r then _ else _). Qed.

Lemma factory_create_ok default_server r :
  wp (factory_create default_server r)
    (λ '(resolvers, strategy), strategy = rc_strategy r
      ∧ Forall2 resolver_for (dns_servers default_server r) resolvers) registry_failure.
Proof. unfold factory_create. eapply wp_call; [apply create_all_ok|]. by intros rs _ Hrs. Qed.

(** Building the resolvers of a configuration never dereferences a missing
    port or reads outside an address: it gives one resolver for each server,
    in order and at least one, of the class the address's scheme names, with
    that address's host, path and port (443 where an [https] port is 0), or
    throws a CONFIG error or the URI parser's exception. *)
Theorem factory_create_spec default_server r :
  wp (factory_create default_server r)
    (λ '(resolvers, strategy), strategy = rc_strategy r ∧ resolvers ≠ []
      ∧ Forall2 resolver_for (dns_servers default_server r) resolvers)
    registry_failure.
Proof.
  eapply wp_mono; [apply factory_create_ok| |done]. intros [rs strategy] [Hst Hrs].
  split; [done|]. split; [|done]. intros ->. apply Forall2_nil_inv_r in Hrs.
  by apply dns_servers_nonempty in Hrs.
Qed.
End proofs.

(** A port the address gives is narrowed to 16 bits without a check. *)
Example registry_examples :
  let server a := {| ds_address := str a; ds_port := 53 |} in
  @create sample_text (server "https://h:65536") = Ret (DohResolver (str "h") 0 (str "/") (str "https://h:65536"))
  ∧ @create sample_text (server "tls://h") = Ret (DotResolver (str "h") 853 (str "tls://h"))
  ∧ (∃ i, @create sample_text (server "http://h") = Throw (Lookup i) ∧ ei_code i = CONFIG).
Proof. repeat split; [vm_compute; reflexivity..|]. eexists. split; [vm_compute; reflexivity|done]. Qed.
