(* ===== verification/Scheduler.v ===== *)
(** [src/core/scheduler.cpp]: the timer queue that says when each subdomain is
    updated, and how the loop that waits on it is stopped.  A time is a number
    of nanoseconds of the steady clock: an [int] of seconds added to it stays
    far inside the 64 bits of a [time_point]. *)
From S2P Require Import Prelude Config.
From stdpp Require Import sorting.

(** ** [std::priority_queue]

    Of elements with equal priority any may be on top, so the queue is an
    interface; [gt] is the comparator, [std::greater]. *)
Class PriorityQueue (A : Type) := {
  queue : Type;
  q_empty : queue;
  q_push : A → queue → queue;
  q_top : queue → option A;
  q_pop : queue → queue;
  q_elements : queue → list A
}.
#[global] Arguments queue A {_}.

Class PriorityQueueOk (A : Type) `{PriorityQueue A} (gt : A → A → bool) := {
  elements_empty : q_elements q_empty = [];
  elements_push x q : q_elements (q_push x q) ≡ₚ x :: q_elements q;
  top_none q : q_top q = None → q_elements q = [];
  top_some q x : q_top q = Some x →
    q_elements q ≡ₚ x :: q_elements (q_pop q) ∧ Forall (λ y, gt x y = false) (q_elements q)
}.

(** An implementation: a list sorted by insertion. *)
Section sorted_queue.
Context {A : Type} (gt : A → A → bool).

Fixpoint insert_by (x : A) (l : list A) : list A :=
  match l with
  | [] => [x]
  | y :: l' => if gt x y then y :: insert_by x l' else x :: l
  end.

Fixpoint sort_by (l : list A) : list A :=
  match l with [] => [] | x :: l => insert_by x (sort_by l) end.

#[local] Instance sorted_queue : PriorityQueue A := {|
  queue := list A;
  q_empty := [];
  q_push := λ x q, x :: q;
  q_top := λ q, head (sort_by q);
  q_pop := λ q, tail (sort_by q);
  q_elements := λ q, q
|}.

Lemma insert_by_perm x l : insert_by x l ≡ₚ x :: l.
Proof. induction l as [|y l IH]; simpl; [done|]. destruct (gt x y); [|done]. rewrite IH. constructor. Qed.

Lemma sort_by_perm l : sort_by l ≡ₚ l.
Proof. induction l as [|x l IH]; simpl; [done|]. by rewrite insert_by_perm, IH. Qed.

Context (gt_irrefl : ∀ x, gt x x = false)
  (gt_trans : ∀ x y z, gt x y = false → gt y z = false → gt x z = false)
  (gt_total : ∀ x y, gt x y = true → gt y x = false).

Lemma insert_by_head x l :
  (∀ y, head l = Some y → Forall (λ z, gt y z = false) l) →
  ∀ y, head (insert_by x l) = Some y → Forall (λ z, gt y z = false) (insert_by x l).
Proof.
  intros Hl y Hy. rewrite insert_by_perm. destruct l as [|w l]; simpl in *.
  - injection Hy as <-. auto.
  - specialize (Hl w eq_refl). destruct (gt x w) eqn:Hg; simpl in Hy; injection Hy as <-; constructor; auto.
    eapply Forall_impl; [exact Hl|]. intros z Hz. eauto.
Qed.

Lemma sort_by_head l y : head (sort_by l) = Some y → Forall (λ z, gt y z = false) (sort_by l).
Proof.
  revert y. induction l as [|x l IH]; intros y; simpl; [done|]. by apply insert_by_head.
Qed.

#[local] Instance sorted_queue_ok : PriorityQueueOk A gt.
Proof.
  split; simpl; [done|done| |].
  - intros q Hq. pose proof (sort_by_perm q) as Hp. destruct (sort_by q); [|done].
    by apply Permutation_nil_l in Hp.
  - intros q x Hx. pose proof (sort_by_head q x Hx) as Hall. pose proof (sort_by_perm q) as Hp. split.
    + rewrite <- Hp at 1. by destruct (sort_by q); simplify_eq/=.
    + by rewrite <- Hp.
Qed.
End sorted_queue.

(** * The queue of tasks *)

Section scheduler.
Context {generic : Type}.

(* @fn src/src/core/update_task.h | struct UpdateTask { | UpdateTask *)
Record UpdateTask := {
  ut_config : SubdomainConfig generic;
  ut_domain_name : bytes;
  ut_driver_name : bytes;
  ut_fqdn : bytes;
  ut_force_update : bool
}.

(* @src src/src/core/scheduler.cpp 26 31 ScheduleEntry *)
Record ScheduleEntry := {
  deadline : Z;
  update_interval : Z;
  force_update_interval : Z;
  last_force_update : Z;
  task : UpdateTask
}.

(* @fn src/src/core/scheduler.cpp | bool operator>(const ScheduleEntry &other) const { | ScheduleEntry::operator> *)
Definition entry_gt (this other : ScheduleEntry) : bool := (deadline other <? deadline this)%Z.

(** [std::chrono::seconds(n)], and the cast to seconds, which rounds to zero. *)
Definition seconds (n : Z) : Z := (n * 1000000000)%Z.
Definition in_seconds (ns : Z) : Z := (ns `quot` 1000000000)%Z.

Definition with_force (b : bool) (t : UpdateTask) : UpdateTask := {|
  ut_config := ut_config t; ut_domain_name := ut_domain_name t; ut_driver_name := ut_driver_name t;
  ut_fqdn := ut_fqdn t; ut_force_update := b |}.

(** The entry a subdomain starts with; its first deadline is the present. *)
(* @src src/src/core/scheduler.cpp 75 101 Scheduler::Impl::Impl (entry) *)
Definition make_entry (now : Z) (domain : DomainConfig generic) (subdomain : SubdomainConfig generic)
    : ScheduleEntry :=
  let force_update := dm_force_update domain in
  {| deadline := now;
     update_interval := if (0 <? sd_update_interval subdomain)%Z then sd_update_interval subdomain
                        else dm_update_interval domain;
     force_update_interval := force_update;
     last_force_update := if (0 <? force_update)%Z then (now - seconds force_update)%Z else 0%Z;
     task := {| ut_config := subdomain; ut_domain_name := dm_name domain;
                ut_driver_name := dm_driver domain; ut_fqdn := fqdn_for domain subdomain;
                ut_force_update := false |} |}.

(** The nested loops: the pairs of a domain and one of its subdomains. *)
(* @src src/src/core/scheduler.cpp 73 74 Scheduler::Impl::Impl (loops) *)
Definition domain_subdomains (cfg : AppConfig generic)
    : list (DomainConfig generic * SubdomainConfig generic) :=
  app_domains cfg ≫= λ d, (d,.) <$> dm_subdomains d.

(** The clock is read for each subdomain: [clock i] is its [i]-th value. *)
Definition initial_entries (clock : nat → Z) (cfg : AppConfig generic) : list ScheduleEntry :=
  imap (λ i '(d, s), make_entry (clock i) d s) (domain_subdomains cfg).

Context `{PriorityQueue ScheduleEntry}.

(* @fn src/src/core/scheduler.cpp | Scheduler::Impl::Impl(Config::AppConfig config, std::stop_token stop_token) ==> : config_ | Scheduler::Impl::Impl *)
Definition init (clock : nat → Z) (cfg : AppConfig generic) : queue ScheduleEntry :=
  foldl (λ heap e, q_push e heap) q_empty (initial_entries clock cfg).

(* @fn src/src/core/scheduler.cpp | bool Scheduler::Impl::check_force_update( | Scheduler::Impl::check_force_update *)
Definition check_force_update (entry : ScheduleEntry) (now : Z) : bool * ScheduleEntry :=
  if (force_update_interval entry <=? 0)%Z then (false, entry) else
  let elapsed := in_seconds (now - last_force_update entry) in
  if (force_update_interval entry <=? elapsed)%Z
  then (true, {| deadline := deadline entry; update_interval := update_interval entry;
                 force_update_interval := force_update_interval entry;
                 last_force_update := now; task := task entry |})
  else (false, entry).

(** What the body of the loop does with an entry: the task that is due, and the
    entry that goes back into the queue. *)
(* @src src/src/core/scheduler.cpp 129 138 Scheduler::Impl::pop_all_due (body) *)
Definition fire (now : Z) (entry : ScheduleEntry) : UpdateTask * ScheduleEntry :=
  let '(force, entry) := check_force_update entry now in
  (with_force force (task entry),
   {| deadline := now + seconds (update_interval entry);
      update_interval := update_interval entry;
      force_update_interval := force_update_interval entry;
      last_force_update := last_force_update entry;
      task := with_force false (task entry) |}).

(* @fn src/src/core/scheduler.cpp | while (!heap_.empty() && now | Scheduler::Impl::pop_all_due (loop) *)
Fixpoint pop_loop {E} (fuel : nat) (now : Z) (due : list UpdateTask) (heap : queue ScheduleEntry)
    : outcome E (list UpdateTask * queue ScheduleEntry) :=
  match fuel with
  | O => OutOfFuel
  | S fuel =>
      match q_top heap with
      | None => Ret (due, heap)
      | Some entry =>
          if (now <? deadline entry)%Z then Ret (due, heap) else
          let '(t, entry) := fire now entry in
          pop_loop fuel now (due ++ [t]) (q_push entry (q_pop heap))
      end
  end.

(* @fn src/src/core/scheduler.cpp | std::vector<UpdateTask> Scheduler::Impl::pop_all_due() { | Scheduler::Impl::pop_all_due *)
Definition pop_all_due {E} (fuel : nat) (now : Z) (heap : queue ScheduleEntry)
    : outcome E (list UpdateTask * queue ScheduleEntry) :=
  pop_loop fuel now [] heap.

(* @fn src/src/core/scheduler.cpp | bool Scheduler::Impl::has_pending() const { | Scheduler::Impl::has_pending *)
Definition has_pending (heap : queue ScheduleEntry) : bool :=
  match q_top heap with Some _ => true | None => false end.
End scheduler.
Arguments UpdateTask : clear implicits.
Arguments ScheduleEntry : clear implicits.

(** * Properties of the queue *)

Section queue_proofs.
Context {generic : Type} `{PriorityQueueOk (ScheduleEntry generic) entry_gt}.
Implicit Types (e : ScheduleEntry generic) (heap : queue (ScheduleEntry generic)).

Definition is_due (now : Z) e : Prop := (deadline e ≤ now)%Z.
#[local] Instance is_due_dec now e : Decision (is_due now e).
Proof. unfold is_due. apply _. Defined.

(** The entries that are due all have a positive interval. *)
Definition due_advance (now : Z) (l : list (ScheduleEntry generic)) : Prop :=
  Forall (λ e, is_due now e → 0 < update_interval e)%Z l.

#[global] Instance due_advance_dec now l : Decision (due_advance now l).
Proof. unfold due_advance. apply _. Defined.

#[global] Instance due_advance_proper now : Proper ((≡ₚ) ==> iff) (due_advance now).
Proof. intros l l' Hl. unfold due_advance. by rewrite Hl. Qed.

(** The task that an entry gives, and whether it is forced. *)
Lemma fire_fst now e :
  (fire now e).1 = with_force
    (bool_decide (0 < force_update_interval e ∧ force_update_interval e ≤ in_seconds (now - last_force_update e))%Z)
    (task e).
Proof.
  unfold fire, check_force_update. destruct (force_update_interval e <=? 0)%Z eqn:Hf.
  - rewrite bool_decide_eq_false_2 by lia. done.
  - destruct (force_update_interval e <=? in_seconds _)%Z eqn:He; simpl.
    + by rewrite bool_decide_eq_true_2 by lia.
    + by rewrite bool_decide_eq_false_2 by lia.
Qed.

Lemma fire_deadline now e : deadline (fire now e).2 = (now + seconds (update_interval e))%Z.
Proof.
  unfold fire, check_force_update. destruct (_ <=? 0)%Z; [done|]. by destruct (_ <=? _)%Z.
Qed.

Lemma fire_interval now e : update_interval (fire now e).2 = update_interval e.
Proof.
  unfold fire, check_force_update. destruct (_ <=? 0)%Z; [done|]. by destruct (_ <=? _)%Z.
Qed.

Lemma fire_advances now e : (0 < update_interval e)%Z ↔ ¬ is_due now (fire now e).2.
Proof. unfold is_due. rewrite fire_deadline. unfold seconds. lia. Qed.

Lemma pop_loop_unfold {E} fuel now due heap :
  pop_loop (E:=E) (S fuel) now due heap =
  match q_top heap with
  | None => Ret (due, heap)
  | Some e => if decide (is_due now e)
              then pop_loop fuel now (due ++ [(fire now e).1]) (q_push (fire now e).2 (q_pop heap))
              else Ret (due, heap)
  end.
Proof.
  simpl. destruct (q_top heap) as [e|]; [|done]. destruct (fire now e) as [t e'].
  destruct (decide (is_due now e)) as [Hd|Hd]; unfold is_due in Hd.
  - by rewrite (proj2 (Z.ltb_ge _ _)) by lia.
  - by rewrite (proj2 (Z.ltb_lt _ _)) by lia.
Qed.

(** Nothing is due once the earliest entry is not. *)
Lemma none_due now e l :
  Forall (λ y, entry_gt e y = false) l → ¬ is_due now e → Forall (λ y, ¬ is_due now y) l.
Proof.
  intros Hall He. eapply Forall_impl; [exact Hall|]. unfold entry_gt, is_due in *. intros y Hy. lia.
Qed.

Lemma filter_due_none now l : Forall (λ y, ¬ is_due now y) l → filter (is_due now) l = [].
Proof. induction 1; [done|]. by rewrite filter_cons_False. Qed.

Lemma filter_not_due now l : Forall (λ y, ¬ is_due now y) l → filter (λ e, ¬ is_due now e) l = l.
Proof. induction 1 as [|y l Hy _ IH]; [done|]. by rewrite filter_cons_True, IH. Qed.

Lemma pop_loop_spec {E} fuel now due heap :
  due_advance now (q_elements heap) →
  length (filter (is_due now) (q_elements heap)) < fuel →
  ∃ fired heap',
    pop_loop (E:=E) fuel now due heap = Ret (due ++ ((fire now) <$> fired).*1, heap')
    ∧ fired ≡ₚ filter (is_due now) (q_elements heap)
    ∧ StronglySorted (λ e e', deadline e ≤ deadline e')%Z fired
    ∧ q_elements heap' ≡ₚ ((fire now) <$> fired).*2 ++ filter (λ e, ¬ is_due now e) (q_elements heap).
Proof.
  revert due heap. induction fuel as [|fuel IH]; intros due heap Hadv Hfuel; [lia|].
  rewrite pop_loop_unfold. destruct (q_top heap) as [e|] eqn:Htop.
  2:{ exists [], heap. rewrite (top_none heap Htop), app_nil_r. split_and!; [done..|constructor|done]. }
  destruct (top_some heap e Htop) as [Hperm Hmin]. destruct (decide (is_due now e)) as [Hd|Hd].
  2:{ pose proof (none_due now e _ Hmin Hd) as Hnone. exists [], heap. rewrite app_nil_r.
      rewrite filter_due_none, filter_not_due by exact Hnone.
      split_and!; [done..|constructor|done]. }
  rewrite Hperm in Hadv, Hfuel. rewrite filter_cons_True in Hfuel by done. simpl in Hfuel.
  apply Forall_cons in Hadv as [Hpos Hadv]. pose proof (proj1 (fire_advances now e) (Hpos Hd)) as Hnd.
  destruct (IH (due ++ [(fire now e).1]) (q_push (fire now e).2 (q_pop heap)))
    as (fired & heap' & Hrun & Hf & Hs & He).
  { rewrite elements_push. constructor; [done|exact Hadv]. }
  { rewrite elements_push, filter_cons_False by done. lia. }
  rewrite elements_push, filter_cons_False in Hf by done.
  rewrite elements_push, (filter_cons_True (λ e, ¬ is_due now e)) in He by done.
  exists (e :: fired), heap'. split; [|split; [|split]].
  - rewrite Hrun. simpl. by rewrite <- app_assoc.
  - by rewrite Hperm, filter_cons_True, Hf.
  - constructor; [done|]. rewrite Hf. apply Forall_forall. intros y Hy.
    apply list_elem_of_filter in Hy as [_ Hy]. rewrite Forall_forall in Hmin. unfold entry_gt in Hmin.
    assert (y ∈ q_elements heap) as Hin by (rewrite Hperm; by right). specialize (Hmin y Hin). lia.
  - rewrite He, Hperm. rewrite (filter_cons_False (λ e, ¬ is_due now e)) by tauto. simpl.
    by rewrite Permutation_middle.
Qed.

(** A due entry whose interval is not positive keeps the loop going. *)
Lemma pop_loop_diverges {E} fuel now due heap :
  ¬ due_advance now (q_elements heap) → pop_loop (E:=E) fuel now due heap = OutOfFuel.
Proof.
  revert due heap. induction fuel as [|fuel IH]; intros due heap Hadv; [done|].
  rewrite pop_loop_unfold. destruct (q_top heap) as [e|] eqn:Htop.
  2:{ destruct Hadv. rewrite (top_none heap Htop). constructor. }
  destruct (top_some heap e Htop) as [Hperm Hmin]. rewrite decide_True.
  - apply IH. rewrite elements_push. intros Hadv'. apply Hadv. rewrite Hperm.
    apply Forall_cons in Hadv' as [H1 H2]. constructor; [|exact H2]. intros _.
    rewrite fire_interval in H1. destruct (decide (is_due now (fire now e).2)) as [Hd|Hd]; [auto|].
    by apply fire_advances with now.
  - destruct (decide (is_due now e)) as [|Hd]; [done|]. destruct Hadv.
    eapply Forall_impl; [by eapply none_due|]. simpl. tauto.
Qed.

(** ** Each entry evolves on its own *)

(** What a cycle does to an entry, and the task it takes from it. *)
Definition next (now : Z) e : ScheduleEntry generic := if decide (is_due now e) then (fire now e).2 else e.
Definition task_of (now : Z) e : option (UpdateTask generic) :=
  if decide (is_due now e) then Some (fire now e).1 else None.

Lemma next_perm now l :
  next now <$> l ≡ₚ ((fire now) <$> filter (is_due now) l).*2 ++ filter (λ e, ¬ is_due now e) l.
Proof.
  induction l as [|e l IH]; [done|]. rewrite fmap_cons. unfold next at 1. destruct (decide (is_due now e)) as [Hd|Hd].
  - rewrite filter_cons_True, filter_cons_False by tauto. rewrite !fmap_cons. cbn [app]. by constructor.
  - rewrite (filter_cons_False (is_due now)), filter_cons_True by done.
    rewrite IH. apply Permutation_middle.
Qed.

Lemma task_of_filter now l : omap (task_of now) l = ((fire now) <$> filter (is_due now) l).*1.
Proof.
  induction l as [|e l IH]; [done|]. simpl. unfold task_of at 1. destruct (decide (is_due now e)) as [Hd|Hd].
  - rewrite filter_cons_True by done. simpl. by f_equal.
  - by rewrite filter_cons_False.
Qed.

Lemma next_not_due now l : due_advance now l → Forall (λ e, ¬ is_due now e) (next now <$> l).
Proof.
  intros Hadv. apply Forall_fmap. eapply Forall_impl; [exact Hadv|]. intros e He. simpl. unfold next.
  destruct (decide (is_due now e)) as [Hd|Hd]; [|done]. by apply fire_advances, He.
Qed.

Lemma pop_all_due_next {E} fuel now heap :
  due_advance now (q_elements heap) → length (q_elements heap) < fuel →
  ∃ tasks heap', pop_all_due (E:=E) fuel now heap = Ret (tasks, heap')
    ∧ tasks ≡ₚ omap (task_of now) (q_elements heap)
    ∧ q_elements heap' ≡ₚ next now <$> q_elements heap.
Proof.
  intros Hadv Hfuel. destruct (pop_loop_spec (E:=E) fuel now [] heap Hadv) as (fired & heap' & Hrun & Hf & _ & He).
  { pose proof (length_filter (is_due now) (q_elements heap)). lia. }
  exists ((fire now) <$> fired).*1, heap'. split; [exact Hrun|]. split.
  - rewrite task_of_filter. by rewrite Hf.
  - by rewrite He, next_perm, Hf.
Qed.

Lemma push_all_elements l heap : q_elements (foldl (λ h e, q_push e h) heap l) ≡ₚ l ++ q_elements heap.
Proof.
  revert heap. induction l as [|e l IH]; intros heap; simpl; [done|].
  rewrite IH, elements_push. symmetry. apply Permutation_middle.
Qed.

Lemma init_elements (clock : nat → Z) cfg : q_elements (init clock cfg) ≡ₚ initial_entries clock cfg.
Proof. unfold init. by rewrite push_all_elements, elements_empty, app_nil_r. Qed.

(** C25: A call of [pop_all_due] returns exactly when the entries that are due
    have a positive interval: it then takes every due entry once, earliest
    deadline first, marks its task forced when the force interval has passed
    since it was last forced, puts it back with its next deadline, keeps the
    others, and leaves nothing due.  Otherwise it never returns. *)
Theorem pop_all_due_spec {E} now heap :
  (due_advance now (q_elements heap) → ∀ fuel, length (q_elements heap) < fuel →
    ∃ fired heap',
      pop_all_due (E:=E) fuel now heap =
        Ret ((λ e, with_force (bool_decide (0 < force_update_interval e
                   ∧ force_update_interval e ≤ in_seconds (now - last_force_update e))%Z) (task e)) <$> fired, heap')
      ∧ fired ≡ₚ filter (is_due now) (q_elements heap)
      ∧ StronglySorted (λ e e', deadline e ≤ deadline e')%Z fired
      ∧ q_elements heap' ≡ₚ next now <$> q_elements heap
      ∧ Forall (λ e, now < deadline e)%Z (q_elements heap'))
  ∧ (¬ due_advance now (q_elements heap) → ∀ fuel, pop_all_due (E:=E) fuel now heap = OutOfFuel).
Proof.
  split; [|by intros; apply pop_loop_diverges].
  intros Hadv fuel Hfuel. destruct (pop_loop_spec (E:=E) fuel now [] heap Hadv) as (fired & heap' & Hrun & Hf & Hs & He).
  { pose proof (length_filter (is_due now) (q_elements heap)). lia. }
  assert (q_elements heap' ≡ₚ next now <$> q_elements heap) as Hnext by by rewrite He, next_perm, Hf.
  exists fired, heap'. split; [|split; [done|split; [done|split; [done|]]]].
  - unfold pop_all_due. rewrite Hrun. simpl. do 2 f_equal. rewrite <- list_fmap_compose.
    apply list_fmap_ext. intros ? e _. apply fire_fst.
  - rewrite Hnext. eapply Forall_impl; [by apply next_not_due|]. unfold is_due. simpl. intros e He'. lia.
Qed.
End queue_proofs.


(** The queue used in the examples. *)
#[export] Instance entry_queue generic : PriorityQueue (ScheduleEntry generic) := sorted_queue entry_gt.
#[export] Instance entry_queue_ok generic : PriorityQueueOk (ScheduleEntry generic) entry_gt.
Proof.
  apply sorted_queue_ok.
  - intros x. apply Z.ltb_irrefl.
  - unfold entry_gt. intros x y z. rewrite !Z.ltb_ge. lia.
  - unfold entry_gt. intros x y. rewrite Z.ltb_lt, Z.ltb_ge. lia.
Qed.

Definition sample_subdomain (name : bytes) (interval : Z) : SubdomainConfig unit := {|
  sd_name := name; sd_type := DnsTypes.KIND_A; sd_interface := str "eth0"; sd_ip_type := Address.UNSPECIFIED;
  sd_ip_source := INTERFACE; sd_ip_source_param := []; sd_allow_ula := false; sd_allow_local_link := false;
  sd_update_interval := interval; sd_driver_param := tt |}.

Definition sample_config : AppConfig unit := {|
  app_driver := {| driver_dir := None; auto_discover := false; load := [str "simple"] |};
  app_resolver := {| use_custom_server := false; rc_address := []; rc_port := 53; rc_servers := [];
                     rc_strategy := CONCURRENT |};
  app_domains := [{| dm_name := str "example.com"; dm_update_interval := 300; dm_force_update := 3600;
                     dm_driver := str "simple";
                     dm_subdomains := [sample_subdomain (str "www") 0; sample_subdomain (str "mail") 60] |}] |}.

(** The first call takes both tasks, forced; a minute later one is due again,
    and not forced. *)
Lemma pop_all_due_spec_witness :
  ∃ heap' heap'' tasks tasks',
    pop_all_due (E:=Empty_set) 3 (seconds 7000) (init (λ _, seconds 7000) sample_config) = Ret (tasks, heap')
    ∧ (λ t, (ut_fqdn t, ut_force_update t)) <$> tasks
        = [(str "mail.example.com", true); (str "www.example.com", true)]
    ∧ pop_all_due (E:=Empty_set) 3 (seconds 7060) heap' = Ret (tasks', heap'')
    ∧ (λ t, (ut_fqdn t, ut_force_update t)) <$> tasks' = [(str "mail.example.com", false)]
    ∧ Forall (λ e, seconds 7060 < deadline e)%Z (q_elements heap'').
Proof.
  destruct (proj1 (pop_all_due_spec (E:=Empty_set) (seconds 7000) (init (λ _, seconds 7000) sample_config)))
    with (fuel := 3) as (f1 & h1 & H1 & _).
  { apply (bool_decide_unpack _). vm_compute. exact I. }
  { vm_compute. lia. }
  evaluate_left H1. injection H1 as H1 Hh.
  destruct (proj1 (pop_all_due_spec (E:=Empty_set) (seconds 7060) h1)) with (fuel := 3) as (f2 & h2 & H2 & _ & _ & _ & H5).
  { subst h1. apply (bool_decide_unpack _). vm_compute. exact I. }
  { subst h1. vm_compute. lia. }
  eexists h1, h2, _, _. split; [subst h1; vm_compute; reflexivity|]. split; [vm_compute; reflexivity|].
  split; [exact H2|]. split; [|exact H5].
  subst h1. evaluate_left H2. injection H2 as H2 _. rewrite <- H2. vm_compute. reflexivity.
Defined.
