(* ===== verification/SchedulerWait.v ===== *)
(** [Scheduler::Impl::wait_for_next]: the main loop asleep on the condition
    variable, and the stop request that should wake it.  The two threads'
    steps interleave; the clock runs between any two of them. *)
From S2P Require Import Prelude Config Scheduler.

(** * The two threads *)

(** Where the waiting thread is.  It evaluates the predicate with the mutex
    held, and releases the mutex as it falls asleep; a notification reaches it
    only when it is asleep. *)
(* @src src/src/core/scheduler.cpp 148 152 Scheduler::Impl::wait_for_next (waiting) *)
Inductive waiter :=
| Testing
| FallingAsleep
| Asleep
| Returned (not_stopped : bool).

(** Where the thread that requests the stop is: [request_stop] sets the flag,
    then runs the callback, which notifies without taking the mutex. *)
(* @fn src/src/core/scheduler.cpp | stop_cb_(stop_token_, [this] | Scheduler::Impl::stop_cb_ *)
Inductive stopper := Running | Requested | Notified.

Record wait_state := { ws_waiter : waiter; ws_stopper : stopper; ws_now : Z }.

Definition stop_requested (s : wait_state) : bool :=
  match ws_stopper s with Running => false | _ => true end.

Definition with_waiter (w : waiter) (s : wait_state) : wait_state :=
  {| ws_waiter := w; ws_stopper := ws_stopper s; ws_now := ws_now s |}.

(** [notify_all] *)
Definition wake (w : waiter) : waiter := match w with Asleep => Testing | _ => w end.

(** What a step is: one of the waiting thread's own, the stop's two, the clock,
    or a wakeup without a notification, which the library permits. *)
Inductive label := LWaiter | LStop | LTick | LSpurious.

(** [until] is the top entry's deadline; [None] is the wait on an empty queue. *)
(* @fn src/src/core/scheduler.cpp | bool Scheduler::Impl::wait_for_next() { | Scheduler::Impl::wait_for_next *)
Inductive wait_step (until : option Z) : label → wait_state → wait_state → Prop :=
| step_test_true s :
    ws_waiter s = Testing → stop_requested s = true →
    wait_step until LWaiter s (with_waiter (Returned (negb (stop_requested s))) s)
| step_test_false s :
    ws_waiter s = Testing → stop_requested s = false →
    wait_step until LWaiter s (with_waiter FallingAsleep s)
| step_sleep s :
    ws_waiter s = FallingAsleep →
    wait_step until LWaiter s (with_waiter Asleep s)
| step_timeout s t :
    ws_waiter s = Asleep → until = Some t → (t ≤ ws_now s)%Z →
    wait_step until LWaiter s (with_waiter (Returned (negb (stop_requested s))) s)
| step_spurious s :
    ws_waiter s = Asleep →
    wait_step until LSpurious s (with_waiter Testing s)
| step_request s :
    ws_stopper s = Running →
    wait_step until LStop s {| ws_waiter := ws_waiter s; ws_stopper := Requested; ws_now := ws_now s |}
| step_notify s :
    ws_stopper s = Requested →
    wait_step until LStop s {| ws_waiter := wake (ws_waiter s); ws_stopper := Notified; ws_now := ws_now s |}
| step_tick s d :
    (0 < d)%Z →
    wait_step until LTick s {| ws_waiter := ws_waiter s; ws_stopper := ws_stopper s; ws_now := ws_now s + d |}.

(** [wait_for_next] on a queue, from the call on. *)
Definition until_of {generic} `{PriorityQueue (ScheduleEntry generic)}
    (heap : queue (ScheduleEntry generic)) : option Z := deadline <$> q_top heap.

Definition wait_init (now : Z) : wait_state :=
  {| ws_waiter := Testing; ws_stopper := Running; ws_now := now |}.

Definition any_step (until : option Z) (s s' : wait_state) : Prop := ∃ l, wait_step until l s s'.

Definition reachable (until : option Z) (now : Z) : wait_state → Prop :=
  rtc (any_step until) (wait_init now).

(** * Properties *)

(** What holds in every reachable state: the value that was returned is true
    to the flag, or was when it was read, and the clock has not gone back. *)
Definition wait_inv (until : option Z) (now : Z) (s : wait_state) : Prop :=
  (now ≤ ws_now s)%Z
  ∧ match ws_waiter s with
    | Returned true => ∃ t, until = Some t ∧ (t ≤ ws_now s)%Z
    | Returned false => stop_requested s = true
    | _ => True
    end.

Lemma wait_inv_step until now s s' :
  wait_inv until now s → any_step until s s' → wait_inv until now s'.
Proof.
  intros [Hnow Hw] [l Hs]. inversion Hs; subst; (split; simpl; [done || lia|]).
  - by rewrite H0.
  - done.
  - done.
  - destruct (stop_requested s) eqn:Hst; simpl; [done|eauto].
  - done.
  - destruct (ws_waiter s) as [| | |[]]; naive_solver.
  - destruct (ws_waiter s) as [| | |[]]; naive_solver.
  - destruct (ws_waiter s) as [| | |[]]; [done..| |done]. destruct Hw as (t & -> & Ht). exists t. split; [done|lia].
Qed.

Lemma wait_inv_reachable until now s : reachable until now s → wait_inv until now s.
Proof.
  intros Hr. apply (rtc_ind_r (wait_inv until now) (wait_init now)) with (3 := Hr).
  - by split.
  - intros y z _ Hyz Hy. by eapply wait_inv_step.
Qed.

(** The number of its own steps that the waiting thread still makes, once the
    deadline has passed and without further notifications. *)
Definition steps_left (w : waiter) : nat :=
  match w with Testing => 3 | FallingAsleep => 2 | Asleep => 1 | Returned _ => 0 end.

Lemma waiter_step_decreases until s s' :
  wait_step until LWaiter s s' → steps_left (ws_waiter s') < steps_left (ws_waiter s).
Proof. inversion 1; simplify_eq/=; repeat match goal with H : ws_waiter _ = _ |- _ => rewrite H end; simpl; lia. Qed.

(** After its deadline the waiting thread is never blocked. *)
Lemma waiter_progress t s :
  (t ≤ ws_now s)%Z → (∃ b, ws_waiter s = Returned b) ∨ ∃ s', wait_step (Some t) LWaiter s s'.
Proof.
  intros Ht. destruct (ws_waiter s) as [| | |b] eqn:Hw; [| | |by left; eexists]; right.
  - destruct (stop_requested s) eqn:Hst; eexists; [by apply step_test_true|by apply step_test_false].
  - eexists. by apply step_sleep.
  - eexists. by eapply step_timeout.
Qed.

(** A state in which the stop has been requested and announced, and the waiting
    thread sleeps all the same. *)
Definition missed (now : Z) : wait_state :=
  {| ws_waiter := Asleep; ws_stopper := Notified; ws_now := now |}.

Lemma missed_reachable until now : reachable until now (missed now).
Proof.
  eapply rtc_l; [eexists; by apply step_test_false|].
  eapply rtc_l; [eexists; by apply step_request|].
  eapply rtc_l; [eexists; by apply step_notify|].
  eapply rtc_l; [eexists; by apply step_sleep|]. apply rtc_refl.
Qed.

(** Without a deadline nothing but a spurious wakeup gets it out of there. *)
Lemma missed_stays now now' l s' :
  wait_step None l (missed now') s' → (now ≤ now')%Z →
  l = LSpurious ∨ ∃ now'', (now ≤ now'')%Z ∧ s' = missed now''.
Proof.
  inversion 1; simplify_eq/=; intros Hn; [by left|right].
  eexists. split; [|reflexivity]. lia.
Qed.

(** C26: What [wait_for_next] returns is right: false only when a stop was
    requested, true only when the deadline has passed; and with a deadline it
    returns: after the deadline no state blocks it and it makes at most three
    steps of its own.  But the notification of a stop can be lost, for
    the callback does not take the mutex: whatever the queue, the thread may
    sleep although the stop was requested and announced, until the deadline,
    or, on an empty queue, for as long as no spurious wakeup comes. *)
Theorem wait_for_next_spec {generic} `{PriorityQueue (ScheduleEntry generic)}
    (heap : queue (ScheduleEntry generic)) (now : Z) :
  (∀ s b, reachable (until_of heap) now s → ws_waiter s = Returned b →
     if b then ∃ e, q_top heap = Some e ∧ (deadline e ≤ ws_now s)%Z else stop_requested s = true)
  ∧ (∀ s e, q_top heap = Some e → (deadline e ≤ ws_now s)%Z →
     ((∃ b, ws_waiter s = Returned b) ∨ ∃ s', wait_step (until_of heap) LWaiter s s')
     ∧ steps_left (ws_waiter s) ≤ 3
     ∧ ∀ s', wait_step (until_of heap) LWaiter s s' → steps_left (ws_waiter s') < steps_left (ws_waiter s))
  ∧ reachable (until_of heap) now (missed now)
  ∧ (q_top heap = None → ∀ s', rtc (λ s s', ∃ l, l ≠ LSpurious ∧ wait_step (until_of heap) l s s') (missed now) s' →
     ∃ now', s' = missed now').
Proof.
  unfold until_of. split; [|split; [|split]].
  - intros s b Hr Hb. destruct (wait_inv_reachable _ _ _ Hr) as [_ Hw]. rewrite Hb in Hw.
    destruct b; [|done]. destruct Hw as (t & Ht & Hle). destruct (q_top heap) as [e|]; simplify_eq/=. by exists e.
  - intros s e -> He. split; [by apply waiter_progress|]. split; [destruct (ws_waiter s); simpl; lia|].
    apply waiter_step_decreases.
  - apply missed_reachable.
  - intros -> s' Hr. cut (∃ now', (now ≤ now')%Z ∧ s' = missed now'); [intros (n & _ & ?); by exists n|].
    apply (rtc_ind_r (λ s, ∃ now', (now ≤ now')%Z ∧ s = missed now') (missed now)) with (3 := Hr).
    + by exists now.
    + intros y z _ (l & Hl & Hyz) (n & Hn & ->). destruct (missed_stays now n l z Hyz Hn) as [|?]; [done|auto].
Qed.
