(* ===== verification/Updater.v ===== *)
(** [src/core/updater.cpp] and [src/ip_source]: one update of one subdomain, from
    the address of this host to the driver's call. *)
From S2P Require Import Prelude Io CppString Address Uri StringUtil Http HttpClient NetDevices DnsTypes Config Scheduler.

(** * Where this host's addresses come from *)

(** [IpSourceBase], an interface: [resolve] returns candidates or throws. *)
(* @fn src/src/ip_source/base.h | class IpSourceBase { | IpSourceBase *)
Record IpSourceBase (W : Type) := { resolve : st W exn (list InetAddress) }.
Arguments resolve {W}.

Section sources.
Context {generic W : Type} `{InetText}.
(** The interfaces with their addresses, enumerated by the kernel and cached. *)
Context (get_cached_interfaces : st W exn (list (bytes * list InetAddress))).
(** The HTTP client. *)
Context `{Httplib W} (discover_ca_bundle : option bytes) (full_version : bytes).
(** The mDNS source, for a host, a record type and an interface. *)
Context (mdns_source : bytes → RecordKind → bytes → IpSourceBase W).

(* @fn src/src/ip_source/iface_util.cpp | std::vector<std::string> InterfaceUtil::get_interfaces() { | InterfaceUtil::get_interfaces *)
Definition get_interfaces : st W exn (list bytes) :=
  interface_map ← get_cached_interfaces;
  mret interface_map.*1.

(* @fn src/src/ip_source/iface_util.cpp | std::vector<InetAddress> InterfaceUtil::get_addresses( | InterfaceUtil::get_addresses *)
Definition get_addresses (interface_name : bytes) : st W exn (list InetAddress) :=
  all ← get_cached_interfaces;
  match find_interface interface_name all with
  | Some addresses => mret addresses
  | None => throw (StdException (str "Interface " ++ interface_name ++ str " not found"))
  end.

#[local] Instance AddressFamily_eq_dec : EqDecision AddressFamily.
Proof. solve_decision. Defined.

(* @fn src/src/ip_source/iface.cpp | std::vector<InetAddress> InterfaceIpSource::resolve() const { | InterfaceIpSource::resolve *)
Definition InterfaceIpSource (interface_name : bytes) (address_family : AddressFamily) : IpSourceBase W := {|
  resolve :=
    addresses ← get_addresses interface_name;
    mret (if bool_decide (address_family ≠ UNSPECIFIED)
          then filter (λ addr, get_family addr = address_family) addresses
          else addresses)
|}.

(* @fn src/src/ip_source/http.cpp | HttpIpSource::HttpIpSource( | HttpIpSource::HttpIpSource *)
Definition HttpIpSource_client (url_ : bytes) (address_family_ : AddressFamily) (bind_interface_ : bytes)
    : st W exn (Uri * ClientSettings) :=
  let opts := {| address_family := Some address_family_;
                 interface := if bool_decide (bind_interface_ = []) then None else Some bind_interface_;
                 ca_cert_path := None; verify_server_cert := None; connection_timeout := None;
                 read_timeout := None; write_timeout := None; follow_location := None; keep_alive := None;
                 default_headers := None |} in
  uri ← uri_st (Uri.parse url_);
  client ← PersistentHttpClient discover_ca_bundle full_version uri opts;
  mret (uri, client).

(* @fn src/src/ip_source/http.cpp | std::vector<InetAddress> HttpIpSource::resolve() const { | HttpIpSource::resolve *)
Definition HttpIpSource_resolve (url_ : bytes) (client_ : Uri * ClientSettings) : st W exn (list InetAddress) :=
  resp ← persistent_exchange client_.1 client_.2 url_
           {| content_type := []; method := GET; headers := []; body := None |};
  match resp with
  | inl error => throw (StdException (str "HTTP IP source " ++ quoted url_
                   ++ str " did not return a valid response: " ++ error))
  | inr resp =>
      match Address.parse (trim (rs_body resp)) with
      | None => throw (StdException (str "HTTP IP source " ++ quoted url_ ++ str " did not return a valid message"))
      | Some addr => mret [addr]
      end
  end.

Definition HttpIpSource (url : bytes) (address_family : AddressFamily) (bind_interface : bytes)
    : st W exn (IpSourceBase W) :=
  client_ ← HttpIpSource_client url address_family bind_interface;
  mret {| resolve := HttpIpSource_resolve url client_ |}.

(* @fn src/src/ip_source/factory.cpp | constexpr AddressFamily type_to_family(RecordKind type) noexcept { | type_to_family *)
Definition type_to_family (type : RecordKind) : AddressFamily :=
  match type with KIND_A => IPV4 | KIND_AAAA => IPV6 | KIND_TXT => UNSPECIFIED end.

(* @fn src/src/ip_source/factory.cpp | std::unique_ptr<IpSourceBase> IpSourceFactory::create( | IpSourceFactory::create *)
Definition create_source (cfg : SubdomainConfig generic) : st W exn (IpSourceBase W) :=
  let address_family := type_to_family (sd_type cfg) in
  match sd_ip_source cfg with
  | INTERFACE => mret (InterfaceIpSource (sd_interface cfg) address_family)
  | HTTP => HttpIpSource (sd_ip_source_param cfg) address_family (sd_interface cfg)
  | MDNS => mret (mdns_source (sd_ip_source_param cfg) (sd_type cfg) (sd_interface cfg))
  end.

(** The addresses an interface source returns have the family of the record. *)
Lemma interface_source_family name type w l w' :
  resolve (InterfaceIpSource name (type_to_family type)) w = (Ret l, w') →
  type = KIND_TXT ∨ Forall (λ a, get_family a = type_to_family type) l.
Proof.
  simpl. unfold mbind, st_bind. destruct (get_addresses name w) as [[all|e| |] w1]; [|done..].
  unfold mret, st_ret. intros [= <- _]. destruct type; [right|right|by left]; simpl;
    apply Forall_forall; intros a Ha;
    by apply list_elem_of_filter in Ha as [? _].
Qed.
End sources.

(** * Processing a task *)

(** [DriverUpdateParams] of the driver interface. *)
(* @fn src/include/interface/driver.h | struct DriverUpdateParams final { | DriverUpdateParams *)
Record DriverUpdateParams := {
  up_ip_addr : bytes;
  up_rd_type : bytes;
  up_domain : bytes;
  up_subdomain : bytes;
  up_fqdn : bytes
}.

(** [Driver::execute], of a driver that has been loaded, with the HTTP client. *)
Definition execute_fn (W : Type) : Type := bytes → DriverUpdateParams → st W exn bool.

Section updater.
Context {generic W : Type} `{InetText}.
(** [dump()] of a JSON value. *)
Context (dump : generic → option bytes).
(** The injected factory of sources, and [ResolverDispatcher::resolve]. *)
Context (ip_factory : SubdomainConfig generic → st W exn (IpSourceBase W)).
Context (dispatcher_resolve : bytes → RecordKind → st W exn (DnsErrorInfo + list bytes)).

(* @fn src/src/core/updater.cpp | void filter_ipv6_candidates( | filter_ipv6_candidates *)
Definition filter_ipv6_candidates (candidates : list InetAddress) (config : SubdomainConfig generic)
    : list InetAddress :=
  let candidates := if negb (sd_allow_local_link config)
                    then filter (λ a, is_link_local a = false) candidates else candidates in
  if negb (sd_allow_ula config) then filter (λ a, is_ula a = false) candidates else candidates.

(* @fn src/src/core/updater.cpp | std::optional<InetAddress> Updater::Impl::resolve_local_address( | Updater::Impl::resolve_local_address *)
Definition resolve_local_address (config : SubdomainConfig generic) : st W exn (option InetAddress) :=
  ip_source ← ip_factory config;
  candidates ← resolve ip_source;
  mret (match candidates with
        | [] => None
        | _ => if bool_decide (sd_type config = KIND_AAAA)
               then head (filter_ipv6_candidates candidates config)
               else head candidates
        end).

(* @fn src/src/core/updater.cpp | std::vector<std::string> Updater::Impl::dns_lookup( | Updater::Impl::dns_lookup *)
Definition dns_lookup (host : bytes) (type : RecordKind) : st W exn (list bytes) :=
  result ← dispatcher_resolve host type;
  mret (match result with inl _ => [] | inr records => records end).

(* @fn src/src/core/updater.cpp | DriverConfig Updater::Impl::build_driver_parameters( | Updater::Impl::build_driver_parameters *)
Definition build_driver_parameters (task : UpdateTask generic) : bytes :=
  default (str "{}") (dump (sd_driver_param (ut_config task))).

(* @fn src/src/core/updater.cpp | DriverUpdateParams Updater::Impl::build_update_context( | Updater::Impl::build_update_context *)
Definition build_update_context (task : UpdateTask generic) (ip_addr : InetAddress) (rd_type : bytes)
    : DriverUpdateParams := {|
  up_ip_addr := to_string ip_addr;
  up_rd_type := rd_type;
  up_domain := ut_domain_name task;
  up_subdomain := sd_name (ut_config task);
  up_fqdn := ut_fqdn task
|}.

(** [magic_enum::enum_name], the enumerator's name. *)
Definition kind_name (type : RecordKind) : bytes :=
  match type with KIND_A => str "A" | KIND_AAAA => str "AAAA" | KIND_TXT => str "TXT" end.

(** Whether the record that the DNS has makes an update unnecessary. *)
(* @src src/src/core/updater.cpp 85 99 Updater::Impl::process (step 2) *)
Definition unchanged (task : UpdateTask generic) (local_ip : InetAddress) : st W exn bool :=
  if negb (ut_force_update task) then
    records ← dns_lookup (ut_fqdn task) (sd_type (ut_config task));
    mret (match records with
          | [] => false
          | first :: _ => bool_decide (first = to_string local_ip)
          end)
  else mret false.

(* @fn src/src/core/updater.cpp | void Updater::Impl::process(const UpdateTask &task, | Updater::Impl::process *)
Definition process_impl (task : UpdateTask generic) (execute : execute_fn W) : st W exn unit :=
  let rd_type_name := kind_name (sd_type (ut_config task)) in
  let rd_type := if bool_decide (rd_type_name = []) then str "UNKNOWN" else rd_type_name in
  local_ip ← resolve_local_address (ut_config task);
  match local_ip with
  | None => mret tt
  | Some local_ip =>
      same ← unchanged task local_ip;
      if (same : bool) then mret tt else
      let parameters := build_driver_parameters task in
      let ctx := build_update_context task local_ip rd_type in
      _ ← execute parameters ctx;
      mret tt
  end.

(** The [noexcept] boundary: every exception is logged and swallowed. *)
(* @fn src/src/core/updater.cpp | void Updater::process(const UpdateTask &task, | Updater::process *)
Definition process (task : UpdateTask generic) (execute : execute_fn W) : st W Empty_set unit :=
  catch (process_impl task execute) (λ _, mret tt).
End updater.

(** * Properties *)

Section updater_proofs.
Context {generic : Type} `{InetText}.
Implicit Types (config : SubdomainConfig generic) (task : UpdateTask generic).

(** An address that may be published for a subdomain. *)
Definition acceptable config (a : InetAddress) : Prop :=
  sd_type config = KIND_AAAA →
  (is_link_local a = true → sd_allow_local_link config = true)
  ∧ (is_ula a = true → sd_allow_ula config = true).

(** The first acceptable of the candidates. *)
Definition first_acceptable config (candidates : list InetAddress) (a : InetAddress) : Prop :=
  ∃ before after, candidates = before ++ a :: after
    ∧ Forall (λ b, ¬ acceptable config b) before ∧ acceptable config a.

#[local] Instance acceptable_dec config a : Decision (acceptable config a).
Proof. unfold acceptable. apply _. Defined.

Lemma head_filter_first {A} (P : A → Prop) `{∀ x, Decision (P x)} (l : list A) a :
  head (filter P l) = Some a ↔ ∃ b c, l = b ++ a :: c ∧ Forall (λ x, ¬ P x) b ∧ P a.
Proof.
  split.
  - induction l as [|x l IH]; [done|]. destruct (decide (P x)) as [Hx|Hx].
    + rewrite filter_cons_True by done. intros [= ->]. by exists [], l.
    + rewrite filter_cons_False by done. intros (b & c & -> & Hb & Ha)%IH.
      exists (x :: b), c. split_and!; [done|by constructor|done].
  - intros (b & c & -> & Hb & Ha). induction Hb as [|x b Hx _ IH]; simpl.
    + by rewrite filter_cons_True.
    + by rewrite filter_cons_False.
Qed.

Lemma filter_always {A} (P : A → Prop) `{∀ x, Decision (P x)} (l : list A) : (∀ x, P x) → filter P l = l.
Proof. intros HP. induction l as [|x l IH]; [done|]. by rewrite filter_cons_True, IH. Qed.

Lemma filter_ipv6_acceptable config l :
  sd_type config = KIND_AAAA → filter_ipv6_candidates l config = filter (acceptable config) l.
Proof.
  intros Ht. unfold filter_ipv6_candidates.
  assert (∀ P Q : InetAddress → Prop, ∀ `{∀ x, Decision (P x)} `{∀ x, Decision (Q x)},
    (∀ x, P x ↔ Q x) → filter P l = filter Q l) as Hext.
  { intros P Q ? ? HPQ. by apply list_filter_iff. }
  destruct (sd_allow_local_link config) eqn:Hl, (sd_allow_ula config) eqn:Hu; simpl; unfold acceptable.
  - symmetry. apply filter_always. intros x _. rewrite Hl, Hu. done.
  - apply Hext. intros x. rewrite Ht, Hl, Hu. destruct (is_ula x); naive_solver.
  - apply Hext. intros x. rewrite Ht, Hl, Hu. destruct (is_link_local x); naive_solver.
  - rewrite list_filter_filter. apply Hext. intros x. rewrite Ht, Hl, Hu.
    destruct (is_link_local x), (is_ula x); naive_solver.
Qed.

(** The choice among the candidates. *)
Definition local_address config (candidates : list InetAddress) : option InetAddress :=
  match candidates with
  | [] => None
  | _ => if bool_decide (sd_type config = KIND_AAAA)
         then head (filter_ipv6_candidates candidates config)
         else head candidates
  end.

Lemma local_address_iff config candidates a :
  local_address config candidates = Some a ↔ first_acceptable config candidates a.
Proof.
  assert (local_address config candidates = head (filter (acceptable config) candidates)) as ->.
  { unfold local_address. destruct candidates as [|c l]; [done|]. case_bool_decide as Ht.
    - by rewrite filter_ipv6_acceptable.
    - rewrite filter_always; [done|]. by intros x ?. }
  apply head_filter_first.
Qed.

(** ** What is done for a task, against any environment

    The sources, the DNS and the driver answer as they like; the world is the
    list of the calls that were made. *)
Inductive event :=
| EvSource (config : SubdomainConfig generic)
| EvLookup (host : bytes) (type : RecordKind)
| EvExecute (parameters : bytes) (ctx : DriverUpdateParams).

Context (dump : generic → option bytes).
Context (candidates_of : SubdomainConfig generic → exn + list InetAddress).
Context (records_of : bytes → RecordKind → exn + (DnsErrorInfo + list bytes)).
Context (driver_of : bytes → DriverUpdateParams → exn + bool).

Definition logged {A} (e : event) (r : exn + A) : st (list event) exn A := λ log,
  (match r with inl x => Throw x | inr a => Ret a end, log ++ [e]).

Definition logged_factory config : st (list event) exn (IpSourceBase (list event)) :=
  mret {| resolve := logged (EvSource config) (candidates_of config) |}.
Definition logged_lookup (host : bytes) (type : RecordKind) : st (list event) exn (DnsErrorInfo + list bytes) :=
  logged (EvLookup host type) (records_of host type).
Definition logged_driver : execute_fn (list event) := λ parameters ctx,
  logged (EvExecute parameters ctx) (driver_of parameters ctx).

Definition run_process task : list event → outcome Empty_set unit * list event :=
  process dump logged_factory logged_lookup task logged_driver.

(** The record must be updated with the address [ip]: it is the first acceptable
    candidate, and the task is forced or the DNS is not known to have it. *)
Definition needs_update task (ip : InetAddress) : Prop :=
  ∃ candidates, candidates_of (ut_config task) = inr candidates
    ∧ first_acceptable (ut_config task) candidates ip
    ∧ (ut_force_update task = true
       ∨ ∃ answer, records_of (ut_fqdn task) (sd_type (ut_config task)) = inr answer
         ∧ ∀ first rest, answer = inr (first :: rest) → first ≠ to_string ip).

Definition is_execute (e : event) : Prop := match e with EvExecute _ _ => True | _ => False end.
#[local] Instance is_execute_dec e : Decision (is_execute e).
Proof. destruct e; apply _. Defined.

(** The calls that are made for a task. *)
Definition calls task : list event :=
  EvSource (ut_config task) ::
  match candidates_of (ut_config task) with
  | inl _ => []
  | inr candidates =>
      match local_address (ut_config task) candidates with
      | None => []
      | Some ip =>
          let execution := EvExecute (build_driver_parameters dump task)
            (build_update_context task ip (kind_name (sd_type (ut_config task)))) in
          if ut_force_update task then [execution] else
          EvLookup (ut_fqdn task) (sd_type (ut_config task)) ::
          match records_of (ut_fqdn task) (sd_type (ut_config task)) with
          | inl _ => []
          | inr (inr (first :: _)) => if bool_decide (first = to_string ip) then [] else [execution]
          | inr _ => [execution]
          end
      end
  end.

Lemma resolve_local_logged config log :
  resolve_local_address logged_factory config log =
  (match candidates_of config with inl x => Throw x | inr l => Ret (local_address config l) end,
   log ++ [EvSource config]).
Proof.
  unfold resolve_local_address, logged_factory, logged, mbind, st_bind, mret, st_ret. simpl.
  by destruct (candidates_of config).
Qed.

Lemma unchanged_logged task ip log :
  unchanged logged_lookup task ip log =
  if ut_force_update task then (Ret false, log) else
  (match records_of (ut_fqdn task) (sd_type (ut_config task)) with
   | inl x => Throw x
   | inr (inr (first :: _)) => Ret (bool_decide (first = to_string ip))
   | inr _ => Ret false
   end, log ++ [EvLookup (ut_fqdn task) (sd_type (ut_config task))]).
Proof.
  unfold unchanged, dns_lookup, logged_lookup, logged, mbind, st_bind, mret, st_ret.
  destruct (ut_force_update task); simpl; [done|].
  by destruct (records_of _ _) as [x|[e|[|first rest]]].
Qed.

Lemma run_process_calls task log : run_process task log = (Ret tt, log ++ calls task).
Proof.
  unfold run_process, process, process_impl, catch, calls, mbind, st_bind.
  rewrite bool_decide_eq_false_2 by (by destruct (sd_type (ut_config task))).
  rewrite resolve_local_logged. destruct (candidates_of _) as [x|l]; [done|].
  destruct (local_address _ l) as [ip|]; [|done].
  rewrite unchanged_logged. destruct (ut_force_update task).
  - unfold logged_driver, logged. by destruct (driver_of _ _); rewrite <- app_assoc.
  - destruct (records_of _ _) as [x|[e|[|first rest]]]; [by rewrite <- app_assoc|..|];
      try (unfold logged_driver, logged; by destruct (driver_of _ _); rewrite <- !app_assoc).
    destruct (bool_decide (first = to_string ip)); [by rewrite <- app_assoc|].
    unfold logged_driver, logged. by destruct (driver_of _ _); rewrite <- !app_assoc.
Qed.

(** The driver is called exactly for the address the record needs. *)
Lemma calls_execute task parameters ctx :
  EvExecute parameters ctx ∈ calls task ↔
  ∃ ip, needs_update task ip ∧ parameters = build_driver_parameters dump task
    ∧ ctx = build_update_context task ip (kind_name (sd_type (ut_config task))).
Proof.
  unfold calls, needs_update. rewrite elem_of_cons. destruct (candidates_of _) as [x|l].
  { rewrite elem_of_nil. naive_solver. }
  setoid_rewrite <- local_address_iff. destruct (local_address _ l) as [ip|] eqn:Hip.
  2:{ rewrite elem_of_nil. naive_solver. }
  destruct (ut_force_update task); [rewrite list_elem_of_singleton; naive_solver|].
  rewrite elem_of_cons.
  destruct (records_of _ _) as [x|[e|[|first rest]]]; rewrite ?elem_of_nil, ?list_elem_of_singleton; [naive_solver..|].
  case_bool_decide; rewrite ?elem_of_nil, ?list_elem_of_singleton; naive_solver.
Qed.

(** C7: Processing a task never throws, whatever the address source, the
    resolvers and the driver do.  The driver is called at most once, and
    exactly when the source has an acceptable address (for AAAA, link-local and
    unique local addresses only where they are allowed) and the task is forced
    or the first record of the DNS, if the lookup gives any, is another
    address; it gets that address, the first acceptable one, as text, and the
    subdomain's own parameters.  The DNS is asked only for unforced tasks that
    have an address. *)
Theorem process_spec task log :
  ∃ evs, run_process task log = (Ret tt, log ++ evs)
    ∧ (∀ parameters ctx, EvExecute parameters ctx ∈ evs ↔
         ∃ ip, needs_update task ip ∧ parameters = build_driver_parameters dump task
           ∧ ctx = build_update_context task ip (kind_name (sd_type (ut_config task))))
    ∧ length (filter is_execute evs) ≤ 1
    ∧ (∀ host type, EvLookup host type ∈ evs →
         ut_force_update task = false ∧ host = ut_fqdn task
         ∧ ∃ l ip, candidates_of (ut_config task) = inr l ∧ first_acceptable (ut_config task) l ip).
Proof.
  exists (calls task). split; [apply run_process_calls|]. split; [apply calls_execute|]. split.
  - unfold calls. destruct (candidates_of _) as [x|l]; [simpl; lia|].
    destruct (local_address _ l); [|simpl; lia]. destruct (ut_force_update task); [simpl; lia|].
    destruct (records_of _ _) as [x|[e|[|first rest]]]; try (simpl; lia).
    destruct (bool_decide _); simpl; lia.
  - unfold calls. intros host type. rewrite elem_of_cons. destruct (candidates_of _) as [x|l].
    { rewrite elem_of_nil. naive_solver. }
    destruct (local_address _ l) as [ip|] eqn:Hip; [|rewrite elem_of_nil; naive_solver].
    apply local_address_iff in Hip.
    destruct (ut_force_update task); [rewrite list_elem_of_singleton; naive_solver|].
    rewrite elem_of_cons. intros [?|[Hl|Hin]]; [done|naive_solver|].
    destruct (records_of _ _) as [x|[e|[|first rest]]]; try (destruct (bool_decide _));
      rewrite ?elem_of_nil, ?list_elem_of_singleton in Hin; naive_solver.
Qed.
End updater_proofs.
