(* ===== verification/Mdns.v ===== *)
(** [src/ip_source/mdns.cpp]: the address of a host of the local link, by one
    multicast query.  The build is for Linux: [SO_BINDTODEVICE] and [ip_mreqn]
    are there; a log call is left out, and with it the interface's name that is
    looked up for one. *)
From S2P Require Import Prelude CppString Bytes Io Posix Address Socket HttpClient NetDevices DnsTypes DnsBuilder DnsParser DotResolver Updater.
Import WireWriter RecordParser NetDevices Sock.
Local Open Scope Z_scope.

(** Linux's numbers. *)
Definition IPV6_MULTICAST_IF : Z := 17.
Definition IPV6_MULTICAST_HOPS : Z := 18.
Definition IPV6_JOIN_GROUP : Z := 20.
Definition IPV6_LEAVE_GROUP : Z := 21.
Definition IP_MULTICAST_IF : Z := 32.
Definition IP_MULTICAST_TTL : Z := 33.
Definition IP_ADD_MEMBERSHIP : Z := 35.
Definition IP_DROP_MEMBERSHIP : Z := 36.

Module Mdns.

(* @fn src/src/ip_source/mdns.cpp | std::uint16_t MDNS_PORT = | MDNS_PORT *)
Definition MDNS_PORT : Z := 5353.
(* @fn src/src/ip_source/mdns.cpp | constexpr auto MDNS_TIMEOUT_MS = | MDNS_TIMEOUT_MS *)
Definition MDNS_TIMEOUT_MS : Z := 500.
(* @fn src/src/ip_source/mdns.cpp | std::size_t MDNS_RECV_BUF_SIZE = | MDNS_RECV_BUF_SIZE *)
Definition MDNS_RECV_BUF_SIZE : nat := Z.to_nat 65536.

(** "224.0.0.251" *)
(* @fn src/src/ip_source/mdns.cpp | inline const auto MDNS_IPV4_GROUP_INET | MDNS_IPV4_GROUP_INET *)
Definition MDNS_IPV4_GROUP : bytes := [224; 0; 0; 251].
(** "ff02::fb" *)
(* @fn src/src/ip_source/mdns.cpp | inline const auto MDNS_IPV6_GROUP_INET | MDNS_IPV6_GROUP_INET *)
Definition MDNS_IPV6_GROUP : bytes := [255; 2; 0; 0; 0; 0; 0; 0; 0; 0; 0; 0; 0; 0; 0; 251].

(* @fn src/src/ip_source/mdns.cpp | inline const SocketAddr MDNS_IPV4_DEST | MDNS_IPV4_DEST *)
Definition MDNS_IPV4_DEST : SocketAddr := AF_INET MDNS_PORT MDNS_IPV4_GROUP.
(* @fn src/src/ip_source/mdns.cpp | inline const SocketAddr MDNS_IPV6_DEST | MDNS_IPV6_DEST *)
Definition MDNS_IPV6_DEST : SocketAddr := AF_INET6 MDNS_PORT MDNS_IPV6_GROUP 0.
(* @fn src/src/ip_source/mdns.cpp | inline const SocketAddr MDNS_IPV4_BIND | MDNS_IPV4_BIND *)
Definition MDNS_IPV4_BIND : SocketAddr := AF_INET 0 (repeat 0 4).
(* @fn src/src/ip_source/mdns.cpp | inline const SocketAddr MDNS_IPV6_BIND | MDNS_IPV6_BIND *)
Definition MDNS_IPV6_BIND : SocketAddr := AF_INET6 0 (repeat 0 16) 0.

(* @src src/src/ip_source/mdns.cpp 75 82 IpVersionTag *)
Inductive IpVersionTag := Ipv4Tag | Ipv6Tag.

Section mdns.
Context {K : Type} `{Posix K} `{NetLib K} `{InetText}.
(** [std::error_code{err, std::generic_category()}.message()] and the names of
    record types in the parser's messages. *)
Context (errno_str : Z → bytes) (type_name : Z → bytes).

Abbreviation io := (st K exn).

Definition of_socket {A} (m : st K bytes A) : io A := catch m (λ what, throw (StdException what)).

(** A failed call, its result turned into an exception. *)
Definition or_throw {A} (what : bytes) (r : Z + A) : io A :=
  match r with
  | inl e => throw (StdException (what ++ errno_str e))
  | inr a => mret a
  end.

(** ** The multicast group *)

(* @fn src/src/ip_source/mdns.cpp | in_addr pick_ipv4_interface_addr(const std::string &interface) { | pick_ipv4_interface_addr *)
Definition pick_ipv4_interface_addr (interface : bytes) : io bytes :=
  if bool_decide (interface = []) then mret (repeat 0 4) else
  subnets ← get_ipv4_subnets interface;
  mret (match subnets with
        | subnet :: _ => v4_addr (address subnet)
        | [] => repeat 0 4
        end).

(** The octets of the membership request; joining with them. *)
(* @fn src/src/ip_source/mdns.cpp | explicit ScopedMembership( | ScopedMembership::ScopedMembership *)
Definition join (tag : IpVersionTag) (sock : Socket) (if_index : Z) (interface : bytes) : io bytes :=
  match tag with
  | Ipv6Tag =>
      let mreq := MDNS_IPV6_GROUP ++ int_octets if_index in
      res ← of_socket (set_option_raw sock IPPROTO_IPV6 IPV6_JOIN_GROUP mreq);
      _ ← or_throw (str "mDNS IPV6_JOIN_GROUP failed: ") res;
      mret mreq
  | Ipv4Tag =>
      imr_interface ← pick_ipv4_interface_addr interface;
      let mreq := MDNS_IPV4_GROUP ++ imr_interface in
      res ← of_socket (set_option_raw sock IPPROTO_IP IP_ADD_MEMBERSHIP mreq);
      _ ← or_throw (str "mDNS IP_ADD_MEMBERSHIP failed: ") res;
      mret mreq
  end.

(* @fn src/src/ip_source/mdns.cpp | ~ScopedMembership() { | ScopedMembership::~ScopedMembership *)
Definition leave (tag : IpVersionTag) (sock : Socket) (mreq : bytes) : io unit :=
  if is_closed sock then mret tt else
  _ ← of_socket (match tag with
                 | Ipv6Tag => set_option_raw sock IPPROTO_IPV6 IPV6_LEAVE_GROUP mreq
                 | Ipv4Tag => set_option_raw sock IPPROTO_IP IP_DROP_MEMBERSHIP mreq
                 end);
  mret tt.

(** The scope of an object: [leave] runs, however the scope is left. *)
Definition scope {R A} (enter : io R) (leave : R → io unit) (body : R → io A) : io A :=
  r ← enter;
  a ← attempt (body r);
  _ ← leave r;
  match a with inl e => throw e | inr a => mret a end.

(** ** Options of the socket *)

(* @fn src/src/ip_source/mdns.cpp | void bind_socket(Socket &sock | bind_socket *)
Definition bind_socket (tag : IpVersionTag) (sock : Socket) : io unit :=
  _ ← (match tag with
       | Ipv6Tag => of_socket (set_option sock IPPROTO_IPV6 IPV6_V6ONLY 1)
       | Ipv4Tag => mret (inr tt)
       end);
  res ← of_socket (Sock.bind sock (match tag with Ipv6Tag => MDNS_IPV6_BIND | Ipv4Tag => MDNS_IPV4_BIND end));
  or_throw (str "mDNS bind failed: ") res.

(* @fn src/src/ip_source/mdns.cpp | unsigned int resolve_multicast_if_index( | resolve_multicast_if_index *)
Definition resolve_multicast_if_index (tag : IpVersionTag) (interface : bytes) : io Z :=
  if bool_decide (interface ≠ []) then name_to_index interface
  else match tag with
       | Ipv6Tag => find_default_interface_index IPV6
       | Ipv4Tag => mret 0
       end.

(** An [ip_mreqn] whose index is set, the rest zero. *)
Definition mreqn_octets (if_index : Z) : bytes := repeat 0 8 ++ int_octets if_index.

(* @fn src/src/ip_source/mdns.cpp | void setup_multicast_output_opts( | setup_multicast_output_opts *)
Definition setup_multicast_output_opts (tag : IpVersionTag) (sock : Socket) (if_index : Z) : io unit :=
  match tag with
  | Ipv6Tag =>
      _ ← (if 0 <? if_index then of_socket (set_option sock IPPROTO_IPV6 IPV6_MULTICAST_IF if_index) else mret (inr tt));
      _ ← of_socket (set_option sock IPPROTO_IPV6 IPV6_MULTICAST_HOPS 255);
      mret tt
  | Ipv4Tag =>
      _ ← (if 0 <? if_index then of_socket (set_option_raw sock IPPROTO_IP IP_MULTICAST_IF (mreqn_octets if_index))
           else mret (inr tt));
      _ ← of_socket (set_option sock IPPROTO_IP IP_MULTICAST_TTL 255);
      mret tt
  end.

(* @fn src/src/ip_source/mdns.cpp | unsigned int setup_multicast_options( | setup_multicast_options *)
Definition setup_multicast_options (tag : IpVersionTag) (sock : Socket) (interface : bytes) : io Z :=
  _ ← bind_socket tag sock;
  if_index ← resolve_multicast_if_index tag interface;
  _ ← setup_multicast_output_opts tag sock if_index;
  mret if_index.

(** Before binding: the address may be shared, and the socket is tied to the
    interface; a failure is only logged. *)
(* @src src/src/ip_source/mdns.cpp 336 351 resolve_mdns (socket options) *)
Definition socket_options (sock : Socket) (interface : bytes) : io unit :=
  _ ← of_socket (set_option sock SOL_SOCKET SO_REUSEADDR 1);
  _ ← of_socket (set_option sock SOL_SOCKET SO_REUSEPORT 1);
  _ ← (if bool_decide (interface ≠ [])
       then of_socket (set_option_raw sock SOL_SOCKET SO_BINDTODEVICE (interface ++ [0]))
       else mret (inr tt));
  mret tt.

(** ** The answer *)

(** The records that are addresses of the kind asked for. *)
(* @src src/src/ip_source/mdns.cpp 282 300 recv_and_parse (filter) *)
Definition addresses (type : RecordKind) (records : list bytes) : list InetAddress :=
  omap (λ rec, match type with
               | KIND_A => V4 <$> parse4 rec
               | KIND_AAAA | KIND_TXT => V6 <$> parse6 rec
               end) records.

(** [parse_strings]; its exceptions are [std::exception]s. *)
Definition parse_datagram (data : bytes) : io FormattedResponse :=
  lift (match parse_strings inet_ntop4 inet_ntop6 data with
        | Ret r => Ret r
        | Throw (DnsLookup what _) => Throw (StdException (parse_what type_name what))
        | Undef => Undef
        | OutOfFuel => OutOfFuel
        end).

(* @fn src/src/ip_source/mdns.cpp | std::vector<InetAddress> recv_and_parse( | recv_and_parse *)
Definition recv_and_parse (sock : Socket) (type : RecordKind) : io (list InetAddress) :=
  wait_res ← of_socket (wait_for sock POLLIN MDNS_TIMEOUT_MS {| token_fd := -1 |});
  ready ← or_throw (str "mDNS wait_for failed: ") wait_res;
  if ready =? 0 then throw (StdException (str "mDNS no response within 500ms")) else
  received ← of_socket (recv_from sock MDNS_RECV_BUF_SIZE 0);
  match received with
  | None => e ← gets errno; throw (StdException (str "mDNS recvfrom() failed: " ++ errno_str e))
  | Some (data, _) =>
      parsed ← parse_datagram data;
      if bool_decide (fmt_records parsed = []) then throw (StdException (str "mDNS no records in response")) else
      let results := addresses type (fmt_records parsed) in
      if bool_decide (results = []) then throw (StdException (str "mDNS no address records")) else
      mret results
  end.

(** ** The query *)

(* @src src/src/ip_source/mdns.cpp 325 332 resolve_mdns (query) *)
Definition mdns_query (hostname : bytes) (type : RecordKind) : build_result bytes :=
  build (add_question_raw_qclass hostname (type_to_record_type type) (Z.lor (record_class_code IN) 0x8000)
    (set_rd false (set_id 0 (QueryBuilder_new 0)))).

(** With the socket.  The identifier that the builder draws is replaced. *)
(* @src src/src/ip_source/mdns.cpp 381 397 resolve_mdns (exchange) *)
Definition mdns_exchange (tag : IpVersionTag) (query_pkt : bytes) (type : RecordKind) (interface : bytes) (sock : Socket) :
    io (list InetAddress) :=
  _ ← socket_options sock interface;
  if_index ← setup_multicast_options tag sock interface;
  scope (join tag sock if_index interface) (leave tag sock) (λ _,
    sent ← of_socket (send_to sock query_pkt (match tag with Ipv6Tag => MDNS_IPV6_DEST | Ipv4Tag => MDNS_IPV4_DEST end) 0);
    if sent <? 0 then e ← gets errno; throw (StdException (str "mDNS sendto() failed: " ++ errno_str e)) else
    recv_and_parse sock type).

(* @fn src/src/ip_source/mdns.cpp | std::vector<InetAddress> resolve_mdns( | resolve_mdns *)
Definition resolve_mdns (tag : IpVersionTag) (hostname : bytes) (type : RecordKind) (interface : bytes) : io (list InetAddress) :=
  query_pkt ← (match mdns_query hostname type with
               | Ret q => mret q
               | Throw e => throw (StdException (packet_what e))
               | Undef => lift Undef
               | OutOfFuel => lift OutOfFuel
               end);
  scope (of_socket (create errno_str (match tag with Ipv6Tag => DOMAIN_INET6 | Ipv4Tag => DOMAIN_INET end)
           Posix.SOCK_DGRAM 0))
    (λ sock, of_socket (destroy sock)) (mdns_exchange tag query_pkt type interface).

(* @fn src/src/ip_source/mdns.cpp | std::vector<InetAddress> MdnsIpSource::resolve() const { | MdnsIpSource::resolve *)
Definition MdnsIpSource (hostname : bytes) (type : RecordKind) (interface : bytes) : IpSourceBase K := {|
  resolve := resolve_mdns (match type with KIND_AAAA => Ipv6Tag | _ => Ipv4Tag end) hostname type interface
|}.
End mdns.
End Mdns.
Import Mdns.

(** * Proofs *)

Class NetLibOk (K : Type) `{Posix K} `{NetLib K} := {
  getifaddrs_fds (k : K) : open_fds (getifaddrs k).2 = open_fds k;
  nametoindex_fds name (k : K) : open_fds (if_nametoindex name k).2 = open_fds k
}.

Section mdns_proofs.
Context {K : Type} `{PosixOk K} `{!NetLib K} `{!NetLibOk K} `{InetText}.
Context (errno_str : Z → bytes) (type_name : Z → bytes).

Abbreviation io := (st K exn).

(** Formatting this datagram reads outside it. *)
Definition bad_datagram (data : bytes) : Prop :=
  Forall is_byte data ∧ parse_strings inet_ntop4 inet_ntop6 data = Undef.

(** The state in which the kernel has just handed over such a datagram. *)
Definition misread (k' : K) : Prop :=
  ∃ fd k1 data src, sys_recvfrom fd MDNS_RECV_BUF_SIZE 0 k1 = (Some (data, src), k') ∧ bad_datagram data.

(** [m] keeps the open descriptors; its value meets [P], its exception is a
    [std::exception]; it has undefined behaviour only where it has received a bad
    datagram. *)
Definition outcome_ok {A} (fds : gset Z) (P : A → Prop) (r : outcome exn A * K) : Prop :=
  match r with
  | (Ret a, k') => open_fds k' = fds ∧ P a
  | (Throw e, k') => open_fds k' = fds ∧ ∃ what, e = StdException what
  | (Undef, k') => misread k'
  | (OutOfFuel, _) => False
  end.

Definition calm {A} (m : io A) (P : A → Prop) : Prop := ∀ k, outcome_ok (open_fds k) P (m k).

Lemma calm_ret {A} (a : A) (P : A → Prop) : P a → calm (mret a) P.
Proof using All. by intros Ha k. Qed.

Lemma calm_throw {A} what (P : A → Prop) : calm (throw (StdException what)) P.
Proof using All. intros k. split; [done|eauto]. Qed.

Lemma calm_bind {A B} (m : io A) (f : A → io B) P Q :
  calm m P → (∀ a, P a → calm (f a) Q) → calm (m ≫= f) Q.
Proof using All.
  intros Hm Hf k. specialize (Hm k). unfold mbind, st_bind.
  destruct (m k) as [[a|e| |] k1]; simpl in Hm; [|done..]. destruct Hm as [Hk Ha].
  rewrite <- Hk. by apply Hf.
Qed.

Lemma calm_errno {A} (g : Z → bytes) (P : A → Prop) : calm (e ← gets errno; throw (StdException (g e))) P.
Proof using All.
  eapply (calm_bind _ _ (λ _, True)); [by intros k|]. intros e _. apply calm_throw.
Qed.

Lemma calm_of_socket {A} (m : st K bytes A) (P : A → Prop) :
  moves same_fds m → (∀ k, swp m (λ a _, P a) (λ _ _, False) k) → calm (of_socket m) P.
Proof using All.
  intros Hm HP k. specialize (Hm k). specialize (HP k). unfold swp in *. unfold of_socket, catch.
  by destruct (m k) as [[a|e| |] k'].
Qed.

Lemma calm_call {A} (m : st K bytes A) : moves same_fds m → calm (of_socket m) (λ _, True).
Proof using All. intros Hm. apply calm_of_socket; [done|]. intros k. by eapply swp_mono. Qed.

Lemma calm_or_throw {A} what (r : Z + A) : calm (or_throw errno_str what r) (λ _, True).
Proof using All. destruct r; [apply calm_throw|by apply calm_ret]. Qed.

Lemma calm_library {A} (f : K → A * K) :
  (∀ k, open_fds (f k).2 = open_fds k) → calm (library f) (λ _, True).
Proof using All.
  intros Hf k. unfold library. specialize (Hf k). by destruct (f k).
Qed.

Lemma calm_scope {R A} (enter : io R) (leave : R → io unit) (body : R → io A) P :
  calm enter (λ _, True) → (∀ r, calm (leave r) (λ _, True)) → (∀ r, calm (body r) P) →
  calm (scope enter leave body) P.
Proof using All.
  intros He Hl Hb. eapply calm_bind; [exact He|]. intros r _ k. specialize (Hb r k).
  unfold mbind, st_bind, attempt. destruct (body r k) as [[a|e| |] k1]; simpl in *; [|..|done|done];
    destruct Hb as [Hk Hb]; specialize (Hl r k1); destruct (leave r k1) as [[u|e'| |] k2]; simpl in *;
    try done; destruct Hl as [Hk2 Hl]; (split; [congruence|done]).
Qed.

Lemma calm_weaken {A} (m : io A) (P Q : A → Prop) : calm m P → (∀ a, P a → Q a) → calm m Q.
Proof using All.
  intros Hm HPQ k. specialize (Hm k). destruct (m k) as [[a|e| |] k']; [|done..].
  destruct Hm. split; auto.
Qed.

(** The calls of the socket, without a condition on their result. *)
Ltac calm_step :=
  first
  [ by apply calm_ret | apply calm_throw | apply calm_errno | apply calm_or_throw
  | apply calm_call; first [apply set_option_moves|apply set_option_raw_moves|apply bind_moves|apply send_to_moves]
  | apply calm_library; intros ?; first [apply getifaddrs_fds|apply nametoindex_fds]
  | match goal with
    | |- calm (if ?b then _ else _) _ => destruct b
    | |- calm (match ?b with _ => _ end) _ => destruct b
    end
  | apply (calm_bind _ _ (λ _, True)); [|intros ? _] ].
Ltac calm_tac := repeat calm_step.

Lemma query_ifaddrs_calm : calm query_ifaddrs (λ _, True).
Proof using All. unfold query_ifaddrs. calm_tac. Qed.

Lemma first_index_calm f l : calm (first_index f l) (λ _, True).
Proof using All. induction l as [|ifa l IH]; cbn [first_index]; [by apply calm_ret|]. unfold name_to_index. calm_tac; exact IH. Qed.

Lemma join_calm tag s i interface : calm (join errno_str tag s i interface) (λ _, True).
Proof using All.
  unfold join, pick_ipv4_interface_addr, get_ipv4_subnets. destruct tag; calm_tac.
Qed.

Lemma leave_calm tag s m : calm (leave tag s m) (λ _, True).
Proof using All. unfold leave. destruct tag; calm_tac. Qed.

Lemma socket_options_calm s interface : calm (socket_options s interface) (λ _, True).
Proof using All. unfold socket_options. calm_tac. Qed.

Lemma setup_calm tag s interface : calm (setup_multicast_options errno_str tag s interface) (λ _, True).
Proof using All.
  unfold setup_multicast_options, bind_socket, resolve_multicast_if_index, setup_multicast_output_opts,
    find_default_interface_index, name_to_index.
  destruct tag; calm_tac; first [apply query_ifaddrs_calm|apply first_index_calm].
Qed.

(** What is returned: the addresses of the right kind among the records of one
    datagram, at least one. *)
Definition mdns_answer (type : RecordKind) (l : list InetAddress) : Prop :=
  l ≠ [] ∧ ∃ data r, (length data ≤ MDNS_RECV_BUF_SIZE)%nat ∧ parse_strings inet_ntop4 inet_ntop6 data = Ret r
    ∧ l = addresses type (fmt_records r).

(** Receiving a datagram and formatting it. *)
Lemma received_calm {B} s (f : bytes → FormattedResponse → io B) P :
  (∀ data r, (length data ≤ MDNS_RECV_BUF_SIZE)%nat → parse_strings inet_ntop4 inet_ntop6 data = Ret r → calm (f data r) P) →
  calm (received ← of_socket (recv_from s MDNS_RECV_BUF_SIZE 0);
        match received with
        | None => e ← gets errno; throw (StdException (str "mDNS recvfrom() failed: " ++ errno_str e))
        | Some (data, _) => parsed ← parse_datagram type_name data; f data parsed
        end) P.
Proof using All.
  intros Hf k. pose proof (recv_from_moves s MDNS_RECV_BUF_SIZE 0 k) as Hfds.
  pose proof (recv_from_bounded s MDNS_RECV_BUF_SIZE 0 k) as Hfit.
  pose proof (recv_from_last s MDNS_RECV_BUF_SIZE 0 k) as Hlast. unfold swp in *.
  unfold mbind at 1, st_bind at 1, of_socket, catch.
  destruct (recv_from s MDNS_RECV_BUF_SIZE 0 k) as [[r|e| |] k']; [|done..]. cbn [wp fst snd] in *.
  rewrite <- Hfds. destruct r as [[data src]|]; [|apply calm_errno].
  destruct (Hfit data eq_refl) as [Hl Hb]. destruct Hlast as [k1 Hlast].
  unfold mbind, st_bind, parse_datagram, lift. specialize (Hf data).
  pose proof (ends_parse_strings inet_ntop4 inet_ntop6 data Hb) as Hends.
  destruct (parse_strings inet_ntop4 inet_ntop6 data) as [r|[what e]| |] eqn:Hp; simpl;
    [by apply Hf|eauto|by exists (fd_ s), k1, data, src|done].
Qed.

Lemma recv_and_parse_calm s type :
  calm (recv_and_parse errno_str type_name s type) (mdns_answer type).
Proof using All.
  unfold recv_and_parse. eapply (calm_bind _ _ (λ _, True)); [apply calm_call, wait_for_moves|]. intros wait_res _.
  eapply calm_bind; [apply calm_or_throw|]. intros ready _. destruct (ready =? 0); [apply calm_throw|].
  apply (received_calm s (λ data parsed, if bool_decide (fmt_records parsed = []) then _ else _)).
  intros data r Hl Hr. case_bool_decide; [apply calm_throw|]. cbv zeta. case_bool_decide as Hne; [apply calm_throw|].
  apply calm_ret. split; [exact Hne|]. by exists data, r.
Qed.

Lemma exchange_calm tag q type interface s :
  calm (mdns_exchange errno_str type_name tag q type interface s) (mdns_answer type).
Proof using All.
  unfold mdns_exchange. eapply calm_bind; [apply socket_options_calm|]. intros _ _.
  eapply calm_bind; [apply setup_calm|]. intros i _.
  apply calm_scope; [apply join_calm|apply leave_calm|]. intros m.
  eapply (calm_bind _ _ (λ _, True)); [apply calm_call, send_to_moves|]. intros sent _.
  destruct (sent <? 0); [apply calm_errno|]. apply recv_and_parse_calm.
Qed.

(** The socket is closed when the scope is left. *)
Lemma socket_scope {A} domain type (body : Socket → io A) P :
  (∀ s, calm (body s) P) →
  calm (scope (of_socket (create errno_str domain type 0)) (λ s, of_socket (destroy s)) body) P.
Proof using All.
  intros Hb k. unfold scope, mbind, st_bind, of_socket, catch.
  pose proof (socket_create_ok errno_str domain type 0 k) as Hc. unfold swp in Hc.
  destruct (create errno_str domain type 0 k) as [[s|e| |] k1]; simpl in Hc |- *; [|eauto|done|done].
  destruct Hc as (Hfd & _ & Hnew & Hopen). specialize (Hb s k1). unfold attempt.
  assert (∀ k2, open_fds k2 = open_fds k1 → ∃ k3, destroy s k2 = (Ret tt, k3) ∧ open_fds k3 = open_fds k) as Hclose.
  { intros k2 Hk2. pose proof (close_ok s k2 Hfd) as Hcl. unfold destroy, mbind, st_bind, swp in *.
    destruct (close s k2) as [[s'|e| |] k3]; simpl in Hcl; [|done..]. exists k3. split; [done|].
    destruct Hcl as [_ ->]. rewrite Hk2, Hopen. set_solver. }
  destruct (body s k1) as [[a|e| |] k2]; simpl in Hb; [|..|done|done];
    destruct Hb as [Hk2 Hb]; destruct (Hclose k2 Hk2) as (k3 & -> & Hk3); simpl; done.
Qed.

Lemma mdns_query_ends hostname type :
  mdns_query hostname type ≠ Undef ∧ mdns_query hostname type ≠ OutOfFuel.
Proof using All.
  unfold mdns_query, build. cbn [questions_ edns_ add_question_raw_qclass set_rd set_id QueryBuilder_new app].
  rewrite throw_if_false by done. cbn [write_questions pq_qname].
  set (w := write_uint16 _ _).
  pose proof (encode_name_spec w hostname) as He.
  destruct (encode_name w hostname); simpl; done.
Qed.

Lemma resolve_mdns_calm tag hostname type interface :
  calm (resolve_mdns errno_str type_name tag hostname type interface) (mdns_answer type).
Proof using All.
  unfold resolve_mdns. destruct (mdns_query_ends hostname type) as [Hu Ho].
  destruct (mdns_query hostname type) as [q|e| |]; [|apply calm_throw|done|done].
  eapply (calm_bind _ _ (λ _, True)); [by apply calm_ret|]. intros q' _. apply socket_scope, exchange_calm.
Qed.
End mdns_proofs.

(** * Memberships

    What becomes of the multicast groups is told by the calls that concern them. *)

Inductive sock_event :=
| OptionSet (fd level opt : Z) (value : bytes) (rc : Z)
| Closed (fd : Z).

(** The trace of those calls; no other call of the source is in it. *)
Class Traced (K : Type) `{Posix K} `{NetLib K} (trace : K → list sock_event) := {
  trace_setsockopt fd l o v k :
    trace (sys_setsockopt fd l o v k).2 = trace k ++ [OptionSet fd l o v (sys_setsockopt fd l o v k).1];
  trace_close fd k : trace (sys_close fd k).2 = trace k ++ [Closed fd];
  trace_socket d t p k : trace (sys_socket d t p k).2 = trace k;
  trace_fcntl fd c v k : trace (sys_fcntl fd c v k).2 = trace k;
  trace_bind fd a k : trace (sys_bind fd a k).2 = trace k;
  trace_sendto fd b fl a k : trace (sys_sendto fd b fl a k).2 = trace k;
  trace_recvfrom fd n fl k : trace (sys_recvfrom fd n fl k).2 = trace k;
  trace_poll p t k : trace (sys_poll p t k).2 = trace k;
  trace_getifaddrs k : trace (getifaddrs k).2 = trace k;
  trace_nametoindex name k : trace (if_nametoindex name k).2 = trace k
}.

(** The option that leaves a group again, of those that join one. *)
Definition leave_option (level opt : Z) : option Z :=
  if (level =? IPPROTO_IPV6) && (opt =? IPV6_JOIN_GROUP) then Some IPV6_LEAVE_GROUP
  else if (level =? IPPROTO_IP) && (opt =? IP_ADD_MEMBERSHIP) then Some IP_DROP_MEMBERSHIP
  else None.

(** Behind every successful join there is the leave, with the same request and on
    the same descriptor, which is not closed before. *)
Definition left_again (t : list sock_event) : Prop :=
  ∀ pre fd level opt value post leave,
    t = pre ++ OptionSet fd level opt value 0 :: post → leave_option level opt = Some leave →
    ∃ before rc after, post = before ++ OptionSet fd level leave value rc :: after ∧ Closed fd ∉ before.

(** Neither a join nor the end of a descriptor. *)
Definition harmless (e : sock_event) : Prop :=
  match e with OptionSet _ level opt _ _ => leave_option level opt = None | Closed _ => False end.

Lemma left_again_app t1 t2 : left_again t1 → left_again t2 → left_again (t1 ++ t2).
Proof.
  intros L1 L2 pre fd l o v post leave Heq Hl. apply app_eq_app in Heq as (mid & [[-> Heq]|[-> Heq]]).
  - destruct mid as [|e mid].
    + rewrite app_nil_l in Heq. rewrite <- Heq in L2. by apply (L2 [] _ _ _ _ _ _ eq_refl).
    + injection Heq as <- ->. destruct (L1 _ _ _ _ _ _ _ eq_refl Hl) as (x & rc & y & -> & Hx).
      exists x, rc, (y ++ t2). by rewrite <- app_assoc.
  - by apply (L2 mid _ _ _ _ _ _ Heq).
Qed.

Lemma left_again_harmless t : Forall harmless t → left_again t.
Proof.
  intros Ht pre fd l o v post leave -> Hl. apply Forall_app in Ht as [_ Ht]. apply Forall_cons in Ht as [Ht _].
  simpl in Ht. congruence.
Qed.

Lemma left_again_closed fd : left_again [Closed fd].
Proof. intros [|e pre] fd' l o v post leave; [done|]. intros [= _ Hnil]. by destruct pre. Qed.

(** A join that has failed. *)
Lemma left_again_failed fd l o v rc : rc ≠ 0 → left_again [OptionSet fd l o v rc].
Proof.
  intros Hrc [|e pre] fd' l' o' v' post leave; [by intros [= _ _ _ _ Hz _]|]. intros [= _ Hnil]. by destruct pre.
Qed.

(** Joined, and left in the end. *)
Lemma left_again_bracket fd l o leave v rc t :
  leave_option l o = Some leave → leave_option l leave = None → Forall harmless t →
  left_again (OptionSet fd l o v 0 :: t ++ [OptionSet fd l leave v rc]).
Proof.
  intros Ho Hleave Ht [|e pre] fd' l' o' v' post leave' Heq Hl'.
  - injection Heq as <- <- <- <- <-. assert (leave' = leave) as -> by congruence. exists t, rc, []. split; [done|].
    intros Hin. rewrite Forall_forall in Ht. by apply Ht in Hin.
  - injection Heq as _ Heq. eapply (left_again_harmless (t ++ [OptionSet fd l leave v rc])); [|exact Heq|exact Hl'].
    apply Forall_app_2; [done|]. by constructor.
Qed.

Section trace_proofs.
Context {K : Type} `{PosixOk K} `{!NetLib K} `{InetText} (trace : K → list sock_event) `{!Traced K trace}.
Context (errno_str : Z → bytes) (type_name : Z → bytes).

Abbreviation io := (st K exn).

(** Where [m] ends, [S] holds of what it has added to the trace. *)
Definition adds {A} (S : list sock_event → Prop) (m : io A) : Prop := ∀ k,
  match m k with
  | (Ret _, k') | (Throw _, k') => ∃ t, trace k' = trace k ++ t ∧ S t
  | _ => True
  end.

(** Sets of traces that hold the empty one and concatenations. *)
Class Closure (S : list sock_event → Prop) := {
  closure_nil : S [];
  closure_app t1 t2 : S t1 → S t2 → S (t1 ++ t2)
}.
#[local] Instance harmless_closure : Closure (Forall harmless).
Proof. split; [constructor|by apply Forall_app_2]. Qed.
#[local] Instance left_again_closure : Closure left_again.
Proof. split; [by apply left_again_harmless|apply left_again_app]. Qed.

Section rules.
Context (S : list sock_event → Prop) `{!Closure S}.

Lemma adds_none {A} (m : io A) : (∀ k, trace (m k).2 = trace k) → adds S m.
Proof using All.
  intros Hm k. specialize (Hm k). destruct (m k) as [[a|e| |] k']; simpl in Hm; [..|done|done];
    exists []; rewrite app_nil_r; split; [done|apply closure_nil|done|apply closure_nil].
Qed.

Lemma adds_bind {A B} (m : io A) (f : A → io B) : adds S m → (∀ a, adds S (f a)) → adds S (m ≫= f).
Proof using All.
  intros Hm Hf k. specialize (Hm k). unfold mbind, st_bind. destruct (m k) as [[a|e| |] k1]; [|done..].
  destruct Hm as (t1 & Tr1 & S1). specialize (Hf a k1). destruct (f a k1) as [[b|e| |] k2]; [..|done|done];
    destruct Hf as (t2 & Tr2 & S2); exists (t1 ++ t2); (split; [by rewrite Tr2, Tr1, app_assoc|by apply closure_app]).
Qed.
End rules.

Lemma adds_weaken {A} (S S' : list sock_event → Prop) (m : io A) : (∀ t, S t → S' t) → adds S m → adds S' m.
Proof using All.
  intros HS Hm k. specialize (Hm k). destruct (m k) as [[a|e| |] k']; [..|done|done]; destruct Hm as (t & ? & ?); eauto.
Qed.

(** The calls of the socket that are not in the trace. *)
Definition keeps_trace (k k' : K) : Prop := trace k' = trace k.
#[local] Instance keeps_trace_preorder : PreOrder keeps_trace.
Proof. split; [done|]. intros a b c Hab Hbc. unfold keeps_trace in *. congruence. Qed.

Lemma adds_socket {A} (m : st K bytes A) : Socket.moves keeps_trace m → adds (Forall harmless) (of_socket m).
Proof using All.
  intros Hm. apply (adds_none _). intros k. specialize (Hm k). unfold swp, of_socket, catch in *.
  by destruct (m k) as [[a|e| |] k'].
Qed.

(** What [set_option_raw] adds, and what its result says of it. *)
Lemma option_event s l o v k :
  ∃ rc k', set_option_raw s l o v k = (Ret (if rc =? 0 then inr tt else inl (errno k')), k')
    ∧ trace k' = trace k ++ [OptionSet (fd_ s) l o v rc].
Proof using All.
  unfold set_option_raw, unexpected_errno, mbind, st_bind, syscall, gets. pose proof (trace_setsockopt (fd_ s) l o v k) as Ht.
  destruct (sys_setsockopt (fd_ s) l o v k) as [rc k']. simpl in Ht. exists rc, k'. by destruct (rc =? 0).
Qed.

Lemma adds_option s l o v : leave_option l o = None → adds (Forall harmless) (of_socket (set_option_raw s l o v)).
Proof using All.
  intros Ho k. unfold of_socket, catch. destruct (option_event s l o v k) as (rc & k' & -> & Ht).
  exists [OptionSet (fd_ s) l o v rc]. split; [done|]. by constructor.
Qed.

Ltac keeps_step :=
  first
  [ apply (moves_ret keeps_trace) | apply (moves_gets keeps_trace)
  | apply (moves_syscall keeps_trace); intros ?; first [apply trace_bind|apply trace_socket|apply trace_fcntl]
  | apply (moves_eintr keeps_trace);
      [ first [apply recvfrom_interrupted|apply poll_interrupted|apply sendto_interrupted]
      | intros ?; first [apply trace_recvfrom|apply trace_poll|apply trace_sendto] ]
  | apply (send_loop_moves keeps_trace); intros; [apply sendto_interrupted|by apply sendto_progress|apply trace_sendto]
  | apply (moves_bind keeps_trace); [|intros ?]
  | match goal with |- Socket.moves _ (if ?b then _ else _) => destruct b end
  | match goal with |- Socket.moves _ (match ?b with _ => _ end) => destruct b end ].

Lemma bind_keeps s a : Socket.moves keeps_trace (Sock.bind s a).
Proof using All. unfold Sock.bind, unexpected_errno. repeat keeps_step. Qed.
Lemma send_to_keeps s d a fl : Socket.moves keeps_trace (send_to s d a fl).
Proof using All. unfold send_to. repeat keeps_step. Qed.
Lemma recv_from_keeps s n fl : Socket.moves keeps_trace (recv_from s n fl).
Proof using All. unfold recv_from. repeat keeps_step. Qed.
Lemma wait_keeps s ev t : Socket.moves keeps_trace (wait_for s ev t {| token_fd := -1 |}).
Proof using All.
  unfold wait_for, unexpected_errno. change (token_linked {| token_fd := -1 |}) with false. cbn [andb].
  repeat keeps_step.
Qed.

Ltac adds_step :=
  first
  [ apply (adds_none _); intros ?; first [done|apply trace_getifaddrs|apply trace_nametoindex]
  | apply adds_option; reflexivity
  | apply adds_socket; first [apply bind_keeps|apply send_to_keeps|apply recv_from_keeps|apply wait_keeps]
  | match goal with
    | |- adds _ (if ?b then _ else _) => destruct b
    | |- adds _ (match ?b with _ => _ end) => destruct b
    end
  | apply (adds_bind _); [|intros ?] ].
Ltac adds_tac := repeat adds_step.

Lemma library_trace {A} (f : K → A * K) : (∀ k, trace (f k).2 = trace k) → adds (Forall harmless) (library f).
Proof using All. intros Hf. apply (adds_none _). intros k. specialize (Hf k). unfold library. by destruct (f k). Qed.

Lemma query_ifaddrs_trace : adds (Forall harmless) query_ifaddrs.
Proof using All.
  unfold query_ifaddrs. apply (adds_bind _); [apply library_trace, trace_getifaddrs|]. intros [l|]; adds_tac.
Qed.

Lemma name_to_index_trace name : adds (Forall harmless) (name_to_index name).
Proof using All. apply library_trace, trace_nametoindex. Qed.

Lemma first_index_trace f l : adds (Forall harmless) (first_index f l).
Proof using All.
  induction l as [|ifa l IH]; cbn [first_index]; [adds_tac|]. destruct (suitable f ifa); [|exact IH].
  apply (adds_bind _); [apply name_to_index_trace|]. intros i. destruct (0 <? i); [adds_tac|exact IH].
Qed.

Lemma options_trace s interface : adds (Forall harmless) (socket_options s interface).
Proof using All. unfold socket_options, set_option. adds_tac. Qed.

Lemma setup_trace tag s interface : adds (Forall harmless) (setup_multicast_options errno_str tag s interface).
Proof using All.
  unfold setup_multicast_options, bind_socket, setup_multicast_output_opts, set_option, or_throw, resolve_multicast_if_index,
    find_default_interface_index.
  destruct tag; adds_tac; first [apply name_to_index_trace|apply library_trace, trace_getifaddrs|apply first_index_trace].
Qed.

Lemma receive_trace s type : adds (Forall harmless) (recv_and_parse errno_str type_name s type).
Proof using All. unfold recv_and_parse, or_throw, parse_datagram. adds_tac. Qed.

(** The option that joins the group of [tag] and the one that leaves it. *)
Definition join_of (tag : IpVersionTag) : Z * Z * Z :=
  match tag with
  | Ipv6Tag => (IPPROTO_IPV6, IPV6_JOIN_GROUP, IPV6_LEAVE_GROUP)
  | Ipv4Tag => (IPPROTO_IP, IP_ADD_MEMBERSHIP, IP_DROP_MEMBERSHIP)
  end.

Lemma pick_trace interface k : trace (pick_ipv4_interface_addr interface k).2 = trace k.
Proof using All.
  unfold pick_ipv4_interface_addr, get_ipv4_subnets, query_ifaddrs, library. case_bool_decide; [done|].
  unfold mbind, st_bind. pose proof (trace_getifaddrs k) as Hg. destruct (getifaddrs k) as [[l|] k']; exact Hg.
Qed.

(** A join that returns is the last entry, a successful one, with the request. *)
Lemma join_trace tag s i interface k :
  let '(l, o, _) := join_of tag in
  match join errno_str tag s i interface k with
  | (Ret mreq, k') => trace k' = trace k ++ [OptionSet (fd_ s) l o mreq 0]
  | (Throw _, k') => ∃ t, trace k' = trace k ++ t ∧ left_again t
  | _ => True
  end.
Proof using All.
  assert (∀ l o mreq what k1, trace k1 = trace k →
    match (res ← of_socket (set_option_raw s l o mreq); _ ← or_throw errno_str what res; mret mreq : io bytes) k1 with
    | (Ret r, k') => trace k' = trace k ++ [OptionSet (fd_ s) l o r 0]
    | (Throw _, k') => ∃ t, trace k' = trace k ++ t ∧ left_again t
    | _ => True
    end) as Hset.
  { intros l o mreq what k1 Hk1. unfold mbind, st_bind, of_socket, catch.
    destruct (option_event s l o mreq k1) as (rc & k' & -> & Ht). rewrite Hk1 in Ht.
    destruct (rc =? 0) eqn:Hrc; prop_of_bool; cbn [or_throw].
    - by subst rc.
    - exists [OptionSet (fd_ s) l o mreq rc]. split; [done|by apply left_again_failed]. }
  unfold join. destruct tag; cbn [join_of].
  - unfold mbind at 1, st_bind at 1. pose proof (pick_trace interface k) as Hp.
    destruct (pick_ipv4_interface_addr interface k) as [[a|e| |] k1]; [by apply Hset| |done|done].
    exists []. rewrite app_nil_r. split; [exact Hp|by apply left_again_harmless].
  - by apply Hset.
Qed.

(** A leave that is reached is the last entry. *)
Lemma leave_trace tag s mreq k :
  0 ≤ fd_ s →
  let '(l, _, o) := join_of tag in
  ∃ rc k', leave tag s mreq k = (Ret tt, k') ∧ trace k' = trace k ++ [OptionSet (fd_ s) l o mreq rc].
Proof using All.
  intros Hs. unfold leave, is_closed. rewrite (proj2 (Z.ltb_ge (fd_ s) 0)) by done.
  destruct tag; cbn [join_of]; unfold mbind, st_bind, of_socket, catch;
    match goal with |- context [set_option_raw s ?l ?o mreq k] =>
      destruct (option_event s l o mreq k) as (rc & k' & -> & Ht) end; by exists rc, k'.
Qed.

Lemma membership_scope {A} tag s i interface (body : bytes → io A) :
  0 ≤ fd_ s → (∀ m, adds (Forall harmless) (body m)) →
  adds left_again (scope (join errno_str tag s i interface) (leave tag s) body).
Proof using All.
  intros Hs Hb k. unfold scope, mbind, st_bind, attempt. pose proof (join_trace tag s i interface k) as Hj.
  pose proof (λ m, leave_trace tag s m) as Hl. destruct (join_of tag) as [[l o] o'] eqn:Htag.
  destruct (join errno_str tag s i interface k) as [[mreq|e| |] k1]; [|exact Hj|done..].
  specialize (Hb mreq k1).
  assert (∀ t k2, trace k2 = trace k1 ++ t → Forall harmless t → ∃ k3, leave tag s mreq k2 = (Ret tt, k3)
    ∧ ∃ t', trace k3 = trace k ++ t' ∧ left_again t') as Hend.
  { intros t k2 Tr2 Ht. destruct (Hl mreq k2 Hs) as (rc & k3 & Tr3 & Htr). exists k3. split; [done|].
    exists (OptionSet (fd_ s) l o mreq 0 :: t ++ [OptionSet (fd_ s) l o' mreq rc]). split.
    - rewrite Htr, Tr2, Hj, <- !app_assoc. done.
    - destruct tag; injection Htag as <- <- <-; by apply left_again_bracket. }
  destruct (body mreq k1) as [[a|e| |] k2]; [..|done|done]; destruct Hb as (t & Tr2 & Ht);
    destruct (Hend t k2 Tr2 Ht) as (k3 & -> & Hfin); exact Hfin.
Qed.

Lemma exchange_trace tag q type interface s :
  0 ≤ fd_ s → adds left_again (mdns_exchange errno_str type_name tag q type interface s).
Proof using All.
  intros Hs. unfold mdns_exchange.
  apply (adds_bind _); [eapply adds_weaken; [apply left_again_harmless|apply options_trace]|]. intros _.
  apply (adds_bind _); [eapply adds_weaken; [apply left_again_harmless|apply setup_trace]|]. intros i.
  apply membership_scope; [done|]. intros m. apply (adds_bind _).
  - apply adds_socket, send_to_keeps.
  - intros sent. destruct (sent <? 0); [adds_tac|apply receive_trace].
Qed.

Lemma create_trace domain type k :
  match create errno_str domain type 0 k with
  | (Ret s, k') => 0 ≤ fd_ s ∧ trace k' = trace k
  | (_, k') => trace k' = trace k
  end.
Proof using All.
  unfold create, mbind, st_bind, syscall, gets. pose proof (trace_socket domain type 0 k) as Hs.
  destruct (sys_socket domain type 0 k) as [fd k1]. cbn [snd] in Hs. destruct (fd <? 0) eqn:Hfd; prop_of_bool; [done|].
  pose proof (trace_fcntl fd F_GETFD 0 k1) as Tr1. destruct (sys_fcntl fd F_GETFD 0 k1) as [fl k2]. cbn [snd] in Tr1.
  destruct (0 <=? fl).
  - pose proof (trace_fcntl fd F_SETFD (Z.lor fl FD_CLOEXEC) k2) as Tr2. destruct (sys_fcntl fd F_SETFD _ k2) as [r k3].
    simpl in *. split; [done|congruence].
  - simpl. split; [done|congruence].
Qed.

Lemma resolve_trace tag hostname type interface :
  adds left_again (resolve_mdns errno_str type_name tag hostname type interface).
Proof using All.
  unfold resolve_mdns. destruct (mdns_query hostname type) as [q|e| |];
    [|apply (adds_none _); done|by intros k|by intros k].
  intros k. unfold mbind at 1, st_bind at 1. cbn [mret st_ret]. unfold scope, mbind, st_bind, of_socket, catch, attempt.
  match goal with |- context [create errno_str ?d ?t 0 k] => pose proof (create_trace d t k) as Hc;
    destruct (create errno_str d t 0 k) as [[s|e| |] k1]; [|exists []; rewrite app_nil_r; split; [exact Hc|by apply left_again_harmless]|done..] end.
  destruct Hc as [Hs Hk1]. pose proof (exchange_trace tag q type interface s Hs k1) as Hx.
  assert (∀ k2 t, trace k2 = trace k1 ++ t → left_again t → ∃ k3, destroy s k2 = (Ret tt, k3)
    ∧ ∃ t', trace k3 = trace k ++ t' ∧ left_again t') as Hend.
  { intros k2 t Tr2 Ht. unfold destroy, close, mbind, st_bind, syscall. rewrite (proj2 (Z.ltb_ge (fd_ s) 0)) by done.
    pose proof (trace_close (fd_ s) k2) as Tr3. destruct (sys_close (fd_ s) k2) as [r k3]. exists k3. split; [done|].
    exists (t ++ [Closed (fd_ s)]). split; [simpl in Tr3; by rewrite Tr3, Tr2, Hk1, app_assoc|].
    apply left_again_app; [done|apply left_again_closed]. }
  destruct (mdns_exchange errno_str type_name tag q type interface s k1) as [[a|e| |] k2]; [..|done|done];
    destruct Hx as (t & Tr2 & Ht); destruct (Hend k2 t Tr2 Ht) as (k3 & -> & Hfin); exact Hfin.
Qed.
End trace_proofs.

(** * Properties *)

(** C21: The mDNS source returns, whichever way the kernel and the network answer:
    either addresses, at least one and all of the family that was asked for,
    which are records of one received datagram of at most 65536 octets; or a
    [std::exception].  Both ways the process has the descriptors it had before, and
    every multicast group that was joined has been left again, by the same request
    on the same descriptor while that was open.  The one exception is where the
    kernel has just handed over a datagram whose formatting is undefined, an
    SOA record that is too short: the source does not validate what it receives. *)
Theorem mdns_resolve_sound {K} `{PosixOk K} `{!NetLib K} `{!NetLibOk K} `{InetText}
    (trace : K → list sock_event) `{!Traced K trace}
    (errno_str type_name : Z → bytes) (hostname : bytes) (type : RecordKind) (interface : bytes) (k : K) :
  ∃ o k', resolve (MdnsIpSource errno_str type_name hostname type interface) k = (o, k')
    ∧ match o with
      | Ret l => open_fds k' = open_fds k ∧ mdns_answer type l
          ∧ Forall (λ a, get_family a = match type with KIND_A => IPV4 | _ => IPV6 end) l
      | Throw e => open_fds k' = open_fds k ∧ ∃ what, e = StdException what
      | Undef => misread k'
      | OutOfFuel => False
      end
    ∧ (o ≠ Undef → ∃ t, trace k' = trace k ++ t ∧ left_again t).
Proof.
  pose proof (resolve_mdns_calm errno_str type_name (match type with KIND_AAAA => Ipv6Tag | _ => Ipv4Tag end)
    hostname type interface k) as Hr.
  pose proof (resolve_trace trace errno_str type_name (match type with KIND_AAAA => Ipv6Tag | _ => Ipv4Tag end)
    hostname type interface k) as Ht.
  unfold MdnsIpSource, resolve. destruct (resolve_mdns _ _ _ _ _ _ k) as [o k']. exists o, k'. split; [done|].
  destruct o as [l|e| |]; [|done..]. split; [|done]. destruct Hr as [Hk Ha]. split; [done|]. split; [done|].
  destruct Ha as (_ & data & r & _ & _ & ->). apply Forall_forall. intros a Hin.
  apply list_elem_of_omap in Hin as (rec & _ & Hrec).
  destruct type; [destruct (parse4 rec)|destruct (parse6 rec)..]; simpl in Hrec; try done; by injection Hrec as <-.
Qed.

(** * Witnesses *)

(** A C library that knows one address, and a host without interfaces. *)
Definition quad_text : InetText :=
  {| inet_pton4 := λ s, if bool_decide (s = str "10.0.0.7") then Some [10; 0; 0; 7] else None;
     inet_pton6 := λ _, None;
     inet_ntop4 := λ b, StringUtil.join (map dec b) [ch "."]; inet_ntop6 := λ _, str "::" |}.

#[export] Instance no_interfaces : NetLib sample_kernel := {
  getifaddrs k := (Some [], k);
  if_nametoindex _ k := (0, k);
  if_indextoname _ k := (None, k)
}.

#[export] Instance no_interfaces_ok : NetLibOk sample_kernel.
Proof. by split. Qed.

(** The network answers with the address of "a.b", under another identifier. *)
Definition foreign_kernel : sample_kernel :=
  {| sk_errno := 0; sk_signals := 1; sk_fds := {[3]}; sk_flags := λ _, 2; sk_next := 4;
     sk_in := a_response; sk_out := [] |}.

(** That kernel beside a log of the calls that concern memberships. *)
#[local] Instance logging : Posix (sample_kernel * list sock_event) := {
  errno := @errno _ beside_posix;
  sys_socket := @sys_socket _ beside_posix;
  sys_close fd k := (0, ((sys_close fd k.1).2, k.2 ++ [Closed fd]));
  sys_fcntl := @sys_fcntl _ beside_posix;
  sys_setsockopt fd l o v k :=
    let '(rc, k1) := sys_setsockopt fd l o v k.1 in (rc, (k1, k.2 ++ [OptionSet fd l o v rc]));
  sys_getsockopt := @sys_getsockopt _ beside_posix;
  sys_bind := @sys_bind _ beside_posix;
  sys_getsockname := @sys_getsockname _ beside_posix;
  sys_getpeername := @sys_getpeername _ beside_posix;
  sys_connect := @sys_connect _ beside_posix;
  sys_listen := @sys_listen _ beside_posix;
  sys_accept := @sys_accept _ beside_posix;
  sys_send := @sys_send _ beside_posix;
  sys_sendto := @sys_sendto _ beside_posix;
  sys_recv := @sys_recv _ beside_posix;
  sys_recvfrom := @sys_recvfrom _ beside_posix;
  sys_poll := @sys_poll _ beside_posix;
  sys_read := @sys_read _ beside_posix;
  sys_shutdown := @sys_shutdown _ beside_posix;
  signals := @signals _ beside_posix;
  open_fds := @open_fds _ beside_posix;
  status_flags := @status_flags _ beside_posix
}.

#[local] Instance logging_ok : PosixOk (sample_kernel * list sock_event).
Proof.
  pose proof (beside_posix_ok (K := sample_kernel) (X := list sock_event)) as [].
  by split.
Qed.

#[local] Instance logging_interfaces : NetLib (sample_kernel * list sock_event) := {
  getifaddrs k := (Some [], k);
  if_nametoindex _ k := (0, k);
  if_indextoname _ k := (None, k)
}.

#[local] Instance logging_interfaces_ok : NetLibOk (sample_kernel * list sock_event).
Proof. by split. Qed.

#[local] Instance logging_traced : Traced (sample_kernel * list sock_event) snd.
Proof. by split. Qed.

(** The answer for another host, to another query, is taken for the host's. *)
Definition printer_run : outcome exn (list InetAddress) * (sample_kernel * list sock_event) :=
  resolve (MdnsIpSource (H1 := quad_text) (λ _, []) (λ _, []) (str "printer.local") KIND_A (str "eth0"))
    (foreign_kernel, []).

(** The group is joined and left, and then the socket is closed. *)
Lemma mdns_resolve_sound_witness :
  ∃ k', printer_run = (Ret [V4 {| v4_addr := [10; 0; 0; 7] |}], k') ∧ open_fds k' = {[3]}
    ∧ left_again k'.2 ∧ drop 4 k'.2 = [OptionSet 4 IPPROTO_IP IP_ADD_MEMBERSHIP (MDNS_IPV4_GROUP ++ repeat 0 4) 0;
                                        OptionSet 4 IPPROTO_IP IP_DROP_MEMBERSHIP (MDNS_IPV4_GROUP ++ repeat 0 4) 0; Closed 4].
Proof.
  destruct (mdns_resolve_sound (H1 := quad_text) snd (λ _, []) (λ _, []) (str "printer.local") KIND_A (str "eth0")
    (foreign_kernel, [])) as (o & k' & Hr & Ho & Ht).
  change (printer_run = (o, k')) in Hr. exists k'.
  assert (o = Ret [V4 {| v4_addr := [10; 0; 0; 7] |}]) as ->
    by (refine (eq_trans (eq_sym (f_equal fst Hr)) _); vm_compute; reflexivity).
  split; [exact Hr|]. split; [exact (proj1 Ho)|]. split.
  - destruct (Ht ltac:(discriminate)) as (t & Heq & Hl). rewrite Heq. exact Hl.
  - refine (eq_trans (f_equal (λ r, drop 4 (snd (snd r))) (eq_sym Hr)) _). vm_compute. reflexivity.
Defined.
