(* ===== verification/UpdateCycle.v ===== *)
(** One update of one subdomain with the program's own components under it: the
    sources of [src/ip_source], the sequential dispatcher of
    [src/dns/dispatcher.cpp] and the classic resolvers, over one kernel.  The
    driver, and an address source over HTTP, run third-party code and are
    parameters. *)
From S2P Require Import Prelude Io CppString Address StringUtil DnsTypes DnsBuilder DnsParser DnsRoundtrip DnsValidator Posix Socket Retry Http HttpClient NetDevices ClassicResolver Dispatcher Config Scheduler Updater Mdns.
Import RecordParser Classic Mdns.Mdns.

(** * What a computation leaves of the process

    The world is a kernel and the rest of the machine. *)

Section steady.
Context {K R : Type} `{Posix K} `{InetText} (bad : K * R → Prop).

(** [m] ends with the descriptors that it began with, and its value meets [P]; it
    has undefined behaviour only in a state that is [bad]. *)
Definition steady {E A} (m : st (K * R) E A) (P : A → Prop) : Prop := ∀ w,
  match m w with
  | (Ret a, w') => open_fds w'.1 = open_fds w.1 ∧ P a
  | (Throw _, w') => open_fds w'.1 = open_fds w.1
  | (Undef, w') => bad w'
  | (OutOfFuel, _) => False
  end.

Lemma steady_ret {E A} (a : A) (P : A → Prop) : P a → steady (E:=E) (mret a) P.
Proof using Type. by intros Ha w. Qed.

Lemma steady_throw {E A} (e : E) (P : A → Prop) : steady (throw e) P.
Proof using Type. by intros w. Qed.

Lemma steady_bind {E A B} (m : st (K * R) E A) (f : A → st (K * R) E B) P Q :
  steady m P → (∀ a, P a → steady (f a) Q) → steady (m ≫= f) Q.
Proof using Type.
  intros Hm Hf w. specialize (Hm w). unfold mbind, st_bind.
  destruct (m w) as [[a|e| |] w1]; [|done..]. destruct Hm as [<- Ha]. by apply Hf.
Qed.

Lemma steady_attempt {E E' A} (m : st (K * R) E A) P :
  steady m P → steady (E:=E') (attempt m) (λ r, ∀ a, r = inr a → P a).
Proof using Type.
  intros Hm w. specialize (Hm w). unfold attempt.
  destruct (m w) as [[a|e| |] w1]; [|by split|done..]. split; [by destruct Hm|].
  intros a' [= <-]. by destruct Hm.
Qed.

Lemma steady_catch {E E' A} (m : st (K * R) E A) (h : E → st (K * R) E' A) P :
  steady m P → (∀ e, steady (h e) P) → steady (catch m h) P.
Proof using Type.
  intros Hm Hh w. specialize (Hm w). unfold catch.
  destruct (m w) as [[a|e| |] w1]; [done| |done..]. rewrite <- Hm. apply Hh.
Qed.

Lemma steady_weaken {E A} (m : st (K * R) E A) (P Q : A → Prop) :
  steady m P → (∀ a, P a → Q a) → steady m Q.
Proof using Type.
  intros Hm HPQ w. specialize (Hm w). destruct (m w) as [[a|e| |] w1]; [|done..].
  destruct Hm. split; auto.
Qed.

Lemma steady_lift {E A} (m : outcome E A) (P : A → Prop) T : wp m P T → steady (lift m) P.
Proof using Type. intros Hm w. unfold lift. by destruct m. Qed.

Lemma steady_modify {E} (f : K * R → K * R) :
  (∀ w, open_fds (f w).1 = open_fds w.1) → steady (E:=E) (modify f) (λ _, True).
Proof using Type. intros Hf w. by split. Qed.

(** A computation of the kernel alone. *)
Definition on_kernel {A} (m : st K exn A) : st (K * R) exn A := λ w,
  let '(o, k) := m w.1 in (o, (k, w.2)).

Lemma steady_on_kernel {A} (m : st K exn A) P :
  calm m P → (∀ w, misread w.1 → bad w) → steady (on_kernel m) P.
Proof using Type.
  intros Hm Hbad w. specialize (Hm w.1). unfold on_kernel.
  destruct (m w.1) as [[a|e| |] k]; [done|by destruct Hm|by apply Hbad|done].
Qed.
End steady.

Lemma steady_mono {K R} `{Posix K} (bad bad' : K * R → Prop) {E A} (m : st (K * R) E A) P :
  (∀ w, bad w → bad' w) → steady bad m P → steady bad' m P.
Proof. intros Hb Hm w. specialize (Hm w). destruct (m w) as [[a|e| |] w']; auto. Qed.

(** ** Retrying *)

Section retry.
Context {K R : Type} `{Posix K} `{InetText} (bad : K * R → Prop).

(** [std::this_thread::sleep_for] concerns no descriptor. *)
#[local] Instance sleep_rest `{Sleep R} : Sleep (K * R) := λ d w, (w.1, sleep_for d w.2).

Lemma steady_retry `{Sleep R} {E A} (func : st (K * R) E A) error_filter backoff retry P :
  steady bad func P → (0 ≤ retry < 4294967295)%Z →
  steady bad (retry_on_error func error_filter backoff retry) (λ r, ∀ a, r.1 = inr a → P a).
Proof using Type.
  intros Hf Hretry. unfold retry_on_error.
  assert (∀ fuel n, (0 ≤ n ≤ retry)%Z → (retry - n < Z.of_nat fuel)%Z →
    steady bad (retry_loop func error_filter backoff retry fuel n) (λ r, ∀ a, r.1 = inr a → P a)) as Hloop;
    [|apply Hloop; lia].
  induction fuel as [|fuel IH]; intros n Hn Hfuel; [lia|]. cbn [retry_loop].
  eapply steady_bind; [by apply steady_attempt|]. intros [e|a] Ha; [|by apply steady_ret].
  destruct (negb (error_filter e)); [by apply steady_ret|].
  rewrite (u32_small (n + 1)) by (unfold is_u32; lia).
  destruct (retry <? n + 1)%Z eqn:Hlast; prop_of_bool; [by apply steady_ret|].
  eapply steady_bind; [by apply steady_modify|]. intros _ _. apply IH; lia.
Qed.
End retry.

(** * The components over the kernel *)

(** The cache of [iface_util.cpp] as one thread sees it: the value that is fresh, and
    storing one.  Cache.v has its threads. *)
Class InterfaceCache (R : Type) := {
  cached_interfaces : R → option InterfaceMap;
  cache_interfaces : InterfaceMap → R → R
}.

Section cycle.
Context {generic K R : Type} `{PosixOk K} `{!NetLib K} `{!NetLibOk K} `{RandomEngine R} `{Sleep R} `{InterfaceCache R} `{InetText}.
Context `{Httplib (K * R)} (discover_ca_bundle : option bytes) (full_version : bytes).
(** Texts of the C library and of magic_enum. *)
Context (strerror : Z → bytes) (type_name rcode_name : Z → bytes).
(** A JSON value as text, and the driver with its client. *)
Context (dump : generic → option bytes)
  (execute : execute_fn (K * R)).

#[local] Existing Instance sleep_rest.

(** ** The DNS *)

(** A classic resolver with its server's address; the query brings its own
    sockets, and nobody cancels it. *)
Definition classic_resolver (id : Z) (addr : AddrResult) : ResolverBase (K * R) := {|
  res_id := id;
  res_query host type w :=
    let '(o, w') := kernel_query (open_fds w.1) strerror {| Sock.token_fd := -1 |} id addr host type (outset w.1 w.2) in
    (o, (kernel (contents w'), rest (contents w')))
|}.

(** The state in which a query of one of the resolvers has just returned a response
    that cannot be formatted. *)
Definition misanswered (resolvers : list (Z * AddrResult)) (host : bytes) (type : RecordKind) (w' : K * R) : Prop :=
  ∃ r w data, r ∈ resolvers ∧ res_query (classic_resolver r.1 r.2) host type w = (Ret data, w') ∧ bad_datagram data.

Lemma steady_query bad id addr host type :
  Forall is_byte host → steady bad (res_query (classic_resolver id addr) host type) (Forall is_byte).
Proof using All.
  intros Hh [k r]. cbn [res_query classic_resolver fst snd].
  destruct (kernel_query_ok (open_fds k) strerror {| Sock.token_fd := -1 |} id addr host type (outset k r) Hh)
    as [(a & w' & -> & Hs & _ & Hb & _)|(e & w' & -> & Hs & _)]; cbn;
    [split; [|done]|]; by apply no_scopes_fds.
Qed.

(** What an unforced task asks: one resolver with one retry after 50 ms, or
    several, with the strategy FALLBACK, in the order that the shuffle gave. *)
Definition program_lookup (resolvers : list (Z * AddrResult)) (order : list nat) (host : bytes) (type : RecordKind) :
    st (K * R) exn (DnsErrorInfo + list bytes) :=
  match resolvers with
  | [(id, addr)] =>
      catch (single_run inet_ntop4 inet_ntop6 type_name rcode_name (classic_resolver id addr) host type 1 50)
        (λ e : Empty_set, match e with end)
  | _ =>
      attempt (fallback_run inet_ntop4 inet_ntop6 type_name rcode_name
        ((λ r, classic_resolver r.1 r.2) <$> resolvers) host type order)
  end.

Lemma steady_try_resolve resolvers id addr host type :
  Forall is_byte host → (id, addr) ∈ resolvers →
  steady (misanswered resolvers host type)
    (try_resolve inet_ntop4 inet_ntop6 type_name rcode_name (classic_resolver id addr) host type) (λ _, True).
Proof using All.
  intros Hh Hin w. pose proof (steady_query (λ _, False) id addr host type Hh w) as Hq. unfold try_resolve.
  unfold mbind at 1, st_bind at 1.
  destruct (res_query (classic_resolver id addr) host type w) as [[data|e| |] w1] eqn:Hw; [|done..].
  destruct Hq as [<- Hdata]. unfold mbind, st_bind, catch, lift.
  pose proof (ends_parse_strings inet_ntop4 inet_ntop6 data Hdata) as Hends.
  destruct (parse_strings inet_ntop4 inet_ntop6 data) as [parsed|e| |] eqn:Hp; [|done| |done].
  - pose proof (classify_spec rcode_name host parsed) as Hc. by destruct (classify rcode_name host parsed).
  - by exists (id, addr), w, data.
Qed.

Lemma steady_fallback resolvers host type order last :
  Forall is_byte host → Forall (λ i, i < length resolvers) order →
  steady (misanswered resolvers host type) (fallback_loop inet_ntop4 inet_ntop6 type_name rcode_name
    ((λ r, classic_resolver r.1 r.2) <$> resolvers) host type order last) (λ _, True).
Proof using All.
  intros Hh Ho. revert last. induction Ho as [|i order Hi Ho IH]; intros last; cbn [fallback_loop]; [apply steady_throw|].
  destruct (lookup_lt_is_Some_2 _ _ Hi) as [[id addr] Hr].
  eapply (steady_bind _ _ _ (λ res, res = classic_resolver id addr)).
  { intros w. unfold lift, deref. by rewrite list_lookup_fmap, Hr. }
  intros ? ->. eapply steady_bind; [apply steady_attempt, steady_try_resolve; [done|by eapply list_elem_of_lookup_2]|].
  intros [e|l] _; [|by apply steady_ret]. destruct (is_definitive _); [apply steady_throw|apply IH].
Qed.

Lemma steady_lookup resolvers order host type :
  Forall is_byte host → Forall (λ i, i < length resolvers) order →
  steady (misanswered resolvers host type) (program_lookup resolvers order host type) (λ _, True).
Proof using All.
  intros Hh Ho.
  assert (steady (E:=exn) (misanswered resolvers host type) (attempt (fallback_run inet_ntop4 inet_ntop6 type_name rcode_name
    ((λ r, classic_resolver r.1 r.2) <$> resolvers) host type order)) (λ _, True)) as Hf.
  { eapply steady_weaken; [by apply steady_attempt, steady_fallback|done]. }
  destruct resolvers as [|[id addr] [|]]; [done| |done].
  apply steady_catch; [|intros []]. unfold single_run.
  eapply steady_bind; [apply steady_retry; [apply steady_try_resolve; [done|set_solver]|lia]|].
  intros [result n] _. by apply steady_ret.
Qed.

(** ** The interfaces *)

(* @fn src/src/ip_source/iface_util.cpp | InterfaceMap get_cached_interfaces() { | get_cached_interfaces *)
Definition get_cached_interfaces : st (K * R) exn InterfaceMap := λ w,
  match cached_interfaces w.2 with
  | Some m => (Ret m, w)
  | None =>
      (m ← on_kernel NetDevices.enumerate_interfaces;
       _ ← modify (λ w, (w.1, cache_interfaces m w.2));
       mret m) w
  end.

Lemma steady_interfaces bad : (∀ w, misread w.1 → bad w) → steady bad get_cached_interfaces (λ _, True).
Proof using All.
  intros Hbad. assert (steady bad (on_kernel (K:=K) (R:=R) NetDevices.enumerate_interfaces) (λ _, True)) as He.
  { apply steady_on_kernel; [|done]. apply (calm_bind strerror type_name _ _ (λ _, True)); [|intros l _; by apply (calm_ret strerror type_name)].
    apply (calm_bind strerror type_name _ _ (λ _, True)); [apply (calm_library strerror type_name), getifaddrs_fds|].
    intros [l|] _; [by apply (calm_ret strerror type_name)|apply (calm_throw strerror type_name)]. }
  intros w. unfold get_cached_interfaces. destruct (cached_interfaces w.2); [done|].
  revert w. change (steady bad (m ← on_kernel (K:=K) (R:=R) NetDevices.enumerate_interfaces;
    _ ← modify (λ w, (w.1, cache_interfaces m w.2)); mret m) (λ _, True)).
  eapply steady_bind; [exact He|]. intros m _. eapply steady_bind; [by apply steady_modify|].
  intros _ _. by apply steady_ret.
Qed.

(** ** The update *)

(** [Updater::process] with the default factory of sources. *)
Definition update (resolvers : list (Z * AddrResult)) (order : list nat) (task : UpdateTask generic) :
    st (K * R) Empty_set unit :=
  process dump
    (create_source get_cached_interfaces discover_ca_bundle full_version
       (λ host type interface, {| resolve := on_kernel (resolve (MdnsIpSource strerror type_name host type interface)) |}))
    (program_lookup resolvers order) task execute.

Lemma steady_source bad (config : SubdomainConfig generic) :
  (∀ w, misread w.1 → bad w) → sd_ip_source config ≠ HTTP →
  steady bad (create_source get_cached_interfaces discover_ca_bundle full_version
    (λ host type interface, {| resolve := on_kernel (resolve (MdnsIpSource strerror type_name host type interface)) |})
    config) (λ source, steady bad (resolve source) (λ _, True)).
Proof using All.
  intros Hbad Hs. unfold create_source. destruct (sd_ip_source config); [|done|].
  - apply steady_ret. cbn [resolve InterfaceIpSource]. apply (steady_bind _ _ _ (λ _, True)); [|intros l _; by apply steady_ret].
    unfold get_addresses. eapply steady_bind; [by apply steady_interfaces|]. intros all _.
    destruct (find_interface _ all); [by apply steady_ret|apply steady_throw].
  - apply steady_ret. cbn [resolve]. eapply steady_weaken; [apply steady_on_kernel; [apply (resolve_mdns_calm strerror type_name)|done]|done].
Qed.

(** The update's undefined behaviour: the source's or the query's. *)
Definition misfed (resolvers : list (Z * AddrResult)) (task : UpdateTask generic) (w' : K * R) : Prop :=
  misread w'.1 ∨ misanswered resolvers (ut_fqdn task) (sd_type (ut_config task)) w'.

Lemma steady_update resolvers order task :
  (∀ parameters ctx, steady (λ _, False) (execute parameters ctx) (λ _, True)) →
  sd_ip_source (ut_config task) ≠ HTTP →
  Forall is_byte (ut_fqdn task) → Forall (λ i, i < length resolvers) order →
  steady (misfed resolvers task) (update resolvers order task) (λ _, True).
Proof using All.
  intros He Hs Hf Ho. unfold update, process.
  apply steady_catch; [|intros e; by apply steady_ret]. unfold process_impl, resolve_local_address.
  eapply (steady_bind _ _ _ (λ _, True)).
  { eapply steady_bind; [apply steady_source; [by left|done]|]. intros source Hsource.
    eapply steady_bind; [exact Hsource|]. intros l _. by apply steady_ret. }
  intros [ip|] _; [|by apply steady_ret]. eapply (steady_bind _ _ _ (λ _, True)).
  { unfold unchanged, dns_lookup. destruct (negb _); [|by apply steady_ret].
    eapply (steady_bind _ _ _ (λ _, True)); [|intros records _; by apply steady_ret].
    eapply steady_bind; [eapply steady_mono; [|by apply steady_lookup]; by right|]. intros result _. by apply steady_ret. }
  intros [] _; [by apply steady_ret|]. eapply steady_bind; [by eapply steady_mono; [|apply He]|]. intros _ _. by apply steady_ret.
Qed.
End cycle.

(** * Properties *)

(** C20: An update ends without an exception and leaves the process with the
    descriptors that it had, whatever the kernel, the network and the DNS servers
    answer: every socket of the source, of the query, of its retry and of its
    fallback to TCP is closed, on every path.  That is for an address that comes
    from an interface or over mDNS, not over HTTP; for classic resolvers, one alone
    or several one after the other; and for a driver that keeps its descriptors and
    always returns or throws.  The update's one undefined behaviour is where the
    kernel has just handed the source, or a resolver's query has just returned, a
    datagram with a record that is too short to be formatted. *)
Theorem update_closes_descriptors {generic K R : Type} `{PosixOk K} `{!NetLib K} `{!NetLibOk K} `{RandomEngine R}
    `{Sleep R} `{InterfaceCache R} `{InetText} `{Httplib (K * R)} (discover_ca_bundle : option bytes) (full_version : bytes)
    (strerror type_name rcode_name : Z → bytes)
    (dump : generic → option bytes) (execute : execute_fn (K * R))
    (resolvers : list (Z * AddrResult)) (order : list nat) (task : UpdateTask generic) (k : K) (r : R) :
  (∀ parameters ctx, steady (λ _, False) (execute parameters ctx) (λ _, True)) →
  sd_ip_source (ut_config task) ≠ HTTP →
  Forall is_byte (ut_fqdn task) → Forall (λ i, i < length resolvers) order →
  ∃ o w', update discover_ca_bundle full_version strerror type_name rcode_name dump execute
      resolvers order task (k, r) = (o, w')
    ∧ match o with
      | Ret _ => open_fds w'.1 = open_fds k
      | Undef => misfed strerror resolvers task w'
      | Throw _ | OutOfFuel => False
      end.
Proof.
  intros He Hs Hf Ho.
  pose proof (steady_update discover_ca_bundle full_version strerror type_name rcode_name dump execute
    resolvers order task He Hs Hf Ho (k, r)) as Hu.
  destruct (update _ _ _ _ _ _ _ _ _ _ _) as [o w']. exists o, w'. split; [done|].
  destruct o as [u|[]| |]; [by destruct Hu|done..].
Qed.

(** * An example

    The rest of the machine is the addresses of its interface, which are cached, and
    the number of times that the driver was called. *)

Record machine := { m_address : Z; m_calls : nat }.
#[local] Instance machine_random : RandomEngine machine := λ m, (4660%Z, m).
#[local] Instance machine_sleep : Sleep machine := λ _ m, m.
#[local] Instance machine_cache : InterfaceCache machine := {|
  cached_interfaces m := Some [(str "eth0", [V4 {| v4_addr := [10; 0; 0; m_address m]%Z |}])];
  cache_interfaces _ m := m
|}.
#[local] Instance machine_http : Httplib (sample_kernel * machine) :=
  {| httplib_send _ _ w := (inl [], w); encode_query_component s := s |}.
#[local] Existing Instance quad_text.

Definition counting_driver : execute_fn (sample_kernel * machine) := λ _ _ w,
  (Ret true, (w.1, {| m_address := m_address w.2; m_calls := S (m_calls w.2) |})).

(** A name server that knows 10.0.0.7 for "a.b", and two signals on the way. *)
Definition answering : sample_kernel :=
  {| sk_errno := 0; sk_signals := 2; sk_fds := {[3%Z]}; sk_flags := λ _, 2%Z; sk_next := 4;
     sk_in := a_response; sk_out := [] |}.

Definition ab_task : UpdateTask unit := {|
  ut_domain_name := str "b"; ut_fqdn := str "a.b"; ut_force_update := false; ut_driver_name := str "simple";
  ut_config := {|
    sd_name := str "a"; sd_type := KIND_A; sd_interface := str "eth0"; sd_ip_type := UNSPECIFIED;
    sd_ip_source := INTERFACE; sd_ip_source_param := []; sd_allow_ula := false; sd_allow_local_link := false;
    sd_update_interval := 300; sd_driver_param := tt |}
|}.

(** An update of "a.b" on a host whose interface has the address 10.0.0.[last]. *)
Definition host_at (last : Z) : machine := {| m_address := last; m_calls := 0 |}.
Definition ab_update : st (sample_kernel * machine) Empty_set unit :=
  update None [] (λ _, []) (λ _, []) (λ _, []) (λ _, None) counting_driver [(1%Z, sample_addr)] [] ab_task.

(** The driver is called for a new address and not for the one that the DNS has. *)
Example driver_called :
  m_calls (ab_update (answering, host_at 9)).2.2 = 1 ∧ m_calls (ab_update (answering, host_at 7)).2.2 = 0.
Proof. vm_compute. split; reflexivity. Qed.

Lemma update_closes_descriptors_witness :
  ∃ w', ab_update (answering, host_at 9) = (Ret tt, w') ∧ open_fds w'.1 = {[3%Z]}.
Proof.
  destruct (update_closes_descriptors (K := sample_kernel) (R := machine) None [] (λ _, []) (λ _, []) (λ _, [])
    (λ _, None) counting_driver [(1%Z, sample_addr)] [] ab_task answering (host_at 9)) as (o & w' & Hu & Ho).
  - intros parameters ctx w. split; [reflexivity|exact I].
  - discriminate.
  - apply str_is_bytes.
  - constructor.
  - assert (o = fst (ab_update (answering, host_at 9))) as Heq by exact (eq_sym (f_equal fst Hu)).
    vm_compute in Heq. subst o. exists w'. split; [exact Hu|exact Ho].
Defined.
