(* ===== verification/Drivers.v ===== *)
(** [src/core/driver_manager.cpp], [src/core/driver_loader.cpp] and
    [include/interface/abi_version.h]: loading driver plugins and finding them
    by name. *)
From S2P Require Import Prelude CppString Address Uri Config Io Retry Scheduler Updater.
From stdpp Require Import gmap sorting.

(** * Versions and errors *)

(* @fn src/include/interface/abi_version.h | struct AbiVersion final { | AbiVersion *)
Record AbiVersion := { major : Z; minor : Z; patch : Z }.

(* @fn src/include/interface/abi_version.h | bool is_compatible_with( | AbiVersion::is_compatible_with *)
Definition is_compatible_with (v required : AbiVersion) : bool :=
  (major v =? major required)%Z && (minor required <=? minor v)%Z && (patch required <=? patch v)%Z.

(** What loading throws: the program's own exceptions, [std::invalid_argument]. *)
Inductive DriverError :=
| BadDriver (what : bytes)
| DriverNotFound (what : bytes)
| InvalidArgument (what : bytes).

(* @fn src/include/driver/magic.h | constexpr std::uint64_t YADDNSC_DRIVER_MAGIC | YADDNSC_DRIVER_MAGIC *)
Definition YADDNSC_DRIVER_MAGIC : Z := 0x594144444E534300.

(** [{:016X}] *)
Definition hex16 (z : Z) : bytes :=
  (λ i, nth (Z.to_nat ((z `div` 16 ^ (15 - Z.of_nat i)) `mod` 16)) (str "0123456789ABCDEF") 0%Z) <$> seq 0 16.

(** The last component of a path. *)
(* @fn src/src/core/driver_manager.cpp | std::string_view get_driver_name(std::string_view path) { | get_driver_name *)
Definition get_driver_name (path : bytes) : bytes :=
  match rfind_char path (ch "/") with
  | None => path
  | Some pos => drop (S pos) path
  end.

(** ** [std::filesystem::path], with POSIX separators *)

Definition is_relative (p : bytes) : bool := negb (starts_with p (str "/")).

(** [base / p] *)
Definition path_append (base p : bytes) : bytes :=
  if negb (is_relative p) then p
  else if bool_decide (base = []) || ends_with base (str "/") then base ++ p
  else base ++ str "/" ++ p.

(** [p.extension()] *)
Definition extension (p : bytes) : bytes :=
  let name := get_driver_name p in
  if bool_decide (name = str ".") || bool_decide (name = str "..") then [] else
  match rfind_char name (ch ".") with
  | None | Some O => []
  | Some dot => drop dot name
  end.

Section drivers.
Context {generic W : Type}.

(** A driver object: what its virtual functions return. *)
(* @fn src/include/interface/driver.h | class Driver { | Driver *)
Record Driver := {
  get_abi_version : AbiVersion;
  driver_name : bytes;
  execute : execute_fn W
}.

(** What [dlsym] finds for a name: the text of [dlerror], a null symbol, or a
    function, here what it returns. *)
Definition symbol (A : Type) : Type := bytes + option A.

(** A shared library: its symbols; [create] may return a null pointer. *)
Record Library := {
  yaddnsc_drv_magic : symbol Z;
  yaddnsc_drv_compiler_id_hash : symbol Z;
  create : symbol (option Driver);
  destroy : symbol unit
}.

(** The dynamic loader, with the text of its errors, and the files. *)
Context (dlopen : bytes → bytes + Library).
Context (exists_file is_directory : bytes → bool).
(** A directory's entries, as paths, and whether each is a regular file. *)
Context (directory : bytes → list (bytes * bool)).
(** The host's build: its compiler hash, ABI version and driver directory. *)
Context (host_hash : Z) (DRV_ABI_VERSION : AbiVersion) (YADDNSC_DEFAULT_DRIVER_DIR : bytes).

(* @fn src/src/core/driver_manager.cpp | Signature *DriverModule::resolve_symbol( | DriverModule::resolve_symbol *)
Definition resolve_symbol {A} (sym : symbol A) (name : bytes) : outcome DriverError A :=
  match sym with
  | inl error => Throw (BadDriver (str "Failed to resolve symbol '" ++ name ++ str "' in driver: " ++ error))
  | inr None => Throw (BadDriver (str "Symbol '" ++ name ++ str "' resolved to null in driver"))
  | inr (Some a) => Ret a
  end.

(* @fn src/src/core/driver_manager.cpp | DriverModule::HandlePtr DriverModule::open_handle( | DriverModule::open_handle *)
Definition open_handle (path : bytes) : outcome DriverError Library :=
  match dlopen path with
  | inl error => Throw (BadDriver (str "Failed to load driver: " ++ error))
  | inr handle => Ret handle
  end.

(* @fn src/src/core/driver_manager.cpp | void DriverModule::verify_magic(const HandlePtr &handle, std::string_view driver_name) { | DriverModule::verify_magic *)
Definition verify_magic (handle : Library) (name : bytes) : outcome DriverError unit :=
  magic ← resolve_symbol (yaddnsc_drv_magic handle) (str "yaddnsc_drv_magic");
  throw_if (negb (magic =? YADDNSC_DRIVER_MAGIC)%Z)
    (BadDriver (str "Driver '" ++ name ++ str "' is not a valid yaddnsc driver (magic mismatch)")).

(* @fn src/src/core/driver_manager.cpp | void DriverModule::verify_compiler(const HandlePtr &handle, std::string_view driver_name) { | DriverModule::verify_compiler *)
Definition verify_compiler (handle : Library) (name : bytes) : outcome DriverError unit :=
  drv_hash ← resolve_symbol (yaddnsc_drv_compiler_id_hash handle) (str "yaddnsc_drv_compiler_id_hash");
  throw_if (negb (drv_hash =? host_hash)%Z)
    (BadDriver (str "Driver '" ++ name ++ str "' compiler identity mismatch: 0x" ++ hex16 drv_hash
       ++ str " != 0x" ++ hex16 host_hash
       ++ str ". Rebuild the driver with the same toolchain and flags as the host.")).

(* @fn src/src/core/driver_manager.cpp | DriverModule::DriverPtr DriverModule::create_driver( | DriverModule::create_driver *)
Definition create_driver (handle : Library) : outcome DriverError (option Driver) :=
  create_func ← resolve_symbol (create handle) (str "create");
  _ ← resolve_symbol (destroy handle) (str "destroy");
  Ret create_func.

(** The module holds the pointer that [create] returned. *)
(* @fn src/src/core/driver_manager.cpp | DriverModule::DriverModule(const std::string &path) ^0 | DriverModule::DriverModule *)
Definition DriverModule (path : bytes) : outcome DriverError (option Driver) :=
  handle ← open_handle path;
  let name := get_driver_name path in
  _ ← verify_magic handle name;
  _ ← verify_compiler handle name;
  create_driver handle.

(** ** The registry

    [driver_map_]; no null pointer gets into it, [register_driver] uses it first. *)
Abbreviation driver_map := (gmap bytes Driver).

(** The ABI version that a driver was built against is looked at first. *)
(* @src src/src/core/driver_manager.cpp 182 191 DriverManager::Impl::register_driver (ABI) *)
Definition check_abi (driver : Driver) (driver_lib_name : bytes) : outcome DriverError unit :=
  let got := get_abi_version driver in
  let required := DRV_ABI_VERSION in
  throw_if (negb (is_compatible_with got required))
    (BadDriver (str "Driver " ++ driver_lib_name ++ str " ABI " ++ dec (major got) ++ str "." ++ dec (minor got)
       ++ str "." ++ dec (patch got) ++ str " incompatible with host " ++ dec (major required) ++ str "."
       ++ dec (minor required) ++ str "." ++ dec (patch required) ++ str ": need major==" ++ dec (major required)
       ++ str ", minor>=" ++ dec (minor required) ++ str ", patch>=" ++ dec (patch required))).

(* @fn src/src/core/driver_manager.cpp | void DriverManager::Impl::register_driver(DriverModule driver_res, std::string_view driver_lib_name) { | DriverManager::Impl::register_driver *)
Definition register_driver (driver_res : option Driver) (driver_lib_name : bytes) (m : driver_map)
    : outcome DriverError driver_map :=
  driver ← deref driver_res;
  _ ← check_abi driver driver_lib_name;
  Ret (match m !! driver_name driver with
       | Some _ => m
       | None => <[driver_name driver := driver]> m
       end).

(* @fn src/src/core/driver_manager.cpp | void DriverManager::Impl::unload_driver(const std::string &name) { | DriverManager::Impl::unload_driver *)
Definition unload_driver (name : bytes) (m : driver_map) : outcome DriverError driver_map :=
  match m !! name with
  | None => Throw (DriverNotFound (str "Driver '" ++ name ++ str "' is not loaded, cannot unload"))
  | Some _ => Ret (delete name m)
  end.

(* @fn src/src/core/driver_manager.cpp | const Driver &DriverManager::get_driver( | DriverManager::get_driver *)
Definition get_driver (name : bytes) (m : driver_map) : outcome DriverError Driver :=
  match m !! name with
  | Some driver => Ret driver
  | None => Throw (DriverNotFound (str "Driver '" ++ name ++ str "' is not loaded"))
  end.

(** The order of [std::map]: [std::string] compares unsigned characters. *)
Fixpoint string_le (s t : bytes) : bool :=
  match s, t with
  | [], _ => true
  | _ :: _, [] => false
  | x :: s, y :: t => (x <? y)%Z || ((x =? y)%Z && string_le s t)
  end.

(* @fn src/src/core/driver_manager.cpp | std::vector<std::string_view> DriverManager::get_loaded_drivers() const { | DriverManager::get_loaded_drivers *)
Definition get_loaded_drivers (m : driver_map) : list bytes :=
  merge_sort string_le (map_to_list m).*1.

(* @fn src/src/core/driver_manager.cpp | void DriverManager::load_driver(const std::string &path) const { | DriverManager::load_driver *)
Definition load_driver (path : bytes) (m : driver_map) : outcome DriverError driver_map :=
  if negb (exists_file path) then
    Throw (BadDriver (str "Driver library '" ++ get_driver_name path ++ str "' not found at " ++ path))
  else
    res ← DriverModule path;
    register_driver res (get_driver_name path) m.

(** ** The loader *)

(* @fn src/src/core/driver_loader.cpp | std::filesystem::path resolve_driver_base( | resolve_driver_base *)
Definition resolve_driver_base (driver_dir : option bytes) : outcome DriverError bytes :=
  match driver_dir with
  | Some dir =>
      if bool_decide (dir = []) then Throw (InvalidArgument (str "driver_dir is set but empty in configuration"))
      else Ret dir
  | None => Ret YADDNSC_DEFAULT_DRIVER_DIR
  end.

(* @fn src/src/core/driver_loader.cpp | std::filesystem::path resolve_driver_path( | resolve_driver_path *)
Definition resolve_driver_path (base_dir driver : bytes) : bytes :=
  if is_relative driver then path_append base_dir driver else driver.

(** The loops of the two loaders; a driver that fails ends the loop. *)
(* @fn src/src/core/driver_loader.cpp | for (const auto &driver: load) { | load_manual (loop) *)
Fixpoint load_all (paths : list bytes) (m : driver_map) : outcome DriverError driver_map :=
  match paths with
  | [] => Ret m
  | path :: rest => m ← load_driver path m; load_all rest m
  end.

(* @fn src/src/core/driver_loader.cpp | void load_auto_discover(DriverManager &driver_manager, const Config::AppConfig &config) { | load_auto_discover *)
Definition load_auto_discover (cfg : DriverConfig) (m : driver_map) : outcome DriverError driver_map :=
  base_dir ← resolve_driver_base (driver_dir cfg);
  if negb (exists_file base_dir) then Ret m
  else if negb (is_directory base_dir) then Ret m
  else load_all (filter (λ p, extension p = str ".so") (filter (λ e, e.2 = true) (directory base_dir)).*1) m.

(* @fn src/src/core/driver_loader.cpp | void load_manual(DriverManager &driver_manager, const Config::AppConfig &config) { | load_manual *)
Definition load_manual (cfg : DriverConfig) (m : driver_map) : outcome DriverError driver_map :=
  let load := (dedupe (load cfg)).1 in
  base_dir ← resolve_driver_base (driver_dir cfg);
  load_all (resolve_driver_path base_dir <$> load) m.

(* @fn src/src/core/driver_loader.cpp | void DriverLoader::load(DriverManager &driver_manager, const Config::AppConfig &config) { | DriverLoader::load *)
Definition load_drivers (cfg : AppConfig generic) (m : driver_map) : outcome DriverError driver_map :=
  if auto_discover (app_driver cfg) then load_auto_discover (app_driver cfg) m
  else load_manual (app_driver cfg) m.
End drivers.
Arguments Driver : clear implicits.
Arguments Library : clear implicits.

(** * Properties *)

Section drivers_proofs.
Context {generic W : Type}.
Context (dlopen : bytes → bytes + Library W) (exists_file is_directory : bytes → bool).
Context (directory : bytes → list (bytes * bool)).
Context (host_hash : Z) (abi : AbiVersion) (default_dir : bytes).
Implicit Types (m : gmap bytes (Driver W)) (d : Driver W).

(** The driver that a file holds, if the file is accepted. *)
Definition provides (path : bytes) d : Prop :=
  exists_file path = true ∧ is_compatible_with (get_abi_version d) abi = true
  ∧ ∃ lib, dlopen path = inr lib
    ∧ yaddnsc_drv_magic lib = inr (Some YADDNSC_DRIVER_MAGIC)
    ∧ yaddnsc_drv_compiler_id_hash lib = inr (Some host_hash)
    ∧ create lib = inr (Some (Some d)) ∧ destroy lib = inr (Some tt).

(** [m'] is [m] with the drivers of some of the files: those that were there
    stay, and a name is taken by the first file that has it. *)
Inductive loads : list bytes → gmap bytes (Driver W) → gmap bytes (Driver W) → Prop :=
| loads_nil m : loads [] m m
| loads_new path d paths m m' :
    provides path d → m !! driver_name d = None →
    loads paths (<[driver_name d := d]> m) m' → loads (path :: paths) m m'
| loads_again path d paths m m' :
    provides path d → is_Some (m !! driver_name d) →
    loads paths m m' → loads (path :: paths) m m'.

Definition load_error (e : DriverError) : Prop :=
  match e with BadDriver _ | InvalidArgument _ => True | DriverNotFound _ => False end.

(** No library's [create] returns a null pointer. *)
Context (create_nonnull : ∀ path lib, dlopen path = inr lib → create lib ≠ inr (Some None)).

Lemma wp_resolve_symbol {A} (sym : symbol A) name :
  wp (resolve_symbol sym name) (λ a, sym = inr (Some a)) load_error.
Proof. by destruct sym as [e|[a|]]. Qed.

Lemma verify_magic_ok (lib : Library W) name :
  wp (verify_magic lib name) (λ _, yaddnsc_drv_magic lib = inr (Some YADDNSC_DRIVER_MAGIC)) load_error.
Proof.
  unfold verify_magic. eapply wp_call; [apply wp_resolve_symbol|]. intros magic _ Hm.
  apply wp_throw_if; [done|]. intros Hb. prop_of_bool. by rewrite <- Hb.
Qed.

Lemma verify_compiler_ok (lib : Library W) name :
  wp (verify_compiler host_hash lib name) (λ _, yaddnsc_drv_compiler_id_hash lib = inr (Some host_hash)) load_error.
Proof.
  unfold verify_compiler. eapply wp_call; [apply wp_resolve_symbol|]. intros hash _ Hh.
  apply wp_throw_if; [done|]. intros Hb. prop_of_bool. by rewrite <- Hb.
Qed.

Lemma DriverModule_ok path :
  wp (DriverModule dlopen host_hash path)
    (λ res, ∃ d lib, res = Some d ∧ dlopen path = inr lib
       ∧ yaddnsc_drv_magic lib = inr (Some YADDNSC_DRIVER_MAGIC)
       ∧ yaddnsc_drv_compiler_id_hash lib = inr (Some host_hash)
       ∧ create lib = inr (Some (Some d)) ∧ destroy lib = inr (Some tt)) load_error.
Proof.
  unfold DriverModule, open_handle. destruct (dlopen path) as [e|lib] eqn:Hl; [done|].
  apply (wp_call (Ret lib) _ (λ x, x = lib)); [done|]. intros ? _ ->.
  eapply wp_call; [apply verify_magic_ok|]. intros ? _ Hm.
  eapply wp_call; [apply verify_compiler_ok|]. intros ? _ Hh. unfold create_driver.
  eapply wp_call; [apply wp_resolve_symbol|]. intros [d|] _ Hc; [|by destruct (create_nonnull path lib)].
  eapply wp_call; [apply wp_resolve_symbol|]. intros [] _ Hd. simpl. by exists d, lib.
Qed.

Lemma load_driver_ok path m :
  wp (load_driver dlopen exists_file host_hash abi path m)
    (λ m', ∃ d, provides path d ∧ m' = match m !! driver_name d with
                                       | Some _ => m | None => <[driver_name d := d]> m end)
    load_error.
Proof.
  unfold load_driver. destruct (exists_file path) eqn:He; simpl; [|done].
  eapply wp_call; [apply DriverModule_ok|]. intros ? _ (d & lib & -> & Hlib).
  unfold register_driver, check_abi. apply (wp_call (Ret d) _ (λ x, x = d)); [done|]. intros ? _ ->.
  apply wp_throw_if_bind; [done|intros Habi]. prop_of_bool. exists d. split; [|done].
  split; [done|split; [done|]]. by exists lib.
Qed.

Lemma load_all_ok paths m :
  wp (load_all dlopen exists_file host_hash abi paths m) (loads paths m) load_error.
Proof.
  revert m. induction paths as [|path paths IH]; intros m; simpl; [constructor|].
  eapply wp_call; [apply load_driver_ok|]. intros m1 _ (d & Hp & ->).
  eapply wp_mono; [apply IH|..|done]. intros m' Hm'.
  destruct (m !! driver_name d) eqn:Hd; [by eapply loads_again|by eapply loads_new].
Qed.

(** A file-by-file reading of what a load leaves. *)
Lemma loads_lookup paths m m' name d :
  loads paths m m' → m' !! name = Some d →
  m !! name = Some d ∨ (m !! name = None ∧ driver_name d = name ∧ ∃ path, path ∈ paths ∧ provides path d).
Proof.
  induction 1 as [m|path d1 paths m m' Hp Hn Hl IH|path d1 paths m m' Hp Hs Hl IH]; intros Hd; [by left|..].
  - specialize (IH Hd). destruct (decide (driver_name d1 = name)) as [<-|Hne].
    + rewrite lookup_insert_eq in IH. right. destruct IH as [[= ->]|[? _]]; [|done]. split_and!; [done..|].
      exists path. split; [left|done].
    + rewrite lookup_insert_ne in IH by done. destruct IH as [?|(? & ? & q & ? & ?)]; [by left|right].
      split_and!; [done..|]. exists q. split; [by right|done].
  - destruct (IH Hd) as [?|(? & ? & q & ? & ?)]; [by left|right]. split_and!; [done..|].
    exists q. split; [by right|done].
Qed.

Lemma loads_mono paths m m' name d : loads paths m m' → m !! name = Some d → m' !! name = Some d.
Proof.
  induction 1 as [m|path d1 paths m m' Hp Hn Hl IH|path d1 paths m m' Hp Hs Hl IH]; intros Hd; [done| |auto].
  apply IH. rewrite lookup_insert_ne; [done|]. intros Heq. rewrite Heq in Hn. congruence.
Qed.

(** Every file's driver is there, or its name was taken. *)
Lemma loads_complete paths m m' path :
  loads paths m m' → path ∈ paths → ∃ d d', provides path d ∧ m' !! driver_name d = Some d'.
Proof.
  induction 1 as [m|q d1 paths m m' Hp Hn Hl IH|q d1 paths m m' Hp [d2 Hs] Hl IH]; intros Hin.
  - by apply elem_of_nil in Hin.
  - apply elem_of_cons in Hin as [->|Hin]; [|auto]. exists d1, d1. split; [done|].
    eapply loads_mono; [exact Hl|]. apply lookup_insert_eq.
  - apply elem_of_cons in Hin as [->|Hin]; [|auto]. exists d1, d2. split; [done|].
    by eapply loads_mono.
Qed.

Lemma string_le_total s t : string_le s t = true ∨ string_le t s = true.
Proof.
  revert t. induction s as [|x s IH]; intros [|y t]; simpl; [auto..|].
  destruct (Z.lt_trichotomy x y) as [Hx|[->|Hx]].
  - left. by rewrite (proj2 (Z.ltb_lt _ _) Hx).
  - rewrite Z.eqb_refl, Z.ltb_irrefl. apply IH.
  - right. by rewrite (proj2 (Z.ltb_lt _ _) Hx).
Qed.

Lemma get_loaded_drivers_elem m name : name ∈ get_loaded_drivers m ↔ is_Some (m !! name).
Proof.
  unfold get_loaded_drivers. rewrite merge_sort_Permutation, list_elem_of_fmap. split.
  - intros ([n d] & -> & Hin). apply elem_of_map_to_list in Hin. by exists d.
  - intros [d Hd]. exists (name, d). split; [done|]. by apply elem_of_map_to_list.
Qed.

Lemma resolve_driver_base_ok dir :
  wp (resolve_driver_base default_dir dir) (λ base, base = default default_dir dir) load_error.
Proof. destruct dir as [dir|]; simpl; [|done]. by case_bool_decide. Qed.

(** The files that a configuration names. *)
Definition files (cfg : AppConfig generic) (base_dir : bytes) : list bytes :=
  let c := app_driver cfg in
  if auto_discover c then
    if exists_file base_dir && is_directory base_dir
    then filter (λ p, extension p = str ".so") (filter (λ e, e.2 = true) (directory base_dir)).*1 else []
  else resolve_driver_path base_dir <$> (dedupe (load c)).1.

Lemma load_drivers_ok (cfg : AppConfig generic) m :
  wp (load_drivers dlopen exists_file is_directory directory host_hash abi default_dir cfg m)
    (loads (files cfg (default default_dir (driver_dir (app_driver cfg)))) m) load_error.
Proof.
  unfold load_drivers, load_auto_discover, load_manual, files. destruct (auto_discover _).
  - eapply wp_call; [apply resolve_driver_base_ok|]. intros ? _ ->.
    destruct (exists_file _); simpl; [|constructor]. destruct (is_directory _); simpl; [|constructor].
    apply load_all_ok.
  - eapply wp_call; [apply resolve_driver_base_ok|]. intros ? _ ->. apply load_all_ok.
Qed.

(** Loading either throws ([BadDriverException], or [std::invalid_argument]
    for an empty directory setting) or leaves exactly the drivers of the
    configured files: each was accepted (magic number, compiler hash, version,
    both factory functions), is found under its own name, the first file wins a
    name, the drivers that were loaded before stay, and no file is skipped. *)
Theorem load_drivers_spec (cfg : AppConfig generic) m :
  wp (load_drivers dlopen exists_file is_directory directory host_hash abi default_dir cfg m)
    (λ m', ∃ base_dir,
       base_dir = default default_dir (driver_dir (app_driver cfg)) ∧ loads (files cfg base_dir) m m'
       ∧ (∀ name d, m' !! name = Some d → m !! name = Some d
            ∨ driver_name d = name ∧ ∃ path, path ∈ files cfg base_dir ∧ provides path d)
       ∧ (∀ path, path ∈ files cfg base_dir → ∃ d, provides path d ∧ driver_name d ∈ get_loaded_drivers m'))
    load_error.
Proof.
  eapply wp_mono; [apply load_drivers_ok| |done].
  intros m' Hl. eexists. split; [reflexivity|]. split; [exact Hl|]. split.
  - intros name d Hd. destruct (loads_lookup _ _ _ _ _ Hl Hd) as [?|(_ & ? & ?)]; auto.
  - intros path Hin. destruct (loads_complete _ _ _ _ Hl Hin) as (d & d' & Hp & Hd).
    exists d. split; [done|]. apply get_loaded_drivers_elem. by eexists.
Qed.
End drivers_proofs.

(** ** An example *)

Definition sample_abi : AbiVersion := {| major := 1; minor := 0; patch := 0 |}.

Definition sample_driver : Driver unit := {|
  get_abi_version := {| major := 1; minor := 2; patch := 0 |};
  driver_name := str "simple";
  execute := λ _ _, mret true
|}.

Definition sample_library : Library unit := {|
  yaddnsc_drv_magic := inr (Some YADDNSC_DRIVER_MAGIC);
  yaddnsc_drv_compiler_id_hash := inr (Some 7%Z);
  create := inr (Some (Some sample_driver));
  destroy := inr (Some tt)
|}.

Definition sample_dlopen (path : bytes) : bytes + Library unit :=
  if bool_decide (path = str "/lib/yaddnsc/simple") then inr sample_library else inl (str "no such file").

Lemma sample_create_nonnull path lib : sample_dlopen path = inr lib → create lib ≠ inr (Some None).
Proof. unfold sample_dlopen. case_bool_decide; [|done]. by intros [= <-]. Qed.

Lemma load_drivers_spec_witness :
  ∃ m', load_drivers sample_dlopen (λ _, true) (λ _, true) (λ _, []) 7 sample_abi (str "/lib/yaddnsc")
          sample_config ∅ = Ret m'
    ∧ (∃ d, provides sample_dlopen (λ _, true) 7 sample_abi (str "/lib/yaddnsc/simple") d
            ∧ driver_name d ∈ get_loaded_drivers m')
    ∧ get_driver (str "simple") m' = Ret sample_driver.
Proof.
  pose proof (load_drivers_spec (generic:=unit) sample_dlopen (λ _, true) (λ _, true) (λ _, []) 7 sample_abi
    (str "/lib/yaddnsc") sample_create_nonnull sample_config ∅) as Hspec.
  destruct (load_drivers _ _ _ _ _ _ _ sample_config ∅) as [m'|e| |] eqn:Hm; [|by vm_compute in Hm..].
  destruct Hspec as (base & -> & Hl & _ & Hall). exists m'. split; [done|]. split.
  - apply Hall. apply (bool_decide_unpack _). vm_compute. exact I.
  - vm_compute in Hm. injection Hm as <-. vm_compute. reflexivity.
Defined.
