(* ===== verification/DriverLifetime.v ===== *)
(** The lifetime of plugins in [src/core/driver_manager.cpp]: shared libraries are
    counted by the dynamic loader, drivers are objects whose code is in a
    library, and [DriverModule] owns one of each.  Drivers.v is this model with
    the libraries and objects forgotten. *)
From S2P Require Import Prelude CppString Address Uri Config Io Updater Drivers.
From stdpp Require Import gmap.

Module Lifetime.
Section lifetime.
Context {W : Type}.

(** What [dlopen] finds at a path: its error, or a library, which is the same for
    two paths of the same file, with its symbols. *)
Context (library_of : bytes → bytes + (Z * Library W)).
Context (exists_file : bytes → bool) (host_hash : Z) (abi : AbiVersion).

(** Both pointers are null once the module has been moved from; [destroy_] is the
    library's own [destroy]. *)
(* @src src/src/core/driver_manager.cpp 49 80 DriverModule (members) *)
Record DriverModule := { handle_ : option Z; driver_ : option Z }.

(** How often each library is open, the drivers that are alive, each with its
    library, and the registry. *)
(* @fn src/src/core/driver_manager.cpp | std::map<std::string, DriverModule> driver_map_; | DriverManager::Impl (members) *)
Record process := {
  refs : Z → nat;
  objects : gmap Z (Z * Driver W);
  driver_map_ : gmap bytes DriverModule
}.

Abbreviation io := (st process DriverError).

Definition set_refs (h : Z) (n : nat) (s : process) : process :=
  {| refs := λ h', if bool_decide (h' = h) then n else refs s h'; objects := objects s; driver_map_ := driver_map_ s |}.
Definition set_objects (o : gmap Z (Z * Driver W)) (s : process) : process :=
  {| refs := refs s; objects := o; driver_map_ := driver_map_ s |}.
Definition set_driver_map (m : gmap bytes DriverModule) (s : process) : process :=
  {| refs := refs s; objects := objects s; driver_map_ := m |}.

(** Code of a library that is not open must not be called. *)
Definition in_library {A} (h : Z) (m : io A) : io A := λ s,
  if refs s h =? 0 then (Undef, s) else m s.

(* @fn src/src/core/driver_manager.cpp | static constexpr void operator()(void *ptr) noexcept { | DriverModule::HandleCloser::operator() *)
Definition dlclose (handle : option Z) : io unit := λ s,
  match handle with
  | None => (Ret tt, s)
  | Some h => match refs s h with O => (Undef, s) | S n => (Ret tt, set_refs h n s) end
  end.

(** The library's [destroy], through the deleter; a dead object is not deleted. *)
(* @fn src/src/core/driver_manager.cpp | void operator()(Driver *p) const noexcept { | DriverModule::DriverDeleter::operator() *)
Definition delete_driver (driver : option Z) : io unit := λ s,
  match driver with
  | None => (Ret tt, s)
  | Some p =>
      match objects s !! p with
      | Some (h, _) => in_library h (modify (set_objects (delete p (objects s)))) s
      | None => (Undef, s)
      end
  end.

(** A virtual call. *)
Definition call_driver (p : Z) : io (Driver W) := λ s,
  match objects s !! p with
  | Some (h, d) => in_library h (mret d) s
  | None => (Undef, s)
  end.

(* @fn src/src/core/driver_manager.cpp | DriverModule::HandlePtr DriverModule::open_handle( | DriverModule::open_handle *)
Definition open_handle (path : bytes) : io (Z * Library W) :=
  match library_of path with
  | inl error => throw (BadDriver (str "Failed to load driver: " ++ error))
  | inr (h, lib) => _ ← modify (λ s, set_refs h (S (refs s h)) s); mret (h, lib)
  end.

(** [create] makes an object at an address that is not in use. *)
(* @fn src/src/core/driver_manager.cpp | DriverModule::DriverPtr DriverModule::create_driver( | DriverModule::create_driver *)
Definition create_driver (handle : Z) (lib : Library W) : io (option Z) :=
  create_func ← in_library handle (lift (resolve_symbol (create lib) (str "create")));
  _ ← in_library handle (lift (resolve_symbol (destroy lib) (str "destroy")));
  match create_func with
  | None => mret None
  | Some d =>
      p ← gets (λ s, fresh (dom (objects s)));
      _ ← modify (λ s, set_objects (<[p := (handle, d)]> (objects s)) s);
      mret (Some p)
  end.

(** An exception closes the handle, a member that has been made. *)
(* @fn src/src/core/driver_manager.cpp | DriverModule::DriverModule(const std::string &path) ^0 | DriverModule::DriverModule *)
Definition construct (path : bytes) : io DriverModule :=
  opened ← open_handle path;
  let '(handle, lib) := opened in
  let name := get_driver_name path in
  driver ← attempt (
    _ ← in_library handle (lift (verify_magic lib name));
    _ ← in_library handle (lift (verify_compiler host_hash lib name));
    create_driver handle lib);
  match driver with
  | inl e => _ ← dlclose (Some handle); throw e
  | inr p => mret {| handle_ := Some handle; driver_ := p |}
  end.

(** The members are destroyed in the reverse of their order. *)
(* @fn src/src/core/driver_manager.cpp | ~DriverModule() = default; | DriverModule::~DriverModule *)
Definition destruct (m : DriverModule) : io unit :=
  _ ← delete_driver (driver_ m);
  dlclose (handle_ m).

(** Memberwise, in their order; [other] is left with null pointers. *)
(* @fn src/src/core/driver_manager.cpp | DriverModule &operator=(DriverModule &&) = default; | DriverModule::operator=(DriverModule &&) *)
Definition move_assign (m other : DriverModule) : io DriverModule :=
  _ ← dlclose (handle_ m);
  _ ← delete_driver (driver_ m);
  mret other.

(** The parameter is destroyed on every way out, unless the map holds it now; if
    the name is taken, that is in [emplace]'s node or at the end of the body. *)
(* @fn src/src/core/driver_manager.cpp | void DriverManager::Impl::register_driver(DriverModule driver_res, std::string_view driver_lib_name) { | DriverManager::Impl::register_driver *)
Definition register_driver (driver_res : DriverModule) (driver_lib_name : bytes) : io unit :=
  p ← lift (deref (driver_ driver_res));
  driver ← call_driver p;
  checked ← attempt (lift (check_abi abi driver driver_lib_name));
  match checked with
  | inl e => _ ← destruct driver_res; throw e
  | inr _ =>
      registry ← gets driver_map_;
      match registry !! driver_name driver with
      | Some _ => destruct driver_res
      | None => modify (set_driver_map (<[driver_name driver := driver_res]> registry))
      end
  end.

(* @fn src/src/core/driver_manager.cpp | void DriverManager::load_driver(const std::string &path) const { | DriverManager::load_driver *)
Definition load_driver (path : bytes) : io unit :=
  if negb (exists_file path) then
    throw (BadDriver (str "Driver library '" ++ get_driver_name path ++ str "' not found at " ++ path))
  else
    driver_res ← construct path;
    register_driver driver_res (get_driver_name path).

(* @fn src/src/core/driver_manager.cpp | void DriverManager::Impl::unload_driver(const std::string &name) { | DriverManager::Impl::unload_driver *)
Definition unload_driver (name : bytes) : io unit :=
  registry ← gets driver_map_;
  match registry !! name with
  | None => throw (DriverNotFound (str "Driver '" ++ name ++ str "' is not loaded, cannot unload"))
  | Some m =>
      _ ← modify (set_driver_map (delete name registry));
      destruct m
  end.

(* @fn src/src/core/driver_manager.cpp | const Driver &DriverManager::get_driver( | DriverManager::get_driver *)
Definition get_driver (name : bytes) : io (Driver W) :=
  registry ← gets driver_map_;
  match registry !! name with
  | Some m => p ← lift (deref (driver_ m)); call_driver p
  | None => throw (DriverNotFound (str "Driver '" ++ name ++ str "' is not loaded"))
  end.

(** The loaders' loop. *)
Fixpoint load_all (paths : list bytes) : io unit :=
  match paths with
  | [] => mret tt
  | path :: paths => _ ← load_driver path; load_all paths
  end.

Fixpoint destruct_all (ms : list DriverModule) : io unit :=
  match ms with
  | [] => mret tt
  | m :: ms => _ ← destruct m; destruct_all ms
  end.

(** The map is destroyed with its modules. *)
(* @fn src/src/core/driver_manager.cpp | ~Impl() = default; | DriverManager::Impl::~Impl *)
Definition destroy_manager : io unit :=
  registry ← gets driver_map_;
  _ ← modify (set_driver_map ∅);
  destruct_all (map_to_list registry).*2.

(** A caller's history, which may go on after an exception. *)
Inductive operation := Load (path : bytes) | Unload (name : bytes) | Get (name : bytes).

Definition perform (o : operation) : io (option (Driver W)) :=
  match o with
  | Load path => _ ← load_driver path; mret None
  | Unload name => _ ← unload_driver name; mret None
  | Get name => d ← get_driver name; mret (Some d)
  end.

Fixpoint history (os : list operation) : io (list (DriverError + option (Driver W))) :=
  match os with
  | [] => mret []
  | o :: os => r ← attempt (perform o); rs ← history os; mret (r :: rs)
  end.
End lifetime.
Arguments process : clear implicits.
End Lifetime.
Import Lifetime.

(** * Owning modules *)

Section ownership.
Context {W : Type} (library_of : bytes → bytes + (Z * Library W)).
Context (exists_file : bytes → bool) (host_hash : Z) (abi : AbiVersion).
Implicit Types (s : process W) (ms : list DriverModule) (m : DriverModule).

(** The library as Drivers.v sees it. *)
Definition dlopen (path : bytes) : bytes + Library W :=
  match library_of path with inl error => inl error | inr (_, lib) => inr lib end.

Context (create_nonnull : ∀ path lib, dlopen path = inr lib → create lib ≠ inr (Some None)).

(** How many of the modules hold a library. *)
Definition holders (h : Z) ms : nat := length (filter (λ m, handle_ m = Some h) ms).

(** The modules [ms] own everything there is: each holds a library and a driver
    of that library, no two the same driver; every open library is counted for
    the modules that hold it, and every driver is some module's. *)
Record owned ms s : Prop := {
  owned_refs h : refs s h = holders h ms;
  owned_whole m : m ∈ ms → ∃ h p d, m = {| handle_ := Some h; driver_ := Some p |} ∧ objects s !! p = Some (h, d);
  owned_once : NoDup (driver_ <$> ms);
  owned_objects p : is_Some (objects s !! p) → Some p ∈ driver_ <$> ms
}.

#[global] Instance holders_proper h : Proper ((≡ₚ) ==> (=)) (holders h).
Proof. intros ms ms' Hp. unfold holders. by rewrite Hp. Qed.

Lemma holders_cons h m ms : holders h (m :: ms) = (if decide (handle_ m = Some h) then 1 else 0) + holders h ms.
Proof. unfold holders. rewrite filter_cons. by case_decide. Qed.

Lemma owned_perm ms ms' s : ms ≡ₚ ms' → owned ms s → owned ms' s.
Proof.
  intros Hp [Hr Hw Ho Hobj]. split.
  - intros h. by rewrite <- Hp.
  - intros m Hm. apply Hw. by rewrite Hp.
  - by rewrite <- Hp.
  - intros p Hx. rewrite <- Hp. by apply Hobj.
Qed.

(** ** Destroying one *)

Lemma destruct_ok m ms s :
  owned (m :: ms) s →
  swp (destruct m) (λ _ s', owned ms s' ∧ driver_map_ s' = driver_map_ s
    ∧ ∀ p, Some p ≠ driver_ m → objects s' !! p = objects s !! p) (λ _ _, False) s.
Proof.
  intros [Hr Hw Ho Hobj]. destruct (Hw m) as (h & p & d & -> & Hp); [by left|].
  unfold destruct. cbn [handle_ driver_] in *.
  assert (refs s h = S (holders h ms)) as Hh by (rewrite Hr, holders_cons; cbn [handle_]; by rewrite decide_True).
  apply NoDup_cons in Ho as [Hnew Hnd].
  apply swp_bind. unfold swp at 1, delete_driver. rewrite Hp. unfold in_library. rewrite Hh.
  cbn [Nat.eqb modify fst snd wp]. unfold swp, dlclose. cbn [refs set_objects]. rewrite Hh. cbn [fst snd wp].
  split; [|split; [done|intros p' Hp'; simpl; apply lookup_delete_ne; congruence]].
  split; simpl.
  - intros h'. case_bool_decide as Hc; [by rewrite Hc|]. rewrite Hr, holders_cons. cbn [handle_].
    rewrite decide_False by congruence. done.
  - intros m' Hm'. destruct (Hw m') as (h' & p' & d' & -> & Hp'); [by right|]. exists h', p', d'. split; [done|].
    rewrite lookup_delete_ne; [done|]. intros <-. apply Hnew. apply list_elem_of_fmap. eexists. split; [|exact Hm']. done.
  - done.
  - intros p' [x Hx]. apply lookup_delete_Some in Hx as [Hne Hx].
    specialize (Hobj p' ltac:(by eexists)). apply elem_of_cons in Hobj as [Heq|?]; [simpl in Heq; congruence|done].
Qed.

(** ** Making one *)

Lemma swp_in_library {A} h (m : outcome DriverError A) (Q : A → process W → Prop) T s :
  refs s h ≠ 0 → wp m (λ a, Q a s) (λ e, T e s) → swp (in_library h (lift m)) Q T s.
Proof. intros Hh Hm. unfold swp, in_library. by rewrite (proj2 (Nat.eqb_neq _ _) Hh). Qed.

(** What Drivers.v makes of an open library. *)
Definition verified (lib : Library W) (name : bytes) : outcome DriverError (option (Driver W)) :=
  _ ← verify_magic lib name; _ ← verify_compiler host_hash lib name; Drivers.create_driver lib.

Lemma verified_ok h lib name s :
  refs s h ≠ 0 → create lib ≠ inr (Some None) →
  swp (_ ← in_library h (lift (verify_magic lib name)); _ ← in_library h (lift (verify_compiler host_hash lib name));
       create_driver h lib)
    (λ q s', ∃ p d, q = Some p ∧ objects s !! p = None ∧ s' = set_objects (<[p := (h, d)]> (objects s)) s
       ∧ verified lib name = Ret (Some d))
    (λ e s', s' = s ∧ verified lib name = Throw e) s.
Proof.
  intros Hh Hnull. unfold verified. apply swp_bind, swp_in_library; [done|].
  pose proof (verify_magic_ok lib name) as Hm. destruct (verify_magic lib name) as [[]|e| |]; [|done..].
  apply swp_bind, swp_in_library; [done|].
  pose proof (verify_compiler_ok host_hash lib name) as Hc.
  destruct (verify_compiler host_hash lib name) as [[]|e| |]; [|done..]. cbn [wp mbind outcome_bind].
  unfold create_driver, Drivers.create_driver. apply swp_bind, swp_in_library; [done|].
  destruct (create lib) as [error|[[d|]|]]; [done| |done|done]. cbn [resolve_symbol wp mbind outcome_bind].
  apply swp_bind, swp_in_library; [done|]. destruct (destroy lib) as [error|[[]|]]; [done| |done].
  cbn [resolve_symbol wp mbind outcome_bind]. apply swp_bind, swp_gets, swp_bind, swp_modify, swp_ret.
  eexists _, d. split; [done|]. split; [|done]. apply not_elem_of_dom, is_fresh.
Qed.

(** Drivers.v's module for a path: what [construct] finds in the library. *)
Abbreviation found path := (Drivers.DriverModule dlopen host_hash path).

Lemma module_construct_ok ms s path :
  owned ms s →
  swp (construct library_of host_hash path)
    (λ m s', ∃ h p d, m = {| handle_ := Some h; driver_ := Some p |} ∧ owned (m :: ms) s' ∧ driver_map_ s' = driver_map_ s
       ∧ objects s !! p = None ∧ objects s' = <[p := (h, d)]> (objects s) ∧ found path = Ret (Some d))
    (λ e s', owned ms s' ∧ driver_map_ s' = driver_map_ s ∧ objects s' = objects s ∧ found path = Throw e) s.
Proof using create_nonnull.
  intros [Hr Hw Ho Hobj]. unfold construct, open_handle, Drivers.DriverModule, Drivers.open_handle.
  pose proof (create_nonnull path) as Hnull. unfold dlopen in *.
  destruct (library_of path) as [error|[h lib]]; [by apply swp_bind, swp_throw|]. specialize (Hnull lib eq_refl).
  cbn [mbind outcome_bind]. do 2 apply swp_bind. apply swp_modify, swp_ret.
  set (s1 := set_refs h (S (refs s h)) s).
  assert (refs s1 h = S (holders h ms)) as Hs1 by (simpl; rewrite bool_decide_true by done; by rewrite Hr).
  (* an exception closes the handle again *)
  assert (∀ A e (Q : A → process W → Prop) T, T e (set_refs h (holders h ms) s1) →
    swp (_ ← dlclose (Some h); throw e) Q T s1) as Hthrow.
  { intros A e Q T HT. apply swp_bind. unfold swp at 1, dlclose. rewrite Hs1. exact HT. }
  assert (owned ms (set_refs h (holders h ms) s1)) as Hback.
  { split; simpl; [|done..]. intros h'. case_bool_decide as Hc; [by rewrite Hc|]. apply Hr. }
  eapply (swp_attempt_bind _ _
    (λ q s2, ∃ p d, q = Some p ∧ objects s !! p = None ∧ s2 = set_objects (<[p := (h, d)]> (objects s)) s1
       ∧ verified lib (get_driver_name path) = Ret (Some d))
    (λ e s2, s2 = s1 ∧ verified lib (get_driver_name path) = Throw e)).
  - apply (verified_ok h lib _ s1); [by rewrite Hs1|done].
  - intros q s2 (p & d & -> & Hp & -> & Hv). apply swp_ret. exists h, p, d. split_and!; try done.
    split; simpl.
    + intros h'. rewrite holders_cons. cbn [handle_]. case_bool_decide as Hc.
      * subst h'. rewrite decide_True by done. by rewrite Hr.
      * rewrite decide_False by congruence. apply Hr.
    + intros m [->|Hm]%elem_of_cons; [exists h, p, d; split; [done|apply lookup_insert_eq]|].
      destruct (Hw m Hm) as (h' & p' & d' & -> & Hp'). exists h', p', d'. split; [done|].
      rewrite lookup_insert_ne; [done|congruence].
    + apply NoDup_cons. split; [|done]. intros (m & Hpm & Hm)%list_elem_of_fmap.
      destruct (Hw m Hm) as (h' & p' & d' & -> & Hp'). simpl in Hpm. congruence.
    + intros p' [x Hx]. destruct (decide (p' = p)) as [->|Hne]; [left|right].
      rewrite lookup_insert_ne in Hx by done. apply Hobj. by eexists.
  - intros e s2 [-> Hv]. apply Hthrow. by split_and!.
Qed.

(** ** The registry *)

(** The registry's modules own everything. *)
Definition consistent s : Prop := owned (map_to_list (driver_map_ s)).*2 s.

(** Drivers.v's registry: each name's driver. *)
Definition driver_of s m : option (Driver W) := p ← driver_ m; snd <$> objects s !! p.
Definition erase s : gmap bytes (Driver W) := omap (driver_of s) (driver_map_ s).

Lemma lookup_erase s name : erase s !! name = driver_map_ s !! name ≫= driver_of s.
Proof. apply lookup_omap. Qed.

Lemma registered s name m : driver_map_ s !! name = Some m → m ∈ (map_to_list (driver_map_ s)).*2.
Proof. intros Hm. apply list_elem_of_fmap. exists (name, m). split; [done|]. by apply elem_of_map_to_list. Qed.

Lemma consistent_lookup s name m :
  consistent s → driver_map_ s !! name = Some m →
  ∃ h p d, m = {| handle_ := Some h; driver_ := Some p |} ∧ objects s !! p = Some (h, d) ∧ refs s h ≠ 0
    ∧ erase s !! name = Some d.
Proof.
  intros [Hr Hw Ho Hobj] Hm. apply registered in Hm as Hin. destruct (Hw m Hin) as (h & p & d & -> & Hp).
  exists h, p, d. split_and!; [done..| |].
  - rewrite Hr. unfold holders. intros Hl%length_zero_iff_nil.
    eapply elem_of_nil. rewrite <- Hl. apply list_elem_of_filter. split; [|exact Hin]. done.
  - rewrite lookup_erase, Hm. unfold driver_of. simpl. by rewrite Hp.
Qed.

Lemma erase_None s name : consistent s → driver_map_ s !! name = None ↔ erase s !! name = None.
Proof.
  intros Hc. rewrite lookup_erase. destruct (driver_map_ s !! name) as [m|] eqn:Hm; [|done].
  destruct (consistent_lookup s name m Hc Hm) as (h & p & d & -> & Hp & _). unfold driver_of. simpl. by rewrite Hp.
Qed.

(** Registering a module, and taking one out, are what they are in Drivers.v. *)
Lemma erase_insert s s' name h p d :
  consistent s → driver_map_ s' = <[name := {| handle_ := Some h; driver_ := Some p |}]> (driver_map_ s) →
  objects s' !! p = Some (h, d) → (∀ q, is_Some (objects s !! q) → objects s' !! q = objects s !! q) →
  erase s' = <[name := d]> (erase s).
Proof.
  intros Hc Hmap Hp Hsame. apply map_eq. intros n. rewrite lookup_erase, Hmap.
  destruct (decide (n = name)) as [->|Hn].
  - rewrite !lookup_insert_eq. unfold driver_of. simpl. by rewrite Hp.
  - rewrite !lookup_insert_ne, lookup_erase by done. destruct (driver_map_ s !! n) as [m|] eqn:Hm; [|done].
    destruct (consistent_lookup s n m Hc Hm) as (h' & p' & d' & -> & Hp' & _).
    unfold driver_of. simpl. by rewrite Hsame by by eexists.
Qed.

Lemma erase_delete s s' name m :
  consistent s → driver_map_ s !! name = Some m → driver_map_ s' = delete name (driver_map_ s) →
  (∀ p, Some p ≠ driver_ m → objects s' !! p = objects s !! p) →
  erase s' = delete name (erase s).
Proof.
  intros Hc Hm Hmap Hsame. apply map_eq. intros n. rewrite lookup_erase, Hmap.
  destruct (decide (n = name)) as [->|Hn]; [by rewrite !lookup_delete_eq|].
  rewrite !lookup_delete_ne, lookup_erase by done. destruct (driver_map_ s !! n) as [m'|] eqn:Hm'; [|done].
  destruct (consistent_lookup s n m' Hc Hm') as (h' & p' & d' & -> & Hp' & _).
  unfold driver_of. simpl. rewrite Hsame; [done|]. intros Hsm. apply Hn.
  (* two names of the same driver are one *)
  destruct Hc as [_ _ Ho _]. rewrite <- (insert_delete_id _ _ _ Hm) in Ho.
  rewrite map_to_list_insert in Ho by apply lookup_delete_eq.
  apply NoDup_cons in Ho as [Hnin _]. destruct Hnin. simpl. rewrite <- Hsm.
  apply list_elem_of_fmap. exists {| handle_ := Some h'; driver_ := Some p' |}. split; [done|].
  apply list_elem_of_fmap. exists (n, {| handle_ := Some h'; driver_ := Some p' |}). split; [done|].
  apply elem_of_map_to_list. by rewrite lookup_delete_ne.
Qed.

(** ** Operations

    [m] is what the operation is in Drivers.v: an exception of the one is an
    exception of the other and leaves the registry, a return makes the same change. *)
Definition refines {A} (prog : st (process W) DriverError A) (spec : gmap bytes (Driver W) →
    outcome DriverError (A * gmap bytes (Driver W))) s : Prop :=
  swp prog (λ a s', consistent s' ∧ spec (erase s) = Ret (a, erase s'))
    (λ e s', consistent s' ∧ erase s' = erase s ∧ spec (erase s) = Throw e) s.

Lemma registered_insert s name m :
  driver_map_ s !! name = None →
  (map_to_list (<[name := m]> (driver_map_ s))).*2 ≡ₚ m :: (map_to_list (driver_map_ s)).*2.
Proof. intros Hn. by rewrite map_to_list_insert. Qed.

Lemma registered_delete s name m :
  driver_map_ s !! name = Some m →
  (map_to_list (driver_map_ s)).*2 ≡ₚ m :: (map_to_list (delete name (driver_map_ s))).*2.
Proof. intros Hm. by rewrite <- (map_to_list_delete _ _ _ Hm). Qed.

Lemma owned_set_driver_map ms s reg : owned ms s → owned ms (set_driver_map reg s).
Proof. by intros [Hr Hw Ho Hobj]. Qed.

Lemma erase_same s s' : driver_map_ s' = driver_map_ s → (∀ q, is_Some (objects s !! q) → objects s' !! q = objects s !! q) →
  consistent s → erase s' = erase s.
Proof.
  intros Hmap Hsame Hc. apply map_eq. intros n. rewrite !lookup_erase, Hmap.
  destruct (driver_map_ s !! n) as [m|] eqn:Hm; [|done].
  destruct (consistent_lookup s n m Hc Hm) as (h' & p' & d' & -> & Hp' & _).
  unfold driver_of. simpl. by rewrite Hsame by by eexists.
Qed.

(** A module that does not get into the registry leaves nothing. *)
Lemma discard_ok s s1 h p :
  consistent s → owned ({| handle_ := Some h; driver_ := Some p |} :: (map_to_list (driver_map_ s)).*2) s1 →
  driver_map_ s1 = driver_map_ s → objects s !! p = None →
  (∀ q, is_Some (objects s !! q) → objects s1 !! q = objects s !! q) →
  swp (destruct {| handle_ := Some h; driver_ := Some p |})
    (λ _ s2, consistent s2 ∧ erase s2 = erase s) (λ _ _, False) s1.
Proof.
  intros Hc Ho Hmap Hnew Hsame. eapply swp_mono; [by apply destruct_ok| |done].
  intros [] s2 (Ho2 & Hmap2 & Hsame2). assert (driver_map_ s2 = driver_map_ s) as Hm by congruence.
  split; [unfold consistent; by rewrite Hm|]. apply erase_same; [done| |done].
  intros q [x Hq]. rewrite Hsame2 by (simpl; congruence). apply Hsame. by eexists.
Qed.

Lemma call_driver_ok s h p d (Q : Driver W → process W → Prop) T :
  refs s h ≠ 0 → objects s !! p = Some (h, d) → Q d s → swp (call_driver p) Q T s.
Proof.
  intros Hh Hp HQ. unfold swp, call_driver, in_library. rewrite Hp. by rewrite (proj2 (Nat.eqb_neq _ _) Hh).
Qed.

Lemma load_driver_refines path s :
  consistent s →
  refines (load_driver library_of exists_file host_hash abi path)
    (λ reg, reg' ← Drivers.load_driver dlopen exists_file host_hash abi path reg; Ret (tt, reg')) s.
Proof using create_nonnull.
  intros Hc. unfold refines, load_driver, Drivers.load_driver. destruct (exists_file path); simpl; [|by apply swp_throw].
  eapply swp_call; [by apply module_construct_ok| |].
  2:{ intros e s' (Ho & Hmap & Hobj & ->). split; [unfold consistent; by rewrite Hmap|]. split; [|done].
      apply erase_same; [done| |done]. intros q _. by rewrite Hobj. }
  intros ? s1 (h & p & d & -> & Ho & Hmap & Hnew & Hobj & ->). cbn [mbind outcome_bind].
  assert (objects s1 !! p = Some (h, d)) as Hp by (rewrite Hobj; apply lookup_insert_eq).
  assert (∀ q, is_Some (objects s !! q) → objects s1 !! q = objects s !! q) as Hsame.
  { intros q [x Hq]. rewrite Hobj, lookup_insert_ne by congruence. done. }
  unfold register_driver, Drivers.register_driver. apply swp_bind, swp_lift. simpl. apply swp_bind.
  apply (call_driver_ok s1 h p d); [|done|].
  { destruct Ho as [Hr _ _ _]. rewrite Hr, holders_cons. simpl. by rewrite decide_True. }
  destruct (check_abi abi d (get_driver_name path)) as [[]|e| |] eqn:Habi; 
    [| |by (unfold check_abi, throw_if in Habi; case_match)..].
  - eapply (swp_attempt_bind _ _ (λ _ s2, s2 = s1) (λ _ _, False)); [by apply swp_lift| |done].
    intros _ s2 ->. apply swp_bind, swp_gets. cbn [mbind outcome_bind]. rewrite Hmap.
    destruct (driver_map_ s !! driver_name d) as [m|] eqn:Hm.
    + eapply swp_mono; [by eapply discard_ok| |done]. intros [] s2 [Hc2 He].
      destruct (consistent_lookup s _ m Hc Hm) as (h' & p' & d' & -> & _ & _ & Hd'). by rewrite Hd', He.
    + apply swp_modify. rewrite (proj1 (erase_None s _ Hc) Hm). split.
      * unfold consistent. simpl. eapply owned_perm; [symmetry; by apply registered_insert|].
        by apply owned_set_driver_map.
      * repeat f_equal. symmetry. by eapply erase_insert.
  - eapply (swp_attempt_bind _ _ (λ _ _, False) (λ e' s2, s2 = s1 ∧ e' = e)); [by apply swp_lift|done|].
    intros ? s2 [-> ->]. eapply swp_call; [by eapply discard_ok| |done]. intros [] s2 [Hc2 He].
    by apply swp_throw.
Qed.

Lemma unload_driver_refines name s :
  consistent s →
  refines (unload_driver name) (λ reg, reg' ← Drivers.unload_driver name reg; Ret (tt, reg')) s.
Proof.
  intros Hc. unfold refines, unload_driver, Drivers.unload_driver. apply swp_bind, swp_gets.
  destruct (driver_map_ s !! name) as [m|] eqn:Hm.
  - destruct (consistent_lookup s name m Hc Hm) as (h & p & d & -> & Hp & Hh & Hd). rewrite Hd.
    apply swp_bind, swp_modify. set (s1 := set_driver_map _ s).
    eapply swp_mono; [apply (destruct_ok _ (map_to_list (delete name (driver_map_ s))).*2 s1)| |done].
    + apply owned_set_driver_map. eapply owned_perm; [by apply registered_delete|]. exact Hc.
    + intros [] s2 (Ho & Hmap & Hsame). split; [unfold consistent; by rewrite Hmap|].
      simpl. repeat f_equal. symmetry. by eapply erase_delete.
  - rewrite (proj1 (erase_None s _ Hc) Hm). by apply swp_throw.
Qed.

Lemma get_driver_refines name s :
  consistent s →
  refines (get_driver name) (λ reg, d ← Drivers.get_driver name reg; Ret (d, reg)) s.
Proof.
  intros Hc. unfold refines, get_driver, Drivers.get_driver. apply swp_bind, swp_gets.
  destruct (driver_map_ s !! name) as [m|] eqn:Hm.
  - destruct (consistent_lookup s name m Hc Hm) as (h & p & d & -> & Hp & Hh & Hd). rewrite Hd.
    apply swp_bind, swp_lift. simpl. by apply (call_driver_ok s h p d).
  - rewrite (proj1 (erase_None s _ Hc) Hm). by apply swp_throw.
Qed.

Lemma destroy_manager_ok s :
  consistent s →
  swp destroy_manager (λ _ s', (∀ h, refs s' h = 0) ∧ objects s' = ∅ ∧ driver_map_ s' = ∅) (λ _ _, False) s.
Proof.
  intros Hc. unfold destroy_manager. apply swp_bind, swp_gets, swp_bind, swp_modify.
  unfold consistent in Hc. apply (owned_set_driver_map _ _ ∅) in Hc.
  assert (driver_map_ (set_driver_map ∅ s) = ∅) as Hmap by done.
  revert Hc Hmap. generalize (set_driver_map ∅ s). generalize (map_to_list (driver_map_ s)).*2.
  intros ms. induction ms as [|m ms IH]; intros s1 Ho Hmap; cbn [destruct_all].
  - apply swp_ret. destruct Ho as [Hr _ _ Hobj]. split_and!; [done| |done].
    apply map_eq. intros p. rewrite lookup_empty. destruct (objects s1 !! p) eqn:Hp; [|done].
    specialize (Hobj p ltac:(rewrite Hp; by eexists)). by apply elem_of_nil in Hobj.
  - eapply swp_call; [by apply destruct_ok| |done]. intros [] s2 (Ho2 & Hmap2 & _). apply IH; congruence.
Qed.
(** ** Histories *)

(** What an operation does to Drivers.v's registry, and a history of them, in
    which an exception leaves the registry as it was. *)
Definition perform_spec (o : operation) (reg : gmap bytes (Driver W))
    : outcome DriverError (option (Driver W) * gmap bytes (Driver W)) :=
  match o with
  | Load path => reg' ← Drivers.load_driver dlopen exists_file host_hash abi path reg; Ret (None, reg')
  | Unload name => reg' ← Drivers.unload_driver name reg; Ret (None, reg')
  | Get name => d ← Drivers.get_driver name reg; Ret (Some d, reg)
  end.

Fixpoint history_spec (os : list operation) (reg : gmap bytes (Driver W))
    : outcome DriverError (list (DriverError + option (Driver W)) * gmap bytes (Driver W)) :=
  match os with
  | [] => Ret ([], reg)
  | o :: os =>
      r ← match perform_spec o reg with
          | Ret (a, reg') => Ret (inr a, reg')
          | Throw e => Ret (inl e, reg)
          | Undef => Undef
          | OutOfFuel => OutOfFuel
          end;
      rs ← history_spec os r.2;
      Ret (r.1 :: rs.1, rs.2)
  end.

Lemma refines_then {A B} (prog : st (process W) DriverError A) spec (f : A → B) s :
  refines prog spec s →
  refines (a ← prog; mret (f a)) (λ reg, x ← spec reg; Ret (f x.1, x.2)) s.
Proof.
  intros Hp. eapply swp_call; [exact Hp|..].
  - intros a s' [Hc ->]. by apply swp_ret.
  - intros e s' (Hc & He & ->). done.
Qed.

Lemma perform_refines o s :
  consistent s → refines (perform library_of exists_file host_hash abi o) (perform_spec o) s.
Proof using create_nonnull.
  intros Hc. destruct o as [path|name|name]; cbn [perform].
  - eapply swp_mono; [eapply refines_then; by apply load_driver_refines|..]; cbn beta; unfold perform_spec;
      by destruct (Drivers.load_driver _ _ _ _ _ _).
  - eapply swp_mono; [eapply refines_then; by apply unload_driver_refines|..]; cbn beta; unfold perform_spec;
      by destruct (Drivers.unload_driver _ _).
  - eapply swp_mono; [eapply (refines_then _ _ Some); by apply get_driver_refines|..]; cbn beta; unfold perform_spec;
      by destruct (Drivers.get_driver _ _).
Qed.

Lemma history_refines os s :
  consistent s →
  swp (history library_of exists_file host_hash abi os)
    (λ rs s', consistent s' ∧ history_spec os (erase s) = Ret (rs, erase s')) (λ _ _, False) s.
Proof using create_nonnull.
  revert s. induction os as [|o os IH]; intros s Hc; cbn [history history_spec]; [by apply swp_ret|].
  eapply swp_attempt_bind; [by apply perform_refines|..]; cbn beta.
  - intros a s1 [Hc1 ->]. eapply swp_call; [by apply IH| |done]. intros rs s2 [Hc2 Hs]. apply swp_ret.
    cbn [mbind outcome_bind fst snd]. by rewrite Hs.
  - intros e s1 (Hc1 & He & Hs1). rewrite Hs1. eapply swp_call; [by apply IH| |done]. intros rs s2 [Hc2 Hs].
    apply swp_ret. cbn [mbind outcome_bind fst snd]. by rewrite <- He, Hs.
Qed.

(** A new process. *)
Definition initial : process W := {| refs := λ _, 0; objects := ∅; driver_map_ := ∅ |}.

Lemma initial_consistent : consistent initial.
Proof.
  split; simpl; [done| |apply NoDup_nil_2|].
  - intros m Hm. rewrite map_to_list_empty in Hm. by apply elem_of_nil in Hm.
  - intros p [x Hx]. by rewrite lookup_empty in Hx.
Qed.

(** C39: Whatever sequence of loads, unloads and lookups a caller makes, exceptions
    included, no code of a closed library runs, no dead driver is used and none is
    deleted twice; each call returns or throws what it does in the registry of
    plain values; a library is open as often as the registered drivers come from
    it and every live driver is registered; and when the manager is destroyed every
    driver is deleted and every library closed. *)
Theorem driver_modules_spec os :
  swp (history library_of exists_file host_hash abi os)
    (λ rs s', history_spec os ∅ = Ret (rs, erase s') ∧ consistent s'
       ∧ swp destroy_manager (λ _ s'', (∀ h, refs s'' h = 0) ∧ objects s'' = ∅ ∧ driver_map_ s'' = ∅)
           (λ _ _, False) s') (λ _ _, False) initial.
Proof using create_nonnull.
  eapply swp_mono; [apply history_refines, initial_consistent| |done].
  intros rs s' [Hc <-]. split; [reflexivity|]. split; [done|by apply destroy_manager_ok].
Qed.

(** The defaulted move assignment closes the old library before it deletes the
    old driver; nothing in the program assigns a module. *)
Lemma move_assign_calls_closed_library ms s h p other :
  owned ({| handle_ := Some h; driver_ := Some p |} :: ms) s → holders h ms = 0 →
  (move_assign {| handle_ := Some h; driver_ := Some p |} other s).1 = Undef.
Proof.
  intros [Hr Hw _ _] Hh. destruct (Hw _ (list_elem_of_here _ _)) as (h' & p' & d & [= <- <-] & Hp).
  assert (refs s h = 1) as Hone by (rewrite Hr, holders_cons, Hh; cbn [handle_]; by rewrite decide_True).
  unfold move_assign, mbind, st_bind, dlclose. cbn [handle_ driver_]. rewrite Hone. unfold delete_driver.
  cbn [objects set_refs]. rewrite Hp. unfold in_library. cbn [refs set_refs]. by rewrite bool_decide_true.
Qed.
End ownership.

(** ** An example *)

(** Two paths of one file, and a file with a driver of the same name. *)
Definition sample_library_of (path : bytes) : bytes + (Z * Library unit) :=
  if bool_decide (path = str "/lib/simple.so") || bool_decide (path = str "/lib/./simple.so") then inr (1%Z, sample_library)
  else if bool_decide (path = str "/lib/copy.so") then inr (2%Z, sample_library)
  else inl (str "no such file").

Lemma sample_create path lib : dlopen sample_library_of path = inr lib → create lib ≠ inr (Some None).
Proof. unfold dlopen, sample_library_of. repeat case_bool_decide; simpl; by intros [= <-] || done. Qed.

Definition sample_history : list operation :=
  [Load (str "/lib/simple.so"); Load (str "/lib/./simple.so"); Load (str "/lib/missing.so"); Load (str "/lib/copy.so");
   Get (str "simple"); Unload (str "simple"); Unload (str "simple")].

Lemma driver_modules_spec_witness :
  ∃ rs s', history sample_library_of (λ _, true) 7 sample_abi sample_history initial = (Ret rs, s')
    ∧ rs !! 4 = Some (inr (Some sample_driver)) ∧ (∃ what, rs !! 6 = Some (inl (DriverNotFound what)))
    ∧ consistent s' ∧ (destroy_manager s').1 = Ret tt.
Proof.
  pose proof (driver_modules_spec sample_library_of (λ _, true) 7 sample_abi sample_create sample_history) as Hspec.
  apply swp_cases in Hspec as [(rs & s' & Hrun & _ & Hc & Hd)|(e & s' & _ & [])].
  exists rs, s'. split; [exact Hrun|].
  assert (rs = match (history sample_library_of (λ _, true) 7 sample_abi sample_history initial).1 with
               | Ret rs => rs | _ => [] end) as -> by (by rewrite Hrun).
  split; [vm_compute; reflexivity|]. split; [vm_compute; by eexists|]. split; [exact Hc|].
  apply swp_cases in Hd as [([] & s'' & Hd & _)|(e & s'' & _ & [])]. by rewrite Hd.
Defined.
