(* ===== verification/Manager.v ===== *)
(** [src/core/manager.cpp] and the run of [src/main.cpp]: the components put
    together, from a configuration to the tasks that are handed to the pool. *)
From S2P Require Import Prelude CppString Address Uri DnsTypes Config Io Registry Scheduler Updater Drivers.
From stdpp Require Import gmap.

(** What ends the program before it runs. *)
Inductive start_error :=
| FromRegistry (e : registry_error)
| FromDrivers (e : DriverError)
| FromConfig (e : ConfigError).

Definition rethrow {E E' A} (f : E → E') (m : outcome E A) : outcome E' A :=
  match m with
  | Ret a => Ret a
  | Throw e => Throw (f e)
  | Undef => Undef
  | OutOfFuel => OutOfFuel
  end.

Lemma wp_rethrow {E E' A} (f : E → E') (m : outcome E A) Q T :
  wp m Q (λ e, T (f e)) → wp (rethrow f m) Q T.
Proof. by destruct m. Qed.

(** The number of threads of the pool; sums are 32 bits wide. *)
(* @fn src/src/core/manager.cpp | std::uint32_t estimate_pool_size( | estimate_pool_size *)
Definition estimate_pool_size {generic} (thread_count : Z) (config : AppConfig generic) : Z :=
  let total_subdomains :=
    foldl (λ total d, u32 (total + u32 (Z.of_nat (length (dm_subdomains d))))) 0%Z (app_domains config) in
  if ((total_subdomains <? 2) || (thread_count <? 2))%Z then 2%Z
  else if (total_subdomains <? thread_count)%Z then total_subdomains
  else Z.min thread_count 4.

Section manager.
Context {generic W : Type} `{InetText} `{PriorityQueue (ScheduleEntry generic)}.

(** What an iteration of the main loop leads to: the tasks handed to the pool,
    each with its driver, and those whose driver was not found. *)
Record cycle := {
  detached : list (Driver W * UpdateTask generic);
  skipped : list (UpdateTask generic)
}.

(* @fn src/src/core/manager.cpp | for (auto &task: tasks) { | Manager::Impl::run (tasks) *)
Fixpoint dispatch (drivers : gmap bytes (Driver W)) (tasks : list (UpdateTask generic)) : cycle :=
  match tasks with
  | [] => {| detached := []; skipped := [] |}
  | task :: rest =>
      let c := dispatch drivers rest in
      match get_driver (ut_driver_name task) drivers with
      | Ret driver => {| detached := (driver, task) :: detached c; skipped := skipped c |}
      | _ => {| detached := detached c; skipped := task :: skipped c |}
      end
  end.

(** What the loop observes in an iteration: whether a stop was requested at its
    head, the clock in [pop_all_due], and what [wait_for_next] returned. *)
Record iteration := { it_stop : bool; it_now : Z; it_go : bool }.

(** The loop, on the iterations observed so far.  What comes before it, the
    validation of the configuration with the system's interfaces and its exceptions,
    is [Cli.run_flow]. *)
(* @fn src/src/core/manager.cpp | void Manager::Impl::run() { | Manager::Impl::run *)
Fixpoint run {E : Type} (fuel : nat) (drivers : gmap bytes (Driver W)) (env : list iteration)
    (heap : queue (ScheduleEntry generic)) : outcome E (list cycle) :=
  match env with
  | [] => Ret []
  | it :: env =>
      if it_stop it then Ret [] else
      '(tasks, heap) ← pop_all_due fuel (it_now it) heap;
      let c := dispatch drivers tasks in
      if negb (it_go it) then Ret [c] else
      cs ← run fuel drivers env heap;
      Ret (c :: cs)
  end.

(** The rest of the system, as in the files before. *)
Context (dlopen : bytes → bytes + Library W) (exists_file is_directory : bytes → bool).
Context (directory : bytes → list (bytes * bool)).
Context (host_hash : Z) (abi : AbiVersion) (default_dir : bytes) (default_server : DnsServer).
Context (YADDNSC_MIN_UPDATE_INTERVAL : Z) (interfaces : list bytes).

(* @fn src/src/core/manager.cpp | void Manager::Impl::validate_config() const { | Manager::Impl::validate_config *)
Definition validate_config (drivers : gmap bytes (Driver W)) (config : AppConfig generic)
    : outcome ConfigError unit :=
  validate YADDNSC_MIN_UPDATE_INTERVAL (get_loaded_drivers drivers) interfaces config.

(** The constructor builds the resolvers and the scheduler; then [main] loads
    the drivers, validates and runs. *)
(* @src src/src/main.cpp 52 55 main (run) *)
Definition start (fuel : nat) (clock : nat → Z) (env : list iteration) (config : AppConfig generic)
    : outcome start_error (list cycle) :=
  _ ← rethrow FromRegistry (factory_create default_server (app_resolver config));
  let scheduler := init clock config in
  drivers ← rethrow FromDrivers
    (load_drivers dlopen exists_file is_directory directory host_hash abi default_dir config ∅);
  _ ← rethrow FromConfig (validate_config drivers config);
  run fuel drivers env scheduler.
End manager.
Arguments cycle : clear implicits.

(** * The contract: independent timers

    What the scheduler promises, without a queue: each subdomain has a timer of
    its own.  When it is due it fires, forced if the force interval has passed
    since it last was, and is due again an interval later. *)

Section contract.
Context {generic : Type}.

Record timer := {
  tm_domain : DomainConfig generic;
  tm_subdomain : SubdomainConfig generic;
  tm_deadline : Z;
  tm_last_force : Z
}.

(** A subdomain's own interval, or its domain's. *)
Definition interval_of (d : DomainConfig generic) (s : SubdomainConfig generic) : Z :=
  if (0 <? sd_update_interval s)%Z then sd_update_interval s else dm_update_interval d.

Definition is_forced (now : Z) (tm : timer) : bool :=
  bool_decide (0 < dm_force_update (tm_domain tm)
    ∧ dm_force_update (tm_domain tm) ≤ in_seconds (now - tm_last_force tm))%Z.

Definition is_up (now : Z) (tm : timer) : bool := bool_decide (tm_deadline tm ≤ now)%Z.

Definition fired (now : Z) (tm : timer) : UpdateTask generic := {|
  ut_config := tm_subdomain tm;
  ut_domain_name := dm_name (tm_domain tm);
  ut_driver_name := dm_driver (tm_domain tm);
  ut_fqdn := fqdn_for (tm_domain tm) (tm_subdomain tm);
  ut_force_update := is_forced now tm
|}.

Definition advance (now : Z) (tm : timer) : timer :=
  if is_up now tm then
    {| tm_domain := tm_domain tm; tm_subdomain := tm_subdomain tm;
       tm_deadline := now + seconds (interval_of (tm_domain tm) (tm_subdomain tm));
       tm_last_force := if is_forced now tm then now else tm_last_force tm |}
  else tm.

Definition fires (now : Z) (tm : timer) : option (UpdateTask generic) :=
  if is_up now tm then Some (fired now tm) else None.

Definition timers (clock : nat → Z) (cfg : AppConfig generic) : list timer :=
  imap (λ i '(d, s), {| tm_domain := d; tm_subdomain := s; tm_deadline := clock i;
    tm_last_force := if (0 <? dm_force_update d)%Z then clock i - seconds (dm_force_update d) else 0 |})
    (domain_subdomains cfg).

(** The tasks of each iteration. *)
Fixpoint contract (env : list iteration) (ts : list timer) : list (list (UpdateTask generic)) :=
  match env with
  | [] => []
  | it :: env =>
      if it_stop it then [] else
      omap (fires (it_now it)) ts ::
      (if negb (it_go it) then [] else contract env (advance (it_now it) <$> ts))
  end.
End contract.
Arguments timer : clear implicits.

(** * The program keeps the contract *)

Section refinement.
Context {generic : Type} `{PriorityQueueOk (ScheduleEntry generic) entry_gt}.
Context {W : Type}.
Implicit Types (heap : queue (ScheduleEntry generic)) (tm : timer generic).

(** The queue's entry for a timer. *)
Definition entry_of tm : ScheduleEntry generic := {|
  deadline := tm_deadline tm;
  update_interval := interval_of (tm_domain tm) (tm_subdomain tm);
  force_update_interval := dm_force_update (tm_domain tm);
  last_force_update := tm_last_force tm;
  task := {| ut_config := tm_subdomain tm; ut_domain_name := dm_name (tm_domain tm);
             ut_driver_name := dm_driver (tm_domain tm); ut_fqdn := fqdn_for (tm_domain tm) (tm_subdomain tm);
             ut_force_update := false |}
|}.

(** The abstraction relation: the queue holds the timers' entries. *)
Definition represents heap (ts : list (timer generic)) : Prop := q_elements heap ≡ₚ entry_of <$> ts.

Lemma task_of_entry now tm : task_of now (entry_of tm) = fires now tm.
Proof.
  unfold task_of, fires, is_up, is_due. simpl. destruct (decide _) as [Hd|Hd].
  - rewrite bool_decide_eq_true_2 by done. f_equal. apply fire_fst.
  - by rewrite bool_decide_eq_false_2.
Qed.

Lemma next_entry now tm : next now (entry_of tm) = entry_of (advance now tm).
Proof.
  unfold next, advance, is_up, is_due, is_forced. simpl. destruct (decide _) as [Hd|Hd].
  2:{ by rewrite bool_decide_eq_false_2. }
  rewrite bool_decide_eq_true_2 by done. unfold fire, check_force_update. simpl.
  destruct (dm_force_update (tm_domain tm) <=? 0)%Z eqn:Hf.
  - rewrite bool_decide_eq_false_2 by lia. done.
  - destruct (dm_force_update (tm_domain tm) <=? in_seconds _)%Z eqn:He.
    + by rewrite bool_decide_eq_true_2 by lia.
    + by rewrite bool_decide_eq_false_2 by lia.
Qed.

(** The timers' intervals are positive. *)
Definition ticking (tm : timer generic) : Prop := (0 < interval_of (tm_domain tm) (tm_subdomain tm))%Z.

Lemma ticking_advance now tm : ticking tm → ticking (advance now tm).
Proof. unfold advance. by destruct (is_up now tm). Qed.

(** The simulation of one [pop_all_due]. *)
Lemma pop_represents {E} fuel now heap ts :
  represents heap ts → Forall ticking ts → length ts < fuel →
  ∃ tasks heap', pop_all_due (E:=E) fuel now heap = Ret (tasks, heap')
    ∧ tasks ≡ₚ omap (fires now) ts ∧ represents heap' (advance now <$> ts).
Proof.
  intros Hr Ht Hfuel. unfold represents in *.
  destruct (pop_all_due_next (E:=E) fuel now heap) as (tasks & heap' & Hrun & Htasks & Hnext).
  - rewrite Hr. apply Forall_fmap. eapply Forall_impl; [exact Ht|]. by intros tm Htm _.
  - rewrite Hr, length_fmap. done.
  - exists tasks, heap'. split; [done|]. split.
    + rewrite Htasks, Hr. clear. induction ts as [|tm ts IH]; simpl; [done|].
      rewrite task_of_entry. by destruct (fires now tm); [constructor|].
    + rewrite Hnext, Hr. rewrite <- !list_fmap_compose. apply Permutation_refl'.
      apply list_fmap_ext. intros ? tm _. apply next_entry.
Qed.

(** Every task of a timer whose domain's driver is loaded finds it. *)
Definition has_driver (drivers : gmap bytes (Driver W)) (t : UpdateTask generic) : Prop :=
  is_Some (drivers !! ut_driver_name t).

Lemma dispatch_ok drivers tasks :
  Forall (has_driver drivers) tasks →
  skipped (dispatch drivers tasks) = [] ∧ (detached (dispatch drivers tasks)).*2 = tasks
  ∧ Forall (λ p, drivers !! ut_driver_name p.2 = Some p.1) (detached (dispatch drivers tasks)).
Proof.
  induction 1 as [|t tasks [d Hd] _ (IH1 & IH2 & IH3)]; simpl; [by repeat constructor|].
  unfold get_driver. rewrite Hd. simpl. split; [done|]. split; [by f_equal|by constructor].
Qed.

(** An iteration of the program does what the contract says. *)
Definition keeps (drivers : gmap bytes (Driver W)) (c : cycle generic W) (tasks : list (UpdateTask generic)) : Prop :=
  skipped c = [] ∧ (detached c).*2 ≡ₚ tasks ∧ Forall (λ p, drivers !! ut_driver_name p.2 = Some p.1) (detached c).

Definition driven (drivers : gmap bytes (Driver W)) tm : Prop := is_Some (drivers !! dm_driver (tm_domain tm)).

Lemma driven_advance drivers now tm : driven drivers tm → driven drivers (advance now tm).
Proof. unfold advance. by destruct (is_up now tm). Qed.

Lemma fires_driver drivers now ts :
  Forall (driven drivers) ts → Forall (has_driver drivers) (omap (fires now) ts).
Proof.
  induction 1 as [|tm ts Hd _ IH]; simpl; [constructor|]. unfold fires at 1.
  destruct (is_up now tm); [by constructor|done].
Qed.

Lemma run_refines {E} fuel drivers env heap ts :
  represents heap ts → Forall ticking ts → Forall (driven drivers) ts → length ts < fuel →
  ∃ cs, run (E:=E) fuel drivers env heap = Ret cs ∧ Forall2 (keeps drivers) cs (contract env ts).
Proof.
  revert heap ts. induction env as [|it env IH]; intros heap ts Hr Ht Hd Hfuel; simpl; [eauto|].
  destruct (it_stop it); [eauto|].
  destruct (pop_represents (E:=E) fuel (it_now it) heap ts Hr Ht Hfuel) as (tasks & heap' & -> & Htasks & Hr').
  cbn [mbind outcome_bind].
  assert (keeps drivers (dispatch drivers tasks) (omap (fires (it_now it)) ts)) as Hk.
  { destruct (dispatch_ok drivers tasks) as (H1 & H2 & H3); [rewrite Htasks; by apply fires_driver|].
    split; [done|]. split; [by rewrite H2|done]. }
  destruct (negb (it_go it)); [eauto|].
  destruct (IH heap' (advance (it_now it) <$> ts)) as (cs & -> & Hcs).
  - done.
  - apply Forall_fmap. eapply Forall_impl; [exact Ht|]. intros tm. apply ticking_advance.
  - apply Forall_fmap. eapply Forall_impl; [exact Hd|]. intros tm. apply driven_advance.
  - by rewrite length_fmap.
  - simpl. eauto.
Qed.

Lemma init_represents clock cfg : represents (init clock cfg) (timers clock cfg).
Proof.
  unfold represents. rewrite init_elements.
  assert (initial_entries clock cfg = entry_of <$> timers clock cfg) as ->; [|done].
  unfold initial_entries, timers. rewrite fmap_imap. apply imap_ext. by intros i [d s] _.
Qed.
End refinement.

(** ** What the contract gives *)

Section contract_proofs.
Context {generic : Type}.

Lemma seconds_elapsed n ns : (0 ≤ ns)%Z → (0 < n)%Z → (n ≤ in_seconds (ns + seconds n))%Z.
Proof.
  intros Hns Hn. unfold in_seconds, seconds. apply Z.quot_le_lower_bound; lia.
Qed.

Lemma elem_timers clock (cfg : AppConfig generic) tm :
  tm ∈ timers clock cfg → ∃ i d s, (d, s) ∈ domain_subdomains cfg
    ∧ tm = {| tm_domain := d; tm_subdomain := s; tm_deadline := clock i;
              tm_last_force := if (0 <? dm_force_update d)%Z then clock i - seconds (dm_force_update d) else 0 |}.
Proof.
  unfold timers. rewrite elem_of_lookup_imap. intros (i & [d s] & -> & Hi).
  exists i, d, s. split; [by eapply list_elem_of_lookup_2|done].
Qed.

(** The first iteration fires every timer, forced where forcing is configured. *)
Lemma first_fires clock (cfg : AppConfig generic) now :
  (∀ i, clock i ≤ now)%Z →
  omap (fires now) (timers clock cfg) =
  (λ '(d, s), {| ut_config := s; ut_domain_name := dm_name d; ut_driver_name := dm_driver d;
                 ut_fqdn := fqdn_for d s; ut_force_update := bool_decide (0 < dm_force_update d)%Z |})
    <$> domain_subdomains cfg.
Proof.
  intros Hnow. unfold timers. revert clock Hnow. induction (domain_subdomains cfg) as [|[d s] l IH]; intros clock Hnow; [done|].
  simpl. unfold fires at 1, is_up. simpl. rewrite bool_decide_eq_true_2 by done. f_equal.
  - unfold fired. f_equal. unfold is_forced. simpl. apply bool_decide_ext.
    destruct (0 <? dm_force_update d)%Z eqn:Hf; [|lia]. split; [by intros []|]. intros Hpos. split; [done|].
    replace (now - (clock 0%nat - seconds (dm_force_update d)))%Z
      with ((now - clock 0%nat) + seconds (dm_force_update d))%Z by lia.
    apply seconds_elapsed; [specialize (Hnow 0%nat); lia|done].
  - apply (IH (clock ∘ S)). intros i. apply Hnow.
Qed.

(** A timer that has fired waits for its interval, and stays quiet until then. *)
Lemma advance_waits now now' (tm : timer generic) :
  is_up now tm = true →
  fires now' (advance now tm) ≠ None ↔ (now + seconds (interval_of (tm_domain tm) (tm_subdomain tm)) ≤ now')%Z.
Proof.
  intros Hup. unfold fires, advance. rewrite Hup. unfold is_up at 1. simpl. case_bool_decide; naive_solver.
Qed.

(** The timers at an iteration, after those before it. *)
Definition timers_after (times : list Z) (ts : list (timer generic)) : list (timer generic) :=
  foldl (λ ts now, advance now <$> ts) ts times.

Definition running (now : Z) : iteration := {| it_stop := false; it_now := now; it_go := true |}.

Lemma contract_app times env (ts : list (timer generic)) :
  contract ((running <$> times) ++ env) ts
  = contract (running <$> times) ts ++ contract env (timers_after times ts).
Proof. revert ts. induction times as [|now times IH]; intros ts; simpl; [done|]. by rewrite IH. Qed.
End contract_proofs.

Section start_proofs.
Context {generic : Type} `{PriorityQueueOk (ScheduleEntry generic) entry_gt} `{InetText} {W : Type}.
Context (dlopen : bytes → bytes + Library W) (exists_file is_directory : bytes → bool).
Context (directory : bytes → list (bytes * bool)).
Context (host_hash : Z) (abi : AbiVersion) (default_dir : bytes) (default_server : DnsServer).
Context (min_interval : Z) (interfaces : list bytes).

Lemma valid_timers (drivers : gmap bytes (Driver W)) clock (cfg : AppConfig generic) :
  (0 < min_interval)%Z → config_ok min_interval (get_loaded_drivers drivers) interfaces cfg →
  Forall ticking (timers clock cfg) ∧ Forall (driven drivers) (timers clock cfg).
Proof.
  intros Hmin [Hdom _]. rewrite !Forall_forall in *.
  assert (∀ d s, (d, s) ∈ domain_subdomains cfg → domain_ok min_interval (get_loaded_drivers drivers) interfaces d) as Hok.
  { intros d s (d' & Hd & Hds)%list_elem_of_bind. apply list_elem_of_fmap in Hd as (s' & [= <- <-] & _).
    by apply Hdom. }
  split; intros tm (i & d & s & Hds & ->)%elem_timers; specialize (Hok d s Hds) as (_ & _ & Hdrv & Hint & _).
  - unfold ticking, interval_of. simpl. destruct (0 <? sd_update_interval s)%Z eqn:Hs; lia.
  - by apply get_loaded_drivers_elem.
Qed.

Definition start_failure (e : start_error) : Prop :=
  match e with
  | FromRegistry e => registry_failure e
  | FromDrivers e => load_error e
  | FromConfig _ => True
  end.

(** C4: The program refines the contract of independent timers.  From any
    configuration it either stops at a documented error of the resolvers, the
    drivers or the validation, or has loaded the drivers of the configured
    files and runs: then, whatever the clock and the stop do, no iteration
    hangs, no task is skipped for want of its driver, and each iteration hands
    to the pool the tasks of exactly the timers that fire in it, each with the
    loaded driver of its domain. *)
Theorem start_refines fuel clock env (cfg : AppConfig generic) :
  (0 < min_interval)%Z →
  (∀ path lib, dlopen path = inr lib → create lib ≠ inr (Some None)) →
  length (domain_subdomains cfg) < fuel →
  wp (start dlopen exists_file is_directory directory host_hash abi default_dir default_server
        min_interval interfaces fuel clock env cfg)
    (λ cs, ∃ drivers,
       loads dlopen exists_file host_hash abi
         (files exists_file is_directory directory cfg (default default_dir (driver_dir (app_driver cfg)))) ∅ drivers
       ∧ config_ok min_interval (get_loaded_drivers drivers) interfaces cfg
       ∧ Forall2 (keeps drivers) cs (contract env (timers clock cfg)))
    start_failure.
Proof.
  intros Hmin Hnull Hfuel. unfold start.
  eapply wp_call; [apply wp_rethrow, factory_create_ok|]. intros _ _ _. cbv zeta.
  eapply wp_call; [apply wp_rethrow, (load_drivers_ok _ _ _ _ _ _ _ Hnull)|]. intros drivers _ Hload.
  destruct (validate_decides min_interval (get_loaded_drivers drivers) interfaces cfg) as [[Hv Hok]|(e & Hv & _)];
    unfold validate_config; rewrite Hv; [|done]. cbn [rethrow mbind outcome_bind].
  destruct (valid_timers drivers clock cfg Hmin Hok) as [Ht Hd].
  destruct (run_refines (E:=start_error) fuel drivers env _ _ (init_represents clock cfg) Ht Hd) as (cs & Hrun & Hcs).
  - unfold timers. by rewrite length_imap.
  - rewrite Hrun. simpl. by exists drivers.
Qed.
End start_proofs.

(** ** An example: two iterations of the sample configuration *)

Definition sample_env : list iteration := [running (seconds 7000); running (seconds 7060)].

Definition sample_start : outcome start_error (list (cycle unit unit)) :=
  @start unit unit sample_text _ sample_dlopen (λ _, true) (λ _, true) (λ _, []) 7 sample_abi
    (str "/lib/yaddnsc") {| ds_address := str "tls://dns.example"; ds_port := 53 |} 60 [str "eth0"]
    3 (λ _, seconds 7000) sample_env sample_config.

Lemma start_refines_witness :
  ∃ cs, sample_start = Ret cs
    ∧ (λ c, (λ p, (ut_fqdn p.2, ut_force_update p.2)) <$> detached c) <$> cs
        = [[(str "mail.example.com", true); (str "www.example.com", true)]; [(str "mail.example.com", false)]]
    ∧ ∃ drivers, Forall2 (keeps drivers) cs (contract sample_env (timers (λ _, seconds 7000) sample_config)).
Proof.
  pose proof (@start_refines unit _ _ sample_text unit sample_dlopen (λ _, true) (λ _, true) (λ _, []) 7 sample_abi
    (str "/lib/yaddnsc") {| ds_address := str "tls://dns.example"; ds_port := 53 |} 60 [str "eth0"]
    3 (λ _, seconds 7000) sample_env sample_config ltac:(lia) sample_create_nonnull) as Hspec.
  change (start _ _ _ _ _ _ _ _ _ _ _ _ _ _) with sample_start in Hspec.
  assert (length (domain_subdomains sample_config) < 3) as Hlen by (vm_compute; lia). specialize (Hspec Hlen).
  destruct sample_start as [cs|e| |] eqn:Hcs; [|vm_compute in Hcs; discriminate..].
  destruct Hspec as (drivers & _ & _ & Hk). exists cs. split; [done|]. split; [|by exists drivers].
  vm_compute in Hcs. injection Hcs as <-. vm_compute. reflexivity.
Defined.
