(* ===== verification/ManagerPool.v ===== *)
(** [Manager::Impl] of [src/core/manager.cpp] and its thread pool: the tasks that
    the main loop hands over, the threads that run them, [thread_pool_.wait()],
    and the destruction of the members, whose steps interleave. *)
From S2P Require Import Prelude CppString Address Uri Config Io Scheduler Updater Drivers Manager.
From stdpp Require Import gmap.

(** * BS::thread_pool

    Tasks are queued, then executed, each by one thread; the pool says which. *)
Class ThreadPool (T : Type) := {
  pool : Type;
  new_pool : Z → pool;
  detach_task : T → pool → pool;
  (** A thread begins a task, or is done with one. *)
  pool_begins : T → pool → pool → Prop;
  pool_ends : T → pool → pool → Prop;
  queued : pool → list T;
  executing : pool → list T
}.
#[global] Arguments pool T {_}.

(** What its documentation states; a pool of at least one thread starts a task
    when it has nothing else to do. *)
Class ThreadPoolOk (T : Type) `{ThreadPool T} := {
  pool_ok : pool T → Prop;
  new_pool_ok n : (0 < n)%Z → pool_ok (new_pool n);
  new_pool_idle n : queued (new_pool n) = [] ∧ executing (new_pool n) = [];
  detach_task_ok t p : pool_ok p →
    pool_ok (detach_task t p) ∧ queued (detach_task t p) ≡ₚ t :: queued p ∧ executing (detach_task t p) = executing p;
  pool_begins_ok t p p' : pool_ok p → pool_begins t p p' →
    pool_ok p' ∧ queued p ≡ₚ t :: queued p' ∧ executing p' ≡ₚ t :: executing p;
  pool_ends_ok t p p' : pool_ok p → pool_ends t p p' →
    pool_ok p' ∧ queued p' = queued p ∧ executing p ≡ₚ t :: executing p';
  pool_can_begin p : pool_ok p → queued p ≠ [] → executing p = [] → ∃ t p', pool_begins t p p';
  pool_can_end t p : pool_ok p → t ∈ executing p → ∃ p', pool_ends t p p'
}.

(** * The manager *)

Module Pool.

(* @src src/src/core/manager.cpp 71 80 Manager::Impl (members) *)
Inductive member :=
| config_ | driver_manager_ | dispatcher_ | updater_ | thread_pool_ | scheduler_ | stop_source_ | http_client_factory_.

#[global] Instance member_eq_dec : EqDecision member.
Proof. solve_decision. Defined.

(** The members in the order of their declaration, and of their destruction. *)
Definition members : list member :=
  [config_; driver_manager_; dispatcher_; updater_; thread_pool_; scheduler_; stop_source_; http_client_factory_].
(* @fn src/src/core/manager.cpp | Manager::~Manager() = default; | Manager::~Manager (order) *)
Definition destruction : list member := rev members.

Section pool.
Context {T : Type} `{ThreadPool T}.

(** Where the main thread is: in [run]'s loop with tasks still to hand over, in
    [thread_pool_.wait()], in the destructor with members left, or past it. *)
(* @src src/src/core/manager.cpp 110 131 Manager::Impl::run (control points) *)
Inductive main_pc :=
| Handing (ts : list T)
| Waiting
| Destroying (ms : list member)
| Gone.

(** [making] and [processing] are the tasks that threads execute, before and
    after their client is made; [undefined] is set by the use of a member that
    has been destroyed. *)
Record state := {
  main : main_pc;
  tasks : pool T;
  making : list T;
  processing : list T;
  finished : list T;
  destroyed : list member;
  undefined : bool
}.

Definition at_main (m : main_pc) (s : state) : state :=
  {| main := m; tasks := tasks s; making := making s; processing := processing s; finished := finished s;
     destroyed := destroyed s; undefined := undefined s |}.

Definition with_tasks (p : pool T) (s : state) : state :=
  {| main := main s; tasks := p; making := making s; processing := processing s; finished := finished s;
     destroyed := destroyed s; undefined := undefined s |}.

Definition destroy (m : member) (s : state) : state :=
  {| main := main s; tasks := tasks s; making := making s; processing := processing s; finished := finished s;
     destroyed := m :: destroyed s; undefined := undefined s |}.

Definition uses (ms : list member) (s : state) : state :=
  {| main := main s; tasks := tasks s; making := making s; processing := processing s; finished := finished s;
     destroyed := destroyed s;
     undefined := undefined s || existsb (λ m, bool_decide (m ∈ destroyed s)) ms |}.

Definition with_work (mk pr fin : list T) (s : state) : state :=
  {| main := main s; tasks := tasks s; making := mk; processing := pr; finished := fin;
     destroyed := destroyed s; undefined := undefined s |}.

(** [wait()] returns when no task is queued or executed. *)
Definition idle (s : state) : bool :=
  match queued (tasks s), executing (tasks s) with [], [] => true | _, _ => false end.

(** The destructor of the pool waits, too. *)
(* @fn src/src/core/manager.cpp | Manager::~Manager() = default; | Manager::~Manager *)
Definition destroy_step (m : member) (s : state) : option state :=
  match m with
  | thread_pool_ => if idle s then Some (destroy m s) else None
  | _ => Some (destroy m s)
  end.

(** The next step of the main thread, if it can go on. *)
(* @src src/src/core/manager.cpp 110 131 Manager::Impl::run (pool) *)
Definition main_step (s : state) : option state :=
  match main s with
  | Handing (t :: ts) => Some (at_main (Handing ts) (with_tasks (detach_task t (tasks s)) (uses [driver_manager_; thread_pool_] s)))
  | Handing [] => Some (at_main Waiting (uses [stop_source_; scheduler_] s))
  | Waiting => if idle s then Some (at_main (Destroying destruction) s) else None
  | Destroying (m :: ms) => at_main (Destroying ms) <$> destroy_step m s
  | Destroying [] => Some (at_main Gone s)
  | Gone => None
  end.

(** An exception that leaves the loop, as from a failed allocation, skips the wait. *)
Definition throw_step (s : state) : option state :=
  match main s with
  | Handing _ => Some (at_main (Destroying destruction) s)
  | _ => None
  end.

(** A thread's steps: it takes a task, makes the client, and processes. *)
(* @src src/src/core/manager.cpp 116 119 Manager::Impl::run (task) *)
Inductive thread_step : state → state → Prop :=
| thread_takes t p s :
    pool_begins t (tasks s) p →
    thread_step s (with_work (t :: making s) (processing s) (finished s) (with_tasks p s))
| thread_makes l1 t l2 s :
    making s = l1 ++ t :: l2 →
    thread_step s (with_work (l1 ++ l2) (t :: processing s) (finished s) (uses [http_client_factory_] s))
| thread_processes l1 t l2 p s :
    processing s = l1 ++ t :: l2 → pool_ends t (tasks s) p →
    thread_step s (with_work (making s) (l1 ++ l2) (t :: finished s)
      (with_tasks p (uses [updater_; dispatcher_; driver_manager_] s))).

(* @src src/src/core/manager.cpp 106 132 Manager::Impl::run (interleavings) *)
Inductive step (throws : bool) : state → state → Prop :=
| step_main s s' : main_step s = Some s' → step throws s s'
| step_throw s s' : throws = true → throw_step s = Some s' → step throws s s'
| step_thread s s' : thread_step s s' → step throws s s'.

(* @src src/src/core/manager.cpp 83 87 Manager::Impl::Impl *)
Definition started (threads : Z) (ts : list T) : state :=
  {| main := Handing ts; tasks := new_pool threads; making := []; processing := []; finished := [];
     destroyed := []; undefined := false |}.
End pool.
#[global] Arguments main_pc : clear implicits.
#[global] Arguments state T {_}.
End Pool.
Import Pool.

(** * Invariant *)

Section pool_proofs.
Context {T : Type} `{ThreadPoolOk T}.
Implicit Types (s : state T) (ts : list T).

(** The tasks that have not been handed over. *)
Definition remaining s : list T := match main s with Handing ts => ts | _ => [] end.

(** Tasks are neither lost nor run twice, and no member is destroyed while one
    is left. *)
Record pool_inv ts s : Prop := {
  inv_pool : pool_ok (tasks s);
  inv_work : executing (tasks s) ≡ₚ making s ++ processing s;
  inv_tasks : finished s ++ making s ++ processing s ++ queued (tasks s) ++ remaining s ≡ₚ ts;
  inv_destroyed :
    match main s with
    | Handing _ | Waiting => destroyed s = []
    | Destroying ms => idle s = true ∧ rev (destroyed s) ++ ms = destruction
    | Gone => idle s = true ∧ rev (destroyed s) = destruction
    end;
  inv_defined : undefined s = false
}.

Lemma idle_iff s : idle s = true ↔ queued (tasks s) = [] ∧ executing (tasks s) = [].
Proof. unfold idle. by destruct (queued (tasks s)), (executing (tasks s)); naive_solver. Qed.

Lemma started_inv threads ts : (0 < threads)%Z → pool_inv ts (started threads ts).
Proof.
  intros Hn. destruct (new_pool_idle threads) as [Hq He]. split; simpl; rewrite ?Hq, ?He; try done.
  by apply new_pool_ok.
Qed.

Lemma main_step_inv ts s s' : pool_inv ts s → main_step s = Some s' → pool_inv ts s'.
Proof.
  intros [Hp Hw Ht Hd Hu] Hs. unfold main_step, remaining in *. destruct (main s) as [[|t rest]| |[|m ms]|] eqn:Hm.
  - injection Hs as <-. split; simpl; try done. by rewrite Hd, Hu.
  - injection Hs as <-. destruct (detach_task_ok t (tasks s) Hp) as (Hp' & Hq & He).
    split; simpl; [done|by rewrite He| |done|by rewrite Hd, Hu].
    rewrite <- Ht, Hq. simpl. do 3 f_equiv. by rewrite Permutation_middle.
  - destruct (idle s) eqn:Hi; [|done]. injection Hs as <-. split; simpl; try done. by rewrite Hd.
  - injection Hs as <-. destruct Hd as [Hi Hd]. split; simpl; try done. rewrite app_nil_r in Hd. done.
  - destruct (destroy_step m s) as [s1|] eqn:Hs1; [|done]. injection Hs as <-. destruct Hd as [Hi Hd].
    assert (s1 = destroy m s) as -> by (unfold destroy_step in Hs1; repeat case_match; congruence).
    split; simpl; try done. by rewrite <- app_assoc.
  - done.
Qed.

Lemma thread_step_inv ts s s' : pool_inv ts s → thread_step s s' → pool_inv ts s'.
Proof.
  intros [Hp Hw Ht Hd Hu] Hs.
  (* a thread that has work finds all members *)
  assert (executing (tasks s) ≠ [] ∨ queued (tasks s) ≠ [] → destroyed s = []) as Hnone.
  { intros Hwork. destruct (main s); [done|done|..]; destruct Hd as [Hi _]; apply idle_iff in Hi as [Hq He];
      by destruct Hwork. }
  destruct Hs as [t p s Hb|l1 t l2 s Hmk|l1 t l2 p s Hpr Hb].
  - destruct (pool_begins_ok t _ _ Hp Hb) as (Hp' & Hq & He).
    assert (queued (tasks s) ≠ []) as Hne by (intros Hnil; rewrite Hnil in Hq; by apply Permutation_nil_cons in Hq).
    assert (destroyed s = []) as Hd0 by auto. split; simpl; try done.
    + by rewrite He, Hw.
    + rewrite <- Ht, Hq. unfold remaining. simpl. solve_Permutation.
    + destruct (main s); try done; destruct Hd as [Hi _]; apply idle_iff in Hi as [? _]; done.
  - assert (executing (tasks s) ≠ []) as Hne.
    { intros Hnil. rewrite Hmk, Hnil in Hw. apply (Permutation_length) in Hw. rewrite !length_app in Hw. simpl in Hw. lia. }
    assert (destroyed s = []) as Hd0 by auto. split; simpl; try done.
    + rewrite Hw, Hmk. solve_Permutation.
    + rewrite <- Ht, Hmk. unfold remaining. simpl. solve_Permutation.
    + by rewrite Hd0, Hu.
  - destruct (pool_ends_ok t _ _ Hp Hb) as (Hp' & Hq & He).
    assert (executing (tasks s) ≠ []) as Hne by (intros Hnil; rewrite Hnil in He; by apply Permutation_nil_cons in He).
    assert (destroyed s = []) as Hd0 by auto. split; simpl; try done.
    + apply (Permutation_cons_inv (a:=t)). rewrite <- He, Hw, Hpr. solve_Permutation.
    + rewrite <- Ht, Hpr, Hq. unfold remaining. simpl. solve_Permutation.
    + destruct (main s); try done; destruct Hd as [Hi _]; apply idle_iff in Hi as [_ ?]; done.
    + by rewrite Hd0, Hu.
Qed.

Lemma reachable_pool_inv threads ts s :
  (0 < threads)%Z → rtc (step false) (started threads ts) s → pool_inv ts s.
Proof.
  intros Hn. apply (rtc_ind_r (pool_inv ts)); [by apply started_inv|].
  intros y z _ Hstep Hy. destruct Hstep as [s1 s2 Hs|s1 s2 Hf _|s1 s2 Hs]; [by eapply main_step_inv|done|by eapply thread_step_inv].
Qed.

(** ** The end comes *)

Definition weight s : nat :=
  match main s with Handing _ => 11 | Waiting => 10 | Destroying ms => 1 + length ms | Gone => 0 end
  + 4 * length (remaining s) + 3 * length (queued (tasks s)) + 2 * length (making s) + length (processing s).

Lemma step_decreases ts s s' : pool_inv ts s → step false s s' → weight s' < weight s.
Proof.
  intros Hinv Hstep. destruct Hstep as [s1 s2 Hs|s1 s2 Hf _|s1 s2 Hs]; [|done|]; destruct Hinv as [Hp Hw _ _ _].
  - unfold main_step in Hs. unfold weight, remaining.
    destruct (main s1) as [[|t rest]| |[|m ms]|] eqn:Hm; [injection Hs as <-; simpl; lia| | | | |done].
    + injection Hs as <-. destruct (detach_task_ok t (tasks s1) Hp) as (_ & Hq%Permutation_length & _). simpl in *. lia.
    + destruct (idle s1); [|done]. injection Hs as <-. simpl. lia.
    + injection Hs as <-. simpl. lia.
    + destruct (destroy_step m s1) as [s3|] eqn:Hs1; [|done]. injection Hs as <-.
      assert (s3 = destroy m s1) as -> by (unfold destroy_step in Hs1; repeat case_match; congruence). simpl. lia.
  - unfold weight, remaining. destruct Hs as [t p s1 Hb|l1 t l2 s1 Hmk|l1 t l2 p s1 Hpr Hb].
    + destruct (pool_begins_ok t _ _ Hp Hb) as (_ & Hq%Permutation_length & _). simpl in *. lia.
    + rewrite Hmk, length_app. simpl. rewrite length_app. lia.
    + destruct (pool_ends_ok t _ _ Hp Hb) as (_ & Hq & _). rewrite Hpr, length_app. simpl. rewrite Hq, length_app. lia.
Qed.

(** A pool with a task can go on. *)
Lemma thread_progress ts s : pool_inv ts s → idle s = false → ∃ s', thread_step s s'.
Proof.
  intros [Hp Hw _ _ _] Hi. destruct (decide (length (executing (tasks s)) = 0)) as [He%length_zero_iff_nil|He].
  - destruct (pool_can_begin (tasks s) Hp) as (t & p' & Hb); [|done|eexists; by apply (thread_takes t p')].
    intros Hq. assert (idle s = true) by by apply idle_iff. congruence.
  - destruct (making s) as [|t l] eqn:Hmk; [|eexists; by apply (thread_makes [] t l)].
    destruct (processing s) as [|t l] eqn:Hpr; [by rewrite Hw in He|].
    destruct (pool_can_end t (tasks s) Hp) as [p' Hb]; [rewrite Hw; by left|].
    eexists. by apply (thread_processes [] t l p').
Qed.

Lemma pool_progress ts s : pool_inv ts s → main s = Gone ∨ ∃ s', step false s s'.
Proof.
  intros Hinv. destruct (main_step s) as [s'|] eqn:Hs; [right; exists s'; by apply step_main|].
  destruct (idle s) eqn:Hi.
  - left. unfold main_step, destroy_step in Hs. rewrite Hi in Hs. repeat case_match; done.
  - right. destruct (thread_progress ts s Hinv Hi) as [s' Hs']. exists s'. by apply step_thread.
Qed.

(** When members are being destroyed the tasks are done. *)
Lemma all_finished ts s : pool_inv ts s → destroyed s ≠ [] ∨ main s = Gone → finished s ≡ₚ ts.
Proof.
  intros [Hp Hw Ht Hd _] Hend. unfold remaining in Ht.
  assert (idle s = true ∧ match main s with Handing _ | Waiting => False | _ => True end) as [Hi Hm].
  { destruct (main s) eqn:Hm; [by destruct Hend..| |]; by destruct Hd. }
  apply idle_iff in Hi as [Hq He]. rewrite He in Hw. apply Permutation_nil_l in Hw.
  symmetry in Hw. apply app_eq_nil in Hw as [Hmk Hpr]. rewrite Hmk, Hpr, Hq in Ht. simpl in Ht.
  rewrite <- Ht. destruct (main s); try done; by rewrite app_nil_r.
Qed.
End pool_proofs.

(** * The manager's threads *)

Lemma pool_size_positive {generic} (thread_count : Z) (config : AppConfig generic) :
  (0 < estimate_pool_size thread_count config)%Z.
Proof.
  unfold estimate_pool_size. cbv zeta. set (total := foldl _ _ _). clearbody total.
  destruct (_ || _) eqn:Hor; [lia|]. prop_of_bool. destruct (_ <? _)%Z; lia.
Qed.

Section manager_proofs.
Context {generic W : Type} `{ThreadPoolOk (Driver W * UpdateTask generic)}.

(** What the loop hands over in its iterations. *)
Definition handed (cs : list (cycle generic W)) : list (Driver W * UpdateTask generic) := cs ≫= detached.

(** C5: While the main thread hands over the tasks of its iterations, waits and
    destroys the manager, and however the pool's threads interleave: no thread
    uses a member that has been destroyed; each task is in exactly one place, is
    run once, and is finished before the first member is destroyed; and the
    shutdown cannot get stuck or go on for ever, since until the manager is gone
    some thread can make a step and every step brings the end nearer. *)
Theorem manager_pool_spec thread_count (config : AppConfig generic) (cs : list (cycle generic W)) s :
  rtc (step false) (started (estimate_pool_size thread_count config) (handed cs)) s →
  undefined s = false
  ∧ finished s ++ making s ++ processing s ++ queued (tasks s) ++ remaining s ≡ₚ handed cs
  ∧ (destroyed s ≠ [] ∨ main s = Gone → finished s ≡ₚ handed cs)
  ∧ (main s = Gone ∨ ∃ s', step false s s')
  ∧ (∀ s', step false s s' → weight s' < weight s).
Proof.
  intros Hr. apply reachable_pool_inv in Hr as Hinv; [|apply pool_size_positive].
  split; [apply Hinv|]. split; [apply Hinv|]. split; [by apply all_finished|]. split; [by eapply pool_progress|].
  intros s'. by eapply step_decreases.
Qed.
End manager_proofs.

(** * An example: a queue in the order of arrival *)

Section fifo.
Context {T : Type}.

Record fifo := { waiting : list T; working : list T; size : nat }.

Definition fifo_begins (t : T) (p p' : fifo) : Prop :=
  ∃ rest, waiting p = t :: rest ∧ length (working p) < size p
    ∧ p' = {| waiting := rest; working := t :: working p; size := size p |}.

Definition fifo_ends (t : T) (p p' : fifo) : Prop :=
  ∃ l1 l2, working p = l1 ++ t :: l2 ∧ p' = {| waiting := waiting p; working := l1 ++ l2; size := size p |}.

#[export] Instance fifo_pool : ThreadPool T := {|
  pool := fifo;
  new_pool := λ n, {| waiting := []; working := []; size := Z.to_nat n |};
  detach_task := λ t p, {| waiting := waiting p ++ [t]; working := working p; size := size p |};
  pool_begins := fifo_begins;
  pool_ends := fifo_ends;
  queued := waiting;
  executing := working
|}.

#[export] Instance fifo_pool_ok : ThreadPoolOk T.
Proof.
  refine {| pool_ok := λ p : pool T, 0 < size p |}; simpl.
  - lia.
  - done.
  - intros t p Hp. split_and!; [done| |done]. by rewrite Permutation_app_comm.
  - intros t p p' Hp (rest & Hw & _ & ->). by rewrite Hw.
  - intros t p p' Hp (l1 & l2 & Hw & ->). split_and!; [done..|]. rewrite Hw. symmetry. apply Permutation_middle.
  - intros p Hp Hq He. destruct (waiting p) as [|t rest] eqn:Hw; [done|]. exists t. eexists. exists rest.
    rewrite He. by split_and!.
  - intros t p Hp (l1 & l2 & Hw)%list_elem_of_split. eexists. by exists l1, l2.
Defined.

(** The threads' choices: the oldest task is taken, the newest worked on. *)
Inductive action := AMain | AThrow | ATake | AMake | AProcess.

Definition act (a : action) (s : state T) : option (state T) :=
  match a with
  | AMain => main_step s
  | AThrow => throw_step s
  | ATake =>
      match waiting (tasks s) with
      | t :: rest =>
          if length (working (tasks s)) <? size (tasks s) then
            Some (with_work (t :: making s) (processing s) (finished s)
              (with_tasks {| waiting := rest; working := t :: working (tasks s); size := size (tasks s) |} s))
          else None
      | [] => None
      end
  | AMake =>
      match making s with
      | t :: rest => Some (with_work rest (t :: processing s) (finished s) (uses [http_client_factory_] s))
      | [] => None
      end
  | AProcess =>
      match processing s, working (tasks s) with
      | [t], [_] =>
          Some (with_work (making s) [] (t :: finished s)
            (with_tasks {| waiting := waiting (tasks s); working := []; size := size (tasks s) |}
              (uses [updater_; dispatcher_; driver_manager_] s)))
      | _, _ => None
      end
  end.

Fixpoint acts (l : list action) (s : state T) : option (state T) :=
  match l with [] => Some s | a :: l => act a s ≫= acts l end.

Lemma act_step throws a s s' :
  (a = AThrow → throws = true) → (a = AProcess → executing (tasks s) ≡ₚ making s ++ processing s) →
  act a s = Some s' → step throws s s'.
Proof.
  intros Ht Hp Ha. destruct a; simpl in Ha.
  - by apply step_main.
  - apply step_throw; [by apply Ht|done].
  - destruct (waiting (tasks s)) as [|t rest] eqn:Hw; [done|]. destruct (_ <? _) eqn:Hl; [|done].
    injection Ha as <-. apply Nat.ltb_lt in Hl. apply step_thread, thread_takes. by exists rest.
  - destruct (making s) as [|t rest] eqn:Hm; [done|]. injection Ha as <-.
    apply step_thread. by apply (thread_makes [] t rest).
  - destruct (processing s) as [|t [|? ?]] eqn:Hpr; [done| |done].
    destruct (working (tasks s)) as [|t' [|? ?]] eqn:Hw; [done| |done]. injection Ha as <-.
    specialize (Hp eq_refl). simpl in Hp. rewrite Hw in Hp.
    destruct (making s) as [|? ?] eqn:Hm; [|apply Permutation_length in Hp; rewrite length_app in Hp; simpl in Hp; lia].
    apply Permutation_singleton_l in Hp. simpl in Hp. injection Hp as ->.
    assert (fifo_ends t (tasks s) {| waiting := waiting (tasks s); working := []; size := size (tasks s) |}) as He
      by by exists [], [].
    pose proof (thread_processes [] t [] _ s Hpr He) as Hs'. rewrite Hm in Hs'. by apply step_thread.
Qed.

(** Schedules without an exception are executions. *)
Lemma acts_reach l threads ts s s' :
  (0 < threads)%Z → AThrow ∉ l → rtc (step false) (started threads ts) s → acts l s = Some s' →
  rtc (step false) (started threads ts) s'.
Proof.
  intros Hn. revert s. induction l as [|a l IH]; intros s Hl Hr Hs; simpl in Hs; [by injection Hs as <-|].
  destruct (act a s) as [s1|] eqn:Ha; [|done]. apply not_elem_of_cons in Hl as [Ha' Hl].
  apply (IH s1); [done| |done]. eapply rtc_r; [exact Hr|]. apply (act_step false a s s1); [congruence| |exact Ha].
  intros _. apply (inv_work ts). by eapply reachable_pool_inv.
Qed.

Lemma acts_throwing l (s s' : state T) : AProcess ∉ l → acts l s = Some s' → rtc (step true) s s'.
Proof.
  revert s. induction l as [|a l IH]; intros s Hl Hs; simpl in Hs; [injection Hs as <-; apply rtc_refl|].
  destruct (act a s) as [s1|] eqn:Ha; [|done]. apply not_elem_of_cons in Hl as [Ha' Hl].
  eapply rtc_l; [|by apply IH]. apply (act_step true a s s1); [done|congruence|exact Ha].
Qed.
End fifo.

#[export] Instance action_eq_dec : EqDecision action.
Proof. solve_decision. Defined.

(** An exception with a task in the queue: the thread that takes it calls the
    destroyed factory, since the pool is destroyed after it. *)
Lemma exception_uses_destroyed_member :
  ∃ s : state nat, rtc (step true) (started 2 [7; 8]) s ∧ undefined s = true.
Proof.
  destruct (acts [AMain; AThrow; AMain; ATake; AMake] (started (T:=nat) 2 [7; 8])) as [s|] eqn:Hs; [|by vm_compute in Hs].
  exists s. split; [apply (acts_throwing _ _ _) in Hs; [done|apply (bool_decide_unpack _); vm_compute; exact I]|].
  apply (f_equal (fmap undefined)) in Hs. vm_compute in Hs. by injection Hs.
Qed.

(** The tasks of the sample configuration's two iterations; a thread works on the
    first while the main thread goes on, and the main thread waits for the last. *)
Definition sample_handed : list (cycle unit unit) := match sample_start with Ret cs => cs | _ => [] end.

Definition sample_shutdown : list action :=
  [AMain; ATake; AMake; AMain; AProcess; AMain; AMain; ATake; AMake; AProcess; ATake; AMake; AProcess]
  ++ replicate 10 AMain.

Lemma manager_pool_spec_witness :
  ∃ s, rtc (step false) (started 2 (handed sample_handed)) s ∧ main s = Gone ∧ undefined s = false
    ∧ finished s ≡ₚ handed sample_handed ∧ length (handed sample_handed) = 3.
Proof.
  destruct (acts sample_shutdown (started 2 (handed sample_handed))) as [s|] eqn:Hs; [|by vm_compute in Hs].
  assert (main s = Gone) as Hgone.
  { apply (f_equal (fmap main)) in Hs. simpl in Hs. apply (inj Some). rewrite <- Hs. vm_compute. reflexivity. }
  assert (rtc (step false) (started 2 (handed sample_handed)) s) as Hr.
  { eapply (acts_reach sample_shutdown); [done| |apply rtc_refl|exact Hs].
    apply (bool_decide_unpack _). vm_compute. exact I. }
  exists s. split; [exact Hr|]. change 2%Z with (estimate_pool_size 8 sample_config) in Hr.
  destruct (manager_pool_spec 8 sample_config sample_handed s Hr) as (Hu & _ & Hf & _).
  split; [exact Hgone|]. split; [exact Hu|]. split; [apply Hf; by right|]. vm_compute. reflexivity.
Defined.
