(* ===== verification/Cli.v ===== *)
(** [src/cli] and [src/main.cpp]: the commands, what they print and return, and
    the entry point.  CLI11, which reads the command line, is a parameter: it
    gives the commands whose callbacks run. *)
From S2P Require Import Prelude CppString Address StringUtil Uri DnsTypes Config Io NetDevices Registry Scheduler Updater Drivers Manager.
From stdpp Require Import gmap.

Inductive stream := Stdout | Stderr.

(** What has been printed, a line an element. *)
Abbreviation console := (list (stream * bytes)).

(** The classes of exceptions that are told apart, with their texts. *)
Inductive exception :=
| ConfigVerificationException (what : bytes)
| YaddnscException (what : bytes)
| StdException (what : bytes).

Definition what (e : exception) : bytes :=
  match e with ConfigVerificationException w | YaddnscException w | StdException w => w end.

Definition of_driver_error (e : DriverError) : exception :=
  match e with
  | BadDriver w | DriverNotFound w => YaddnscException w
  | InvalidArgument w => StdException w
  end.

Definition of_config_error (e : ConfigError) : exception :=
  match e with
  | ConfigVerification w => ConfigVerificationException w
  | OtherException e => StdException (uri_what e)
  end.

Definition of_registry_error (e : registry_error) : exception :=
  match e with
  | Registry.Lookup e => YaddnscException (ei_message e)
  | FromUri e => StdException (uri_what e)
  end.

Definition of_start_error (e : start_error) : exception :=
  match e with
  | FromRegistry e => of_registry_error e
  | FromDrivers e => of_driver_error e
  | FromConfig e => of_config_error e
  end.

Definition EXIT_SUCCESS : Z := 0.
Definition EXIT_FAILURE : Z := 1.

(* @fn src/src/cli/cli.h | struct CliOutcome { | Cli::CliOutcome *)
Record CliOutcome := {
  should_run : bool;
  exit_code : Z;
  exit_early : bool;
  config_path : bytes;
  verbose : bool
}.

(** A command whose callback CLI11 runs, with its options. *)
Inductive command :=
| CmdRun (config : bytes) (debug : bool)
| CmdDriverList (config : bytes)
| CmdDriverInfo (config name : bytes)
| CmdInterfaceList
| CmdInterfaceIp (name : bytes)
| CmdDnsResolve (config host type : bytes)
| CmdDnsResolver (config : bytes)
| CmdConfigShow (config : bytes)
| CmdConfigTest (config : bytes) (quiet : bool)
| CmdInfo.

(* @fn src/include/interface/driver.h | struct DriverDetail final { | DriverDetail *)
Record DriverDetail := { dd_name : bytes; dd_description : bytes; dd_author : bytes; dd_version : bytes }.

Module Cli.
Section cli.
Context {generic W : Type} `{IT : InetText}.
(** A file as glaze reads it, or its error's text, and a configuration as it writes it. *)
Context (read_file_json : bytes → bytes + AppConfig generic) (write_json : AppConfig generic → bytes + bytes).
(** The dynamic loader, the files and the build, as in [Drivers] and [Manager]. *)
Context (dlopen : bytes → bytes + Library W) (exists_file is_directory : bytes → bool).
Context (directory : bytes → list (bytes * bool)).
Context (host_hash : Z) (abi : AbiVersion) (default_dir : bytes) (default_server : DnsServer).
Context (YADDNSC_MIN_UPDATE_INTERVAL : Z).
(** A driver's description, or the text of its exception. *)
Context (get_detail : Driver W → bytes + DriverDetail).
(** The interfaces with their addresses, or the text of the exception. *)
Context (interface_map : bytes + InterfaceMap).
(** The dispatcher's [resolve] on the resolvers that the factory made. *)
Context (dispatcher_resolve : list resolver * ResolverStrategy → bytes → RecordKind → DnsErrorInfo + list bytes).
(** The lines of [info], which are facts of the build. *)
Context (build_lines : list bytes).

Abbreviation io := (st console exception).

Definition println (s : stream) (line : bytes) : io unit := modify (λ printed, printed ++ [(s, line)]).

(* @fn src/src/config/config.cpp | Config::AppConfig Config::load_config( | Config::load_config *)
Definition load_config (config_path : bytes) : outcome exception (AppConfig generic) :=
  if negb (exists_file config_path) then
    Throw (StdException (str "Config file " ++ quoted config_path ++ str " does not exist"))
  else
    match read_file_json config_path with
    | inl error => Throw (StdException (str "Failed to parse config file, error: " ++ quoted error))
    | inr cfg => Ret cfg
    end.

Definition load (path : bytes) : io (AppConfig generic) := lift (load_config path).

(** A fresh manager and its drivers. *)
Definition loaded (config : AppConfig generic) : io (gmap bytes (Driver W)) :=
  lift (rethrow of_driver_error
    (load_drivers dlopen exists_file is_directory directory host_hash abi default_dir config ∅)).

Definition get_interfaces : io (list bytes) :=
  match interface_map with inl w => throw (StdException w) | inr m => mret m.*1 end.

Definition get_addresses (name : bytes) : io (list InetAddress) :=
  match interface_map with
  | inl w => throw (StdException w)
  | inr m =>
      match find_interface name m with
      | Some addresses => mret addresses
      | None => throw (StdException (str "Interface " ++ name ++ str " not found"))
      end
  end.

(** [fmt::join(l, ", ")] *)
Fixpoint joined (l : list bytes) : bytes :=
  match l with
  | [] => []
  | [x] => x
  | x :: l => x ++ str ", " ++ joined l
  end.

(** ** driver *)

(* @fn src/src/cli/driver.cpp | for (const auto &name: drivers) { | Cli::execute_driver_list (loop) *)
Fixpoint print_drivers (drivers : gmap bytes (Driver W)) (names : list bytes) : io unit :=
  match names with
  | [] => mret tt
  | name :: names =>
      _ ← match get_driver name drivers with
          | Ret driver =>
              match get_detail driver with
              | inr d => println Stdout (str "  " ++ dd_name d ++ str " — " ++ dd_description d ++ str " (v"
                           ++ dd_version d ++ str ", by " ++ dd_author d ++ str ")")
              | inl w => println Stdout (str "  " ++ name ++ str " — (failed to query details: " ++ w ++ str ")")
              end
          | Throw e => println Stdout (str "  " ++ name ++ str " — (failed to query details: "
                         ++ what (of_driver_error e) ++ str ")")
          | Undef => lift Undef
          | OutOfFuel => lift OutOfFuel
          end;
      print_drivers drivers names
  end.

(* @fn src/src/cli/driver.cpp | int execute_driver_list( | Cli::execute_driver_list *)
Definition execute_driver_list (config_path : bytes) : io Z :=
  config ← load config_path;
  driver_manager ← loaded config;
  let drivers := get_loaded_drivers driver_manager in
  if bool_decide (drivers = []) then
    _ ← println Stdout (str "No drivers loaded.");
    mret EXIT_SUCCESS
  else
    _ ← println Stdout (str "Loaded drivers (" ++ dec (Z.of_nat (length drivers)) ++ str "):");
    _ ← print_drivers driver_manager drivers;
    mret EXIT_SUCCESS.

(* @fn src/src/cli/driver.cpp | int execute_driver_info( | Cli::execute_driver_info *)
Definition execute_driver_info (config_path driver_name : bytes) : io Z :=
  config ← load config_path;
  driver_manager ← loaded config;
  match get_driver driver_name driver_manager with
  | Ret driver =>
      match get_detail driver with
      | inr d =>
          _ ← println Stdout (str "Name:        " ++ dd_name d);
          _ ← println Stdout (str "Description: " ++ dd_description d);
          _ ← println Stdout (str "Author:      " ++ dd_author d);
          _ ← println Stdout (str "Version:     " ++ dd_version d);
          mret EXIT_SUCCESS
      | inl w => _ ← println Stderr (str "Error: " ++ w); mret EXIT_FAILURE
      end
  | Throw e => _ ← println Stderr (str "Error: " ++ what (of_driver_error e)); mret EXIT_FAILURE
  | Undef => lift Undef
  | OutOfFuel => lift OutOfFuel
  end.

(** ** interface *)

(* @fn src/src/cli/interface.cpp | for (const auto &name: interfaces) { | Cli::execute_interface_list (loop) *)
Fixpoint print_interfaces (names : list bytes) : io unit :=
  match names with
  | [] => mret tt
  | name :: names =>
      addrs ← get_addresses name;
      _ ← println Stdout (str "  " ++ name
            ++ if bool_decide (addrs = []) then [] else str " (" ++ joined (to_string <$> addrs) ++ str ")");
      print_interfaces names
  end.

(* @fn src/src/cli/interface.cpp | int execute_interface_list() { | Cli::execute_interface_list *)
Definition execute_interface_list : io Z :=
  interfaces ← get_interfaces;
  if bool_decide (interfaces = []) then
    _ ← println Stdout (str "No network interfaces found.");
    mret EXIT_SUCCESS
  else
    _ ← println Stdout (str "Network interfaces (" ++ dec (Z.of_nat (length interfaces)) ++ str "):");
    _ ← print_interfaces interfaces;
    mret EXIT_SUCCESS.

Definition family_name (a : InetAddress) : bytes := match a with V4 _ => str "IPv4" | V6 _ => str "IPv6" end.

(* @fn src/src/cli/interface.cpp | for (const auto &addr: addrs) { | Cli::execute_interface_ip (loop) *)
Fixpoint print_addresses (addrs : list InetAddress) : io unit :=
  match addrs with
  | [] => mret tt
  | addr :: addrs =>
      _ ← println Stdout (str "  " ++ to_string addr ++ str " (" ++ family_name addr ++ str ")");
      print_addresses addrs
  end.

(* @fn src/src/cli/interface.cpp | int execute_interface_ip( | Cli::execute_interface_ip *)
Definition execute_interface_ip (interface_name : bytes) : io Z :=
  catch (addrs ← get_addresses interface_name;
         _ ← println Stdout (str "Interface: " ++ interface_name);
         _ ← print_addresses addrs;
         mret EXIT_SUCCESS)
    (λ e, _ ← println Stderr (str "Error: " ++ what e); mret EXIT_FAILURE).

(** ** dns *)

(** [magic_enum::enum_cast<RecordKind>(s, case_insensitive)] *)
Definition enum_cast (s : bytes) : option RecordKind :=
  let s := to_lower s in
  if bool_decide (s = str "a") then Some KIND_A
  else if bool_decide (s = str "aaaa") then Some KIND_AAAA
  else if bool_decide (s = str "txt") then Some KIND_TXT
  else None.

(* @fn src/src/cli/dns.cpp | int execute_dns_resolve(const std::string &config_path, const std::string &host, const std::string &type_str) { | Cli::execute_dns_resolve *)
Definition execute_dns_resolve (config_path host type_str : bytes) : io Z :=
  match enum_cast type_str with
  | None =>
      _ ← println Stderr (str "Error: unknown record type '" ++ type_str ++ str "'.");
      _ ← println Stderr (str "Valid types: " ++ joined [str "A"; str "AAAA"; str "TXT"]);
      mret EXIT_FAILURE
  | Some type =>
      config ← load config_path;
      resolver ← lift (rethrow of_registry_error (factory_create default_server (app_resolver config)));
      match dispatcher_resolve resolver host type with
      | inl err =>
          _ ← println Stdout (str "DNS lookup for " ++ host ++ str " (" ++ type_str ++ str ") failed: " ++ ei_message err);
          mret EXIT_SUCCESS
      | inr [] =>
          _ ← println Stdout (str "DNS lookup for " ++ host ++ str " (" ++ type_str ++ str ") returned no records");
          mret EXIT_SUCCESS
      | inr records =>
          _ ← println Stdout (str "DNS lookup result:");
          _ ← println Stdout (str "  Host:  " ++ host);
          _ ← println Stdout (str "  Type:  " ++ type_str);
          _ ← println Stdout (str "  Value: " ++ joined records);
          mret EXIT_SUCCESS
      end
  end.

Definition strategy_name (s : ResolverStrategy) : bytes :=
  match s with FALLBACK => str "FALLBACK" | CONCURRENT => str "CONCURRENT" end.

(** One configured server, as a URI or as a host and a port. *)
(* @fn src/src/cli/dns.cpp | const auto uri = Uri::parse(srv.address); ==> if (!uri.get_schema().empty()) { | Cli::execute_dns_resolver (server) *)
Definition server_line (srv : DnsServer) : outcome UriError bytes :=
  uri ← Uri.parse (ds_address srv);
  schema ← get_schema uri;
  if bool_decide (schema ≠ []) then
    display ← get_origin uri;
    path ← get_path uri;
    Ret (str "    - " ++ display ++ if bool_decide (path ≠ []) && bool_decide (path ≠ str "/") then path else [])
  else
    host ← get_host_literal uri;
    Ret (str "    - " ++ host ++ str ":" ++ dec (ds_port srv)).

(* @fn src/src/cli/dns.cpp | for (const auto &srv: resolver.servers) { | Cli::execute_dns_resolver (loop) *)
Fixpoint print_servers (servers : list DnsServer) : io unit :=
  match servers with
  | [] => mret tt
  | srv :: servers =>
      line ← lift (rethrow (λ e, StdException (uri_what e)) (server_line srv));
      _ ← println Stdout line;
      print_servers servers
  end.

(* @fn src/src/cli/dns.cpp | int execute_dns_resolver(const std::string &config_path) { | Cli::execute_dns_resolver *)
Definition execute_dns_resolver (config_path : bytes) : io Z :=
  config ← load config_path;
  let resolver := app_resolver config in
  _ ← println Stdout (str "DNS resolver configuration:");
  _ ← println Stdout (str "  Custom server: " ++ if use_custom_server resolver then str "yes" else str "no");
  _ ← println Stdout (str "  Strategy:      " ++ strategy_name (rc_strategy resolver));
  _ ← (if bool_decide (rc_servers resolver ≠ []) then
         _ ← println Stdout (str "  Servers (" ++ dec (Z.of_nat (length (rc_servers resolver))) ++ str "):");
         print_servers (rc_servers resolver)
       else if use_custom_server resolver && bool_decide (rc_address resolver ≠ []) then
         println Stdout (str "  Server: " ++ rc_address resolver ++ str ":" ++ dec (rc_port resolver))
       else mret tt);
  mret EXIT_SUCCESS.

(** ** config *)

(* @fn src/src/cli/config.cpp | int execute_config_show( | Cli::execute_config_show *)
Definition execute_config_show (config_path : bytes) : io Z :=
  config ← load config_path;
  match write_json config with
  | inl error => _ ← println Stderr (str "Failed to serialize config: " ++ error); mret EXIT_FAILURE
  | inr json => _ ← println Stdout json; mret EXIT_SUCCESS
  end.

(** The callback reads [quiet] after the function that declares it has returned;
    the model is of the flag's value. *)
(* @fn src/src/cli/config.cpp | int execute_config_test( | Cli::execute_config_test *)
Definition execute_config_test (config_path : bytes) (quiet : bool) : io Z :=
  catch (config ← load config_path;
         driver_manager ← loaded config;
         interfaces ← get_interfaces;
         _ ← lift (rethrow of_config_error
               (validate YADDNSC_MIN_UPDATE_INTERVAL (get_loaded_drivers driver_manager) interfaces config));
         _ ← (if quiet then mret tt else println Stdout (str "Configuration file test passed"));
         mret EXIT_SUCCESS)
    (λ e, _ ← println Stderr (match e with
                | ConfigVerificationException w => str "Configuration verification failed: " ++ w
                | YaddnscException w => str "Fatal error: unrecoverable exception: " ++ w
                | StdException w => str "Failed to validate configuration: " ++ w
                end);
          mret EXIT_FAILURE).

(** ** info *)

Fixpoint print_lines (lines : list bytes) : io unit :=
  match lines with [] => mret tt | l :: lines => _ ← println Stdout l; print_lines lines end.

(* @fn src/src/cli/info.cpp | void register_info_subcommand( | Cli::register_info_subcommand (callback) *)
Definition execute_info : io Z :=
  _ ← println Stdout (str "Build configuration:");
  _ ← print_lines build_lines;
  mret EXIT_SUCCESS.

(** ** Dispatch *)

(** What the callbacks leave: [run_requested] with its options, [exit_code]. *)
Record dispatched := { run_requested : option (bytes * bool); last_exit_code : Z }.

(** [exit_code = ...], in a callback. *)
Definition sets_code (m : io Z) : io (option Z) := code ← m; mret (Some code).

(** The exit code of a command other than run. *)
Definition execute_command (c : command) : io (option Z) :=
  match c with
  | CmdRun _ _ => mret None
  | CmdDriverList cfg => sets_code (execute_driver_list cfg)
  | CmdDriverInfo cfg name => sets_code (execute_driver_info cfg name)
  | CmdInterfaceList => sets_code (execute_interface_list)
  | CmdInterfaceIp name => sets_code (execute_interface_ip name)
  | CmdDnsResolve cfg host type => sets_code (execute_dns_resolve cfg host type)
  | CmdDnsResolver cfg => sets_code (execute_dns_resolver cfg)
  | CmdConfigShow cfg => sets_code (execute_config_show cfg)
  | CmdConfigTest cfg quiet => sets_code (execute_config_test cfg quiet)
  | CmdInfo => sets_code (execute_info)
  end.

(** [app.parse]: the callbacks in order, until one throws. *)
(* @fn src/src/cli/cli.cpp | void register_commands( | Cli::register_commands *)
Fixpoint run_callbacks (commands : list command) (d : dispatched) : io dispatched :=
  match commands with
  | [] => mret d
  | c :: commands =>
      code ← execute_command c;
      run_callbacks commands
        {| run_requested := match c with CmdRun cfg debug => Some (cfg, debug) | _ => run_requested d end;
           last_exit_code := default (last_exit_code d) code |}
  end.

(** [parsed]: the exit code of [app.exit] for a parse error (or for help and
    version), or the commands whose callbacks run. *)
(* @fn src/src/cli/cli.cpp | Cli::CliOutcome Cli::parse_and_dispatch( | Cli::parse_and_dispatch *)
Definition parse_and_dispatch (parsed : Z + list command) : st console Empty_set CliOutcome :=
  let leave code := {| should_run := false; exit_code := code; exit_early := true;
                       config_path := str "config.json"; verbose := false |} in
  match parsed with
  | inl code => mret (leave code)
  | inr commands =>
      r ← attempt (run_callbacks commands {| run_requested := None; last_exit_code := EXIT_SUCCESS |});
      match r with
      | inl e =>
          _ ← modify (λ printed, printed ++ [(Stderr, str "Error: " ++ what e)]);
          mret (leave EXIT_FAILURE)
      | inr d =>
          match run_requested d with
          | Some (cfg, debug) =>
              mret {| should_run := true; exit_code := 0; exit_early := false; config_path := cfg; verbose := debug |}
          | None =>
              if bool_decide (commands = []) then
                _ ← modify (λ printed, printed ++ [(Stderr,
                      str "Error: no subcommand specified. Use --help to see available commands.")]);
                mret (leave EXIT_FAILURE)
              else mret (leave (last_exit_code d))
          end
      end
  end.

(** * The entry point *)

Section main.
Context `{PriorityQueue (ScheduleEntry generic)}.

(** The try block of [main], on what the loop will observe: the interfaces are
    enumerated when the configuration is validated. *)
(* @src src/src/main.cpp 46 56 main (try) *)
Definition run_flow (fuel : nat) (clock : nat → Z) (env : list iteration) (path : bytes) : outcome exception (list (cycle generic W)) :=
  config ← load_config path;
  match interface_map with
  | inr m =>
      rethrow of_start_error (start dlopen exists_file is_directory directory host_hash abi default_dir default_server
        YADDNSC_MIN_UPDATE_INTERVAL m.*1 fuel clock env config)
  | inl w =>
      _ ← rethrow of_registry_error (factory_create default_server (app_resolver config));
      _ ← rethrow of_driver_error (load_drivers dlopen exists_file is_directory directory host_hash abi default_dir config ∅);
      Throw (StdException w)
  end.

(** The process's exit code. *)
(* @fn src/src/main.cpp | int main(int argc, char *argv[]) { | main *)
Definition main (fuel : nat) (clock : nat → Z) (env : list iteration) (parsed : Z + list command) : st console Empty_set Z :=
  cli ← parse_and_dispatch parsed;
  if negb (should_run cli) then mret (exit_code cli) else
  match run_flow fuel clock env (config_path cli) with
  | Ret _ => mret EXIT_SUCCESS
  | Throw _ => mret EXIT_FAILURE
  | Undef => lift Undef
  | OutOfFuel => lift OutOfFuel
  end.
End main.
End cli.
End Cli.
Import Cli.

(** * Correctness *)

(** A command ends, in an exit code or an exception. *)
Definition ends {A} (m : st console exception A) : Prop := ∀ c, swp m (λ _ _, True) (λ _ _, True) c.

Lemma ends_ret {A} (a : A) : ends (mret a).
Proof. done. Qed.

Lemma ends_throw {A} e : ends (throw (A:=A) e).
Proof. done. Qed.

Lemma ends_println s line : ends (println s line).
Proof. done. Qed.

Lemma cli_ends_bind {A B} (m : st console exception A) (f : A → st console exception B) :
  ends m → (∀ a, ends (f a)) → ends (m ≫= f).
Proof. intros Hm Hf c. eapply swp_call; [apply Hm|intros a s _; apply Hf|done]. Qed.

Lemma ends_lift {A} (m : outcome exception A) : defined m → ends (lift m).
Proof. intros Hm c. by destruct m. Qed.

Lemma ends_lift_rethrow {E A} (f : E → exception) (m : outcome E A) : defined m → ends (lift (rethrow f m)).
Proof. intros Hm. apply ends_lift. by destruct m. Qed.

Lemma ends_catch {A} (m : st console exception A) h : ends m → (∀ e, ends (h e)) → ends (catch m h).
Proof. intros Hm Hh c. apply swp_catch. eapply swp_mono; [apply Hm|done|]. intros e s _. apply Hh. Qed.

#[local] Create HintDb ends.
#[local] Hint Resolve ends_ret ends_throw ends_println ends_lift ends_lift_rethrow ends_catch : ends.

(** The rule of the outermost construct, again and again. *)
Ltac ends_step :=
  match goal with
  | |- ends (_ ≫= _) => apply cli_ends_bind; [|intros ?]
  | |- ends (catch _ _) => apply ends_catch; [|intros ?]
  | |- ends (if ?b then _ else _) => destruct b
  | |- ends (match ?x with _ => _ end) => destruct x
  | |- ends _ => solve [auto with ends]
  end.

Section cli_proofs.
Context {generic W : Type} `{IT : InetText}.
Context (read_file_json : bytes → bytes + AppConfig generic) (write_json : AppConfig generic → bytes + bytes).
Context (dlopen : bytes → bytes + Library W) (exists_file is_directory : bytes → bool).
Context (directory : bytes → list (bytes * bool)).
Context (host_hash : Z) (abi : AbiVersion) (default_dir : bytes) (default_server : DnsServer).
Context (min_interval : Z) (get_detail : Driver W → bytes + DriverDetail).
Context (interface_map : bytes + InterfaceMap).
Context (dispatcher_resolve : list resolver * ResolverStrategy → bytes → RecordKind → DnsErrorInfo + list bytes).
Context (build_lines : list bytes).

Context (create_nonnull : ∀ path lib, dlopen path = inr lib → create lib ≠ inr (Some None)).

Abbreviation load_of := (load_config read_file_json exists_file).

Lemma load_defined path : defined (load_of path).
Proof using Type. unfold load_config. destruct (negb _); [done|]. by destruct (read_file_json path). Qed.

Lemma load_of_read path cfg : load_of path = Ret cfg → read_file_json path = inr cfg.
Proof using Type. unfold load_config. destruct (negb _); [done|]. destruct (read_file_json path); [done|congruence]. Qed.

Abbreviation the_drivers config := (load_drivers dlopen exists_file is_directory directory host_hash abi default_dir (config : AppConfig generic) ∅).

Lemma ends_load path : ends (load read_file_json exists_file path).
Proof using Type. apply ends_lift, load_defined. Qed.

Lemma drivers_defined (config : AppConfig generic) : defined (the_drivers config).
Proof using create_nonnull. eapply wp_defined, load_drivers_ok, create_nonnull. Qed.

Lemma factory_defined (r : ResolverConfig) : defined (factory_create default_server r).
Proof using Type. eapply wp_defined, factory_create_ok. Qed.

Lemma ends_loaded (config : AppConfig generic) :
  ends (loaded dlopen exists_file is_directory directory host_hash abi default_dir config).
Proof using create_nonnull. apply ends_lift_rethrow, drivers_defined. Qed.

Lemma server_line_defined srv : defined (server_line srv).
Proof using Type.
  unfold server_line. destruct (Uri.parse _) as [u|e| |] eqn:Hu;
    [|done|by pose proof (parse_defined (ds_address srv)) as Hp; rewrite Hu in Hp..].
  cbn [mbind outcome_bind]. pose proof (Config.schema_defined _ _ Hu) as Hs.
  destruct (get_schema u) as [s|e| |] eqn:Hs'; [|done..].
  cbn [mbind outcome_bind]. case_bool_decide as Hne.
  - destruct (origin_defined _ _ _ Hu Hs' Hne) as [o ->]. destruct (path_defined _ _ Hu) as [p ->]. done.
  - destruct (host_literal_defined _ _ Hu) as [h ->]. done.
Qed.

(** ** Every command ends *)

Lemma ends_print_drivers drivers names : ends (print_drivers get_detail drivers names).
Proof using Type.
  induction names as [|name names IH]; [apply ends_ret|]. simpl. apply cli_ends_bind; [|done].
  unfold get_driver. destruct (drivers !! name) as [d|]; [destruct (get_detail d)|]; apply ends_println.
Qed.

Lemma ends_get_interfaces : ends (get_interfaces interface_map).
Proof using Type. unfold get_interfaces. by destruct interface_map. Qed.

Lemma ends_get_addresses name : ends (get_addresses interface_map name).
Proof using Type. unfold get_addresses. destruct interface_map as [|m]; [done|]. by destruct (find_interface name m). Qed.

Lemma ends_print_interfaces names : ends (print_interfaces interface_map names).
Proof using Type.
  induction names as [|name names IH]; simpl; [apply ends_ret|].
  apply cli_ends_bind; [apply ends_get_addresses|intros addrs]. by apply cli_ends_bind; [apply ends_println|].
Qed.

Lemma ends_print_addresses addrs : ends (print_addresses addrs).
Proof using Type. induction addrs as [|a addrs IH]; simpl; [apply ends_ret|]. by apply cli_ends_bind; [apply ends_println|]. Qed.

Lemma ends_print_servers servers : ends (print_servers servers).
Proof using Type.
  induction servers as [|s servers IH]; simpl; [apply ends_ret|].
  apply cli_ends_bind; [apply ends_lift_rethrow, server_line_defined|intros line]. by apply cli_ends_bind; [apply ends_println|].
Qed.

Lemma ends_print_lines lines : ends (print_lines lines).
Proof using Type. induction lines as [|l lines IH]; simpl; [apply ends_ret|]. by apply cli_ends_bind; [apply ends_println|]. Qed.

#[local] Hint Resolve ends_load ends_loaded ends_print_drivers ends_get_interfaces ends_get_addresses
  ends_print_interfaces ends_print_addresses ends_print_servers ends_print_lines : ends.
#[local] Hint Resolve factory_defined decides_defined validate_decides : ends.

Lemma ends_driver_info config name :
  ends (execute_driver_info read_file_json dlopen exists_file is_directory directory host_hash abi default_dir
          get_detail config name).
Proof using create_nonnull.
  unfold execute_driver_info. do 2 (apply cli_ends_bind; [auto with ends|intros ?]).
  unfold get_driver. destruct (_ !! name); repeat ends_step.
Qed.

Lemma ends_config_test config quiet :
  ends (execute_config_test read_file_json dlopen exists_file is_directory directory host_hash abi default_dir
          min_interval interface_map config quiet).
Proof using create_nonnull.
  unfold execute_config_test. repeat ends_step.
  apply ends_lift_rethrow. eapply decides_defined, validate_decides.
Qed.

#[local] Hint Resolve ends_driver_info ends_config_test : ends.

Abbreviation command_of := (execute_command read_file_json write_json dlopen exists_file is_directory directory
  host_hash abi default_dir default_server min_interval get_detail interface_map dispatcher_resolve build_lines).

Lemma ends_command c : ends (command_of c).
Proof using create_nonnull.
  destruct c; unfold execute_command, sets_code; apply cli_ends_bind || apply ends_ret; auto with ends; try done.
  - unfold execute_driver_list. repeat ends_step.
  - unfold execute_interface_list. repeat ends_step.
  - unfold execute_interface_ip. repeat ends_step.
  - unfold execute_dns_resolve. repeat ends_step.
  - unfold execute_dns_resolver. repeat ends_step.
  - unfold execute_config_show. repeat ends_step.
  - unfold execute_info. repeat ends_step.
Qed.

Lemma ends_callbacks commands d :
  ends (run_callbacks read_file_json write_json dlopen exists_file is_directory directory host_hash abi default_dir
          default_server min_interval get_detail interface_map dispatcher_resolve build_lines commands d).
Proof using create_nonnull.
  revert d. induction commands as [|c commands IH]; intros d; [apply ends_ret|]. simpl.
  apply cli_ends_bind; [apply ends_command|intros ?; apply IH].
Qed.

Abbreviation dispatch_of := (parse_and_dispatch read_file_json write_json dlopen exists_file is_directory directory
  host_hash abi default_dir default_server min_interval get_detail interface_map dispatcher_resolve build_lines).

Lemma dispatch_returns parsed printed : ∃ o printed', dispatch_of parsed printed = (Ret o, printed').
Proof using create_nonnull.
  assert (swp (dispatch_of parsed) (λ _ _, True) (λ _ _, True) printed) as Hd.
  { destruct parsed as [code|commands]; [done|]. unfold parse_and_dispatch.
    eapply swp_attempt_bind; [apply ends_callbacks| |done]. intros d s _.
    destruct (run_requested d) as [[cfg debug]|]; [done|]. by destruct (bool_decide _). }
  apply swp_cases in Hd as [(o & s & Ho & _)|(e & _)]; [eauto|done].
Qed.

(** ** The run flow starts exactly when the configuration tests well *)

(** What the drivers and the validation say of a configuration. *)
Definition accepted (cfg : AppConfig generic) : Prop :=
  ∃ drivers m, the_drivers cfg = Ret drivers ∧ interface_map = inr m
    ∧ config_ok min_interval (get_loaded_drivers drivers) m.*1 cfg.

Abbreviation test_of := (execute_config_test read_file_json dlopen exists_file is_directory directory
  host_hash abi default_dir min_interval interface_map).

Lemma config_test_ok path quiet printed :
  (test_of path quiet printed).1 = Ret EXIT_SUCCESS ↔ ∃ cfg, load_of path = Ret cfg ∧ accepted cfg.
Proof using create_nonnull.
  clear write_json. pose proof (load_defined path) as Hl.
  unfold execute_config_test, catch, load, loaded, get_interfaces, lift, println, modify, mbind, st_bind.
  destruct (load_of path) as [cfg|e| |]; [|by split; [|naive_solver]|done..].
  transitivity (accepted cfg); [|naive_solver].
  pose proof (drivers_defined cfg) as Hd. unfold accepted.
  destruct (the_drivers cfg) as [drivers|e| |]; [|by split; [|naive_solver]|done..].
  destruct interface_map as [w|m]; [by split; [|naive_solver]|]. cbn [rethrow mret st_ret].
  destruct (validate_decides min_interval (get_loaded_drivers drivers) m.*1 cfg) as [[-> Hok]|(e & -> & Hno)];
    cbn [rethrow].
  - split; [|by destruct quiet]. intros _. by exists drivers, m.
  - split; [done|]. intros (drivers' & m' & [= <-] & [= <-] & Hok). done.
Qed.

Section main_proofs.
Context `{PQ : PriorityQueueOk (ScheduleEntry generic) entry_gt}.

Abbreviation flow := (run_flow read_file_json dlopen exists_file is_directory directory host_hash abi default_dir
  default_server min_interval interface_map).

Lemma run_flow_ok fuel clock env path cfg :
  (0 < min_interval)%Z → load_of path = Ret cfg → length (domain_subdomains cfg) < fuel →
  defined (flow fuel clock env path)
  ∧ ((∃ cs, flow fuel clock env path = Ret cs)
     ↔ accepted cfg ∧ ∃ r, factory_create default_server (app_resolver cfg) = Ret r).
Proof using PQ create_nonnull.
  clear write_json dispatcher_resolve. intros Hmin Hl Hfuel. unfold run_flow, start. rewrite Hl. cbn [mbind outcome_bind].
  pose proof (factory_defined (app_resolver cfg)) as Hf. pose proof (drivers_defined cfg) as Hd.
  unfold accepted. destruct interface_map as [w|m] eqn:Hm.
  - destruct (factory_create _ _) as [r|e| |]; [|by split; [done|naive_solver]|done..].
    cbn [rethrow mbind outcome_bind]. destruct (the_drivers cfg); [..|done|done]; by split; [done|naive_solver].
  - destruct (factory_create _ _) as [r|e| |]; [|by split; [done|naive_solver]|done..].
    cbn [rethrow mbind outcome_bind]. destruct (the_drivers cfg) as [drivers|e| |]; [|by split; [done|naive_solver]|done..].
    cbn [rethrow mbind outcome_bind]. unfold validate_config.
    destruct (validate_decides min_interval (get_loaded_drivers drivers) m.*1 cfg) as [[-> Hok]|(e & -> & Hno)];
      cbn [rethrow mbind outcome_bind]; [|by split; [done|naive_solver]].
    destruct (valid_timers min_interval m.*1 drivers clock cfg Hmin Hok) as [Ht Hdr].
    destruct (run_refines (E:=start_error) fuel drivers env _ _ (init_represents clock cfg) Ht Hdr) as (cs & Hrun & _);
      [unfold timers; by rewrite length_imap|].
    rewrite Hrun. split; [done|]. cbn [rethrow]. split; [|eauto]. intros _. eauto 10.
Qed.

Abbreviation main_of := (main read_file_json write_json dlopen exists_file is_directory directory host_hash abi
  default_dir default_server min_interval get_detail interface_map dispatcher_resolve build_lines).

(** C6: The process always ends with an exit code, whatever command line is
    parsed and whatever its callbacks throw: one of the command layer's when
    that says not to run, and otherwise success exactly when [config test] on
    the same file succeeds and the configured resolvers can be made.  (That
    last part [config test] does not try.) *)
Theorem main_spec fuel clock env parsed printed quiet :
  (0 < min_interval)%Z →
  (∀ path cfg, read_file_json path = inr cfg → length (domain_subdomains cfg) < fuel) →
  ∃ o code printed',
    dispatch_of parsed printed = (Ret o, printed')
    ∧ main_of fuel clock env parsed printed = (Ret code, printed')
    ∧ if should_run o then
        code = EXIT_SUCCESS ↔
          (test_of (config_path o) quiet []).1 = Ret EXIT_SUCCESS
          ∧ ∃ cfg r, load_of (config_path o) = Ret cfg
                   ∧ factory_create default_server (app_resolver cfg) = Ret r
      else code = exit_code o.
Proof using PQ create_nonnull.
  intros Hmin Hfuel. destruct (dispatch_returns parsed printed) as (o & printed' & Ho).
  unfold main, mbind, st_bind. rewrite Ho. exists o.
  destruct (should_run o) eqn:Hr; cbn [negb]; [|by exists (exit_code o), printed'].
  setoid_rewrite config_test_ok. pose proof (load_defined (config_path o)) as Hl.
  destruct (load_of (config_path o)) as [cfg|e| |] eqn:Hcfg; [| |done..].
  - destruct (run_flow_ok fuel clock env _ _ Hmin Hcfg (Hfuel _ _ (load_of_read _ _ Hcfg))) as [Hdef Hiff].
    destruct (flow fuel clock env (config_path o)) as [cs|e| |]; [..|done|done]; eexists _, _; (split; [done|]);
      (split; [done|]).
    + split; [|done]. intros _. destruct Hiff as [[Ha [r Hr']] _]; [eauto|]. naive_solver.
    + split; [done|]. intros [(cfg' & [= <-] & Ha) (? & r & [= <-] & Hr')].
      destruct Hiff as [_ [cs Hcs]]; [eauto|]. done.
  - unfold run_flow. rewrite Hcfg. eexists _, _. split; [done|]. split; [done|]. split; [done|naive_solver].
Qed.
End main_proofs.
End cli_proofs.

(** ** An example: a run with a good file, and one with a missing one *)

Definition sample_load (path : bytes) : bytes + AppConfig unit :=
  if bool_decide (path = str "config.json") then inr sample_config else inl (str "file_open_failure").

Definition sample_interfaces : bytes + InterfaceMap := inr [(str "eth0", [])].

Definition sample_main (path : bytes) : outcome Empty_set Z * console :=
  main (generic:=unit) (IT:=sample_text) sample_load (λ _, inr []) sample_dlopen (λ _, true) (λ _, true) (λ _, []) 7 sample_abi
    (str "/lib/yaddnsc") {| ds_address := str "tls://dns.example"; ds_port := 53 |} 60
    (λ _, inl []) sample_interfaces (λ _ _ _, inr []) [] 3 (λ _, seconds 7000) sample_env (inr [CmdRun path false]) [].

Definition sample_test (path : bytes) : outcome exception Z * console :=
  execute_config_test (generic:=unit) (IT:=sample_text) sample_load sample_dlopen (λ _, true) (λ _, true) (λ _, []) 7 sample_abi
    (str "/lib/yaddnsc") 60 sample_interfaces path true [].

Lemma sample_load_ok path cfg : sample_load path = inr cfg → cfg = sample_config.
Proof. unfold sample_load. case_bool_decide; [by intros [= <-]|done]. Qed.

Lemma main_spec_witness :
  (sample_main (str "config.json")).1 = Ret EXIT_SUCCESS
  ∧ (sample_main (str "other.json")).1 = Ret EXIT_FAILURE
  ∧ (sample_test (str "config.json")).1 = Ret EXIT_SUCCESS.
Proof.
  assert (length (domain_subdomains sample_config) < 3) as Hlen by (vm_compute; lia).
  destruct (main_spec (generic:=unit) (IT:=sample_text) sample_load (λ _, inr []) sample_dlopen (λ _, true) (λ _, true)
    (λ _, []) 7 sample_abi (str "/lib/yaddnsc") {| ds_address := str "tls://dns.example"; ds_port := 53 |} 60
    (λ _, inl []) sample_interfaces (λ _ _ _, inr []) [] sample_create_nonnull
    3 (λ _, seconds 7000) sample_env (inr [CmdRun (str "config.json") false]) [] true ltac:(lia)
    ltac:(by intros path cfg ->%sample_load_ok)) as (o & code & printed & Ho & Hm & Hcode).
  fold (sample_main (str "config.json")) in Hm. rewrite Hm. simpl.
  vm_compute in Ho. injection Ho as <- <-. cbn [should_run config_path] in Hcode.
  assert (code = EXIT_SUCCESS) as ->.
  { apply Hcode. split; [vm_compute; reflexivity|]. exists sample_config.
    destruct (factory_create _ _) as [r|e| |] eqn:Hr; [|vm_compute in Hr; discriminate..].
    exists r. split; [vm_compute|]; reflexivity. }
  split; [done|]. split; vm_compute; reflexivity.
Defined.
