(* ===== verification/Timestamp.v ===== *)
(** The times that requests are signed with: [std::gmtime] and [std::strftime] as
    [src/util/signing.cpp] and [driver/alibaba_cloud] use them. *)
From S2P Require Import Prelude CppString.
From stdpp Require Import pretty.

(** * The calendar *)

(** [struct tm], with the year and the month as a reader counts them. *)
Record tm := { tm_year : Z; tm_mon : Z; tm_mday : Z; tm_hour : Z; tm_min : Z; tm_sec : Z }.

Definition is_leap (y : Z) : bool :=
  ((y mod 4 =? 0) && (negb (y mod 100 =? 0) || (y mod 400 =? 0)))%Z.

Definition days_in_month (y m : Z) : Z :=
  if bool_decide (m = 2)%Z then (if is_leap y then 29 else 28)%Z
  else if bool_decide (m ∈ [4; 6; 9; 11]%Z) then 30 else 31.

(** Days from the first of January 1970 to a year's first day, and of a year
    before a month. *)
Definition days_before_year (y : Z) : Z :=
  (365 * (y - 1970) + ((y - 1) / 4 - (y - 1) / 100 + (y - 1) / 400) - 477)%Z.
Definition days_before_month (y m : Z) : Z :=
  foldr Z.add 0%Z ((λ i, days_in_month y (Z.of_nat i)) <$> seq 1 (Z.to_nat (m - 1))).

(** The number of a date's day, and of its second. *)
Definition day_number (y m d : Z) : Z := (days_before_year y + days_before_month y m + (d - 1))%Z.
Definition seconds_of (t : tm) : Z :=
  (day_number (tm_year t) (tm_mon t) (tm_mday t) * 86400 + tm_hour t * 3600 + tm_min t * 60 + tm_sec t)%Z.

Definition valid_tm (t : tm) : Prop :=
  (1 ≤ tm_mon t ≤ 12 ∧ 1 ≤ tm_mday t ≤ days_in_month (tm_year t) (tm_mon t)
   ∧ 0 ≤ tm_hour t < 24 ∧ 0 ≤ tm_min t < 60 ∧ 0 ≤ tm_sec t < 60)%Z.

(** The date of a day: years are counted from the first of March, so that the
    leap day is a year's last. *)
Definition of_march (y doy : Z) : Z * Z * Z :=
  let mp := ((5 * doy + 2) / 153)%Z in
  let d := (doy - (153 * mp + 2) / 5 + 1)%Z in
  if (mp <? 10)%Z then (y, mp + 3, d)%Z else (y + 1, mp - 9, d)%Z.

Definition civil (day : Z) : Z * Z * Z :=
  let z := (day + 719468)%Z in
  let era := (z / 146097)%Z in
  let doe := (z mod 146097)%Z in
  let c := Z.min (doe / 36524) 3 in
  let doc := (doe - c * 36524)%Z in
  let q := (doc / 1461)%Z in
  let doq := (doc mod 1461)%Z in
  let a := Z.min (doq / 365) 3 in
  of_march (era * 400 + c * 100 + q * 4 + a) (doq - a * 365).

(** [std::gmtime]; the year must fit into an [int]. *)
Definition gmtime (t : Z) : option tm :=
  let '(y, m, d) := civil (t / 86400) in
  let s := (t mod 86400)%Z in
  if ((-2147483648 <=? y - 1900) && (y - 1900 <=? 2147483647))%Z then
    Some {| tm_year := y; tm_mon := m; tm_mday := d;
            tm_hour := s / 3600; tm_min := s / 60 mod 60; tm_sec := s mod 60 |}
  else None.

(** * Text *)

Definition two (n : Z) : bytes := [48 + n / 10; 48 + n mod 10]%Z.

(** A conversion of [strftime], [inl], or a character of its format. *)
Inductive conversion := CY | Cm | Cd | CH | CM | CS.
Definition convert (t : tm) (c : conversion + Z) : bytes :=
  match c with
  | inl CY => dec (tm_year t)
  | inl Cm => two (tm_mon t)
  | inl Cd => two (tm_mday t)
  | inl CH => two (tm_hour t)
  | inl CM => two (tm_min t)
  | inl CS => two (tm_sec t)
  | inr c => [c]
  end.

(** [strftime(buf.data(), size, ...)] and the string that is read from the
    buffer, whose contents are unspecified if the text does not fit. *)
Definition strftime {E} (size : nat) (format : list (conversion + Z)) (t : tm) : outcome E bytes :=
  let text := format ≫= convert t in
  if length text <? size then Ret text else Undef.

Definition from_clock {E} (size : nat) (format : list (conversion + Z)) (now : Z) : outcome E bytes :=
  match gmtime now with
  | None => Ret []
  | Some t => strftime size format t
  end.

(* @fn src/src/util/signing.cpp | std::string Signing::iso8601_timestamp() noexcept { | Signing::iso8601_timestamp *)
Definition iso8601_timestamp {E} (now : Z) : outcome E bytes :=
  from_clock 24 [inl CY; inl Cm; inl Cd; inr (ch "T"); inl CH; inl CM; inl CS; inr (ch "Z")] now.

(* @fn src/src/util/signing.cpp | std::string Signing::iso8601_date() noexcept { | Signing::iso8601_date *)
Definition iso8601_date {E} (now : Z) : outcome E bytes := from_clock 16 [inl CY; inl Cm; inl Cd] now.

(* @fn src/driver/alibaba_cloud/alibaba_cloud.cpp | [[nodiscard]] std::string alibaba_timestamp() noexcept { | alibaba_timestamp *)
Definition alibaba_timestamp {E} (now : Z) : outcome E bytes :=
  from_clock 24 [inl CY; inr (ch "-"); inl Cm; inr (ch "-"); inl Cd; inr (ch "T"); inl CH; inr (ch ":"); inl CM;
                 inr (ch ":"); inl CS; inr (ch "Z")] now.

Example timestamp_1 : iso8601_timestamp (E:=unit) 1785417896 = Ret (str "20260730T132456Z").
Proof. vm_compute. done. Qed.
Example timestamp_2 : alibaba_timestamp (E:=unit) 951782399 = Ret (str "2000-02-28T23:59:59Z").
Proof. vm_compute. done. Qed.
Example civil_1 : civil (-1) = (1969, 12, 31)%Z ∧ civil 11016 = (2000, 2, 29)%Z.
Proof. vm_compute. done. Qed.

(** * The date is the date of its day *)

Ltac div_lia := zify; Z.to_euclidean_division_equations; lia.

Lemma leap_years y :
  (if is_leap y then 1 else 0)%Z
  = (y / 4 - (y - 1) / 4 - (y / 100 - (y - 1) / 100) + (y / 400 - (y - 1) / 400))%Z.
Proof.
  unfold is_leap. destruct (y mod 4 =? 0)%Z eqn:H4, (y mod 100 =? 0)%Z eqn:H100, (y mod 400 =? 0)%Z eqn:H400;
    prop_of_bool; simpl; div_lia.
Qed.

Lemma month_days y m :
  (1 ≤ m ≤ 12)%Z →
  days_before_month y m = (if m <=? 2 then 31 * (m - 1) else (153 * (m - 3) + 2) / 5 + 59 + (if is_leap y then 1 else 0))%Z.
Proof.
  intros Hm. assert (m ∈ [1; 2; 3; 4; 5; 6; 7; 8; 9; 10; 11; 12]%Z) as Hin.
  { rewrite !elem_of_cons. lia. }
  unfold days_before_month, days_in_month.
  repeat (apply elem_of_cons in Hin as [->|Hin]; [by destruct (is_leap y)|]). by apply elem_of_nil in Hin.
Qed.

(** A year from March on, and the days before it. *)
Lemma civil_march day :
  ∃ y doy, civil day = of_march y doy ∧ (0 ≤ doy ≤ 365)%Z ∧ (doy = 365%Z → is_leap (y + 1) = true)
    ∧ day = (365 * (y - 1970) + y / 4 - y / 100 + y / 400 - 477 + 59 + doy)%Z.
Proof.
  unfold civil. cbv zeta. set (z := (day + 719468)%Z). set (era := (z / 146097)%Z). set (doe := (z mod 146097)%Z).
  assert (z = era * 146097 + doe ∧ 0 ≤ doe < 146097)%Z as [Hz Hdoe] by (unfold era, doe; div_lia).
  assert (day = z - 719468)%Z as Hday by (unfold z; lia). clearbody era doe z. subst z.
  set (c := Z.min (doe / 36524) 3). set (doc := (doe - c * 36524)%Z).
  assert (0 ≤ c ≤ 3 ∧ 0 ≤ doc ≤ 36524 ∧ (c < 3 → doc < 36524))%Z as (Hc & Hdoc & Hc3) by (unfold doc, c; div_lia).
  assert (doe = c * 36524 + doc)%Z as Hd by (unfold doc; lia). clearbody doc c. subst doe.
  set (q := (doc / 1461)%Z). set (doq := (doc mod 1461)%Z).
  assert (doc = q * 1461 + doq ∧ 0 ≤ q ≤ 24 ∧ 0 ≤ doq < 1461)%Z as (Hd & Hq & Hdoq) by (unfold q, doq; div_lia).
  clearbody q doq. subst doc. set (a := Z.min (doq / 365) 3). set (doy := (doq - a * 365)%Z).
  assert (0 ≤ a ≤ 3 ∧ 0 ≤ doy ≤ 365 ∧ (a < 3 → doy < 365))%Z as (Ha & Hdoy & Ha3) by (unfold doy, a; div_lia).
  assert (doq = a * 365 + doy)%Z as Hd by (unfold doy; lia). clearbody doy a. subst doq.
  eexists _, _. split; [reflexivity|]. split; [done|]. split.
  - intros ->. assert (a = 3)%Z as -> by lia. unfold is_leap.
    assert ((era * 400 + c * 100 + q * 4 + 3 + 1) mod 4 = 0)%Z as -> by div_lia. simpl.
    destruct (decide (q = 24)%Z) as [->|Hq24].
    + assert (c = 3)%Z as -> by lia.
      assert ((era * 400 + 3 * 100 + 24 * 4 + 3 + 1) mod 400 = 0)%Z as -> by div_lia. by rewrite orb_true_r.
    + destruct (_ mod 100 =? 0)%Z eqn:H100; [|done]. prop_of_bool. exfalso. clear - Hq Hq24 H100.
      replace (era * 400 + c * 100 + q * 4 + 3 + 1)%Z with (q * 4 + 4 + (era * 4 + c) * 100)%Z in H100 by lia.
      rewrite Z.mod_add, Z.mod_small in H100 by lia. lia.
  - assert ((era * 400 + c * 100 + q * 4 + a) / 4 = era * 100 + c * 25 + q)%Z as -> by div_lia.
    assert ((era * 400 + c * 100 + q * 4 + a) / 100 = era * 4 + c)%Z as -> by div_lia.
    assert ((era * 400 + c * 100 + q * 4 + a) / 400 = era)%Z as -> by div_lia. lia.
Qed.

Lemma days_before_next y :
  days_before_year (y + 1) = (365 * (y + 1 - 1970) + y / 4 - y / 100 + y / 400 - 477)%Z.
Proof. unfold days_before_year. replace (y + 1 - 1)%Z with y by lia. lia. Qed.

(** The months from March, by their days. *)
Lemma march_month doy :
  (0 ≤ doy ≤ 365)%Z →
  let mp := ((5 * doy + 2) / 153)%Z in
  (0 ≤ mp ≤ 11 ∧ 0 ≤ doy - (153 * mp + 2) / 5 ∧ (mp < 11 → doy < (153 * (mp + 1) + 2) / 5))%Z.
Proof. intros Hd mp. unfold mp. div_lia. Qed.

Lemma month_length y mp :
  (0 ≤ mp < 10)%Z → days_in_month y (mp + 3) = ((153 * (mp + 1) + 2) / 5 - (153 * mp + 2) / 5)%Z.
Proof.
  intros Hm. assert (mp ∈ [0; 1; 2; 3; 4; 5; 6; 7; 8; 9]%Z) as Hin by (rewrite !elem_of_cons; lia).
  repeat (apply elem_of_cons in Hin as [->|Hin]; [reflexivity|]). by apply elem_of_nil in Hin.
Qed.

(** [civil] gives the one date of a day. *)
Lemma civil_day day y m d :
  civil day = (y, m, d) → day_number y m d = day ∧ (1 ≤ m ≤ 12 ∧ 1 ≤ d ≤ days_in_month y m)%Z.
Proof.
  destruct (civil_march day) as (my & doy & -> & Hdoy & Hleap & ->). unfold of_march. cbv zeta.
  destruct (march_month doy Hdoy) as (Hmp & Hd0 & Hd1). set (mp := ((5 * doy + 2) / 153)%Z) in *. clearbody mp.
  pose proof (leap_years my) as Hl. unfold day_number. destruct (mp <? 10)%Z eqn:H10; prop_of_bool; intros [= <- <- <-].
  - rewrite month_days by lia. rewrite (proj2 (Z.leb_gt (mp + 3) 2)) by lia. rewrite month_length by lia.
    replace (mp + 3 - 3)%Z with mp by lia. unfold days_before_year. split; [lia|]. lia.
  - rewrite month_days by lia. rewrite (proj2 (Z.leb_le (mp - 9) 2)) by lia. rewrite days_before_next.
    assert (mp = 10 ∨ mp = 11)%Z as [-> | ->] by lia.
    + change ((153 * 10 + 2) / 5)%Z with 306%Z in *. change ((153 * (10 + 1) + 2) / 5)%Z with 337%Z in *.
      change (days_in_month (my + 1) (10 - 9)) with 31%Z. lia.
    + change ((153 * 11 + 2) / 5)%Z with 337%Z in *. split; [lia|].
      change (days_in_month (my + 1) (11 - 9)) with (if is_leap (my + 1) then 29 else 28)%Z.
      destruct (decide (doy = 365)%Z) as [He|He]; [rewrite (Hleap He); lia|]. destruct (is_leap (my + 1)); lia.
Qed.

Lemma gmtime_ok now t : gmtime now = Some t → seconds_of t = now ∧ valid_tm t.
Proof.
  unfold gmtime. destruct (civil (now / 86400)) as [[y m] d] eqn:Hc. apply civil_day in Hc as (Hn & Hm & Hd).
  destruct (_ && _); [|done]. intros [= <-]. unfold seconds_of, valid_tm. simpl. rewrite Hn.
  split; [div_lia|]. split_and!; try done; div_lia.
Qed.

(** From 1970 to 9999. *)
Definition in_range (now : Z) : Prop := (0 ≤ now < 253402300800)%Z.

Lemma gmtime_range now :
  in_range now → ∃ t, gmtime now = Some t ∧ seconds_of t = now ∧ valid_tm t ∧ (1000 ≤ tm_year t < 10000)%Z.
Proof.
  intros Hr. unfold in_range in Hr. assert (∃ t, gmtime now = Some t ∧ 1000 ≤ tm_year t < 10000)%Z as (t & Ht & Hy).
  { assert (0 ≤ now / 86400 < 2932897)%Z as Hday by div_lia.
    assert (∃ y m d, civil (now / 86400) = (y, m, d) ∧ 1000 ≤ y < 10000)%Z as (y & m & d & Hc & Hy).
    { destruct (civil_march (now / 86400)) as (my & doy & -> & Hdoy & _ & Hmy). rewrite Hmy in Hday. clear Hmy.
      unfold of_march. cbv zeta. destruct (_ <? 10)%Z eqn:H10; prop_of_bool; do 3 eexists; (split; [reflexivity|]);
        div_lia. }
    unfold gmtime. rewrite Hc, !(proj2 (Z.leb_le _ _)) by lia. by eexists. }
  exists t. split; [done|]. by apply gmtime_ok in Ht as [? ?].
Qed.

(** ** Reading the text *)

Definition number (s : bytes) : Z := foldl (λ n c, n * 10 + (c - 48))%Z 0%Z s.

(** The time that a text of sixteen characters names. *)
Definition read_timestamp (s : bytes) : tm := {|
  tm_year := number (take 4 s); tm_mon := number (take 2 (drop 4 s)); tm_mday := number (take 2 (drop 6 s));
  tm_hour := number (take 2 (drop 9 s)); tm_min := number (take 2 (drop 11 s)); tm_sec := number (take 2 (drop 13 s))
|}.

Lemma number_two n : (0 ≤ n < 100)%Z → number (two n) = n.
Proof. intros Hn. unfold number, two. cbn [foldl]. div_lia. Qed.

Lemma pretty_digit x : (x < 10)%N → ch (pretty_N_char x) = (48 + Z.of_N x)%Z.
Proof.
  intros Hx. assert (x = 0 ∨ x = 1 ∨ x = 2 ∨ x = 3 ∨ x = 4 ∨ x = 5 ∨ x = 6 ∨ x = 7 ∨ x = 8 ∨ x = 9)%N as Hc by lia.
  repeat (destruct Hc as [->|Hc]; [reflexivity|]). by subst.
Qed.

Lemma dec_year y :
  (1000 ≤ y < 10000)%Z → dec y = [48 + y / 1000; 48 + y / 100 mod 10; 48 + y / 10 mod 10; 48 + y mod 10]%Z.
Proof.
  intros Hy. unfold dec. destruct y as [|p|p]; [lia| |lia].
  change (pretty (Z.pos p)) with (pretty_N_go (N.pos p) EmptyString).
  change (Z.pos p) with (Z.of_N (N.pos p)) in *. generalize dependent (N.pos p). clear p. intros n Hn.
  rewrite 4!pretty_N_go_step by div_lia.
  assert ((((n `div` 10) `div` 10) `div` 10) `div` 10 = 0)%N as -> by div_lia. rewrite pretty_N_go_0.
  unfold str. simpl.
  rewrite !pretty_digit by by apply N.mod_lt. repeat f_equal; div_lia.
Qed.

Lemma number_year y : (1000 ≤ y < 10000)%Z → number (dec y) = y.
Proof. intros Hy. rewrite dec_year by done. unfold number. cbn [foldl]. div_lia. Qed.

(** The shape of the three texts of a time. *)
Lemma texts_of_time now :
  in_range now →
  ∃ t, gmtime now = Some t ∧ length (dec (tm_year t)) = 4
    ∧ read_timestamp (dec (tm_year t) ++ two (tm_mon t) ++ two (tm_mday t) ++ str "T" ++ two (tm_hour t)
                        ++ two (tm_min t) ++ two (tm_sec t) ++ str "Z") = t
    ∧ seconds_of t = now.
Proof.
  intros Hr. destruct (gmtime_range now Hr) as (t & Ht & Hs & (Hm & Hd & Hh & Hi & Hsec) & Hy). exists t.
  split; [done|]. rewrite dec_year by done. split; [done|]. split; [|done].
  assert (tm_mday t < 100)%Z as Hd'.
  { assert (days_in_month (tm_year t) (tm_mon t) ≤ 31)%Z by (unfold days_in_month; repeat case_match; lia). lia. }
  rewrite <- (dec_year (tm_year t)) by done.
  transitivity {| tm_year := number (dec (tm_year t)); tm_mon := number (two (tm_mon t));
    tm_mday := number (two (tm_mday t)); tm_hour := number (two (tm_hour t)); tm_min := number (two (tm_min t));
    tm_sec := number (two (tm_sec t)) |}; [by rewrite dec_year|].
  rewrite number_year, !number_two by lia. by destruct t.
Qed.

(** In the years 1970 to 9999 the three texts are defined and name the clock's
    second: reading the sixteen characters of [iso8601_timestamp] gives it back, its
    first eight are [iso8601_date], and Alibaba's form differs in its separators. *)
Lemma timestamps_ok {E} now :
  in_range now →
  ∃ s, iso8601_timestamp (E:=E) now = Ret s ∧ length s = 16 ∧ seconds_of (read_timestamp s) = now
    ∧ iso8601_date (E:=E) now = Ret (take 8 s)
    ∧ alibaba_timestamp (E:=E) now
      = Ret (take 4 s ++ str "-" ++ take 2 (drop 4 s) ++ str "-" ++ take 2 (drop 6 s) ++ take 3 (drop 8 s) ++ str ":"
               ++ take 2 (drop 11 s) ++ str ":" ++ drop 13 s).
Proof.
  intros Hr. destruct (texts_of_time now Hr) as (t & Ht & Hl & Hread & Hs).
  unfold iso8601_timestamp, iso8601_date, alibaba_timestamp, from_clock, strftime. rewrite Ht.
  cbn [mbind list_bind convert]. rewrite <- Hread in Hs.
  destruct (dec (tm_year t)) as [|y1 [|y2 [|y3 [|y4 [|? ?]]]]]; try done.
  eexists. split; [reflexivity|]. split; [reflexivity|]. split; [exact Hs|]. split; reflexivity.
Qed.

(** Two readings of the clock, as [Route53Driver::generate_request] makes them,
    may name two dates. *)
Example dates_of_two_readings :
  iso8601_timestamp (E:=unit) 1785455999 = Ret (str "20260730T235959Z")
  ∧ iso8601_date (E:=unit) 1785456000 = Ret (str "20260731").
Proof. vm_compute. done. Qed.
