(* ===== verification/Signing.v ===== *)
(** [src/util/signing.cpp], [include/signing.h]: digests, which OpenSSL computes,
    and their text forms. *)
From S2P Require Import Prelude CppString.

(** * Digests *)

(** The calls into OpenSSL; each [int] that is not 1 and each null pointer is
    [None], a context is what has been fed to it. *)
Class Evp := {
  EVP_MD : Type;
  EVP_sha256 : EVP_MD;
  EVP_sha1 : EVP_MD;
  EVP_PKEY : Type;
  EVP_PKEY_new_mac_key : bytes → option EVP_PKEY;
  EVP_MD_CTX_new : option unit;
  EVP_DigestSignInit : EVP_MD → EVP_PKEY → bool;
  EVP_DigestSignUpdate : EVP_MD → EVP_PKEY → bytes → bool;
  EVP_DigestSignFinal_len : EVP_MD → EVP_PKEY → bytes → option nat;
  EVP_DigestSignFinal : EVP_MD → EVP_PKEY → bytes → nat → option bytes;
  EVP_Digest : EVP_MD → bytes → bytes
}.

Section digests.
Context `{Evp}.

(* @fn src/src/util/signing.cpp | std::vector<std::uint8_t> hmac_digest( | hmac_digest *)
Definition hmac_digest (key data : bytes) (md : EVP_MD) : bytes :=
  match EVP_PKEY_new_mac_key key with
  | None => []
  | Some pkey =>
      match EVP_MD_CTX_new with
      | None => []
      | Some _ =>
          if EVP_DigestSignInit md pkey && EVP_DigestSignUpdate md pkey data then
            match EVP_DigestSignFinal_len md pkey data with
            | Some len => default [] (EVP_DigestSignFinal md pkey data len)
            | None => []
            end
          else []
      end
  end.

(* @fn src/src/util/signing.cpp | std::vector<std::uint8_t> hash_digest( | hash_digest *)
Definition hash_digest (data : bytes) (md : EVP_MD) : bytes :=
  match EVP_MD_CTX_new with
  | None => []
  | Some _ => EVP_Digest md data
  end.

(* @fn src/src/util/signing.cpp | std::vector<std::uint8_t> Signing::sha256( | Signing::sha256 *)
Definition sha256 (data : bytes) : bytes := hash_digest data EVP_sha256.

(* @fn src/src/util/signing.cpp | std::vector<std::uint8_t> Signing::sha1( | Signing::sha1 *)
Definition sha1 (data : bytes) : bytes := hash_digest data EVP_sha1.

(* @fn src/src/util/signing.cpp | std::vector<std::uint8_t> Signing::hmac_sha256( | Signing::hmac_sha256 *)
Definition hmac_sha256 (key data : bytes) : bytes := hmac_digest key data EVP_sha256.

(* @fn src/src/util/signing.cpp | std::vector<std::uint8_t> Signing::hmac_sha1( | Signing::hmac_sha1 *)
Definition hmac_sha1 (key data : bytes) : bytes := hmac_digest key data EVP_sha1.
End digests.

(** * Text forms *)

(* @fn src/src/util/signing.cpp | constexpr std::string_view BASE64_CHARS | BASE64_CHARS *)
Definition BASE64_CHARS : bytes := str "ABCDEFGHIJKLMNOPQRSTUVWXYZabcdefghijklmnopqrstuvwxyz0123456789+/".

(* @fn src/src/util/signing.cpp | constexpr std::string_view HEX_CHARS | HEX_CHARS *)
Definition HEX_CHARS : bytes := str "0123456789abcdef".

(** [CHARS[i]]; the indices below are inside the tables. *)
Definition char_at (chars : bytes) (i : Z) : Z := nth (Z.to_nat i) chars 0%Z.

(* @fn src/src/util/signing.cpp | std::string Signing::hex_encode( | Signing::hex_encode *)
Fixpoint hex_encode (data : bytes) : bytes :=
  match data with
  | [] => []
  | byte :: data =>
      char_at HEX_CHARS (Z.shiftr byte 4) :: char_at HEX_CHARS (Z.land byte 0x0F) :: hex_encode data
  end.

(* @fn src/src/util/signing.cpp | std::string Signing::sha256_hex( | Signing::sha256_hex *)
Definition sha256_hex `{Evp} (data : bytes) : bytes := hex_encode (sha256 data).

(** The loop takes three octets at a time; one or two may remain. *)
(* @fn src/src/util/signing.cpp | std::string Signing::base64_encode( | Signing::base64_encode *)
Fixpoint base64_encode (data : bytes) : bytes :=
  match data with
  | b0 :: b1 :: b2 :: data =>
      char_at BASE64_CHARS (Z.shiftr b0 2)
      :: char_at BASE64_CHARS (Z.land (Z.lor (Z.shiftl b0 4) (Z.shiftr b1 4)) 0x3F)
      :: char_at BASE64_CHARS (Z.land (Z.lor (Z.shiftl b1 2) (Z.shiftr b2 6)) 0x3F)
      :: char_at BASE64_CHARS (Z.land b2 0x3F)
      :: base64_encode data
  | [b0; b1] =>
      [char_at BASE64_CHARS (Z.shiftr b0 2);
       char_at BASE64_CHARS (Z.land (Z.lor (Z.shiftl b0 4) (Z.shiftr b1 4)) 0x3F);
       char_at BASE64_CHARS (Z.land (Z.shiftl b1 2) 0x3F)]
  | [b0] =>
      [char_at BASE64_CHARS (Z.shiftr b0 2);
       char_at BASE64_CHARS (Z.land (Z.shiftl b0 4) 0x3F)]
  | [] => []
  end.

(** ** Decoding, from the definitions of RFC 4648

    A character stands for its position in the alphabet; the positions are the
    digits of a number, most significant first. *)

Definition position (alphabet : bytes) (c : Z) : option Z :=
  '(i, _) ← list_find (λ x, x = c) alphabet; Some (Z.of_nat i).

Fixpoint hex_decode (s : bytes) : option bytes :=
  match s with
  | [] => Some []
  | c1 :: c2 :: s =>
      d1 ← position HEX_CHARS c1; d2 ← position HEX_CHARS c2;
      rest ← hex_decode s; Some ((d1 * 16 + d2)%Z :: rest)
  | _ => None
  end.

(** A group of four characters is 24 bits; a last group of three or two
    characters is 16 or 8 bits, followed by zeros. *)
Fixpoint base64_decode (s : bytes) : option bytes :=
  match s with
  | c0 :: c1 :: c2 :: c3 :: s =>
      d0 ← position BASE64_CHARS c0; d1 ← position BASE64_CHARS c1;
      d2 ← position BASE64_CHARS c2; d3 ← position BASE64_CHARS c3;
      rest ← base64_decode s;
      let n := (((d0 * 64 + d1) * 64 + d2) * 64 + d3)%Z in
      Some ((n / 65536)%Z :: (n / 256 mod 256)%Z :: (n mod 256)%Z :: rest)
  | [c0; c1; c2] =>
      d0 ← position BASE64_CHARS c0; d1 ← position BASE64_CHARS c1; d2 ← position BASE64_CHARS c2;
      let n := ((d0 * 64 + d1) * 64 + d2)%Z in
      if (n mod 4 =? 0)%Z then Some [(n / 1024)%Z; (n / 4 mod 256)%Z] else None
  | [c0; c1] =>
      d0 ← position BASE64_CHARS c0; d1 ← position BASE64_CHARS c1;
      let n := (d0 * 64 + d1)%Z in
      if (n mod 16 =? 0)%Z then Some [(n / 16)%Z] else None
  | [_] => None
  | [] => Some []
  end.

(** * Properties *)

Local Ltac Zify.zify_post_hook ::= Z.to_euclidean_division_equations.

Lemma position_hex i : is_byte i → (i < 16)%Z → position HEX_CHARS (char_at HEX_CHARS i) = Some i.
Proof. intros Hb. by_all_bytes i Hb. Qed.

Lemma position_base64 i : is_byte i → (i < 64)%Z → position BASE64_CHARS (char_at BASE64_CHARS i) = Some i.
Proof. intros Hb. by_all_bytes i Hb. Qed.

(** The indices, as digits. *)
Lemma high_bits b n : (0 ≤ n)%Z → Z.shiftr b n = (b / 2 ^ n)%Z.
Proof. apply Z.shiftr_div_pow2. Qed.

Lemma middle_bits a c n : is_byte a → (0 ≤ n)%Z → (0 ≤ c < 2 ^ n)%Z → (2 ^ n ≤ 64)%Z →
  Z.land (Z.lor (Z.shiftl a n) c) 0x3F = ((a * 2 ^ n + c) mod 64)%Z.
Proof. intros Ha Hn Hc Hp. rewrite lor_shiftl_add by done. by apply (land_mod_pow2 _ 6). Qed.

Lemma index_0 b : is_byte b → Z.shiftr b 2 = (b / 4)%Z.
Proof. intros Hb. by apply high_bits. Qed.

Lemma index_1 a b : is_byte a → is_byte b →
  Z.land (Z.lor (Z.shiftl a 4) (Z.shiftr b 4)) 0x3F = (a mod 4 * 16 + b / 16)%Z.
Proof.
  unfold is_byte. intros Ha Hb. rewrite high_bits by done. change (2 ^ 4)%Z with 16%Z.
  rewrite middle_bits by (unfold is_byte; try lia; change (2 ^ 4)%Z with 16%Z; lia).
  change (2 ^ 4)%Z with 16%Z. lia.
Qed.

Lemma index_2 a b : is_byte a → is_byte b →
  Z.land (Z.lor (Z.shiftl a 2) (Z.shiftr b 6)) 0x3F = (a mod 16 * 4 + b / 64)%Z.
Proof.
  unfold is_byte. intros Ha Hb. rewrite high_bits by done. change (2 ^ 6)%Z with 64%Z.
  rewrite middle_bits by (unfold is_byte; try lia; change (2 ^ 2)%Z with 4%Z; lia).
  change (2 ^ 2)%Z with 4%Z. lia.
Qed.

Lemma index_3 b : is_byte b → Z.land b 0x3F = (b mod 64)%Z.
Proof. intros _. by apply (land_mod_pow2 _ 6). Qed.

Lemma index_1_last a : is_byte a → Z.land (Z.shiftl a 4) 0x3F = (a mod 4 * 16)%Z.
Proof.
  intros Ha. rewrite (land_mod_pow2 _ 6), Z.shiftl_mul_pow2 by lia. change (2 ^ 4)%Z with 16%Z.
  change (2 ^ 6)%Z with 64%Z. lia.
Qed.

Lemma index_2_last a : is_byte a → Z.land (Z.shiftl a 2) 0x3F = (a mod 16 * 4)%Z.
Proof.
  intros Ha. rewrite (land_mod_pow2 _ 6), Z.shiftl_mul_pow2 by lia. change (2 ^ 2)%Z with 4%Z.
  change (2 ^ 6)%Z with 64%Z. lia.
Qed.

Ltac position_of_digit :=
  rewrite position_base64 by (unfold is_byte in *; lia).

(** Induction by groups of three octets. *)
Lemma group_ind (P : bytes → Prop) :
  P [] → (∀ b0, P [b0]) → (∀ b0 b1, P [b0; b1]) →
  (∀ b0 b1 b2 l, P l → P (b0 :: b1 :: b2 :: l)) → ∀ l, P l.
Proof.
  intros H0 H1 H2 H3 l. enough (P l ∧ (∀ b, P (b :: l)) ∧ ∀ b c, P (b :: c :: l)) by tauto.
  induction l as [|x l (IH1 & IH2 & IH3)]; [auto|]. split; [auto|]. split; [auto|]. intros b c. by apply H3.
Qed.

Lemma base64_decode_encode data : Forall is_byte data → base64_decode (base64_encode data) = Some data.
Proof.
  induction data as [|b0|b0 b1|b0 b1 b2 l IH] using group_ind; intros Hb;
    rewrite ?Forall_cons in Hb; [done|..]; cbn [base64_encode base64_decode].
  - destruct Hb as [Hb0 _]. rewrite index_0, index_1_last by done. do 2 position_of_digit.
    cbn [mbind option_bind]. unfold is_byte in *. rewrite (proj2 (Z.eqb_eq _ _)) by lia. do 2 f_equal. lia.
  - destruct Hb as (Hb0 & Hb1 & _). rewrite index_0, index_1, index_2_last by done. do 3 position_of_digit.
    cbn [mbind option_bind]. unfold is_byte in *. rewrite (proj2 (Z.eqb_eq _ _)) by lia. f_equal.
    f_equal; [lia|]. f_equal. lia.
  - destruct Hb as (Hb0 & Hb1 & Hb2 & Hl). rewrite index_0, index_1, index_2, index_3 by done.
    do 4 position_of_digit. rewrite IH by done. cbn [mbind option_bind]. unfold is_byte in *. f_equal.
    f_equal; [lia|]. f_equal; [lia|]. f_equal. lia.
Qed.

Lemma hex_decode_encode data : Forall is_byte data → hex_decode (hex_encode data) = Some data.
Proof.
  induction 1 as [|b data Hb _ IH]; [done|]. cbn [hex_encode hex_decode].
  rewrite high_bits, (land_mod_pow2 _ 4) by done. change (2 ^ 4)%Z with 16%Z. unfold is_byte in *.
  rewrite !position_hex by (unfold is_byte; lia). rewrite IH. cbn [mbind option_bind]. do 2 f_equal. lia.
Qed.

Lemma base64_length data : length (base64_encode data) = (4 * length data + 2) / 3.
Proof.
  induction data as [|b0|b0 b1|b0 b1 b2 l IH] using group_ind; try done.
  cbn [base64_encode length]. rewrite IH. replace (4 * S (S (S (length l))) + 2) with (4 * length l + 2 + 4 * 3) by lia.
  rewrite Nat.div_add by done. lia.
Qed.

(** The text fills its groups of four only for groups of three octets. *)
Lemma digits_mod_4 n : ((4 * n + 2) / 3) mod 4 = 0 ↔ n mod 3 = 0.
Proof.
  pose proof (Nat.div_mod_eq n 3). pose proof (Nat.mod_upper_bound n 3).
  set (q := n / 3) in *. set (r := n mod 3) in *. clearbody q r. subst n.
  assert (r = 0 ∨ r = 1 ∨ r = 2) as [->|[->| ->]] by lia.
  - replace (4 * (3 * q + 0) + 2) with (2 + (4 * q) * 3) by lia.
    rewrite Nat.div_add by lia. change (2 / 3) with 0. rewrite Nat.add_0_l, Nat.mul_comm, Nat.Div0.mod_mul. tauto.
  - replace (4 * (3 * q + 1) + 2) with (0 + (4 * q + 2) * 3) by lia.
    rewrite Nat.div_add by lia. change (0 / 3) with 0.
    rewrite Nat.add_0_l, Nat.add_comm, Nat.mul_comm, Nat.Div0.mod_add. cbn. lia.
  - replace (4 * (3 * q + 2) + 2) with (1 + (4 * q + 3) * 3) by lia.
    rewrite Nat.div_add by lia. change (1 / 3) with 0.
    rewrite Nat.add_0_l, Nat.add_comm, Nat.mul_comm, Nat.Div0.mod_add. cbn. lia.
Qed.

(** The text forms lose nothing: decoding the hexadecimal or the Base64 text
    of any octets, by the definitions of RFC 4648, gives them back.  The Base64
    text has no padding: its length is the number of six-bit digits, and so
    it is not a multiple of four unless the octets' number is one of three. *)
Theorem text_forms_roundtrip data :
  Forall is_byte data →
  base64_decode (base64_encode data) = Some data ∧ hex_decode (hex_encode data) = Some data
  ∧ length (base64_encode data) = (4 * length data + 2) / 3 ∧ length (hex_encode data) = 2 * length data
  ∧ (length (base64_encode data) mod 4 = 0 ↔ length data mod 3 = 0).
Proof.
  intros Hb. split; [by apply base64_decode_encode|]. split; [by apply hex_decode_encode|].
  split; [apply base64_length|]. split.
  - clear Hb. induction data; simpl; lia.
  - rewrite base64_length. apply digits_mod_4.
Qed.

(** A digest of 20 octets, as HMAC-SHA1 gives, lacks its final "=". *)
Lemma text_forms_roundtrip_witness :
  let digest := replicate 20 255%Z in
  base64_decode (base64_encode digest) = Some digest ∧ length (base64_encode digest) = 27
  ∧ base64_encode (str "foob") = str "Zm9vYg".
Proof.
  assert (Forall is_byte (replicate 20 255%Z)) as Hb by (apply (bool_decide_unpack _); vm_compute; exact I).
  destruct (text_forms_roundtrip _ Hb) as (H1 & _ & H2 & _). split; [exact H1|]. split; [exact H2|reflexivity].
Defined.
