(* ===== verification/Plugins.v ===== *)
(** [driver/] and [include/driver/base.h]: the bundled drivers, each a request it
    builds from its parameters and an update, and a reading of the response.
    JSON is read and written by glaze, XML by libxml2. *)
From S2P Require Import Prelude CppString Address Uri StringUtil Io Http HttpClient Signing Updater.

(* @fn src/include/interface/driver.h | struct DriverRequestContext { | DriverRequestContext *)
Record DriverRequestContext := { url : bytes; request : HttpRequest }.

(** A driver derived from [BaseDriver]. *)
(* @fn src/include/interface/driver.h | class Driver { | Driver *)
Record BaseDriver (W : Type) := {
  generate_request : bytes → DriverUpdateParams → st W exn DriverRequestContext;
  check_response : HttpResponse → bool
}.
Arguments generate_request {W}. Arguments check_response {W}.

Section base.
Context {W : Type}.
(** [HttpClient::exchange] of the client that the updater passes. *)
Context (exchange : bytes → HttpRequest → st W exn (bytes + HttpResponse)).

(* @fn src/include/driver/base.h | bool execute(const DriverConfig &config, | BaseDriver::execute *)
Definition execute (d : BaseDriver W) (config : bytes) (ctx : DriverUpdateParams) : st W exn bool :=
  r ← generate_request d config ctx;
  response ← exchange (url r) (request r);
  mret (match response with
        | inl _ => false
        | inr response => check_response d response
        end).
End base.

(** [parse_config<T>]: glaze's reader gives the value or the text of its error. *)
(* @fn src/include/driver/base.h | static T parse_config( | BaseDriver::parse_config *)
Definition parse_config {W T} (read : bytes → bytes + T) (config : bytes) : st W exn T :=
  match read config with
  | inl error => throw (StdException error)
  | inr value => mret value
  end.

(** [write_json(body).value_or("{}")] *)
Definition json_or_empty {T} (write : T → option bytes) (body : T) : bytes := default (str "{}") (write body).

(** A request without headers and body, as [DriverRequest{}] with a method. *)
Definition get_request : HttpRequest :=
  {| content_type := []; method := GET; headers := []; body := None |}.

Definition json_request (m : HttpMethod) (hs : list (bytes * bytes)) (b : bytes) : HttpRequest :=
  {| content_type := str "application/json"; method := m; headers := hs; body := Some b |}.

(** * Generic URL template *)

Module Simple.

(** The parameters' JSON: [None] when it is not an object; the members of an
    object in order, with the text of those that are strings. *)
Definition object : Type := option (list (bytes * option bytes)).

Definition find_member (key : bytes) (o : list (bytes * option bytes)) : option (option bytes) :=
  '(_, kv) ← list_find (λ kv, kv.1 = key) o; Some kv.2.

Definition missing_url {W A} : st W exn A :=
  throw (StdException (str "Missing required parameter " ++ quoted (str "url") ++ str " in driver config")).

(* @fn src/driver/simple/simple.cpp | const auto substitute = | SimpleDriver::generate_request (substitute) *)
Definition substitute {E} (url key val : bytes) : outcome E bytes :=
  replace_all url (str "{" ++ key ++ str "}") val.

(** Substitutions in order: what one inserts, the next one sees. *)
Fixpoint substitute_all {E} (url : bytes) (subs : list (bytes * bytes)) : outcome E bytes :=
  match subs with
  | [] => Ret url
  | (key, val) :: subs => url ← substitute url key val; substitute_all url subs
  end.

(** The members that are substituted: all strings but the template. *)
(* @fn src/driver/simple/simple.cpp | for (auto &[key, val]: obj) { | SimpleDriver::generate_request (members) *)
Fixpoint members (obj : list (bytes * option bytes)) : list (bytes * bytes) :=
  match obj with
  | [] => []
  | (key, val) :: obj =>
      match val with
      | Some v => if bool_decide (key ≠ str "url") then (key, v) :: members obj else members obj
      | None => members obj
      end
  end.

(* @fn src/driver/simple/simple.cpp | DriverRequestContext SimpleDriver::generate_request( | SimpleDriver::generate_request *)
Definition generate_request {W} (read : bytes → bytes + object) (config : bytes) (ctx : DriverUpdateParams)
    : st W exn DriverRequestContext :=
  full ← parse_config read config;
  match full with
  | None => missing_url
  | Some obj =>
      match find_member (str "url") obj with
      | Some (Some url) =>
          url ← lift (substitute_all url (members obj ++
            [(str "ip_addr", up_ip_addr ctx); (str "rd_type", up_rd_type ctx); (str "domain", up_domain ctx);
             (str "subdomain", up_subdomain ctx); (str "fqdn", up_fqdn ctx)]));
          mret {| url := url; request := get_request |}
      | _ => missing_url
      end
  end.

(* @fn src/driver/simple/simple.cpp | bool SimpleDriver::check_response( | SimpleDriver::check_response *)
Definition check_response (response : HttpResponse) : bool :=
  if (300 <=? rs_status_code response)%Z then false
  else negb (bool_decide (rs_body response = [])).

Definition driver {W} (read : bytes → bytes + object) : BaseDriver W :=
  {| Plugins.generate_request := generate_request read; Plugins.check_response := check_response |}.
End Simple.

(** * Services with a query string *)

Module DuckDns.

(* @fn src/driver/duckdns/config.hpp | struct DuckDnsParams { | DuckDnsParams *)
Record DuckDnsParams := { token : bytes; verbose : option bool }.

Definition API_URL : bytes := str "https://www.duckdns.org/update".

(* @fn src/driver/duckdns/duckdns.cpp | DriverRequestContext DuckDnsDriver::generate_request( | DuckDnsDriver::generate_request *)
Definition generate_request {W} (read : bytes → bytes + DuckDnsParams) (config : bytes) (ctx : DriverUpdateParams)
    : st W exn DriverRequestContext :=
  cfg ← parse_config read config;
  let ip_param := if bool_decide (up_rd_type ctx = str "AAAA") then str "ipv6" else str "ip" in
  let url := API_URL ++ str "?domains=" ++ up_subdomain ctx ++ str "&token=" ++ token cfg ++ str "&"
               ++ ip_param ++ str "=" ++ up_ip_addr ctx in
  let url := if default false (verbose cfg) then url ++ str "&verbose=true" else url in
  mret {| url := url; request := get_request |}.

(* @fn src/driver/duckdns/duckdns.cpp | bool DuckDnsDriver::check_response( | DuckDnsDriver::check_response *)
Definition check_response (response : HttpResponse) : bool := starts_with (rs_body response) (str "OK").
End DuckDns.

Module Namecheap.

(* @fn src/driver/namecheap/config.hpp | struct NamecheapParams { | NamecheapParams *)
Record NamecheapParams := { password : bytes }.

Definition API_URL : bytes := str "https://dynamicdns.park-your-domain.com/update".

(* @fn src/driver/namecheap/namecheap.cpp | DriverRequestContext NamecheapDriver::generate_request( | NamecheapDriver::generate_request *)
Definition generate_request {W} (read : bytes → bytes + NamecheapParams) (config : bytes) (ctx : DriverUpdateParams)
    : st W exn DriverRequestContext :=
  if bool_decide (up_rd_type ctx = str "AAAA") then
    throw (StdException (str "Namecheap DDNS does not support AAAA (IPv6) records. "
      ++ str "Use an A record instead for domain '" ++ up_fqdn ctx ++ str "'."))
  else
    cfg ← parse_config read config;
    let url := API_URL ++ str "?host=" ++ up_subdomain ctx ++ str "&domain=" ++ up_domain ctx
                 ++ str "&password=" ++ password cfg ++ str "&ip=" ++ up_ip_addr ctx in
    mret {| url := url; request := get_request |}.

(** libxml2: a body's document and an expression's text nodes in it; [None] when
    the text is no document, or there is no memory. *)
(* @fn src/driver/namecheap/namecheap.cpp | bool NamecheapDriver::check_response( | NamecheapDriver::check_response *)
Definition check_response (xpath_text : bytes → bytes → option (list (option bytes))) (response : HttpResponse) : bool :=
  match xpath_text (rs_body response) (str "//ErrCount/text()") with
  | Some (Some count :: _) => bool_decide (count = str "0")
  | _ => false
  end.
End Namecheap.

(** * Services with a JSON body *)

Module Cloudflare.

(* @fn src/driver/cloudflare/config.hpp | struct CloudflareParams { | CloudflareParams *)
Record CloudflareParams := { zone_id : bytes; record_id : bytes; token : bytes; ttl : option Z; proxied : option bool }.

(* @fn src/driver/cloudflare/config.hpp | struct CloudflareRequestBody { | CloudflareRequestBody *)
Record CloudflareRequestBody :=
  { b_type : bytes; b_name : bytes; b_content : bytes; b_ttl : Z; b_proxied : bool }.

(* @fn src/driver/cloudflare/cloudflare.cpp | std::string CloudflareDriver::generate_body( | CloudflareDriver::generate_body *)
Definition generate_body (write : CloudflareRequestBody → option bytes) (cfg : CloudflareParams)
    (ctx : DriverUpdateParams) : bytes :=
  json_or_empty write {| b_type := up_rd_type ctx; b_name := up_subdomain ctx; b_content := up_ip_addr ctx;
                         b_ttl := default 30%Z (ttl cfg); b_proxied := default false (proxied cfg) |}.

(* @fn src/driver/cloudflare/cloudflare.cpp | DriverRequestContext CloudflareDriver::generate_request( | CloudflareDriver::generate_request *)
Definition generate_request {W} (read : bytes → bytes + CloudflareParams) (write : CloudflareRequestBody → option bytes)
    (config : bytes) (ctx : DriverUpdateParams) : st W exn DriverRequestContext :=
  cfg ← parse_config read config;
  mret {| url := str "https://api.cloudflare.com/client/v4/zones/" ++ zone_id cfg ++ str "/dns_records/" ++ record_id cfg;
          request := json_request PUT [(str "Authorization", str "Bearer " ++ token cfg)] (generate_body write cfg ctx) |}.

(** Of a response that is read, [success]; the rest is only logged. *)
(* @fn src/driver/cloudflare/cloudflare.cpp | bool CloudflareDriver::check_response( | CloudflareDriver::check_response *)
Definition check_response (read_success : bytes → option bool) (response : HttpResponse) : bool :=
  default false (read_success (rs_body response)).
End Cloudflare.

Module DigitalOcean.

(* @fn src/driver/digital_ocean/config.hpp | struct DigitalOceanParams { | DigitalOceanParams *)
Record DigitalOceanParams := { record_id : bytes; token : bytes }.

(* @fn src/driver/digital_ocean/config.hpp | struct DigitalOceanBody { | DigitalOceanBody *)
Record DigitalOceanBody := { b_data : bytes }.

(* @fn src/driver/digital_ocean/digital_ocean.cpp | DriverRequestContext DigitalOceanDriver::generate_request( | DigitalOceanDriver::generate_request *)
Definition generate_request {W} (read : bytes → bytes + DigitalOceanParams) (write : DigitalOceanBody → option bytes)
    (config : bytes) (ctx : DriverUpdateParams) : st W exn DriverRequestContext :=
  cfg ← parse_config read config;
  mret {| url := str "https://api.digitalocean.com/v2/domains/" ++ up_domain ctx ++ str "/records/" ++ record_id cfg;
          request := json_request PUT [(str "Authorization", str "Bearer " ++ token cfg)]
                       (json_or_empty write {| b_data := up_ip_addr ctx |}) |}.

(** Whether the body reads as a record. *)
(* @fn src/driver/digital_ocean/digital_ocean.cpp | bool DigitalOceanDriver::check_response( | DigitalOceanDriver::check_response *)
Definition check_response (is_record : bytes → bool) (response : HttpResponse) : bool := is_record (rs_body response).
End DigitalOcean.

Module GoDaddy.

(* @fn src/driver/godaddy/config.hpp | struct GoDaddyParams { | GoDaddyParams *)
Record GoDaddyParams := { key : bytes; secret : bytes; ttl : option Z }.

(* @fn src/driver/godaddy/godaddy.cpp | struct GoDaddyRecordBody { | GoDaddyRecordBody *)
Record GoDaddyRecordBody := { b_data : bytes; b_ttl : Z; b_type : bytes }.

(* @fn src/driver/godaddy/godaddy.cpp | DriverRequestContext GoDaddyDriver::generate_request( | GoDaddyDriver::generate_request *)
Definition generate_request {W} (read : bytes → bytes + GoDaddyParams) (write : GoDaddyRecordBody → option bytes)
    (config : bytes) (ctx : DriverUpdateParams) : st W exn DriverRequestContext :=
  cfg ← parse_config read config;
  let body := {| b_data := up_ip_addr ctx; b_ttl := default 600%Z (ttl cfg); b_type := up_rd_type ctx |} in
  mret {| url := str "https://api.godaddy.com/v1/domains/" ++ up_domain ctx ++ str "/records/" ++ up_rd_type ctx
                   ++ str "/" ++ up_subdomain ctx;
          request := json_request PUT [(str "Authorization", str "sso-key " ++ key cfg ++ str ":" ++ secret cfg)]
                       (str "[" ++ json_or_empty write body ++ str "]") |}.

(* @fn src/driver/godaddy/godaddy.cpp | bool GoDaddyDriver::check_response( | GoDaddyDriver::check_response *)
Definition check_response (response : HttpResponse) : bool := (rs_status_code response =? 200)%Z.
End GoDaddy.

Module Linode.

(* @fn src/driver/linode/config.hpp | struct LinodeParams { | LinodeParams *)
Record LinodeParams := { token : bytes; domain_id : bytes; record_id : bytes; ttl_sec : option Z }.

(* @fn src/driver/linode/config.hpp | struct LinodeRequestBody { | LinodeRequestBody *)
Record LinodeRequestBody := { b_name : bytes; b_target : bytes; b_ttl_sec : option Z }.

(* @fn src/driver/linode/linode.cpp | DriverRequestContext LinodeDriver::generate_request( | LinodeDriver::generate_request *)
Definition generate_request {W} (read : bytes → bytes + LinodeParams) (write : LinodeRequestBody → option bytes)
    (config : bytes) (ctx : DriverUpdateParams) : st W exn DriverRequestContext :=
  cfg ← parse_config read config;
  let body := {| b_name := up_subdomain ctx; b_target := up_ip_addr ctx; b_ttl_sec := ttl_sec cfg |} in
  mret {| url := str "https://api.linode.com/v4/domains/" ++ domain_id cfg ++ str "/records/" ++ record_id cfg;
          request := json_request PUT [(str "Authorization", str "Bearer " ++ token cfg)] (json_or_empty write body) |}.

(* @fn src/driver/linode/linode.cpp | bool LinodeDriver::check_response( | LinodeDriver::check_response *)
Definition check_response (response : HttpResponse) : bool := (rs_status_code response =? 200)%Z.
End Linode.

Module Porkbun.

(* @fn src/driver/porkbun/config.hpp | struct PorkbunParams { | PorkbunParams *)
Record PorkbunParams := { api_key : bytes; secret_api_key : bytes; ttl : option Z }.

(* @fn src/driver/porkbun/config.hpp | struct PorkbunRequestBody { | PorkbunRequestBody *)
Record PorkbunRequestBody := { apikey : bytes; secretapikey : bytes; b_content : bytes; b_ttl : option Z }.

(* @fn src/driver/porkbun/porkbun.cpp | DriverRequestContext PorkbunDriver::generate_request( | PorkbunDriver::generate_request *)
Definition generate_request {W} (read : bytes → bytes + PorkbunParams) (write : PorkbunRequestBody → option bytes)
    (config : bytes) (ctx : DriverUpdateParams) : st W exn DriverRequestContext :=
  cfg ← parse_config read config;
  let subdomain := if bool_decide (up_subdomain ctx = str "@") || bool_decide (up_subdomain ctx = [])
                   then [] else up_subdomain ctx in
  let body := {| apikey := api_key cfg; secretapikey := secret_api_key cfg; b_content := up_ip_addr ctx;
                 b_ttl := ttl cfg |} in
  mret {| url := str "https://api.porkbun.com/api/json/v3/dns/editByNameType/" ++ up_domain ctx ++ str "/"
                   ++ up_rd_type ctx ++ str "/" ++ subdomain;
          request := json_request POST
                       (emplace (str "X-Secret-API-Key") (secret_api_key cfg) [(str "X-API-Key", api_key cfg)])
                       (json_or_empty write body) |}.

(** Of a response that is read, [status]. *)
(* @fn src/driver/porkbun/porkbun.cpp | bool PorkbunDriver::check_response( | PorkbunDriver::check_response *)
Definition check_response (read_status : bytes → option bytes) (response : HttpResponse) : bool :=
  match read_status (rs_body response) with
  | Some status => bool_decide (status = str "SUCCESS")
  | None => false
  end.
End Porkbun.

Module Vultr.

(* @fn src/driver/vultr/config.hpp | struct VultrParams { | VultrParams *)
Record VultrParams := { api_key : bytes; record_id : bytes; ttl : option Z }.

(* @fn src/driver/vultr/config.hpp | struct VultrRequestBody { | VultrRequestBody *)
Record VultrRequestBody := { b_name : bytes; b_data : bytes; b_ttl : option Z }.

(* @fn src/driver/vultr/vultr.cpp | DriverRequestContext VultrDriver::generate_request( | VultrDriver::generate_request *)
Definition generate_request {W} (read : bytes → bytes + VultrParams) (write : VultrRequestBody → option bytes)
    (config : bytes) (ctx : DriverUpdateParams) : st W exn DriverRequestContext :=
  cfg ← parse_config read config;
  let body := {| b_name := up_subdomain ctx; b_data := up_ip_addr ctx; b_ttl := ttl cfg |} in
  mret {| url := str "https://api.vultr.com/v2/domains/" ++ up_domain ctx ++ str "/records/" ++ record_id cfg;
          request := json_request PATCH [(str "Authorization", str "Bearer " ++ api_key cfg)] (json_or_empty write body) |}.

(* @fn src/driver/vultr/vultr.cpp | bool VultrDriver::check_response( | VultrDriver::check_response *)
Definition check_response (response : HttpResponse) : bool := (rs_status_code response =? 204)%Z.
End Vultr.

(** * DNSPod *)

Module DnsPod.

(* @fn src/driver/dnspod/config.hpp | struct DNSPodParams { | DNSPodParams *)
Record DNSPodParams := {
  domain_id : bytes; record_id : bytes; login_token : bytes; record_line : option bytes;
  record_line_id : bytes; global : bool
}.

Definition API_URL_CN : bytes := str "https://dnsapi.cn/Record.Ddns".
Definition API_URL_GLOBAL : bytes := str "https://api.dnspod.com/Record.Ddns".

(** A multimap from its initialiser. *)
Definition multimap (l : list (bytes * bytes)) : list (bytes * bytes) :=
  foldl (λ m p, emplace p.1 p.2 m) [] l.

(* @fn src/driver/dnspod/dnspod.cpp | DriverRequestContext DNSPodDriver::generate_request( | DNSPodDriver::generate_request *)
Definition generate_request {W} `{Httplib W} (read : bytes → bytes + DNSPodParams) (config : bytes)
    (ctx : DriverUpdateParams) : st W exn DriverRequestContext :=
  cfg ← parse_config read config;
  let line := default (if global cfg then str "default" else str "默认") (record_line cfg) in
  let url := if global cfg then API_URL_GLOBAL else API_URL_CN in
  mret {| url := url;
          request := {|
            content_type := str "application/x-www-form-urlencoded";
            method := POST;
            headers := [];
            body := Some (params_to_query_string (multimap [
              (str "login_token", login_token cfg); (str "domain_id", domain_id cfg);
              (str "record_id", record_id cfg); (str "sub_domain", up_subdomain ctx);
              (str "record_type", up_rd_type ctx); (str "value", up_ip_addr ctx);
              (str "record_line", line); (str "record_line_id", record_line_id cfg);
              (str "format", str "json")])) |} |}.

(* @src src/driver/dnspod/dnspod.cpp 21 43 ERROR_CODES *)
Definition ERROR_CODES : list (bytes * bytes) := [
  (str "-15", str "Domain got prohibited");
  (str "-8", str "You need a upgrade for the domain you are acting for");
  (str "-7", str "A domain of a company account need a upgrade first");
  (str "-4", str "Not in this agent");
  (str "-3", str "Invalid agent");
  (str "-2", str "API used too frequently");
  (str "-1", str "Login fails");
  (str "1", str "Action completed successfully");
  (str "2", str "POST method only");
  (str "3", str "Unknown errors");
  (str "6", str "Invalid user_id / Invalid domain id");
  (str "7", str "You don't have the permission / User is not under this agent");
  (str "8", str "Invalid record id");
  (str "21", str "Domain got locked");
  (str "22", str "Invalid sub domain");
  (str "23", str "The number of the record level is up to limit");
  (str "24", str "Invalid sub domain for general analysis");
  (str "25", str "The number of poll is up to limit");
  (str "26", str "Invalid record line");
  (str "85", str "Account logged-on in another place and your request got rejected");
  (str "-99", str "This API is not ready to be used")].

(* @fn src/driver/dnspod/dnspod.cpp | std::string_view DNSPodDriver::describe_error_code( | DNSPodDriver::describe_error_code *)
Definition describe_error_code (code : bytes) : bytes :=
  match list_find (λ entry, entry.1 = code) ERROR_CODES with
  | Some (_, entry) => entry.2
  | None => str "Unknown error code"
  end.

(** No code is twice in the table, so that the order of an [unordered_map] is none
    of its business. *)
Example error_codes_described :
  NoDup ERROR_CODES.*1 ∧ Forall (λ entry, describe_error_code entry.1 = entry.2) ERROR_CODES
  ∧ describe_error_code (str "9") = str "Unknown error code".
Proof. apply (bool_decide_unpack _). vm_compute. exact I. Qed.

(** Of a response that is read, the status code, if it has a status. *)
(* @fn src/driver/dnspod/dnspod.cpp | bool DNSPodDriver::check_response( | DNSPodDriver::check_response *)
Definition check_response (read_status : bytes → option (option bytes)) (response : HttpResponse) : bool :=
  match read_status (rs_body response) with
  | Some (Some code) => bool_decide (code = str "1")
  | _ => false
  end.
End DnsPod.
