(* ===== verification/NamedFormat.v ===== *)
(** [include/fmt.hpp], [include/http_fmt.hpp]: formatting with named arguments as
    the build over [std::format] does it, and the text of a request in the log. *)
From S2P Require Import Prelude CppString StringUtil Io Http HttpClient Updater Plugins.

(** * Named arguments *)

(* @src src/include/fmt.hpp 24 26 fmt::named_arg_t *)
Record named_arg := { arg_name : bytes; arg_value : bytes }.

(** The map that [format] fills: of two arguments with a name the later one stays. *)
(* @src src/include/fmt.hpp 59 61 fmt::format (named arguments: the map) *)
Definition argument_map (args : list named_arg) : gmap bytes bytes :=
  foldl (λ m a, <[arg_name a := arg_value a]> m) ∅ args.

(* @src src/include/fmt.hpp 64 64 fmt::format (named arguments: the placeholder) *)
Definition placeholder (key : bytes) : bytes := str "{" ++ key ++ str "}".

(** Replacing at [pos] and searching on behind what was put there. *)
(* @src src/include/fmt.hpp 65 68 fmt::format (named arguments: inner loop) *)
Fixpoint replace_loop {E} (fuel : nat) (result ph val : bytes) (pos : option nat) : outcome E bytes :=
  match pos with
  | None => Ret result
  | Some p =>
      match fuel with
      | O => OutOfFuel
      | S fuel =>
          let result := take p result ++ val ++ drop (p + length ph) result in
          replace_loop fuel result ph val (find result ph (p + length val))
      end
  end.

(** The outer loop, over the map's entries in the order that the map has them. *)
(* @src src/include/fmt.hpp 63 69 fmt::format (named arguments: outer loop) *)
Fixpoint replace_entries {E} (result : bytes) (entries : list (bytes * bytes)) : outcome E bytes :=
  match entries with
  | [] => Ret result
  | (key, val) :: entries =>
      let ph := placeholder key in
      result ← replace_loop (length result) result ph val (find result ph 0);
      replace_entries result entries
  end.

(** An unordered map has its entries in any order. *)
(* @src src/include/fmt.hpp 55 71 fmt::format (named arguments) *)
Definition format_named (fmt : bytes) (args : list named_arg) (result : bytes) : Prop :=
  ∃ entries, entries ≡ₚ map_to_list (argument_map args) ∧ replace_entries (E:=Empty_set) fmt entries = Ret result.

(** [fmt::join] *)
(* @fn src/include/fmt.hpp | std::string join(Range &&range, std::string_view sep) { | fmt::join *)
Fixpoint join_loop (first : bool) (result sep : bytes) (range : list bytes) : bytes :=
  match range with
  | [] => result
  | item :: range =>
      let result := if first then result else result ++ sep in
      join_loop false (result ++ item) sep range
  end.
Definition fmt_join (range : list bytes) (sep : bytes) : bytes := join_loop true [] sep range.

(** * A request as text *)

(* @fn src/include/http_fmt.hpp | static std::string_view to_string(const HttpMethod type) { | formatter<HttpRequest>::to_string *)
Definition method_text (m : HttpMethod) : bytes :=
  match m with
  | GET => str "GET" | POST => str "POST" | PUT => str "PUT" | PATCH => str "PATCH"
  | DEL => str "DELETE" | HEAD => str "HEAD" | OPTIONS => str "OPTIONS"
  end.

(* @src src/include/http_fmt.hpp 53 58 formatter<HttpRequest>::format_map (loop) *)
Fixpoint format_map_loop (buf : bytes) (m : list (bytes * bytes)) : bytes :=
  match m with
  | [] => buf
  | (k, v) :: m => format_map_loop (buf ++ k ++ str "=" ++ v ++ str "; ") m
  end.

(* @fn src/include/http_fmt.hpp | [[nodiscard]] static std::string format_map(Iter first, Iter last) { | formatter<HttpRequest>::format_map *)
Definition format_map (m : list (bytes * bytes)) : bytes :=
  let buf := format_map_loop [] m in
  if 2 <=? length buf then take (length buf - 2) buf else buf.

(* @fn src/include/http_fmt.hpp | auto format(const HttpRequest &request, FormatContext &ctx) const | formatter<HttpRequest>::format *)
Definition format_request (request : HttpRequest) : bytes :=
  str "HttpRequest(body=" ++ quoted (default [] (body request)) ++ str ", content_type=" ++ quoted (content_type request)
    ++ str ", method=" ++ quoted (method_text (method request))
    ++ str ", header=" ++ quoted (format_map (headers request)) ++ str ")".

(** * What the named format computes *)

(** A template, cut at its placeholders. *)
Inductive piece := Lit (text : bytes) | Arg (key : bytes).

Definition piece_text (p : piece) : bytes := match p with Lit text => text | Arg key => placeholder key end.
Definition template (ps : list piece) : bytes := concat (map piece_text ps).

(** All placeholders filled at once. *)
Definition fill_piece (m : bytes → option bytes) (p : piece) : piece :=
  match p with
  | Lit text => Lit text
  | Arg key => match m key with Some val => Lit val | None => Arg key end
  end.
Definition filled (m : bytes → option bytes) (ps : list piece) : bytes := template (map (fill_piece m) ps).

Definition plain (s : bytes) : Prop := ch "{" ∉ s.
Definition key_ok (s : bytes) : Prop := (ch "{" ∉ s) ∧ (ch "}" ∉ s).
Definition piece_ok (p : piece) : Prop := match p with Lit text => plain text | Arg key => key_ok key end.

#[local] Instance plain_dec s : Decision (plain s).
Proof. unfold plain. apply _. Defined.
#[local] Instance key_ok_dec s : Decision (key_ok s).
Proof. unfold key_ok. apply _. Defined.
#[local] Instance piece_ok_dec p : Decision (piece_ok p).
Proof. destruct p; cbn; apply _. Defined.

Lemma replace_loop_subst {E} fuel s ph val last :
  ph ≠ [] → last ≤ length s → length s - last ≤ fuel →
  replace_loop (E:=E) fuel s ph val (find s ph last) = Ret (take last s ++ subst ph val (drop last s) 0).
Proof.
  intros Hph. pose proof (ts_length _ Hph) as Ht. revert s last.
  induction fuel as [|fuel IH]; intros s last Hl Hf; cbn [replace_loop]; destruct (find s ph last) as [p|] eqn:Hp.
  2,4: by rewrite subst_find_None, take_drop.
  - apply find_Some_bound in Hp. lia.
  - pose proof (find_Some_bound _ _ _ _ Hp) as [Hlp Hpl].
    destruct (replace_at_tail ph val s p Hpl) as [-> Hlen].
    rewrite IH; rewrite ?length_app, ?length_take, ?length_drop; try lia.
    rewrite drop_app_exact, take_app_exact by (rewrite <- Hlen; by rewrite length_app, length_take).
    rewrite (subst_find _ _ Hph _ _ _ Hp). unfold sub. rewrite !app_assoc. do 2 f_equal.
    rewrite take_take_drop. by replace (last + (p - last)) with p by lia.
Qed.

Lemma subst_plain key val text rest :
  plain text → subst (placeholder key) val (text ++ rest) 0 = text ++ subst (placeholder key) val rest 0.
Proof.
  unfold plain. induction text as [|x text IH]; intros Hp; [done|]. apply not_elem_of_cons in Hp as [Hx Hp].
  cbn [app subst]. destruct (starts_with _ _) eqn:Hs; [|by rewrite IH].
  exfalso. change (placeholder key) with (ch "{" :: key ++ str "}") in Hs. cbn [starts_with] in Hs.
  apply andb_true_iff in Hs as [Hs _]. apply Z.eqb_eq in Hs. by destruct Hx.
Qed.

(** Keys end at the first closing brace. *)
Lemma key_prefix k key rest :
  ch "}" ∉ k → ch "}" ∉ key → starts_with (k ++ str "}" ++ rest) (key ++ str "}") = true → k = key.
Proof.
  revert key. induction k as [|x k IH]; intros [|y key] Hk Hkey Hs; [done| | |].
  - cbn [app starts_with] in Hs. apply andb_true_iff in Hs as [Hs _]. apply Z.eqb_eq in Hs.
    destruct Hkey. apply elem_of_cons. by left.
  - cbn [app starts_with] in Hs. apply andb_true_iff in Hs as [Hs _]. apply Z.eqb_eq in Hs.
    destruct Hk. apply elem_of_cons. left. by rewrite Hs.
  - apply not_elem_of_cons in Hk as [_ Hk]. apply not_elem_of_cons in Hkey as [_ Hkey].
    cbn [app starts_with] in Hs. apply andb_true_iff in Hs as [Hxy Hs]. apply Z.eqb_eq in Hxy as ->.
    f_equal. by apply IH.
Qed.

Lemma subst_template key val ps :
  key_ok key → Forall piece_ok ps →
  subst (placeholder key) val (template ps) 0
    = template (map (fill_piece (λ k, if decide (k = key) then Some val else None)) ps).
Proof.
  intros [_ Hc] Hps. induction Hps as [|p ps Hp _ IH]; [done|]. unfold template in *. cbn [map concat].
  destruct p as [text|k]; cbn [piece_text fill_piece] in *.
  - by rewrite subst_plain, IH.
  - destruct Hp as [Ho Hk]. destruct (decide (k = key)) as [->|Hne]; cbn [piece_text].
    + change (placeholder key ++ concat (map piece_text ps)) with (ch "{" :: (key ++ str "}") ++ concat (map piece_text ps)).
      cbn [subst]. rewrite (proj2 (starts_with_spec _ _)) by by exists (concat (map piece_text ps)).
      rewrite subst_skip, <- IH. do 2 f_equal. change (length (placeholder key) - 1) with (S (length (key ++ str "}")) - 1).
      rewrite Nat.sub_succ, Nat.sub_0_r. apply drop_app_length.
    + change (placeholder k ++ concat (map piece_text ps)) with (ch "{" :: (k ++ str "}") ++ concat (map piece_text ps)).
      cbn [subst]. destruct (starts_with _ _) eqn:Hs.
      * exfalso. apply Hne. change (placeholder key) with (ch "{" :: key ++ str "}") in Hs. cbn [starts_with] in Hs.
        rewrite Z.eqb_refl, <- app_assoc in Hs. by eapply key_prefix.
      * rewrite subst_plain; [by rewrite IH|]. unfold plain. rewrite not_elem_of_app. split; [done|].
        apply (bool_decide_unpack _). vm_compute. exact I.
Qed.

Definition entry_ok (e : bytes * bytes) : Prop := key_ok e.1 ∧ plain e.2.

Definition lookup_entries (entries : list (bytes * bytes)) (key : bytes) : option bytes :=
  snd <$> (snd <$> list_find (λ e, e.1 = key) entries).

Lemma replace_entries_filled {E} entries ps :
  Forall entry_ok entries → NoDup entries.*1 → Forall piece_ok ps →
  replace_entries (E:=E) (template ps) entries = Ret (filled (lookup_entries entries) ps).
Proof.
  intros He. revert ps. induction He as [|[key val] entries [Hkey Hval] _ IH]; intros ps Hnd Hps.
  - cbn [replace_entries]. do 2 f_equal. unfold filled. f_equal. rewrite <- (map_id ps) at 1.
    apply map_ext. by intros [].
  - cbn [fmap list_fmap fst snd] in *. apply NoDup_cons in Hnd as [Hnin Hnd]. cbn [replace_entries].
    rewrite replace_loop_subst by (done || lia). cbn [mbind outcome_bind]. rewrite drop_0, take_0, subst_template by done. cbn [app].
    rewrite IH; [|done|].
    + f_equal. unfold filled. rewrite map_map. f_equal. apply map_ext. intros [text|k]; [done|].
      cbn [fill_piece]. unfold lookup_entries at 2. cbn [list_find fst].
      destruct (decide (k = key)) as [->|Hne]; [by rewrite decide_True|].
      rewrite decide_False by congruence. cbn [fill_piece]. unfold lookup_entries.
      by destruct (list_find _ entries) as [[i e]|].
    + apply Forall_map. eapply Forall_impl; [exact Hps|]. intros [text|k] Hp; [done|]. cbn [fill_piece].
      by destruct (decide _).
Qed.

(** A permutation of the map's entries looks up what the map does. *)
Lemma lookup_entries_map (entries : list (bytes * bytes)) (m : gmap bytes bytes) (key : bytes) :
  entries ≡ₚ map_to_list m → lookup_entries entries key = m !! key.
Proof.
  intros Hp. unfold lookup_entries. destruct (list_find _ entries) as [[i [k v]]|] eqn:Hf.
  - apply list_find_Some in Hf as (Hi & Hk & _). cbn [fst snd fmap option_fmap option_map] in *. subst k. symmetry.
    apply elem_of_map_to_list. rewrite <- Hp. by eapply list_elem_of_lookup_2.
  - rewrite list_find_None, Forall_forall in Hf. cbn [fmap option_fmap option_map]. symmetry. apply eq_None_not_Some.
    intros [v Hv]. apply elem_of_map_to_list in Hv. rewrite <- Hp in Hv. by apply (Hf _ Hv).
Qed.

Lemma format_named_filled (ps : list piece) (args : list named_arg) (result : bytes) :
  Forall piece_ok ps → Forall (λ a, key_ok (arg_name a) ∧ plain (arg_value a)) args →
  (format_named (template ps) args result ↔ result = filled (λ key, argument_map args !! key) ps).
Proof.
  intros Hps Hargs. assert (map_Forall (λ k v, entry_ok (k, v)) (argument_map args)) as Hm.
  { unfold argument_map. assert (map_Forall (λ k v, entry_ok (k, v)) (∅ : gmap bytes bytes)) as H0 by apply map_Forall_empty.
    revert H0. generalize (∅ : gmap bytes bytes). induction Hargs as [|a args [Ha Hv] _ IH]; intros m H0; [done|].
    cbn [foldl]. apply IH, map_Forall_insert_2; [by split|done]. }
  assert (∀ entries, entries ≡ₚ map_to_list (argument_map args) →
    replace_entries (E:=Empty_set) (template ps) entries = Ret (filled (λ key, argument_map args !! key) ps)) as Hall.
  { intros entries Hp. rewrite replace_entries_filled; [|..|done].
    - unfold filled. rewrite (map_ext (fill_piece (lookup_entries entries)) (fill_piece (λ key, argument_map args !! key))); [done|].
      intros [text|k]; [done|]. cbn [fill_piece]. by rewrite (lookup_entries_map _ _ _ Hp).
    - apply Forall_forall. intros [k v] Hin. rewrite Hp in Hin. apply elem_of_map_to_list in Hin. by apply Hm.
    - rewrite Hp. apply NoDup_fst_map_to_list. }
  split.
  - intros (entries & Hp & Hr). rewrite Hall in Hr by done. by injection Hr.
  - intros ->. exists (map_to_list (argument_map args)). split; [done|]. by apply Hall.
Qed.

(** C37: In whichever order the map has its entries, the build over [std::format] gives
    what filling all placeholders at once gives, if no value has an opening brace. *)
Theorem named_format_spec (ps : list piece) (args : list named_arg) (result : bytes) :
  Forall piece_ok ps → Forall (λ a, key_ok (arg_name a) ∧ plain (arg_value a)) args →
  (format_named (template ps) args result ↔ result = filled (λ key, argument_map args !! key) ps).
Proof. apply format_named_filled. Qed.

(** With a brace in a value the order shows: one entry's value can hold the other's
    placeholder. *)
Example order_shows :
  let args := [{| arg_name := str "A"; arg_value := str "{B}" |}; {| arg_name := str "B"; arg_value := str "x" |}] in
  format_named (str "{A}{B}") args (str "xx") ∧ format_named (str "{A}{B}") args (str "{B}x").
Proof.
  split; [exists [(str "A", str "{B}"); (str "B", str "x")]|exists [(str "B", str "x"); (str "A", str "{B}")]];
    (split; [|vm_compute; reflexivity]).
  - change (argument_map _) with (<[str "B":=str "x"]> (<[str "A":=str "{B}"]> (∅ : gmap bytes bytes))).
    rewrite !map_to_list_insert by (vm_compute; reflexivity). rewrite map_to_list_empty. apply Permutation_swap.
  - change (argument_map _) with (<[str "B":=str "x"]> (<[str "A":=str "{B}"]> (∅ : gmap bytes bytes))).
    rewrite !map_to_list_insert by (vm_compute; reflexivity). by rewrite map_to_list_empty.
Qed.

(** * The texts *)

Lemma join_loop_join first result sep range :
  join_loop first result sep range
    = result ++ (if first then [] else match range with [] => [] | _ => sep end) ++ join range sep.
Proof.
  revert first result. induction range as [|item range IH]; intros first result; cbn [join_loop].
  - destruct first; by rewrite app_nil_r.
  - rewrite IH. destruct first, range; cbn [join]; by rewrite <- ?app_assoc, ?app_nil_r.
Qed.

(** [fmt::join] is [StringUtil::join]. *)
Lemma fmt_join_eq range sep : fmt_join range sep = join range sep.
Proof. unfold fmt_join. by rewrite join_loop_join. Qed.

Lemma format_map_loop_eq buf m :
  format_map_loop buf m = buf ++ concat (map (λ kv, kv.1 ++ str "=" ++ kv.2 ++ str "; ") m).
Proof.
  revert buf. induction m as [|[k v] m IH]; intros buf; cbn [format_map_loop map concat]; [by rewrite app_nil_r|].
  rewrite IH. cbn [fst snd]. by rewrite <- !app_assoc.
Qed.

(** The entries as [key=value], with separators between them. *)
Lemma format_map_eq m : format_map m = join (map (λ kv, kv.1 ++ str "=" ++ kv.2) m) (str "; ").
Proof.
  unfold format_map. rewrite format_map_loop_eq. cbn [app].
  assert (concat (map (λ kv, kv.1 ++ str "=" ++ kv.2 ++ str "; ") m)
    = match m with [] => [] | _ => join (map (λ kv, kv.1 ++ str "=" ++ kv.2) m) (str "; ") ++ str "; " end) as ->.
  { induction m as [|kv [|kv' m] IH]; [done| |]; cbn [map concat join].
    - by rewrite app_nil_r, <- !app_assoc.
    - cbn [map concat] in IH. rewrite IH. cbn [join map]. by rewrite <- !app_assoc. }
  destruct m as [|kv m]; [done|]. rewrite length_app. change (length (str "; ")) with 2.
  rewrite (proj2 (Nat.leb_le _ _)) by lia. rewrite Nat.add_sub. apply take_app_length.
Qed.

(** * The drivers' URLs *)

(** An argument that the formats can take. *)
Definition argument (name : string) (value : bytes) : named_arg := {| arg_name := str name; arg_value := value |}.

(* @fn src/driver/cloudflare/cloudflare.cpp | constexpr std::string_view API_URL = | API_URL *)
Definition cloudflare_url : bytes := str "https://api.cloudflare.com/client/v4/zones/{ZONE_ID}/dns_records/{RECORD_ID}".

(* @fn src/driver/digital_ocean/digital_ocean.cpp | constexpr std::string_view API_URL = | API_URL *)
Definition digital_ocean_url : bytes := str "https://api.digitalocean.com/v2/domains/{DOMAIN}/records/{RECORD_ID}".

(* @fn src/driver/godaddy/godaddy.cpp | constexpr std::string_view API_URL = | API_URL *)
Definition godaddy_url : bytes := str "https://api.godaddy.com/v1/domains/{DOMAIN}/records/{TYPE}/{NAME}".

(* @fn src/driver/linode/linode.cpp | constexpr std::string_view API_URL = | API_URL *)
Definition linode_url : bytes := str "https://api.linode.com/v4/domains/{DOMAIN_ID}/records/{RECORD_ID}".

(* @fn src/driver/vultr/vultr.cpp | constexpr std::string_view API_URL = | API_URL *)
Definition vultr_url : bytes := str "https://api.vultr.com/v2/domains/{DOMAIN}/records/{RECORD_ID}".

(* @fn src/driver/porkbun/porkbun.cpp | constexpr std::string_view API_URL = | API_URL *)
Definition porkbun_url : bytes :=
  str "https://api.porkbun.com/api/json/v3/dns/editByNameType/{DOMAIN}/{TYPE}/{SUBDOMAIN}".

(** A format and the request that Plugins.v has for it: the request's URL is the
    one text that the format gives. *)
Definition formats_to {W} (fmt : bytes) (args : list named_arg) (m : st W exn DriverRequestContext) : Prop :=
  Forall (λ a, plain (arg_value a)) args →
  ∀ w, ∃ r, m w = (Ret r, w) ∧ ∀ result, format_named fmt args result ↔ result = url r.

Lemma formats_template {W} fmt ps args (r : DriverRequestContext) :
  fmt = template ps → Forall piece_ok ps → Forall (λ a, key_ok (arg_name a)) args →
  url r = filled (λ key, argument_map args !! key) ps → formats_to (W:=W) fmt args (mret r).
Proof.
  intros -> Hps Hk Hu Hv w. exists r. split; [done|]. intros result. rewrite Hu. apply format_named_filled; [done|].
  rewrite Forall_forall in Hk, Hv. apply Forall_forall. intros a Ha. split; [by apply Hk|by apply Hv].
Qed.

Ltac fills_pieces :=
  unfold filled; cbn [map fill_piece];
  repeat match goal with |- context [argument_map ?a !! ?k] =>
    let v := eval vm_compute in (argument_map a !! k) in change (argument_map a !! k) with v end;
  unfold template; cbn [map piece_text concat]; rewrite ?app_nil_r; vm_compute; reflexivity.
Ltac formats_with ps :=
  apply (formats_template _ ps);
  [reflexivity|apply (bool_decide_unpack _); vm_compute; exact I
  |apply (bool_decide_unpack _); vm_compute; exact I|fills_pieces].

Lemma cloudflare_formats {W} (cfg : Cloudflare.CloudflareParams) write config ctx :
  formats_to (W:=W) cloudflare_url [argument "ZONE_ID" (Cloudflare.zone_id cfg); argument "RECORD_ID" (Cloudflare.record_id cfg)]
    (Cloudflare.generate_request (λ _, inr cfg) write config ctx).
Proof. formats_with [Lit (str "https://api.cloudflare.com/client/v4/zones/"); Arg (str "ZONE_ID"); Lit (str "/dns_records/"); Arg (str "RECORD_ID")]. Qed.

Lemma digital_ocean_formats {W} (cfg : DigitalOcean.DigitalOceanParams) write config ctx :
  formats_to (W:=W) digital_ocean_url [argument "DOMAIN" (up_domain ctx); argument "RECORD_ID" (DigitalOcean.record_id cfg)]
    (DigitalOcean.generate_request (λ _, inr cfg) write config ctx).
Proof. formats_with [Lit (str "https://api.digitalocean.com/v2/domains/"); Arg (str "DOMAIN"); Lit (str "/records/"); Arg (str "RECORD_ID")]. Qed.

Lemma godaddy_formats {W} (cfg : GoDaddy.GoDaddyParams) write config ctx :
  formats_to (W:=W) godaddy_url [argument "DOMAIN" (up_domain ctx); argument "TYPE" (up_rd_type ctx); argument "NAME" (up_subdomain ctx)]
    (GoDaddy.generate_request (λ _, inr cfg) write config ctx).
Proof. formats_with [Lit (str "https://api.godaddy.com/v1/domains/"); Arg (str "DOMAIN"); Lit (str "/records/"); Arg (str "TYPE"); Lit (str "/"); Arg (str "NAME")]. Qed.

Lemma linode_formats {W} (cfg : Linode.LinodeParams) write config ctx :
  formats_to (W:=W) linode_url [argument "DOMAIN_ID" (Linode.domain_id cfg); argument "RECORD_ID" (Linode.record_id cfg)]
    (Linode.generate_request (λ _, inr cfg) write config ctx).
Proof. formats_with [Lit (str "https://api.linode.com/v4/domains/"); Arg (str "DOMAIN_ID"); Lit (str "/records/"); Arg (str "RECORD_ID")]. Qed.

Lemma vultr_formats {W} (cfg : Vultr.VultrParams) write config ctx :
  formats_to (W:=W) vultr_url [argument "DOMAIN" (up_domain ctx); argument "RECORD_ID" (Vultr.record_id cfg)]
    (Vultr.generate_request (λ _, inr cfg) write config ctx).
Proof. formats_with [Lit (str "https://api.vultr.com/v2/domains/"); Arg (str "DOMAIN"); Lit (str "/records/"); Arg (str "RECORD_ID")]. Qed.

Lemma porkbun_formats {W} (cfg : Porkbun.PorkbunParams) write config ctx :
  formats_to (W:=W) porkbun_url
    [argument "DOMAIN" (up_domain ctx); argument "TYPE" (up_rd_type ctx);
     argument "SUBDOMAIN" (if bool_decide (up_subdomain ctx = str "@") || bool_decide (up_subdomain ctx = []) then []
                           else up_subdomain ctx)]
    (Porkbun.generate_request (λ _, inr cfg) write config ctx).
Proof.
  formats_with [Lit (str "https://api.porkbun.com/api/json/v3/dns/editByNameType/"); Arg (str "DOMAIN"); Lit (str "/");
    Arg (str "TYPE"); Lit (str "/"); Arg (str "SUBDOMAIN")].
Qed.

(** ** An example *)

Lemma named_format_spec_witness :
  format_named vultr_url [argument "DOMAIN" (str "example.com"); argument "RECORD_ID" (str "7")]
    (str "https://api.vultr.com/v2/domains/example.com/records/7").
Proof.
  apply (named_format_spec [Lit (str "https://api.vultr.com/v2/domains/"); Arg (str "DOMAIN"); Lit (str "/records/"); Arg (str "RECORD_ID")]
    [argument "DOMAIN" (str "example.com"); argument "RECORD_ID" (str "7")]
    (str "https://api.vultr.com/v2/domains/example.com/records/7")).
  - apply (bool_decide_unpack _). vm_compute. exact I.
  - apply (bool_decide_unpack _). vm_compute. exact I.
  - vm_compute. reflexivity.
Defined.
