(* ===== verification/SignedPlugins.v ===== *)
(** [driver/alibaba_cloud], [driver/route53]: the bundled drivers that sign their
    requests, and what holds for all bundled drivers. *)
From S2P Require Import Prelude CppString Address Uri StringUtil Io Http HttpClient Signing Updater Plugins.
From stdpp Require Import sorting.

(** * Alibaba Cloud *)

Module AlibabaCloud.

(* @fn src/driver/alibaba_cloud/config.hpp | struct AlibabaParams { | AlibabaParams *)
Record AlibabaParams := { access_key_id : bytes; access_key_secret : bytes; record_id : bytes; ttl : option Z }.

Definition API_URL : bytes := str "https://alidns.aliyuncs.com/".
Definition API_VERSION : bytes := str "2015-01-09".

(** [{:020}] of a number that is not negative. *)
Definition pad20 (n : Z) : bytes := replicate (20 - length (dec n)) (ch "0") ++ dec n.

(** From the clock's nanoseconds and a random number. *)
(* @fn src/driver/alibaba_cloud/alibaba_cloud.cpp | std::string generate_nonce() { | generate_nonce *)
Definition generate_nonce (nanos extra : Z) : bytes := pad20 nanos ++ pad20 extra.

(* @fn src/driver/alibaba_cloud/alibaba_cloud.cpp | for (const auto &[key, value] : params) { | build_canonical_query (loop) *)
Fixpoint canonical_rest (first : bool) (params : list (bytes * bytes)) : bytes :=
  match params with
  | [] => []
  | (key, value) :: params =>
      (if first then [] else str "&") ++ url_encode key true ++ str "=" ++ url_encode value true ++ canonical_rest false params
  end.

(* @fn src/driver/alibaba_cloud/alibaba_cloud.cpp | std::string build_canonical_query( | build_canonical_query *)
Definition build_canonical_query (params : list (bytes * bytes)) : bytes := canonical_rest true params.

(* @fn src/driver/alibaba_cloud/alibaba_cloud.cpp | std::string compute_signature( | compute_signature *)
Definition compute_signature `{Evp} (secret_access_key http_method canonical_query : bytes) : bytes :=
  let encoded_path := url_encode (str "/") true in
  let encoded_query := url_encode canonical_query true in
  let string_to_sign := http_method ++ str "&" ++ encoded_path ++ str "&" ++ encoded_query in
  let key_str := secret_access_key ++ str "&" in
  base64_encode (hmac_sha1 key_str string_to_sign).

Definition key_le (a b : bytes * bytes) : Prop := lex_ltb b.1 a.1 = false.
#[export] Instance key_le_dec a b : Decision (key_le a b).
Proof. unfold key_le. apply _. Defined.

(** The parameters but for the signature, sorted by their keys. *)
(* @src src/driver/alibaba_cloud/alibaba_cloud.cpp 123 142 AlibabaCloudDriver::generate_request (params) *)
Definition params (cfg : AlibabaParams) (ctx : DriverUpdateParams) (nonce timestamp : bytes) : list (bytes * bytes) :=
  merge_sort key_le [
    (str "Action", str "UpdateDomainRecord"); (str "Format", str "JSON"); (str "Version", API_VERSION);
    (str "AccessKeyId", access_key_id cfg); (str "SignatureMethod", str "HMAC-SHA1");
    (str "SignatureVersion", str "1.0"); (str "SignatureNonce", nonce); (str "Timestamp", timestamp);
    (str "RecordId", record_id cfg); (str "RR", up_subdomain ctx); (str "Type", up_rd_type ctx);
    (str "Value", up_ip_addr ctx); (str "TTL", dec (default 600%Z (ttl cfg)))].

(** The clock and the random engine give the nonce's numbers; the time as text
    is Timestamp.v's [alibaba_timestamp]. *)
(* @fn src/driver/alibaba_cloud/alibaba_cloud.cpp | DriverRequestContext AlibabaCloudDriver::generate_request( | AlibabaCloudDriver::generate_request *)
Definition generate_request {W} `{Evp} (nanos extra : Z) (alibaba_timestamp : bytes)
    (read : bytes → bytes + AlibabaParams) (config : bytes) (ctx : DriverUpdateParams) : st W exn DriverRequestContext :=
  cfg ← parse_config read config;
  let canonical_query := build_canonical_query (params cfg ctx (generate_nonce nanos extra) alibaba_timestamp) in
  let signature := compute_signature (access_key_secret cfg) (str "POST") canonical_query in
  mret {| url := API_URL;
          request := {| content_type := str "application/x-www-form-urlencoded"; method := POST; headers := [];
                        body := Some (canonical_query ++ str "&" ++ str "Signature=" ++ url_encode signature true) |} |}.

(** Whether a body reads as a success. *)
(* @fn src/driver/alibaba_cloud/alibaba_cloud.cpp | bool AlibabaCloudDriver::check_response( | AlibabaCloudDriver::check_response *)
Definition check_response (is_update : bytes → bool) (response : HttpResponse) : bool :=
  (rs_status_code response =? 200)%Z && is_update (rs_body response).
End AlibabaCloud.

(** * Route 53 *)

Module Route53.

(* @fn src/driver/route53/config.hpp | struct Route53Params { | Route53Params *)
Record Route53Params := {
  access_key_id : bytes; secret_access_key : bytes; hosted_zone_id : bytes; region : bytes;
  record_name : bytes; ttl : option Z
}.

(* @fn src/driver/route53/route53.cpp | std::string ensure_trailing_dot( | ensure_trailing_dot *)
Definition ensure_trailing_dot (fqdn : bytes) : bytes :=
  match last fqdn with
  | None => str "."
  | Some c => if (c =? ch ".")%Z then fqdn else fqdn ++ str "."
  end.

Definition R53_XMLNS : bytes := str "https://route53.amazonaws.com/doc/2013-04-01/".
Definition R53_HOST : bytes := str "route53.amazonaws.com".
Definition SIGV4_ALGORITHM : bytes := str "AWS4-HMAC-SHA256".

(* @fn src/driver/route53/route53.cpp | std::vector<std::uint8_t> derive_signing_key( | derive_signing_key *)
Definition derive_signing_key `{Evp} (secret_access_key date_stamp region service request_type : bytes) : bytes :=
  let k_secret := str "AWS4" ++ secret_access_key in
  let k_date := hmac_sha256 k_secret date_stamp in
  let k_region := hmac_sha256 k_date region in
  let k_service := hmac_sha256 k_region service in
  hmac_sha256 k_service request_type.

(** An XML tree: libxml2 writes it out, or fails for want of memory. *)
Inductive xml := Element (name : bytes) (children : list xml) | TextElement (name content : bytes).

(* @fn src/driver/route53/route53.cpp | std::string Route53Driver::build_xml_body( | Route53Driver::build_xml_body *)
Definition build_xml_body (dump : bytes → xml → option bytes) (fqdn rd_type ip_addr : bytes) (ttl : Z) : bytes :=
  default [] (dump R53_XMLNS
    (Element (str "ChangeResourceRecordSetsRequest") [
       Element (str "ChangeBatch") [
         Element (str "Changes") [
           Element (str "Change") [
             TextElement (str "Action") (str "UPSERT");
             Element (str "ResourceRecordSet") [
               TextElement (str "Name") (c_str fqdn);
               TextElement (str "Type") (c_str rd_type);
               TextElement (str "TTL") (dec ttl);
               Element (str "ResourceRecords") [
                 Element (str "ResourceRecord") [TextElement (str "Value") (c_str ip_addr)]]]]]]])).

Definition lf : bytes := [10%Z].
Definition SIGNED_HEADERS : bytes := str "host;x-amz-content-sha256;x-amz-date".

(** The date and the timestamp are read from the clock one after the other. *)
(* @src src/driver/route53/route53.cpp 95 130 Route53Driver::generate_request (signature) *)
Definition authorization `{Evp} (cfg : Route53Params) (url_path body amz_date date_stamp : bytes) : bytes :=
  let payload_hash := sha256_hex body in
  let canonical_headers := str "host:" ++ R53_HOST ++ lf ++ str "x-amz-content-sha256:" ++ payload_hash ++ lf
        ++ str "x-amz-date:" ++ amz_date ++ lf in
  let canonical_request := str "POST" ++ lf ++ url_path ++ lf ++ lf ++ canonical_headers ++ lf ++ SIGNED_HEADERS
        ++ lf ++ payload_hash in
  let canonical_request_hash := sha256_hex canonical_request in
  let credential_scope := date_stamp ++ str "/" ++ region cfg ++ str "/route53/aws4_request" in
  let string_to_sign := SIGV4_ALGORITHM ++ lf ++ amz_date ++ lf ++ credential_scope ++ lf ++ canonical_request_hash in
  let signing_key := derive_signing_key (secret_access_key cfg) date_stamp (region cfg)
        (str "route53") (str "aws4_request") in
  let signature := hex_encode (hmac_sha256 signing_key string_to_sign) in
  SIGV4_ALGORITHM ++ str " Credential=" ++ access_key_id cfg ++ str "/" ++ credential_scope
    ++ str ", SignedHeaders=" ++ SIGNED_HEADERS ++ str ", Signature=" ++ signature.

(* @fn src/driver/route53/route53.cpp | DriverRequestContext Route53Driver::generate_request( | Route53Driver::generate_request *)
Definition generate_request {W} `{Evp} (dump : bytes → xml → option bytes) (amz_date date_stamp : bytes)
    (read : bytes → bytes + Route53Params) (config : bytes) (ctx : DriverUpdateParams) : st W exn DriverRequestContext :=
  cfg ← parse_config read config;
  let fqdn := ensure_trailing_dot (up_fqdn ctx) in
  let body := build_xml_body dump fqdn (up_rd_type ctx) (up_ip_addr ctx) (default 300%Z (ttl cfg)) in
  let url_path := str "/2013-04-01/hostedzone/" ++ hosted_zone_id cfg ++ str "/rrset" in
  mret {| url := str "https://" ++ R53_HOST ++ url_path;
          request := {| content_type := str "application/xml"; method := POST;
            headers := DnsPod.multimap [
              (str "Host", R53_HOST); (str "X-Amz-Date", amz_date); (str "X-Amz-Content-SHA256", sha256_hex body);
              (str "Authorization", authorization cfg url_path body amz_date date_stamp)];
            body := Some body |} |}.

(** libxml2: the text nodes that an expression finds in a body, with the prefix
    [r53] bound; [None] when the body is no document or a call fails. *)
(* @src src/driver/route53/route53.cpp 157 209 Route53Driver::check_response (status 200) *)
Definition check_status (xpath_text : bytes → bytes → option (list (option bytes))) (body : bytes) : bool :=
  match xpath_text body (str "//r53:ChangeResourceRecordSetsResponse/r53:ChangeInfo/r53:Status/text()") with
  | Some (Some status :: _) => bool_decide (status = str "PENDING") || bool_decide (status = str "INSYNC")
  | _ => false
  end.

(* @fn src/driver/route53/route53.cpp | bool Route53Driver::check_response( | Route53Driver::check_response *)
Definition check_response (xpath_text : bytes → bytes → option (list (option bytes))) (response : HttpResponse) : bool :=
  (rs_status_code response =? 200)%Z && check_status xpath_text (rs_body response).
End Route53.

(** * Where the bundled drivers send their secrets *)

Section hosts.
Context `{InetTextOk} {W : Type}.

(** Every request that [m] gives leads to [host], over TLS. *)
Definition goes_to (host : bytes) (m : st W exn DriverRequestContext) : Prop :=
  ∀ w r w', m w = (Ret r, w') → ∃ u, Uri.parse (url r) = Ret u
    ∧ build_base_url (E:=UriError) u = Ret (str "https://" ++ host ++ str ":443").

Definition host_name (host : bytes) : Prop := free_of (str ":/?#[") host ∧ map tolower host = host.

Lemma https_base_url host rest u :
  host_name host → Uri.parse (str "https://" ++ host ++ str "/" ++ rest) = Ret u →
  build_base_url (E:=UriError) u = Ret (str "https://" ++ host ++ str ":443").
Proof.
  intros [Hf Hl] Hu. destruct (https_host host rest Hf Hl) as (u' & Hu' & Hs & Hh & Hp).
  rewrite Hu in Hu'. injection Hu' as <-. unfold build_base_url. by rewrite Hs, Hh, Hp.
Qed.

Lemma goes_to_pure host {T} (read : bytes → bytes + T) config (f : T → DriverRequestContext) :
  host_name host → (∀ cfg, ∃ rest, url (f cfg) = str "https://" ++ host ++ str "/" ++ rest) →
  goes_to host (cfg ← parse_config read config; mret (f cfg)).
Proof.
  intros Hh Hf w r w'. unfold parse_config, mbind, st_bind. destruct (read config) as [e|cfg]; [done|].
  unfold mret, st_ret. intros [= <- _]. destruct (Hf cfg) as [rest ->].
  destruct (https_host host rest (proj1 Hh) (proj2 Hh)) as (u & Hu & _). exists u. split; [done|].
  by eapply https_base_url.
Qed.

Ltac host_name_literal :=
  split; [apply (bool_decide_unpack _); vm_compute; exact I|vm_compute; reflexivity].

Context `{Httplib W} `{Evp}.

Ltac fixed_host :=
  apply goes_to_pure; [host_name_literal|]; intros cfg; eexists; reflexivity.

Lemma dnspod_hosts read config ctx w r w' :
  DnsPod.generate_request read config ctx w = (Ret r, w') →
  ∃ u, Uri.parse (url r) = Ret u ∧ build_base_url (E:=UriError) u ∈
    [Ret (str "https://dnsapi.cn:443"); Ret (str "https://api.dnspod.com:443")].
Proof.
  unfold DnsPod.generate_request, parse_config, mbind, st_bind. destruct (read config) as [e|cfg]; [done|].
  unfold mret, st_ret. intros [= <- _]. cbn [url].
  assert (∀ host, host_name host → ∃ u, Uri.parse (str "https://" ++ host ++ str "/" ++ str "Record.Ddns") = Ret u
    ∧ build_base_url (E:=UriError) u = Ret (str "https://" ++ host ++ str ":443")) as Hhost.
  { intros host Hh. destruct (https_host host (str "Record.Ddns") (proj1 Hh) (proj2 Hh)) as (u & Hu & _).
    exists u. split; [done|]. by eapply https_base_url. }
  destruct (DnsPod.global cfg).
  - destruct (Hhost (str "api.dnspod.com")) as (u & Hu & Hb); [host_name_literal|].
    exists u. split; [exact Hu|]. rewrite Hb. right. left.
  - destruct (Hhost (str "dnsapi.cn")) as (u & Hu & Hb); [host_name_literal|].
    exists u. split; [exact Hu|]. rewrite Hb. left.
Qed.

(** Whatever their parameters, the update and the services' answers are, the
    bundled drivers send their requests, and with them the account's tokens
    and keys, over TLS to their service's own host at port 443 and nowhere
    else: nothing that is inserted into a URL can change its host. *)
Theorem bundled_hosts (config : bytes) (ctx : DriverUpdateParams) :
  (∀ read, goes_to (str "www.duckdns.org") (DuckDns.generate_request read config ctx))
  ∧ (∀ read, goes_to (str "dynamicdns.park-your-domain.com") (Namecheap.generate_request read config ctx))
  ∧ (∀ read write, goes_to (str "api.cloudflare.com") (Cloudflare.generate_request read write config ctx))
  ∧ (∀ read write, goes_to (str "api.digitalocean.com") (DigitalOcean.generate_request read write config ctx))
  ∧ (∀ read write, goes_to (str "api.godaddy.com") (GoDaddy.generate_request read write config ctx))
  ∧ (∀ read write, goes_to (str "api.linode.com") (Linode.generate_request read write config ctx))
  ∧ (∀ read write, goes_to (str "api.porkbun.com") (Porkbun.generate_request read write config ctx))
  ∧ (∀ read write, goes_to (str "api.vultr.com") (Vultr.generate_request read write config ctx))
  ∧ (∀ read w r w', DnsPod.generate_request read config ctx w = (Ret r, w') →
       ∃ u, Uri.parse (url r) = Ret u ∧ build_base_url (E:=UriError) u ∈
         [Ret (str "https://dnsapi.cn:443"); Ret (str "https://api.dnspod.com:443")])
  ∧ (∀ nanos extra time read, goes_to (str "alidns.aliyuncs.com")
       (AlibabaCloud.generate_request nanos extra time read config ctx))
  ∧ (∀ dump time date read, goes_to (str "route53.amazonaws.com")
       (Route53.generate_request dump time date read config ctx)).
Proof.
  split_and!; intros; try fixed_host.
  - apply goes_to_pure; [host_name_literal|]. intros cfg. destruct (default false _); eexists; reflexivity.
  - unfold Namecheap.generate_request. destruct (bool_decide _); [by intros ???|]. fixed_host.
  - by apply dnspod_hosts with read config ctx w w'.
Qed.
End hosts.

(** ** An example: a zone identifier that looks like another host *)

#[local] Instance sample_httplib : Httplib unit :=
  {| httplib_send := λ _ _ w, (inl (str "no network"), w); encode_query_component := λ s, s |}.

#[local] Instance sample_evp : Evp := {|
  EVP_MD := unit; EVP_sha256 := tt; EVP_sha1 := tt; EVP_PKEY := bytes; EVP_PKEY_new_mac_key := Some;
  EVP_MD_CTX_new := Some tt; EVP_DigestSignInit := λ _ _, true; EVP_DigestSignUpdate := λ _ _ _, true;
  EVP_DigestSignFinal_len := λ _ _ _, Some 20; EVP_DigestSignFinal := λ _ _ _ n, Some (replicate n 0%Z);
  EVP_Digest := λ _ _, replicate 32 0%Z |}.

Lemma bundled_hosts_witness :
  let cfg := {| Cloudflare.zone_id := str "@evil.example/#"; Cloudflare.record_id := str "1";
                Cloudflare.token := str "secret"; Cloudflare.ttl := None; Cloudflare.proxied := None |} in
  let ctx := {| up_ip_addr := str "192.0.2.1"; up_rd_type := str "A"; up_domain := str "example.com";
                up_subdomain := str "www"; up_fqdn := str "www.example.com" |} in
  ∃ r u, Cloudflare.generate_request (W:=unit) (λ _, inr cfg) (λ _, None) [] ctx tt = (Ret r, tt)
    ∧ @Uri.parse sample_text (url r) = Ret u
    ∧ build_base_url (E:=UriError) u = Ret (str "https://api.cloudflare.com:443").
Proof.
  intros cfg ctx.
  destruct (@bundled_hosts sample_text sample_text_ok unit _ _ [] ctx) as (_ & _ & Hcf & _).
  specialize (Hcf (λ _, inr cfg) (λ _, None) tt _ tt eq_refl). destruct Hcf as (u & Hu & Hb).
  eexists _, u. split; [reflexivity|]. split; [exact Hu|exact Hb].
Defined.
