(* ===== verification/DriverJson.v ===== *)
(** [driver/*/config.hpp], [driver/*/response.hpp]: how the bundled drivers'
    parameters and the responses they look into are read, and their request bodies
    written, from glaze's tables.  These are the readers and writers that Plugins.v
    and SignedPlugins.v leave open. *)
From S2P Require Import Prelude CppString DnsTypes HttpClient Json ConfigReader Plugins SignedPlugins.

(** The text of JSON: the value that a text is, or the text of an error; the text
    of a value, or none. *)
Class JsonText := {
  json_parse : bytes → bytes + json;
  json_print : json → option bytes;
  json_error : json → bytes
}.

Section reading.
Context `{Glaze} `{JsonText}.

(** [int64_t] *)
Definition int64_codec : codec Z := glz_integer (-9223372036854775808) 9223372036854775807.

(** Reading parameters: every key must be there whose member cannot be null. *)
(* @src src/include/driver/base.h 76 84 BaseDriver::parse_config (glz::read) *)
Definition read_params {T} (c : codec T) (init : T) (config : bytes) : bytes + T :=
  match json_parse config with
  | inl error => inl error
  | inr j => match decode c true init j with Some v => inr v | None => inl (json_error j) end
  end.

(** [glz::read_json<T>(text)] *)
Definition read_json {T} (c : codec T) (init : T) (text : bytes) : option T :=
  match json_parse text with inl _ => None | inr j => decode c false init j end.

(** [glz::write_json(body)] *)
Definition write_json {T} (c : codec T) (body : T) : option bytes := json_print (encode c body).
End reading.

Module DuckDnsJson.
Import DuckDns.
Section tables.
Context `{Glaze} `{JsonText}.

(* @src src/driver/duckdns/config.hpp 12 15 DuckDnsParams (initialisers) *)
Definition DuckDnsParams_init : DuckDnsParams := {| token := []; verbose := Some false |}.

(* @src src/driver/duckdns/config.hpp 17 24 glz::meta<DuckDnsParams> *)
Definition DuckDnsParams_fields : list (field DuckDnsParams) := [
  member (str "token") glz_string token (λ a '(Build_DuckDnsParams _ x1), Build_DuckDnsParams a x1);
  member (str "verbose") (glz_optional false glz_bool) verbose (λ a '(Build_DuckDnsParams x0 _), Build_DuckDnsParams x0 a)].
Definition DuckDnsParams_codec : codec DuckDnsParams := glz_object DuckDnsParams_fields.

Definition read : bytes → bytes + DuckDnsParams := read_params DuckDnsParams_codec DuckDnsParams_init.
End tables.
End DuckDnsJson.

Module NamecheapJson.
Import Namecheap.
Section tables.
Context `{Glaze} `{JsonText}.

(* @src src/driver/namecheap/config.hpp 13 17 NamecheapParams (initialisers) *)
Definition NamecheapParams_init : NamecheapParams := {| password := [] |}.

(* @src src/driver/namecheap/config.hpp 19 23 glz::meta<NamecheapParams> *)
Definition NamecheapParams_fields : list (field NamecheapParams) := [
  member (str "password") glz_string password (λ a _, Build_NamecheapParams a)].
Definition NamecheapParams_codec : codec NamecheapParams := glz_object NamecheapParams_fields.

Definition read : bytes → bytes + NamecheapParams := read_params NamecheapParams_codec NamecheapParams_init.
End tables.
End NamecheapJson.

Module CloudflareJson.
Import Cloudflare.

(* @src src/driver/cloudflare/response.hpp 15 17 CloudflareSource *)
Record CloudflareSource := { pointer : bytes }.

(* @src src/driver/cloudflare/response.hpp 20 25 CloudflareErrorDetail *)
Record CloudflareErrorDetail := { e_code : Z; e_message : bytes; e_documentation_url : option bytes; e_source : option CloudflareSource }.

(* @src src/driver/cloudflare/response.hpp 28 33 CloudflareMessage *)
Record CloudflareMessage := { m_code : Z; m_message : bytes; m_documentation_url : option bytes; m_source : option CloudflareSource }.

(* @src src/driver/cloudflare/response.hpp 36 47 CloudflareDnsRecord *)
Record CloudflareDnsRecord := { r_id : bytes; r_name : bytes; r_type : bytes; r_content : bytes; r_ttl : Z; r_proxied : bool; r_proxiable : bool; r_private_routing : option bool; r_comment : option bytes; r_tags : option (list bytes) }.

(* @src src/driver/cloudflare/response.hpp 50 55 CloudflareResponse *)
Record CloudflareResponse := { success : bool; errors : list CloudflareErrorDetail; messages : list CloudflareMessage; result : option CloudflareDnsRecord }.

Section tables.
Context `{Glaze} `{JsonText}.

(* @src src/driver/cloudflare/config.hpp 12 18 CloudflareParams (initialisers) *)
Definition CloudflareParams_init : CloudflareParams := {| zone_id := []; record_id := []; token := []; ttl := Some 30%Z; proxied := Some false |}.

(* @src src/driver/cloudflare/config.hpp 29 39 glz::meta<CloudflareParams> *)
Definition CloudflareParams_fields : list (field CloudflareParams) := [
  member (str "zone_id") glz_string zone_id (λ a '(Build_CloudflareParams _ x1 x2 x3 x4), Build_CloudflareParams a x1 x2 x3 x4);
  member (str "record_id") glz_string record_id (λ a '(Build_CloudflareParams x0 _ x2 x3 x4), Build_CloudflareParams x0 a x2 x3 x4);
  member (str "token") glz_string token (λ a '(Build_CloudflareParams x0 x1 _ x3 x4), Build_CloudflareParams x0 x1 a x3 x4);
  member (str "ttl") (glz_optional 0%Z int_codec) ttl (λ a '(Build_CloudflareParams x0 x1 x2 _ x4), Build_CloudflareParams x0 x1 x2 a x4);
  member (str "proxied") (glz_optional false glz_bool) proxied (λ a '(Build_CloudflareParams x0 x1 x2 x3 _), Build_CloudflareParams x0 x1 x2 x3 a)].
Definition CloudflareParams_codec : codec CloudflareParams := glz_object CloudflareParams_fields.

Definition read : bytes → bytes + CloudflareParams := read_params CloudflareParams_codec CloudflareParams_init.

(* @src src/driver/cloudflare/config.hpp 41 51 glz::meta<CloudflareRequestBody> *)
Definition CloudflareRequestBody_fields : list (field CloudflareRequestBody) := [
  member (str "type") glz_string b_type (λ a '(Build_CloudflareRequestBody _ x1 x2 x3 x4), Build_CloudflareRequestBody a x1 x2 x3 x4);
  member (str "name") glz_string b_name (λ a '(Build_CloudflareRequestBody x0 _ x2 x3 x4), Build_CloudflareRequestBody x0 a x2 x3 x4);
  member (str "content") glz_string b_content (λ a '(Build_CloudflareRequestBody x0 x1 _ x3 x4), Build_CloudflareRequestBody x0 x1 a x3 x4);
  member (str "ttl") int_codec b_ttl (λ a '(Build_CloudflareRequestBody x0 x1 x2 _ x4), Build_CloudflareRequestBody x0 x1 x2 a x4);
  member (str "proxied") glz_bool b_proxied (λ a '(Build_CloudflareRequestBody x0 x1 x2 x3 _), Build_CloudflareRequestBody x0 x1 x2 x3 a)].
Definition CloudflareRequestBody_codec : codec CloudflareRequestBody := glz_object CloudflareRequestBody_fields.

Definition write : CloudflareRequestBody → option bytes := write_json CloudflareRequestBody_codec.

(* @src src/driver/cloudflare/response.hpp 57 63 glz::meta<CloudflareSource> *)
Definition CloudflareSource_fields : list (field CloudflareSource) := [
  member (str "pointer") glz_string pointer (λ a _, Build_CloudflareSource a)].
Definition CloudflareSource_codec : codec CloudflareSource := glz_object CloudflareSource_fields.

(* @src src/driver/cloudflare/response.hpp 65 74 glz::meta<CloudflareErrorDetail> *)
Definition CloudflareErrorDetail_fields : list (field CloudflareErrorDetail) := [
  member (str "code") int64_codec e_code (λ a '(Build_CloudflareErrorDetail _ x1 x2 x3), Build_CloudflareErrorDetail a x1 x2 x3);
  member (str "message") glz_string e_message (λ a '(Build_CloudflareErrorDetail x0 _ x2 x3), Build_CloudflareErrorDetail x0 a x2 x3);
  member (str "documentation_url") (glz_optional [] glz_string) e_documentation_url (λ a '(Build_CloudflareErrorDetail x0 x1 _ x3), Build_CloudflareErrorDetail x0 x1 a x3);
  member (str "source") (glz_optional {| pointer := [] |} CloudflareSource_codec) e_source (λ a '(Build_CloudflareErrorDetail x0 x1 x2 _), Build_CloudflareErrorDetail x0 x1 x2 a)].
Definition CloudflareErrorDetail_codec : codec CloudflareErrorDetail := glz_object CloudflareErrorDetail_fields.

(* @src src/driver/cloudflare/response.hpp 76 85 glz::meta<CloudflareMessage> *)
Definition CloudflareMessage_fields : list (field CloudflareMessage) := [
  member (str "code") int64_codec m_code (λ a '(Build_CloudflareMessage _ x1 x2 x3), Build_CloudflareMessage a x1 x2 x3);
  member (str "message") glz_string m_message (λ a '(Build_CloudflareMessage x0 _ x2 x3), Build_CloudflareMessage x0 a x2 x3);
  member (str "documentation_url") (glz_optional [] glz_string) m_documentation_url (λ a '(Build_CloudflareMessage x0 x1 _ x3), Build_CloudflareMessage x0 x1 a x3);
  member (str "source") (glz_optional {| pointer := [] |} CloudflareSource_codec) m_source (λ a '(Build_CloudflareMessage x0 x1 x2 _), Build_CloudflareMessage x0 x1 x2 a)].
Definition CloudflareMessage_codec : codec CloudflareMessage := glz_object CloudflareMessage_fields.

(* @src src/driver/cloudflare/response.hpp 87 102 glz::meta<CloudflareDnsRecord> *)
Definition CloudflareDnsRecord_fields : list (field CloudflareDnsRecord) := [
  member (str "id") glz_string r_id (λ a '(Build_CloudflareDnsRecord _ x1 x2 x3 x4 x5 x6 x7 x8 x9), Build_CloudflareDnsRecord a x1 x2 x3 x4 x5 x6 x7 x8 x9);
  member (str "name") glz_string r_name (λ a '(Build_CloudflareDnsRecord x0 _ x2 x3 x4 x5 x6 x7 x8 x9), Build_CloudflareDnsRecord x0 a x2 x3 x4 x5 x6 x7 x8 x9);
  member (str "type") glz_string r_type (λ a '(Build_CloudflareDnsRecord x0 x1 _ x3 x4 x5 x6 x7 x8 x9), Build_CloudflareDnsRecord x0 x1 a x3 x4 x5 x6 x7 x8 x9);
  member (str "content") glz_string r_content (λ a '(Build_CloudflareDnsRecord x0 x1 x2 _ x4 x5 x6 x7 x8 x9), Build_CloudflareDnsRecord x0 x1 x2 a x4 x5 x6 x7 x8 x9);
  member (str "ttl") int64_codec r_ttl (λ a '(Build_CloudflareDnsRecord x0 x1 x2 x3 _ x5 x6 x7 x8 x9), Build_CloudflareDnsRecord x0 x1 x2 x3 a x5 x6 x7 x8 x9);
  member (str "proxied") glz_bool r_proxied (λ a '(Build_CloudflareDnsRecord x0 x1 x2 x3 x4 _ x6 x7 x8 x9), Build_CloudflareDnsRecord x0 x1 x2 x3 x4 a x6 x7 x8 x9);
  member (str "proxiable") glz_bool r_proxiable (λ a '(Build_CloudflareDnsRecord x0 x1 x2 x3 x4 x5 _ x7 x8 x9), Build_CloudflareDnsRecord x0 x1 x2 x3 x4 x5 a x7 x8 x9);
  member (str "private_routing") (glz_optional false glz_bool) r_private_routing (λ a '(Build_CloudflareDnsRecord x0 x1 x2 x3 x4 x5 x6 _ x8 x9), Build_CloudflareDnsRecord x0 x1 x2 x3 x4 x5 x6 a x8 x9);
  member (str "comment") (glz_optional [] glz_string) r_comment (λ a '(Build_CloudflareDnsRecord x0 x1 x2 x3 x4 x5 x6 x7 _ x9), Build_CloudflareDnsRecord x0 x1 x2 x3 x4 x5 x6 x7 a x9);
  member (str "tags") (glz_optional [] (glz_vector [] glz_string)) r_tags (λ a '(Build_CloudflareDnsRecord x0 x1 x2 x3 x4 x5 x6 x7 x8 _), Build_CloudflareDnsRecord x0 x1 x2 x3 x4 x5 x6 x7 x8 a)].
Definition CloudflareDnsRecord_codec : codec CloudflareDnsRecord := glz_object CloudflareDnsRecord_fields.

Definition error_init : CloudflareErrorDetail := {| e_code := 0; e_message := []; e_documentation_url := None; e_source := None |}.
Definition message_init : CloudflareMessage := {| m_code := 0; m_message := []; m_documentation_url := None; m_source := None |}.
Definition record_init : CloudflareDnsRecord :=
  {| r_id := []; r_name := []; r_type := []; r_content := []; r_ttl := 0; r_proxied := false; r_proxiable := false;
     r_private_routing := None; r_comment := None; r_tags := None |}.
Definition response_init : CloudflareResponse := {| success := false; errors := []; messages := []; result := None |}.

(* @src src/driver/cloudflare/response.hpp 104 113 glz::meta<CloudflareResponse> *)
Definition CloudflareResponse_fields : list (field CloudflareResponse) := [
  member (str "success") glz_bool success (λ a '(Build_CloudflareResponse _ x1 x2 x3), Build_CloudflareResponse a x1 x2 x3);
  member (str "errors") (glz_vector error_init CloudflareErrorDetail_codec) errors (λ a '(Build_CloudflareResponse x0 _ x2 x3), Build_CloudflareResponse x0 a x2 x3);
  member (str "messages") (glz_vector message_init CloudflareMessage_codec) messages (λ a '(Build_CloudflareResponse x0 x1 _ x3), Build_CloudflareResponse x0 x1 a x3);
  member (str "result") (glz_optional record_init CloudflareDnsRecord_codec) result (λ a '(Build_CloudflareResponse x0 x1 x2 _), Build_CloudflareResponse x0 x1 x2 a)].
Definition CloudflareResponse_codec : codec CloudflareResponse := glz_object CloudflareResponse_fields.

Definition read_success (body : bytes) : option bool := success <$> read_json CloudflareResponse_codec response_init body.
End tables.
End CloudflareJson.

Module DigitalOceanJson.
Import DigitalOcean.

(* @src src/driver/digital_ocean/response.hpp 16 27 DigitalOceanDomainRecord *)
Record DigitalOceanDomainRecord := { d_data : bytes; d_flags : option Z; d_id : Z; d_name : bytes; d_port : option Z; d_priority : option Z; d_tag : option bytes; d_ttl : Z; d_type : bytes; d_weight : option Z }.

(* @src src/driver/digital_ocean/response.hpp 30 32 DigitalOceanDomainResponse *)
Record DigitalOceanDomainResponse := { domain_record : DigitalOceanDomainRecord }.

Section tables.
Context `{Glaze} `{JsonText}.

(* @src src/driver/digital_ocean/config.hpp 12 15 DigitalOceanParams (initialisers) *)
Definition DigitalOceanParams_init : DigitalOceanParams := {| record_id := []; token := [] |}.

(* @src src/driver/digital_ocean/config.hpp 22 29 glz::meta<DigitalOceanParams> *)
Definition DigitalOceanParams_fields : list (field DigitalOceanParams) := [
  member (str "record_id") glz_string record_id (λ a '(Build_DigitalOceanParams _ x1), Build_DigitalOceanParams a x1);
  member (str "token") glz_string token (λ a '(Build_DigitalOceanParams x0 _), Build_DigitalOceanParams x0 a)].
Definition DigitalOceanParams_codec : codec DigitalOceanParams := glz_object DigitalOceanParams_fields.

Definition read : bytes → bytes + DigitalOceanParams := read_params DigitalOceanParams_codec DigitalOceanParams_init.

(* @src src/driver/digital_ocean/config.hpp 31 37 glz::meta<DigitalOceanBody> *)
Definition DigitalOceanBody_fields : list (field DigitalOceanBody) := [
  member (str "data") glz_string b_data (λ a _, Build_DigitalOceanBody a)].
Definition DigitalOceanBody_codec : codec DigitalOceanBody := glz_object DigitalOceanBody_fields.

Definition write : DigitalOceanBody → option bytes := write_json DigitalOceanBody_codec.

(* @src src/driver/digital_ocean/response.hpp 41 56 glz::meta<DigitalOceanDomainRecord> *)
Definition DigitalOceanDomainRecord_fields : list (field DigitalOceanDomainRecord) := [
  member (str "data") glz_string d_data (λ a '(Build_DigitalOceanDomainRecord _ x1 x2 x3 x4 x5 x6 x7 x8 x9), Build_DigitalOceanDomainRecord a x1 x2 x3 x4 x5 x6 x7 x8 x9);
  member (str "flags") (glz_optional 0%Z int64_codec) d_flags (λ a '(Build_DigitalOceanDomainRecord x0 _ x2 x3 x4 x5 x6 x7 x8 x9), Build_DigitalOceanDomainRecord x0 a x2 x3 x4 x5 x6 x7 x8 x9);
  member (str "id") int64_codec d_id (λ a '(Build_DigitalOceanDomainRecord x0 x1 _ x3 x4 x5 x6 x7 x8 x9), Build_DigitalOceanDomainRecord x0 x1 a x3 x4 x5 x6 x7 x8 x9);
  member (str "name") glz_string d_name (λ a '(Build_DigitalOceanDomainRecord x0 x1 x2 _ x4 x5 x6 x7 x8 x9), Build_DigitalOceanDomainRecord x0 x1 x2 a x4 x5 x6 x7 x8 x9);
  member (str "port") (glz_optional 0%Z int64_codec) d_port (λ a '(Build_DigitalOceanDomainRecord x0 x1 x2 x3 _ x5 x6 x7 x8 x9), Build_DigitalOceanDomainRecord x0 x1 x2 x3 a x5 x6 x7 x8 x9);
  member (str "priority") (glz_optional 0%Z int64_codec) d_priority (λ a '(Build_DigitalOceanDomainRecord x0 x1 x2 x3 x4 _ x6 x7 x8 x9), Build_DigitalOceanDomainRecord x0 x1 x2 x3 x4 a x6 x7 x8 x9);
  member (str "tag") (glz_optional [] glz_string) d_tag (λ a '(Build_DigitalOceanDomainRecord x0 x1 x2 x3 x4 x5 _ x7 x8 x9), Build_DigitalOceanDomainRecord x0 x1 x2 x3 x4 x5 a x7 x8 x9);
  member (str "ttl") int64_codec d_ttl (λ a '(Build_DigitalOceanDomainRecord x0 x1 x2 x3 x4 x5 x6 _ x8 x9), Build_DigitalOceanDomainRecord x0 x1 x2 x3 x4 x5 x6 a x8 x9);
  member (str "type") glz_string d_type (λ a '(Build_DigitalOceanDomainRecord x0 x1 x2 x3 x4 x5 x6 x7 _ x9), Build_DigitalOceanDomainRecord x0 x1 x2 x3 x4 x5 x6 x7 a x9);
  member (str "weight") (glz_optional 0%Z int64_codec) d_weight (λ a '(Build_DigitalOceanDomainRecord x0 x1 x2 x3 x4 x5 x6 x7 x8 _), Build_DigitalOceanDomainRecord x0 x1 x2 x3 x4 x5 x6 x7 x8 a)].
Definition DigitalOceanDomainRecord_codec : codec DigitalOceanDomainRecord := glz_object DigitalOceanDomainRecord_fields.

(* @src src/driver/digital_ocean/response.hpp 58 64 glz::meta<DigitalOceanDomainResponse> *)
Definition DigitalOceanDomainResponse_fields : list (field DigitalOceanDomainResponse) := [
  member (str "domain_record") DigitalOceanDomainRecord_codec domain_record (λ a _, Build_DigitalOceanDomainResponse a)].
Definition DigitalOceanDomainResponse_codec : codec DigitalOceanDomainResponse := glz_object DigitalOceanDomainResponse_fields.

Definition record_init : DigitalOceanDomainRecord :=
  {| d_data := []; d_flags := None; d_id := 0; d_name := []; d_port := None; d_priority := None; d_tag := None;
     d_ttl := 0; d_type := []; d_weight := None |}.

Definition is_record (body : bytes) : bool :=
  bool_decide (is_Some (read_json DigitalOceanDomainResponse_codec {| domain_record := record_init |} body)).
End tables.
End DigitalOceanJson.

Module GoDaddyJson.
Import GoDaddy.
Section tables.
Context `{Glaze} `{JsonText}.

(* @src src/driver/godaddy/config.hpp 13 17 GoDaddyParams (initialisers) *)
Definition GoDaddyParams_init : GoDaddyParams := {| key := []; secret := []; ttl := Some 600%Z |}.

(* @src src/driver/godaddy/config.hpp 19 27 glz::meta<GoDaddyParams> *)
Definition GoDaddyParams_fields : list (field GoDaddyParams) := [
  member (str "key") glz_string key (λ a '(Build_GoDaddyParams _ x1 x2), Build_GoDaddyParams a x1 x2);
  member (str "secret") glz_string secret (λ a '(Build_GoDaddyParams x0 _ x2), Build_GoDaddyParams x0 a x2);
  member (str "ttl") (glz_optional 0%Z int_codec) ttl (λ a '(Build_GoDaddyParams x0 x1 _), Build_GoDaddyParams x0 x1 a)].
Definition GoDaddyParams_codec : codec GoDaddyParams := glz_object GoDaddyParams_fields.

Definition read : bytes → bytes + GoDaddyParams := read_params GoDaddyParams_codec GoDaddyParams_init.

(* @src src/driver/godaddy/godaddy.cpp 25 33 glz::meta<GoDaddyRecordBody> *)
Definition GoDaddyRecordBody_fields : list (field GoDaddyRecordBody) := [
  member (str "data") glz_string b_data (λ a '(Build_GoDaddyRecordBody _ x1 x2), Build_GoDaddyRecordBody a x1 x2);
  member (str "ttl") int_codec b_ttl (λ a '(Build_GoDaddyRecordBody x0 _ x2), Build_GoDaddyRecordBody x0 a x2);
  member (str "type") glz_string b_type (λ a '(Build_GoDaddyRecordBody x0 x1 _), Build_GoDaddyRecordBody x0 x1 a)].
Definition GoDaddyRecordBody_codec : codec GoDaddyRecordBody := glz_object GoDaddyRecordBody_fields.

Definition write : GoDaddyRecordBody → option bytes := write_json GoDaddyRecordBody_codec.
End tables.
End GoDaddyJson.

Module LinodeJson.
Import Linode.
Section tables.
Context `{Glaze} `{JsonText}.

(* @src src/driver/linode/config.hpp 13 18 LinodeParams (initialisers) *)
Definition LinodeParams_init : LinodeParams := {| token := []; domain_id := []; record_id := []; ttl_sec := None |}.

(* @src src/driver/linode/config.hpp 27 36 glz::meta<LinodeParams> *)
Definition LinodeParams_fields : list (field LinodeParams) := [
  member (str "token") glz_string token (λ a '(Build_LinodeParams _ x1 x2 x3), Build_LinodeParams a x1 x2 x3);
  member (str "domain_id") glz_string domain_id (λ a '(Build_LinodeParams x0 _ x2 x3), Build_LinodeParams x0 a x2 x3);
  member (str "record_id") glz_string record_id (λ a '(Build_LinodeParams x0 x1 _ x3), Build_LinodeParams x0 x1 a x3);
  member (str "ttl_sec") (glz_optional 0%Z int_codec) ttl_sec (λ a '(Build_LinodeParams x0 x1 x2 _), Build_LinodeParams x0 x1 x2 a)].
Definition LinodeParams_codec : codec LinodeParams := glz_object LinodeParams_fields.

Definition read : bytes → bytes + LinodeParams := read_params LinodeParams_codec LinodeParams_init.

(* @src src/driver/linode/config.hpp 38 46 glz::meta<LinodeRequestBody> *)
Definition LinodeRequestBody_fields : list (field LinodeRequestBody) := [
  member (str "name") glz_string b_name (λ a '(Build_LinodeRequestBody _ x1 x2), Build_LinodeRequestBody a x1 x2);
  member (str "target") glz_string b_target (λ a '(Build_LinodeRequestBody x0 _ x2), Build_LinodeRequestBody x0 a x2);
  member (str "ttl_sec") (glz_optional 0%Z int_codec) b_ttl_sec (λ a '(Build_LinodeRequestBody x0 x1 _), Build_LinodeRequestBody x0 x1 a)].
Definition LinodeRequestBody_codec : codec LinodeRequestBody := glz_object LinodeRequestBody_fields.

Definition write : LinodeRequestBody → option bytes := write_json LinodeRequestBody_codec.
End tables.
End LinodeJson.

Module PorkbunJson.
Import Porkbun.

(* @src src/driver/porkbun/response.hpp 13 17 PorkbunResponse *)
Record PorkbunResponse := { status : bytes; message : option bytes; code : option bytes }.

Section tables.
Context `{Glaze} `{JsonText}.

(* @src src/driver/porkbun/config.hpp 13 17 PorkbunParams (initialisers) *)
Definition PorkbunParams_init : PorkbunParams := {| api_key := []; secret_api_key := []; ttl := None |}.

(* @src src/driver/porkbun/config.hpp 27 35 glz::meta<PorkbunParams> *)
Definition PorkbunParams_fields : list (field PorkbunParams) := [
  member (str "api_key") glz_string api_key (λ a '(Build_PorkbunParams _ x1 x2), Build_PorkbunParams a x1 x2);
  member (str "secret_api_key") glz_string secret_api_key (λ a '(Build_PorkbunParams x0 _ x2), Build_PorkbunParams x0 a x2);
  member (str "ttl") (glz_optional 0%Z int_codec) ttl (λ a '(Build_PorkbunParams x0 x1 _), Build_PorkbunParams x0 x1 a)].
Definition PorkbunParams_codec : codec PorkbunParams := glz_object PorkbunParams_fields.

Definition read : bytes → bytes + PorkbunParams := read_params PorkbunParams_codec PorkbunParams_init.

(* @src src/driver/porkbun/config.hpp 37 46 glz::meta<PorkbunRequestBody> *)
Definition PorkbunRequestBody_fields : list (field PorkbunRequestBody) := [
  member (str "apikey") glz_string apikey (λ a '(Build_PorkbunRequestBody _ x1 x2 x3), Build_PorkbunRequestBody a x1 x2 x3);
  member (str "secretapikey") glz_string secretapikey (λ a '(Build_PorkbunRequestBody x0 _ x2 x3), Build_PorkbunRequestBody x0 a x2 x3);
  member (str "content") glz_string b_content (λ a '(Build_PorkbunRequestBody x0 x1 _ x3), Build_PorkbunRequestBody x0 x1 a x3);
  member (str "ttl") (glz_optional 0%Z int_codec) b_ttl (λ a '(Build_PorkbunRequestBody x0 x1 x2 _), Build_PorkbunRequestBody x0 x1 x2 a)].
Definition PorkbunRequestBody_codec : codec PorkbunRequestBody := glz_object PorkbunRequestBody_fields.

Definition write : PorkbunRequestBody → option bytes := write_json PorkbunRequestBody_codec.

(* @src src/driver/porkbun/response.hpp 19 27 glz::meta<PorkbunResponse> *)
Definition PorkbunResponse_fields : list (field PorkbunResponse) := [
  member (str "status") glz_string status (λ a '(Build_PorkbunResponse _ x1 x2), Build_PorkbunResponse a x1 x2);
  member (str "message") (glz_optional [] glz_string) message (λ a '(Build_PorkbunResponse x0 _ x2), Build_PorkbunResponse x0 a x2);
  member (str "code") (glz_optional [] glz_string) code (λ a '(Build_PorkbunResponse x0 x1 _), Build_PorkbunResponse x0 x1 a)].
Definition PorkbunResponse_codec : codec PorkbunResponse := glz_object PorkbunResponse_fields.

Definition read_status (body : bytes) : option bytes :=
  status <$> read_json PorkbunResponse_codec {| status := []; message := None; code := None |} body.
End tables.
End PorkbunJson.

Module VultrJson.
Import Vultr.
Section tables.
Context `{Glaze} `{JsonText}.

(* @src src/driver/vultr/config.hpp 13 17 VultrParams (initialisers) *)
Definition VultrParams_init : VultrParams := {| api_key := []; record_id := []; ttl := None |}.

(* @src src/driver/vultr/config.hpp 26 34 glz::meta<VultrParams> *)
Definition VultrParams_fields : list (field VultrParams) := [
  member (str "api_key") glz_string api_key (λ a '(Build_VultrParams _ x1 x2), Build_VultrParams a x1 x2);
  member (str "record_id") glz_string record_id (λ a '(Build_VultrParams x0 _ x2), Build_VultrParams x0 a x2);
  member (str "ttl") (glz_optional 0%Z int_codec) ttl (λ a '(Build_VultrParams x0 x1 _), Build_VultrParams x0 x1 a)].
Definition VultrParams_codec : codec VultrParams := glz_object VultrParams_fields.

Definition read : bytes → bytes + VultrParams := read_params VultrParams_codec VultrParams_init.

(* @src src/driver/vultr/config.hpp 36 44 glz::meta<VultrRequestBody> *)
Definition VultrRequestBody_fields : list (field VultrRequestBody) := [
  member (str "name") glz_string b_name (λ a '(Build_VultrRequestBody _ x1 x2), Build_VultrRequestBody a x1 x2);
  member (str "data") glz_string b_data (λ a '(Build_VultrRequestBody x0 _ x2), Build_VultrRequestBody x0 a x2);
  member (str "ttl") (glz_optional 0%Z int_codec) b_ttl (λ a '(Build_VultrRequestBody x0 x1 _), Build_VultrRequestBody x0 x1 a)].
Definition VultrRequestBody_codec : codec VultrRequestBody := glz_object VultrRequestBody_fields.

Definition write : VultrRequestBody → option bytes := write_json VultrRequestBody_codec.
End tables.
End VultrJson.

Module DnsPodJson.
Import DnsPod.

(* @src src/driver/dnspod/response.hpp 15 19 DnsPodStatus *)
Record DnsPodStatus := { code : bytes; message : bytes; created_at : bytes }.

(* @src src/driver/dnspod/response.hpp 22 26 DnsPodRecord *)
Record DnsPodRecord := { rec_id : Z; rec_name : bytes; rec_value : bytes }.

(* @src src/driver/dnspod/response.hpp 29 32 DnsPodResponse *)
Record DnsPodResponse := { status : option DnsPodStatus; record : option DnsPodRecord }.

Section tables.
Context `{Glaze} `{JsonText}.

(* @src src/driver/dnspod/config.hpp 13 20 DNSPodParams (initialisers) *)
Definition DNSPodParams_init : DNSPodParams := {| domain_id := []; record_id := []; login_token := []; record_line := None; record_line_id := str "0"; global := false |}.

(* @src src/driver/dnspod/config.hpp 22 33 glz::meta<DNSPodParams> *)
Definition DNSPodParams_fields : list (field DNSPodParams) := [
  member (str "domain_id") glz_string domain_id (λ a '(Build_DNSPodParams _ x1 x2 x3 x4 x5), Build_DNSPodParams a x1 x2 x3 x4 x5);
  member (str "record_id") glz_string record_id (λ a '(Build_DNSPodParams x0 _ x2 x3 x4 x5), Build_DNSPodParams x0 a x2 x3 x4 x5);
  member (str "login_token") glz_string login_token (λ a '(Build_DNSPodParams x0 x1 _ x3 x4 x5), Build_DNSPodParams x0 x1 a x3 x4 x5);
  member (str "record_line") (glz_optional [] glz_string) record_line (λ a '(Build_DNSPodParams x0 x1 x2 _ x4 x5), Build_DNSPodParams x0 x1 x2 a x4 x5);
  member (str "record_line_id") glz_string record_line_id (λ a '(Build_DNSPodParams x0 x1 x2 x3 _ x5), Build_DNSPodParams x0 x1 x2 x3 a x5);
  member (str "global") glz_bool global (λ a '(Build_DNSPodParams x0 x1 x2 x3 x4 _), Build_DNSPodParams x0 x1 x2 x3 x4 a)].
Definition DNSPodParams_codec : codec DNSPodParams := glz_object DNSPodParams_fields.

Definition read : bytes → bytes + DNSPodParams := read_params DNSPodParams_codec DNSPodParams_init.

(* @src src/driver/dnspod/response.hpp 34 42 glz::meta<DnsPodStatus> *)
Definition DnsPodStatus_fields : list (field DnsPodStatus) := [
  member (str "code") glz_string code (λ a '(Build_DnsPodStatus _ x1 x2), Build_DnsPodStatus a x1 x2);
  member (str "message") glz_string message (λ a '(Build_DnsPodStatus x0 _ x2), Build_DnsPodStatus x0 a x2);
  member (str "created_at") glz_string created_at (λ a '(Build_DnsPodStatus x0 x1 _), Build_DnsPodStatus x0 x1 a)].
Definition DnsPodStatus_codec : codec DnsPodStatus := glz_object DnsPodStatus_fields.

(* @src src/driver/dnspod/response.hpp 44 52 glz::meta<DnsPodRecord> *)
Definition DnsPodRecord_fields : list (field DnsPodRecord) := [
  member (str "id") int64_codec rec_id (λ a '(Build_DnsPodRecord _ x1 x2), Build_DnsPodRecord a x1 x2);
  member (str "name") glz_string rec_name (λ a '(Build_DnsPodRecord x0 _ x2), Build_DnsPodRecord x0 a x2);
  member (str "value") glz_string rec_value (λ a '(Build_DnsPodRecord x0 x1 _), Build_DnsPodRecord x0 x1 a)].
Definition DnsPodRecord_codec : codec DnsPodRecord := glz_object DnsPodRecord_fields.

(** Without a table of its own: the members under their names. *)
(* @src src/driver/dnspod/response.hpp 29 32 DnsPodResponse *)
Definition DnsPodResponse_fields : list (field DnsPodResponse) := [
  member (str "status") (glz_optional {| code := []; message := []; created_at := [] |} DnsPodStatus_codec) status (λ a '(Build_DnsPodResponse _ x1), Build_DnsPodResponse a x1);
  member (str "record") (glz_optional {| rec_id := 0; rec_name := []; rec_value := [] |} DnsPodRecord_codec) record (λ a '(Build_DnsPodResponse x0 _), Build_DnsPodResponse x0 a)].
Definition DnsPodResponse_codec : codec DnsPodResponse := glz_object DnsPodResponse_fields.

Definition read_status (body : bytes) : option (option bytes) :=
  (λ r, code <$> status r) <$> read_json DnsPodResponse_codec {| status := None; record := None |} body.
End tables.
End DnsPodJson.

Module AlibabaJson.
Import AlibabaCloud.

(* @src src/driver/alibaba_cloud/response.hpp 13 16 AlibabaUpdateResponse *)
Record AlibabaUpdateResponse := { u_request_id : bytes; u_record_id : bytes }.

Section tables.
Context `{Glaze} `{JsonText}.

(* @src src/driver/alibaba_cloud/config.hpp 16 21 AlibabaParams (initialisers) *)
Definition AlibabaParams_init : AlibabaParams := {| access_key_id := []; access_key_secret := []; record_id := []; ttl := None |}.

(* @src src/driver/alibaba_cloud/config.hpp 23 32 glz::meta<AlibabaParams> *)
Definition AlibabaParams_fields : list (field AlibabaParams) := [
  member (str "access_key_id") glz_string access_key_id (λ a '(Build_AlibabaParams _ x1 x2 x3), Build_AlibabaParams a x1 x2 x3);
  member (str "access_key_secret") glz_string access_key_secret (λ a '(Build_AlibabaParams x0 _ x2 x3), Build_AlibabaParams x0 a x2 x3);
  member (str "record_id") glz_string record_id (λ a '(Build_AlibabaParams x0 x1 _ x3), Build_AlibabaParams x0 x1 a x3);
  member (str "ttl") (glz_optional 0%Z int_codec) ttl (λ a '(Build_AlibabaParams x0 x1 x2 _), Build_AlibabaParams x0 x1 x2 a)].
Definition AlibabaParams_codec : codec AlibabaParams := glz_object AlibabaParams_fields.

Definition read : bytes → bytes + AlibabaParams := read_params AlibabaParams_codec AlibabaParams_init.

(* @src src/driver/alibaba_cloud/response.hpp 26 33 glz::meta<AlibabaUpdateResponse> *)
Definition AlibabaUpdateResponse_fields : list (field AlibabaUpdateResponse) := [
  member (str "RequestId") glz_string u_request_id (λ a '(Build_AlibabaUpdateResponse _ x1), Build_AlibabaUpdateResponse a x1);
  member (str "RecordId") glz_string u_record_id (λ a '(Build_AlibabaUpdateResponse x0 _), Build_AlibabaUpdateResponse x0 a)].
Definition AlibabaUpdateResponse_codec : codec AlibabaUpdateResponse := glz_object AlibabaUpdateResponse_fields.

Definition is_update (body : bytes) : bool :=
  bool_decide (is_Some (read_json AlibabaUpdateResponse_codec {| u_request_id := []; u_record_id := [] |} body)).
End tables.
End AlibabaJson.

Module Route53Json.
Import Route53.
Section tables.
Context `{Glaze} `{JsonText}.

(* @src src/driver/route53/config.hpp 17 24 Route53Params (initialisers) *)
Definition Route53Params_init : Route53Params := {| access_key_id := []; secret_access_key := []; hosted_zone_id := []; region := []; record_name := []; ttl := None |}.

(* @src src/driver/route53/config.hpp 26 37 glz::meta<Route53Params> *)
Definition Route53Params_fields : list (field Route53Params) := [
  member (str "access_key_id") glz_string access_key_id (λ a '(Build_Route53Params _ x1 x2 x3 x4 x5), Build_Route53Params a x1 x2 x3 x4 x5);
  member (str "secret_access_key") glz_string secret_access_key (λ a '(Build_Route53Params x0 _ x2 x3 x4 x5), Build_Route53Params x0 a x2 x3 x4 x5);
  member (str "hosted_zone_id") glz_string hosted_zone_id (λ a '(Build_Route53Params x0 x1 _ x3 x4 x5), Build_Route53Params x0 x1 a x3 x4 x5);
  member (str "region") glz_string region (λ a '(Build_Route53Params x0 x1 x2 _ x4 x5), Build_Route53Params x0 x1 x2 a x4 x5);
  member (str "record_name") glz_string record_name (λ a '(Build_Route53Params x0 x1 x2 x3 _ x5), Build_Route53Params x0 x1 x2 x3 a x5);
  member (str "ttl") (glz_optional 0%Z int_codec) ttl (λ a '(Build_Route53Params x0 x1 x2 x3 x4 _), Build_Route53Params x0 x1 x2 x3 x4 a)].
Definition Route53Params_codec : codec Route53Params := glz_object Route53Params_fields.

Definition read : bytes → bytes + Route53Params := read_params Route53Params_codec Route53Params_init.
End tables.
End Route53Json.

(** * What parameters a driver takes *)

(** The keys that a configuration must have, and those that it can have. *)
Definition required {T} (table : list (field T)) : list bytes := map f_key (filter (λ f, f_nullable f = false) table).
Definition known {T} (table : list (field T)) : list bytes := map f_key table.

Section keys.
Context `{GlazeOk} `{JsonText}.

Lemma read_members_known {T} m (table : list (field T)) members v v' :
  read_members m table members v = Some v' → members.*1 ⊆ known table.
Proof using All.
  revert v. induction members as [|[key j] members IH]; intros v Hv; [set_solver|]. cbn [read_members] in Hv.
  unfold find_field in Hv. destruct (list_find _ table) as [[i f]|] eqn:Hf; [|done].
  cbn [fmap option_fmap option_map snd mbind option_bind] in Hv. apply list_find_Some in Hf as (Hi & <- & _).
  destruct (f_decode f m v j) as [w|]; [|done]. specialize (IH _ Hv).
  assert (f_key f ∈ known table) by (apply list_elem_of_fmap_2; by eapply list_elem_of_lookup_2).
  cbn [fmap list_fmap fst]. set_solver.
Qed.

Lemma complete_required {T} (table : list (field T)) members : complete table members = true → required table ⊆ members.*1.
Proof using All.
  unfold complete. rewrite forallb_forall. intros Hc key Hk. apply list_elem_of_fmap in Hk as (f & -> & Hf).
  apply list_elem_of_filter in Hf as [Hn Hin]. specialize (Hc f ltac:(by apply list_elem_of_In)).
  rewrite Hn in Hc. cbn [orb] in Hc. by apply bool_decide_eq_true in Hc.
Qed.

(** Parameters are an object with the required keys and no unknown ones. *)
Lemma read_params_keys {T} (table : list (field T)) init config v :
  read_params (glz_object table) init config = inr v →
  ∃ members, json_parse config = inr (JObject members) ∧ required table ⊆ members.*1 ∧ members.*1 ⊆ known table.
Proof using All.
  unfold read_params. destruct (json_parse config) as [|j]; [done|]. destruct (decode _ _ _ j) as [w|] eqn:Hj; [|done].
  intros _. destruct (object_only _ _ _ _ _ Hj) as [members ->]. exists members. split; [done|].
  rewrite object_decode in Hj. cbn [andb] in Hj. destruct (complete table members) eqn:Hc; [|done]. cbn [negb] in Hj.
  split; [by apply complete_required|]. by eapply read_members_known.
Qed.

(** A driver whose parameters need the keys [req] and may have the keys [opt]. *)
Definition takes {T} (read : bytes → bytes + T) (req opt : list bytes) : Prop :=
  ∀ config v, read config = inr v →
    ∃ members, json_parse config = inr (JObject members) ∧ req ⊆ members.*1 ∧ members.*1 ⊆ req ++ opt.

(** What the parameters are when the text is that object. *)
Definition gives {T} (read : bytes → bytes + T) (members : list (bytes * json)) (v : T) : Prop :=
  ∀ config, json_parse config = inr (JObject members) → read config = inr v.

Lemma required_cons {T} (f : field T) table :
  required (f :: table) = if f_nullable f then required table else f_key f :: required table.
Proof using All. unfold required. rewrite filter_cons. by destruct (f_nullable f). Qed.

Lemma takes_table {T} (table : list (field T)) init req opt :
  required table = req → Forall (λ k, k ∈ req ++ opt) (known table) →
  takes (read_params (glz_object table) init) req opt.
Proof using All.
  intros <- Hk config v Hv. destruct (read_params_keys _ _ _ _ Hv) as (members & Hp & Hr & Hs).
  exists members. split_and!; [done|done|]. rewrite Forall_forall in Hk. intros k Hin. apply Hk, Hs, Hin.
Qed.

Lemma gives_members {T} (table : list (field T)) init members v :
  complete table members = true → read_members true table members init = Some v →
  gives (read_params (glz_object table) init) members v.
Proof using All. intros Hc Hr config Hp. unfold read_params. by rewrite Hp, object_decode, Hc, Hr. Qed.

End keys.

Ltac takes_keys :=
  apply takes_table;
  [match goal with |- required ?table = _ => let t := eval hnf in table in change table with t end;
   rewrite !required_cons; cbn [member f_nullable];
   rewrite ?string_nullable, ?optional_nullable, ?bool_nullable; reflexivity
  |apply (bool_decide_unpack _); vm_compute; exact I].

Ltac all_there :=
  match goal with |- complete ?table _ = _ => let t := eval hnf in table in change table with t end;
  unfold complete; cbn [forallb member f_nullable f_key];
  rewrite ?string_nullable, ?optional_nullable, ?bool_nullable; cbn [orb];
  repeat (rewrite bool_decide_true by (apply (bool_decide_unpack _); vm_compute; exact I)); reflexivity.

Ltac reads_members :=
  cbn [read_members];
  repeat match goal with |- context [find_field ?table ?key] =>
    let r := eval hnf in (find_field table key) in change (find_field table key) with r end;
  repeat progress
    (cbn [prod_map snd id mbind option_bind member f_decode fmap option_fmap option_map];
     rewrite ?string_decode, ?bool_decode;
     repeat rewrite optional_some by discriminate; unfold int_codec; rewrite ?integer_decode by assumption).

Ltac gives_value := apply gives_members; [all_there|reads_members; reflexivity].

(** C38: What the bundled drivers take for parameters: each a JSON object that has the
    driver's required keys and otherwise only its optional ones; what they get
    from the shortest one, the defaults that are documented; and what they get from
    the longest one, in which each optional key is allowed and read as its member.
    DNSPod's record_line_id and global, documented as optional, are required. *)
Theorem driver_params_spec `{GlazeOk} `{JsonText} (a b c d e f : bytes) (g : bool) (n : Z) :
  is_int n →
  (takes DuckDnsJson.read [str "token"] [str "verbose"]
   ∧ gives DuckDnsJson.read [(str "token", JString a)] {| DuckDns.token := a; DuckDns.verbose := Some false |}
   ∧ gives DuckDnsJson.read [(str "token", JString a); (str "verbose", JBool g)]
       {| DuckDns.token := a; DuckDns.verbose := Some g |})
  ∧ (takes NamecheapJson.read [str "password"] []
     ∧ gives NamecheapJson.read [(str "password", JString a)] {| Namecheap.password := a |})
  ∧ (takes CloudflareJson.read [str "zone_id"; str "record_id"; str "token"] [str "ttl"; str "proxied"]
     ∧ gives CloudflareJson.read [(str "zone_id", JString a); (str "record_id", JString b); (str "token", JString c)]
         {| Cloudflare.zone_id := a; Cloudflare.record_id := b; Cloudflare.token := c; Cloudflare.ttl := Some 30%Z;
            Cloudflare.proxied := Some false |}
     ∧ gives CloudflareJson.read [(str "zone_id", JString a); (str "record_id", JString b); (str "token", JString c);
                                  (str "ttl", JInt n); (str "proxied", JBool g)]
         {| Cloudflare.zone_id := a; Cloudflare.record_id := b; Cloudflare.token := c; Cloudflare.ttl := Some n;
            Cloudflare.proxied := Some g |})
  ∧ (takes DigitalOceanJson.read [str "record_id"; str "token"] []
     ∧ gives DigitalOceanJson.read [(str "record_id", JString a); (str "token", JString b)]
         {| DigitalOcean.record_id := a; DigitalOcean.token := b |})
  ∧ (takes GoDaddyJson.read [str "key"; str "secret"] [str "ttl"]
     ∧ gives GoDaddyJson.read [(str "key", JString a); (str "secret", JString b)]
         {| GoDaddy.key := a; GoDaddy.secret := b; GoDaddy.ttl := Some 600%Z |}
     ∧ gives GoDaddyJson.read [(str "key", JString a); (str "secret", JString b); (str "ttl", JInt n)]
         {| GoDaddy.key := a; GoDaddy.secret := b; GoDaddy.ttl := Some n |})
  ∧ (takes LinodeJson.read [str "token"; str "domain_id"; str "record_id"] [str "ttl_sec"]
     ∧ gives LinodeJson.read [(str "token", JString a); (str "domain_id", JString b); (str "record_id", JString c)]
         {| Linode.token := a; Linode.domain_id := b; Linode.record_id := c; Linode.ttl_sec := None |}
     ∧ gives LinodeJson.read [(str "token", JString a); (str "domain_id", JString b); (str "record_id", JString c);
                              (str "ttl_sec", JInt n)]
         {| Linode.token := a; Linode.domain_id := b; Linode.record_id := c; Linode.ttl_sec := Some n |})
  ∧ (takes PorkbunJson.read [str "api_key"; str "secret_api_key"] [str "ttl"]
     ∧ gives PorkbunJson.read [(str "api_key", JString a); (str "secret_api_key", JString b)]
         {| Porkbun.api_key := a; Porkbun.secret_api_key := b; Porkbun.ttl := None |}
     ∧ gives PorkbunJson.read [(str "api_key", JString a); (str "secret_api_key", JString b); (str "ttl", JInt n)]
         {| Porkbun.api_key := a; Porkbun.secret_api_key := b; Porkbun.ttl := Some n |})
  ∧ (takes VultrJson.read [str "api_key"; str "record_id"] [str "ttl"]
     ∧ gives VultrJson.read [(str "api_key", JString a); (str "record_id", JString b)]
         {| Vultr.api_key := a; Vultr.record_id := b; Vultr.ttl := None |}
     ∧ gives VultrJson.read [(str "api_key", JString a); (str "record_id", JString b); (str "ttl", JInt n)]
         {| Vultr.api_key := a; Vultr.record_id := b; Vultr.ttl := Some n |})
  ∧ (takes DnsPodJson.read [str "domain_id"; str "record_id"; str "login_token"; str "record_line_id"; str "global"]
       [str "record_line"]
     ∧ gives DnsPodJson.read [(str "domain_id", JString a); (str "record_id", JString b); (str "login_token", JString c);
                              (str "record_line_id", JString d); (str "global", JBool g)]
         {| DnsPod.domain_id := a; DnsPod.record_id := b; DnsPod.login_token := c; DnsPod.record_line := None;
            DnsPod.record_line_id := d; DnsPod.global := g |}
     ∧ gives DnsPodJson.read [(str "domain_id", JString a); (str "record_id", JString b); (str "login_token", JString c);
                              (str "record_line", JString e); (str "record_line_id", JString d); (str "global", JBool g)]
         {| DnsPod.domain_id := a; DnsPod.record_id := b; DnsPod.login_token := c; DnsPod.record_line := Some e;
            DnsPod.record_line_id := d; DnsPod.global := g |})
  ∧ (takes AlibabaJson.read [str "access_key_id"; str "access_key_secret"; str "record_id"] [str "ttl"]
     ∧ gives AlibabaJson.read [(str "access_key_id", JString a); (str "access_key_secret", JString b); (str "record_id", JString c)]
         {| AlibabaCloud.access_key_id := a; AlibabaCloud.access_key_secret := b; AlibabaCloud.record_id := c;
            AlibabaCloud.ttl := None |}
     ∧ gives AlibabaJson.read [(str "access_key_id", JString a); (str "access_key_secret", JString b);
                               (str "record_id", JString c); (str "ttl", JInt n)]
         {| AlibabaCloud.access_key_id := a; AlibabaCloud.access_key_secret := b; AlibabaCloud.record_id := c;
            AlibabaCloud.ttl := Some n |})
  ∧ (takes Route53Json.read [str "access_key_id"; str "secret_access_key"; str "hosted_zone_id"; str "region"; str "record_name"]
       [str "ttl"]
     ∧ gives Route53Json.read [(str "access_key_id", JString a); (str "secret_access_key", JString b);
                               (str "hosted_zone_id", JString c); (str "region", JString d); (str "record_name", JString f)]
         {| Route53.access_key_id := a; Route53.secret_access_key := b; Route53.hosted_zone_id := c; Route53.region := d;
            Route53.record_name := f; Route53.ttl := None |}
     ∧ gives Route53Json.read [(str "access_key_id", JString a); (str "secret_access_key", JString b);
                               (str "hosted_zone_id", JString c); (str "region", JString d); (str "record_name", JString f);
                               (str "ttl", JInt n)]
         {| Route53.access_key_id := a; Route53.secret_access_key := b; Route53.hosted_zone_id := c; Route53.region := d;
            Route53.record_name := f; Route53.ttl := Some n |}).
Proof. intros Hn. unfold is_int in Hn. split_and!; try takes_keys; gives_value. Qed.

#[local] Existing Instances reference_glaze reference_glaze_ok.

(** One text of JSON. *)
#[local] Instance sample_text : JsonText := {|
  json_parse text := if bool_decide (text = str "config") then inr (JObject [(str "token", JString (str "secret"))]) else inl [];
  json_print j := None;
  json_error j := []
|}.

Lemma driver_params_spec_witness :
  is_int 300
  ∧ DuckDnsJson.read (str "config") = inr {| DuckDns.token := str "secret"; DuckDns.verbose := Some false |}
  ∧ takes DnsPodJson.read
      [str "domain_id"; str "record_id"; str "login_token"; str "record_line_id"; str "global"] [str "record_line"].
Proof.
  assert (is_int 300) as Hn by (split; discriminate). split; [exact Hn|].
  destruct (driver_params_spec (str "secret") [] [] [] [] [] true 300 Hn)
    as ((_ & Hd & _) & _ & _ & _ & _ & _ & _ & _ & [Hp _] & _).
  split; [apply Hd; reflexivity|exact Hp].
Defined.

(** * What responses are refused *)

Lemma read_members_elem {T} m (table : list (field T)) members v v' key j :
  read_members m table members v = Some v' → (key, j) ∈ members →
  ∃ f w, find_field table key = Some f ∧ is_Some (f_decode f m w j).
Proof.
  revert v. induction members as [|[k i] members IH]; intros v Hv Hin; [by apply elem_of_nil in Hin|].
  cbn [read_members] in Hv. destruct (find_field table k) as [f|] eqn:Hf; [|done]. cbn [mbind option_bind] in Hv.
  destruct (f_decode f m v i) as [w|] eqn:Hw; [|done]. cbn [mbind option_bind] in Hv.
  apply elem_of_cons in Hin as [[= -> ->]|Hin]; [by exists f, v|by eapply IH].
Qed.

(** A Cloudflare response whose record has a member that the table lacks counts as a
    rejected update, whatever it says of success. *)
Lemma cloudflare_unknown_member `{GlazeOk} `{JsonText} (response : HttpResponse) members record key :
  json_parse (rs_body response) = inr (JObject members) → (str "result", JObject record) ∈ members →
  key ∈ record.*1 → key ∉ known CloudflareJson.CloudflareDnsRecord_fields →
  Cloudflare.check_response CloudflareJson.read_success response = false.
Proof.
  intros Hp Hin Hkey Hun. unfold Cloudflare.check_response, CloudflareJson.read_success, read_json. rewrite Hp.
  destruct (decode _ _ _ _) as [r|] eqn:Hr; [exfalso|done]. unfold CloudflareJson.CloudflareResponse_codec in Hr.
  rewrite object_decode in Hr. cbn [andb] in Hr.
  destruct (read_members_elem _ _ _ _ _ _ _ Hr Hin) as (f & w & Hf & [w' Hd]).
  match type of Hf with ?l = _ => let r := eval hnf in l in change (r = Some f) in Hf end. injection Hf as <-.
  cbn [prod_map snd id member f_decode] in Hd. rewrite optional_some in Hd by done.
  unfold CloudflareJson.CloudflareDnsRecord_codec in Hd. rewrite object_decode in Hd. cbn [andb] in Hd.
  destruct (read_members _ _ record _) as [x|] eqn:Hx; [|done]. apply Hun. by apply (read_members_known _ _ _ _ _ Hx).
Qed.
