(* ===== verification/Bundled.v ===== *)
(** [include/driver/factory.h], [include/driver/base.h], [template/headers/build_id.hpp.in]
    and the drivers' classes: the bundled drivers as shared libraries, with the
    readers of DriverJson.v, the clock of Timestamp.v and the client of HttpClient.v,
    as the loader of Drivers.v finds them. *)
From S2P Require Import Prelude CppString Address Uri Config Io Http HttpClient StringUtil Signing Timestamp Scheduler Updater Drivers Json DriverJson Plugins SignedPlugins Cli.

(** * The identity of a build *)

Module BuildId.

(** One octet of the hash FNV-1a, modulo 2^64. *)
Definition fnv1a_octet (h c : Z) : Z := (Z.lxor h c * 0x100000001B3) `mod` 2 ^ 64.

(* @fn src/template/headers/build_id.hpp.in | std::uint64_t fnv1a_64(std::string_view s | BuildId::fnv1a_64 *)
Definition fnv1a_64 (s : bytes) (seed : Z) : Z := foldl fnv1a_octet seed s.

(** The parts with a bar between them. *)
(* @fn src/template/headers/build_id.hpp.in | auto feed = [&](std::string_view sv) { | BuildId::fnv1a_64_sep (feed) *)
Definition feed (state : bool * Z) (sv : bytes) : bool * Z :=
  let '(first, h) := state in
  (false, fnv1a_64 sv (if first then h else fnv1a_octet h (ch "|"))).

(* @fn src/template/headers/build_id.hpp.in | std::uint64_t fnv1a_64_sep( | BuildId::fnv1a_64_sep *)
Definition fnv1a_64_sep (parts : list bytes) : Z := (foldl feed (true, 0xCBF29CE484222325%Z) parts).2.

(** What CMake and the compiler put in. *)
Record build := {
  COMPILER_ID : bytes; COMPILER_VERSION : bytes; COMPILER_ABI : bytes;
  GLIBCXX_CXX11_ABI : bool; BUILD_TYPE : bytes; LIBC_TYPE : bytes
}.

(* @fn src/template/headers/build_id.hpp.in | constexpr std::uint64_t COMPILER_ID_HASH = | BuildId::COMPILER_ID_HASH *)
Definition COMPILER_ID_HASH (b : build) : Z :=
  fnv1a_64_sep [COMPILER_ID b; COMPILER_VERSION b; COMPILER_ABI b;
    if GLIBCXX_CXX11_ABI b then str "1" else str "0"; BUILD_TYPE b; LIBC_TYPE b].

(** The published hash of "foobar". *)
Example fnv1a_foobar : fnv1a_64 (str "foobar") 0xCBF29CE484222325 = 0x85944171f73967e8%Z.
Proof. vm_compute. done. Qed.

(** It is the hash of the parts joined with bars. *)
Lemma fnv1a_64_sep_join parts :
  fnv1a_64_sep parts = fnv1a_64 (join parts (str "|")) 0xCBF29CE484222325.
Proof.
  unfold fnv1a_64_sep. destruct parts as [|p parts]; [done|]. cbn [foldl feed].
  assert (∀ q h, (foldl feed (false, fnv1a_64 q h) parts).2 = fnv1a_64 (join (q :: parts) (str "|")) h) as Hrest; [|apply Hrest].
  induction parts as [|r parts IH]; intros q h; [done|].
  cbn [foldl feed]. rewrite IH. cbn [join]. unfold fnv1a_64. by rewrite !foldl_app.
Qed.
End BuildId.

(** * What a driver says of itself *)

(* @fn src/driver/alibaba_cloud/alibaba_cloud.cpp | AlibabaCloudDriver::get_detail() const noexcept { | AlibabaCloudDriver::get_detail *)
Definition AlibabaCloudDriver_detail : DriverDetail := {|
  dd_name := str "alibaba_cloud";
  dd_description := str "Updates DNS records via the Alibaba Cloud DNS API";
  dd_author := str "Kotarou"; dd_version := str "1.0.0"
|}.

(* @fn src/driver/cloudflare/cloudflare.cpp | CloudflareDriver::get_detail() const noexcept { | CloudflareDriver::get_detail *)
Definition CloudflareDriver_detail : DriverDetail := {|
  dd_name := str "cloudflare";
  dd_description := str "Updates DNS records via the Cloudflare API";
  dd_author := str "Kotarou"; dd_version := str "2.0.0"
|}.

(* @fn src/driver/digital_ocean/digital_ocean.cpp | DigitalOceanDriver::get_detail() const noexcept { | DigitalOceanDriver::get_detail *)
Definition DigitalOceanDriver_detail : DriverDetail := {|
  dd_name := str "digital_ocean";
  dd_description := str "Updates DNS records via the DigitalOcean API";
  dd_author := str "Kotarou"; dd_version := str "2.0.0"
|}.

(* @fn src/driver/dnspod/dnspod.cpp | DNSPodDriver::get_detail() const noexcept { | DNSPodDriver::get_detail *)
Definition DNSPodDriver_detail : DriverDetail := {|
  dd_name := str "dnspod";
  dd_description := str "Updates DNS records via the DNSPod API";
  dd_author := str "Kotarou"; dd_version := str "2.0.0"
|}.

(* @fn src/driver/duckdns/duckdns.cpp | DuckDnsDriver::get_detail() const noexcept { | DuckDnsDriver::get_detail *)
Definition DuckDnsDriver_detail : DriverDetail := {|
  dd_name := str "duckdns";
  dd_description := str "Updates DNS records via the DuckDNS API";
  dd_author := str "Kotarou"; dd_version := str "1.0.0"
|}.

(* @fn src/driver/godaddy/godaddy.cpp | GoDaddyDriver::get_detail() const noexcept { | GoDaddyDriver::get_detail *)
Definition GoDaddyDriver_detail : DriverDetail := {|
  dd_name := str "godaddy";
  dd_description := str "Updates DNS records via the GoDaddy API";
  dd_author := str "Kotarou"; dd_version := str "1.0.0"
|}.

(* @fn src/driver/linode/linode.cpp | LinodeDriver::get_detail() const noexcept { | LinodeDriver::get_detail *)
Definition LinodeDriver_detail : DriverDetail := {|
  dd_name := str "linode";
  dd_description := str "Updates DNS records via the Linode API";
  dd_author := str "Kotarou"; dd_version := str "1.0.0"
|}.

(* @fn src/driver/namecheap/namecheap.cpp | NamecheapDriver::get_detail() const noexcept { | NamecheapDriver::get_detail *)
Definition NamecheapDriver_detail : DriverDetail := {|
  dd_name := str "namecheap";
  dd_description := str "Updates DNS records via the Namecheap Dynamic DNS API";
  dd_author := str "Kotarou"; dd_version := str "1.0.0"
|}.

(* @fn src/driver/porkbun/porkbun.cpp | PorkbunDriver::get_detail() const noexcept { | PorkbunDriver::get_detail *)
Definition PorkbunDriver_detail : DriverDetail := {|
  dd_name := str "porkbun";
  dd_description := str "Updates DNS records via the Porkbun API";
  dd_author := str "Kotarou"; dd_version := str "1.0.0"
|}.

(* @fn src/driver/route53/route53.cpp | Route53Driver::get_detail() const noexcept { | Route53Driver::get_detail *)
Definition Route53Driver_detail : DriverDetail := {|
  dd_name := str "route53";
  dd_description := str "Updates DNS records via the AWS Route 53 API";
  dd_author := str "Kotarou"; dd_version := str "1.0.0"
|}.

(* @fn src/driver/simple/simple.cpp | SimpleDriver::get_detail() const noexcept { | SimpleDriver::get_detail *)
Definition SimpleDriver_detail : DriverDetail := {|
  dd_name := str "simple";
  dd_description := str "Generic HTTP driver with URL template substitution";
  dd_author := str "Kotarou"; dd_version := str "2.0.0"
|}.

(* @fn src/driver/vultr/vultr.cpp | VultrDriver::get_detail() const noexcept { | VultrDriver::get_detail *)
Definition VultrDriver_detail : DriverDetail := {|
  dd_name := str "vultr";
  dd_description := str "Updates DNS records via the Vultr API";
  dd_author := str "Kotarou"; dd_version := str "1.0.0"
|}.
(** * The classes *)

(** The drivers that [driver/CMakeLists.txt] builds, one for each directory. *)
Inductive plugin :=
| Alibaba_cloud | Cloudflare | Digital_ocean | Dnspod | Duckdns | Godaddy | Linode | Namecheap | Porkbun
| Route53 | Simple | Vultr.

#[global] Instance plugin_eq_dec : EqDecision plugin.
Proof. solve_decision. Defined.

Definition plugins : list plugin :=
  [Alibaba_cloud; Cloudflare; Digital_ocean; Dnspod; Duckdns; Godaddy; Linode; Namecheap; Porkbun; Route53; Simple; Vultr].

Definition get_detail (p : plugin) : DriverDetail :=
  match p with
  | Alibaba_cloud => AlibabaCloudDriver_detail
  | Cloudflare => CloudflareDriver_detail
  | Digital_ocean => DigitalOceanDriver_detail
  | Dnspod => DNSPodDriver_detail
  | Duckdns => DuckDnsDriver_detail
  | Godaddy => GoDaddyDriver_detail
  | Linode => LinodeDriver_detail
  | Namecheap => NamecheapDriver_detail
  | Porkbun => PorkbunDriver_detail
  | Route53 => Route53Driver_detail
  | Simple => SimpleDriver_detail
  | Vultr => VultrDriver_detail
  end.

(** The members of a JSON object; only strings are looked into. *)
Definition simple_object (j : json) : Simple.object :=
  match j with
  | JObject ms => Some ((λ kv, (kv.1, match kv.2 with JString s => Some s | _ => None end)) <$> ms)
  | _ => None
  end.

Section bundled.
Context {W : Type} `{Httplib W} `{InetText} `{Evp} `{Glaze} `{JsonText}.
(** The readings of the clocks, the first and the second of a request, and the random
    engine's number, which the world determines. *)
Context (time time' nanoseconds random : W → Z).
(** libxml2: the text nodes that an expression finds, without and with the prefix
    [r53], and a document as text. *)
Context (xpath_text xpath_r53 : bytes → bytes → option (list (option bytes))) (xml_dump : bytes → Route53.xml → option bytes).

Definition simple_read (config : bytes) : bytes + Simple.object :=
  match read_params glz_generic JNull config with inl error => inl error | inr j => inr (simple_object j) end.

(* @fn src/driver/alibaba_cloud/alibaba_cloud.h | class AlibabaCloudDriver final : public BaseDriver { | AlibabaCloudDriver *)
Definition AlibabaCloudDriver : BaseDriver W :=
  {| generate_request := λ config ctx w,
     (timestamp ← lift (alibaba_timestamp (time w));
      AlibabaCloud.generate_request (nanoseconds w) (random w) timestamp AlibabaJson.read config ctx) w;
     check_response := AlibabaCloud.check_response AlibabaJson.is_update |}.

(* @fn src/driver/cloudflare/cloudflare.h | class CloudflareDriver final : public BaseDriver { | CloudflareDriver *)
Definition CloudflareDriver : BaseDriver W :=
  {| generate_request := Cloudflare.generate_request CloudflareJson.read CloudflareJson.write;
     check_response := Cloudflare.check_response CloudflareJson.read_success |}.

(* @fn src/driver/digital_ocean/digital_ocean.h | class DigitalOceanDriver final : public BaseDriver { | DigitalOceanDriver *)
Definition DigitalOceanDriver : BaseDriver W :=
  {| generate_request := DigitalOcean.generate_request DigitalOceanJson.read DigitalOceanJson.write;
     check_response := DigitalOcean.check_response DigitalOceanJson.is_record |}.

(* @fn src/driver/dnspod/dnspod.h | class DNSPodDriver final : public BaseDriver { | DNSPodDriver *)
Definition DNSPodDriver : BaseDriver W :=
  {| generate_request := DnsPod.generate_request DnsPodJson.read;
     check_response := DnsPod.check_response DnsPodJson.read_status |}.

(* @fn src/driver/duckdns/duckdns.h | class DuckDnsDriver final : public BaseDriver { | DuckDnsDriver *)
Definition DuckDnsDriver : BaseDriver W :=
  {| generate_request := DuckDns.generate_request DuckDnsJson.read;
     check_response := DuckDns.check_response |}.

(* @fn src/driver/godaddy/godaddy.h | class GoDaddyDriver final : public BaseDriver { | GoDaddyDriver *)
Definition GoDaddyDriver : BaseDriver W :=
  {| generate_request := GoDaddy.generate_request GoDaddyJson.read GoDaddyJson.write;
     check_response := GoDaddy.check_response |}.

(* @fn src/driver/linode/linode.h | class LinodeDriver final : public BaseDriver { | LinodeDriver *)
Definition LinodeDriver : BaseDriver W :=
  {| generate_request := Linode.generate_request LinodeJson.read LinodeJson.write;
     check_response := Linode.check_response |}.

(* @fn src/driver/namecheap/namecheap.h | class NamecheapDriver final : public BaseDriver { | NamecheapDriver *)
Definition NamecheapDriver : BaseDriver W :=
  {| generate_request := Namecheap.generate_request NamecheapJson.read;
     check_response := Namecheap.check_response xpath_text |}.

(* @fn src/driver/porkbun/porkbun.h | class PorkbunDriver final : public BaseDriver { | PorkbunDriver *)
Definition PorkbunDriver : BaseDriver W :=
  {| generate_request := Porkbun.generate_request PorkbunJson.read PorkbunJson.write;
     check_response := Porkbun.check_response PorkbunJson.read_status |}.

(* @fn src/driver/route53/route53.h | class Route53Driver final : public BaseDriver { | Route53Driver *)
Definition Route53Driver : BaseDriver W :=
  {| generate_request := λ config ctx w,
     (amz_date ← lift (iso8601_timestamp (time w)); date_stamp ← lift (iso8601_date (time' w));
      Route53.generate_request xml_dump amz_date date_stamp Route53Json.read config ctx) w;
     check_response := Route53.check_response xpath_r53 |}.

(* @fn src/driver/simple/simple.h | class SimpleDriver final : public BaseDriver { | SimpleDriver *)
Definition SimpleDriver : BaseDriver W :=
  {| generate_request := Simple.generate_request simple_read;
     check_response := Simple.check_response |}.

(* @fn src/driver/vultr/vultr.h | class VultrDriver final : public BaseDriver { | VultrDriver *)
Definition VultrDriver : BaseDriver W :=
  {| generate_request := Vultr.generate_request VultrJson.read VultrJson.write;
     check_response := Vultr.check_response |}.
Definition instance_of (p : plugin) : BaseDriver W :=
  match p with
  | Alibaba_cloud => AlibabaCloudDriver
  | Cloudflare => CloudflareDriver
  | Digital_ocean => DigitalOceanDriver
  | Dnspod => DNSPodDriver
  | Duckdns => DuckDnsDriver
  | Godaddy => GoDaddyDriver
  | Linode => LinodeDriver
  | Namecheap => NamecheapDriver
  | Porkbun => PorkbunDriver
  | Route53 => Route53Driver
  | Simple => SimpleDriver
  | Vultr => VultrDriver
  end.

(** ** The libraries *)

(** The build: its identity and the version of the interface. *)
Context (build : BuildId.build) (DRV_ABI_VERSION : AbiVersion).
(** What the HTTP client of an update needs. *)
Context (discover_ca_bundle : option bytes) (full_version : bytes) (opts : HttpClientOptions).

(** The object that [new DriverClass] makes. *)
(* @fn src/include/driver/base.h | [[nodiscard]] AbiVersion get_abi_version() const noexcept final { | BaseDriver::get_abi_version *)
Definition new_driver (p : plugin) : Driver W := {|
  Drivers.get_abi_version := DRV_ABI_VERSION;
  Drivers.driver_name := dd_name (get_detail p);
  Drivers.execute := Plugins.execute (transient_exchange discover_ca_bundle full_version opts) (instance_of p)
|}.

(** Of the five symbols, those that the host resolves; it never asks for the fifth,
    [yaddnsc_drv_build_id_str]. *)
(* @src src/include/driver/factory.h 27 46 DEFINE_DRIVER_FACTORY *)
Definition DEFINE_DRIVER_FACTORY (p : plugin) : Library W := {|
  create := inr (Some (Some (new_driver p)));
  destroy := inr (Some tt);
  yaddnsc_drv_magic := inr (Some YADDNSC_DRIVER_MAGIC);
  yaddnsc_drv_compiler_id_hash := inr (Some (BuildId.COMPILER_ID_HASH build))
|}.
End bundled.

(** * Loading them *)

Lemma plugins_all p : p ∈ plugins.
Proof. apply (bool_decide_unpack _). destruct p; vm_compute; exact I. Qed.

Definition name_of (p : plugin) : bytes := dd_name (get_detail p).

Lemma names_distinct : NoDup (name_of <$> plugins).
Proof. apply (bool_decide_unpack _). vm_compute. exact I. Qed.

(** A list of drivers, by name. *)
Definition by_name {A} (make : plugin → A) (ps : list plugin) : gmap bytes A :=
  list_to_map ((λ p, (name_of p, make p)) <$> ps).

Lemma by_name_fst {A} (make : plugin → A) ps : ((λ p, (name_of p, make p)) <$> ps).*1 = name_of <$> ps.
Proof. by rewrite <- list_fmap_compose. Qed.

Lemma by_name_fmap {A} (make : plugin → A) ps : by_name make ps = make <$> by_name id ps.
Proof.
  unfold by_name. induction ps as [|p ps IH]; cbn [fmap list_fmap list_to_map foldr]; [by rewrite fmap_empty|].
  by rewrite fmap_insert, <- IH.
Qed.

Section loading.
Context {W : Type} (exists_file : bytes → bool) (dlopen : bytes → bytes + Library W).
Context (host_hash : Z) (abi : AbiVersion) (make : plugin → Driver W).

(** The file at the path is the library of that driver, fit for this host. *)
Definition holds (path : bytes) (p : plugin) : Prop :=
  provides dlopen exists_file host_hash abi path (make p) ∧ driver_name (make p) = name_of p.

Lemma load_driver_holds path p m :
  holds path p → m !! name_of p = None →
  load_driver dlopen exists_file host_hash abi path m = Ret (<[name_of p := make p]> m).
Proof.
  intros [(He & Ha & lib & Hl & Hm & Hh & Hc & Hd) Hn] Hnone.
  unfold load_driver, DriverModule, open_handle, verify_magic, verify_compiler, create_driver.
  rewrite He, Hl. cbn [negb mbind outcome_bind]. rewrite Hm, Hh, Hc, Hd. cbn [resolve_symbol mbind outcome_bind].
  rewrite !Z.eqb_refl. cbn. unfold register_driver, check_abi. cbn. rewrite Ha. cbn. by rewrite Hn, Hnone.
Qed.

Lemma load_all_holds libs m :
  Forall (λ l, holds l.1 l.2) libs → NoDup (name_of <$> libs.*2) →
  (∀ p, p ∈ libs.*2 → m !! name_of p = None) →
  load_all dlopen exists_file host_hash abi libs.*1 m = Ret (by_name make libs.*2 ∪ m).
Proof.
  intros Hl. revert m. induction Hl as [|[path p] libs Hp Hl IH]; intros m Hnd Hm; cbn [fmap list_fmap fst snd load_all].
  { unfold by_name. cbn. by rewrite (left_id_L ∅ (∪)). }
  cbn [fmap list_fmap fst snd] in Hnd, Hm. apply NoDup_cons in Hnd as [Hnew Hnd].
  rewrite (load_driver_holds _ p) by (done || apply Hm; left). cbn [mbind outcome_bind].
  rewrite IH; [|done|].
  - f_equal. unfold by_name. cbn [fmap list_fmap list_to_map foldr]. cbn.
    rewrite <- insert_union_l, insert_union_r; [done|]. apply not_elem_of_list_to_map_1. by rewrite by_name_fst.
  - intros q Hq. rewrite lookup_insert_ne; [apply Hm; by right|].
    intros Heq. apply Hnew. rewrite Heq. by apply list_elem_of_fmap_2.
Qed.
End loading.

Lemma loaded_names {W} (make : plugin → Driver W) :
  get_loaded_drivers (by_name make plugins) = name_of <$> plugins.
Proof.
  rewrite by_name_fmap. unfold get_loaded_drivers. rewrite map_to_list_fmap, <- list_fmap_compose.
  vm_compute. reflexivity.
Qed.

Lemma by_name_lookup {A} (make : plugin → A) p : by_name make plugins !! name_of p = Some (make p).
Proof.
  apply elem_of_list_to_map_1; [rewrite by_name_fst; apply names_distinct|].
  apply list_elem_of_fmap. exists p. split; [done|apply plugins_all].
Qed.

(** * Whom they contact *)

(** The hosts of each driver's service; the generic driver's is its configuration's. *)
Definition service (p : plugin) : option (list bytes) :=
  match p with
  | Alibaba_cloud => Some [str "alidns.aliyuncs.com"]
  | Cloudflare => Some [str "api.cloudflare.com"]
  | Digital_ocean => Some [str "api.digitalocean.com"]
  | Dnspod => Some [str "dnsapi.cn"; str "api.dnspod.com"]
  | Duckdns => Some [str "www.duckdns.org"]
  | Godaddy => Some [str "api.godaddy.com"]
  | Linode => Some [str "api.linode.com"]
  | Namecheap => Some [str "dynamicdns.park-your-domain.com"]
  | Porkbun => Some [str "api.porkbun.com"]
  | Route53 => Some [str "route53.amazonaws.com"]
  | Simple => None
  | Vultr => Some [str "api.vultr.com"]
  end.

Definition https_url (host : bytes) : bytes := str "https://" ++ host ++ str ":443".

Definition send_fn (W : Type) : Type := ClientSettings → HttpCall → W → (bytes + HttpResponse) * W.

(** The same HTTP library over another network. *)
Definition over {W} (lib : Httplib W) (send : send_fn W) : Httplib W :=
  {| httplib_send := send; encode_query_component := @encode_query_component W lib |}.

(** The clients that the options allow for these hosts: over TLS at port 443 of one
    of them, following redirects as the options say, and with the verification of
    the server left on unless the options turn it off. *)
Definition permitted (hosts : list bytes) (opts : HttpClientOptions) (client : ClientSettings) : Prop :=
  cs_base_url client ∈ https_url <$> hosts
  ∧ cs_follow_location client = default true (follow_location opts)
  ∧ (verify_server_cert opts ≠ Some false → cs_verify client ≠ Some false).

(** Two libraries that differ for no client of these hosts. *)
Definition same_for {W} (hosts : list bytes) (opts : HttpClientOptions) (send send' : send_fn W) : Prop :=
  ∀ client call w, permitted hosts opts client → send client call w = send' client call w.

Section contacts.
Context {W : Type} (lib : Httplib W) `{InetTextOk}.
Context (discover_ca_bundle : option bytes) (full_version : bytes) (opts : HttpClientOptions).

Lemma dispatch_same hosts send send' client path req w :
  same_for hosts opts send send' → permitted hosts opts client →
  @dispatch W (over lib send) client path req w = @dispatch W (over lib send') client path req w.
Proof. intros Hs Hc. unfold dispatch. cbn. by destruct (method req); apply Hs. Qed.

Lemma apply_options_permitted {E} hosts base_url u client :
  base_url ∈ https_url <$> hosts →
  apply_options (E:=E) discover_ca_bundle full_version base_url u opts = Ret client → permitted hosts opts client.
Proof.
  intros Hin Ha. unfold apply_options in Ha. apply bind_Ret_inv in Ha as (schema & _ & [= <-]).
  split; [exact Hin|]. split; [done|]. intros Hv. cbn.
  assert (default true (verify_server_cert opts) ≠ false) by (by destruct (verify_server_cert opts) as [[]|]).
  repeat case_match; congruence.
Qed.

Lemma exchange_same hosts send send' u r w :
  same_for hosts opts send send' → Uri.parse (url r) = Ret u →
  (∃ host, host ∈ hosts ∧ build_base_url (E:=UriError) u = Ret (https_url host)) →
  @transient_exchange W (over lib send) _ discover_ca_bundle full_version opts (url r) (request r) w
  = @transient_exchange W (over lib send') _ discover_ca_bundle full_version opts (url r) (request r) w.
Proof.
  intros Hs Hu (host & Hin & Hb). unfold transient_exchange, new_client, do_exchange, uri_st, mbind, st_bind.
  rewrite Hu, Hb. destruct (apply_options _ _ _ _ _) as [client|e| |] eqn:Ha; [|done..].
  destruct (build_request u) as [path|e| |]; [|done..]. unfold perform.
  rewrite (dispatch_same hosts send send'); [done..|].
  eapply apply_options_permitted; [|exact Ha]. by apply list_elem_of_fmap_2.
Qed.
End contacts.

Section requests.
Context {W : Type} (lib : Httplib W) `{InetTextOk} `{Evp} `{Glaze} `{JsonText}.
Context (time time' nanoseconds random : W → Z).
Context (xpath_text xpath_r53 : bytes → bytes → option (list (option bytes))) (xml_dump : bytes → Route53.xml → option bytes).

Abbreviation instance := (instance_of (H:=lib) time time' nanoseconds random xpath_text xpath_r53 xml_dump).

Lemma goes_to_service host (hosts : list bytes) m w r w' :
  m w = (Ret r, w') → goes_to (W:=W) host m → host ∈ hosts →
  ∃ u, Uri.parse (url r) = Ret u ∧ ∃ host, host ∈ hosts ∧ build_base_url (E:=UriError) u = Ret (https_url host).
Proof. intros Hm Hg Hin. destruct (Hg _ _ _ Hm) as (u & Hu & Hb). exists u. split; [done|]. by exists host. Qed.

(** A request that waits for a text of the clock. *)
Lemma goes_to_lift {A} host (o : outcome exn A) (m : A → st W exn DriverRequestContext) :
  (∀ a, goes_to host (m a)) → goes_to host (a ← lift o; m a).
Proof. intros Hm w r w'. unfold lift, mbind, st_bind. destruct o; [apply Hm|done..]. Qed.

Lemma request_hosts p hosts config ctx w r w' :
  service p = Some hosts → generate_request (instance p) config ctx w = (Ret r, w') →
  ∃ u, Uri.parse (url r) = Ret u ∧ ∃ host, host ∈ hosts ∧ build_base_url (E:=UriError) u = Ret (https_url host).
Proof.
  intros Hs Hg. destruct (bundled_hosts (W:=W) config ctx) as (Hdu & Hna & Hcl & Hdi & Hgo & Hli & Hpo & Hvu & Hdn & Hal & Hro).
  destruct p; try discriminate Hs; injection Hs as <-;
    cbn [instance_of AlibabaCloudDriver Route53Driver Plugins.generate_request] in Hg;
    lazymatch type of Hg with context [DNSPodDriver] => idtac | _ => eapply goes_to_service; [exact Hg| |left] end.
  - apply goes_to_lift. intros t. apply Hal.
  - apply Hcl.
  - apply Hdi.
  - destruct (Hdn _ _ _ _ Hg) as (u & Hu & Hb). exists u. split; [exact Hu|].
    apply elem_of_cons in Hb as [Hb|[Hb| []%elem_of_nil]%elem_of_cons].
    + exists (str "dnsapi.cn"). split; [left|exact Hb].
    + exists (str "api.dnspod.com"). split; [right; left|exact Hb].
  - apply Hdu.
  - apply Hgo.
  - apply Hli.
  - apply Hna.
  - apply Hpo.
  - apply goes_to_lift. intros t. apply goes_to_lift. intros t'. apply Hro.
  - apply Hvu.
Qed.
End requests.

(** * Properties *)

Section properties.
Context {generic W : Type} (lib : Httplib W) `{InetTextOk} `{Evp} `{Glaze} `{JsonText}.
Context (time time' nanoseconds random : W → Z).
Context (xpath_text xpath_r53 : bytes → bytes → option (list (option bytes))) (xml_dump : bytes → Route53.xml → option bytes).
Context (build : BuildId.build) (abi : AbiVersion).
Context (discover_ca_bundle : option bytes) (full_version : bytes) (opts : HttpClientOptions).

(** A bundled driver over a network. *)
Definition driver (send : send_fn W) (p : plugin) : Driver W :=
  new_driver (H:=over lib send) time time' nanoseconds random xpath_text xpath_r53 xml_dump abi
    discover_ca_bundle full_version opts p.

Definition library (send : send_fn W) (p : plugin) : Library W :=
  DEFINE_DRIVER_FACTORY (H:=over lib send) time time' nanoseconds random xpath_text xpath_r53 xml_dump build abi
    discover_ca_bundle full_version opts p.

Lemma driver_same p hosts send send' config ctx w :
  service p = Some hosts → same_for hosts opts send send' →
  Drivers.execute (driver send p) config ctx w = Drivers.execute (driver send' p) config ctx w.
Proof.
  intros Hs Hsame. cbn [driver new_driver Drivers.execute]. unfold Plugins.execute, mbind, st_bind.
  assert (∀ s, instance_of (H:=over lib s) time time' nanoseconds random xpath_text xpath_r53 xml_dump p
    = instance_of (H:=lib) time time' nanoseconds random xpath_text xpath_r53 xml_dump p) as Hi by (intros s; by destruct p).
  rewrite !Hi. destruct (generate_request _ config ctx w) as [[r|e| |] w1] eqn:Hg; [|done..].
  destruct (request_hosts lib time time' nanoseconds random xpath_text xpath_r53 xml_dump _ _ _ _ _ _ _ Hs Hg) as (u & Hu & Hb).
  by rewrite (exchange_same lib discover_ca_bundle full_version opts hosts send send' u r w1).
Qed.
(** C36: In a directory with the twelve bundled drivers, in any order and among other
    files, auto-discovery loads all of them if they come from a build with the
    host's identity and a compatible interface: each is found under its own name,
    none shadows another.  And whatever its parameters and the update are, a driver
    of a service gives its requests only to clients for https at port 443 of a host
    of that service, made with the options' own answer on redirects and with the
    server verified unless the options say not to: two HTTP libraries that agree on
    those clients give the same outcome.  Where a library goes to answer such a
    client is its own affair; without an option it is told to follow redirects, and
    those may lead to other hosts. *)
Theorem bundled_drivers (dlopen : bytes → bytes + Library W) (exists_file is_directory : bytes → bool)
    (directory : bytes → list (bytes * bool)) (host_abi : AbiVersion) (default_dir : bytes) (cfg : AppConfig generic)
    (libs : list (bytes * plugin)) (send : send_fn W) :
  let base := default default_dir (driver_dir (app_driver cfg)) in
  auto_discover (app_driver cfg) = true → driver_dir (app_driver cfg) ≠ Some [] →
  exists_file base = true → is_directory base = true →
  filter (λ path, extension path = str ".so") (filter (λ e, e.2 = true) (directory base)).*1 = libs.*1 →
  libs.*2 ≡ₚ plugins →
  Forall (λ l, exists_file l.1 = true ∧ dlopen l.1 = inr (library send l.2)) libs →
  is_compatible_with abi host_abi = true →
  ∃ m, load_drivers dlopen exists_file is_directory directory (BuildId.COMPILER_ID_HASH build) host_abi default_dir cfg ∅
         = Ret m
    ∧ get_loaded_drivers m = [str "alibaba_cloud"; str "cloudflare"; str "digital_ocean"; str "dnspod"; str "duckdns";
        str "godaddy"; str "linode"; str "namecheap"; str "porkbun"; str "route53"; str "simple"; str "vultr"]
    ∧ ∀ p, get_driver (name_of p) m = Ret (driver send p)
        ∧ ∀ hosts send' config ctx w, service p = Some hosts → same_for hosts opts send send' →
            Drivers.execute (driver send p) config ctx w = Drivers.execute (driver send' p) config ctx w.
Proof.
  intros base Hauto Hdir He Hd Hfiles Hlibs Hall Habi. exists (by_name (driver send) plugins). split_and!.
  - unfold load_drivers, load_auto_discover. rewrite Hauto.
    assert (resolve_driver_base default_dir (driver_dir (app_driver cfg)) = Ret base) as ->.
    { unfold base. destruct (driver_dir (app_driver cfg)) as [dir|]; [|done]. cbn. by rewrite bool_decide_false by congruence. }
    cbn [mbind outcome_bind]. rewrite He, Hd. cbn [negb]. rewrite Hfiles, (load_all_holds _ _ _ _ (driver send)).
    + f_equal. rewrite (right_id_L ∅ (∪)). unfold by_name. apply list_to_map_proper; [|by rewrite Hlibs].
      rewrite by_name_fst, Hlibs. apply names_distinct.
    + eapply Forall_impl; [exact Hall|]. intros [path p] [Hp Hl]. split; [|done].
      split; [exact Hp|]. split; [exact Habi|]. eexists. split; [exact Hl|]. by split_and!.
    + rewrite Hlibs. apply names_distinct.
    + done.
  - apply loaded_names.
  - intros p. split; [|by intros; eapply driver_same].
    unfold get_driver. by rewrite by_name_lookup.
Qed.
End properties.

(** ** An example *)

#[local] Existing Instances sample_httplib sample_evp.
#[local] Existing Instances reference_glaze.
#[local] Instance no_json : JsonText := {| json_parse _ := inl []; json_print _ := None; json_error _ := [] |}.

Definition sample_build : BuildId.build := {|
  BuildId.COMPILER_ID := str "GNU"; BuildId.COMPILER_VERSION := str "15.2.0"; BuildId.COMPILER_ABI := str "libstdc++";
  BuildId.GLIBCXX_CXX11_ABI := true; BuildId.BUILD_TYPE := str "Release"; BuildId.LIBC_TYPE := str "glibc"
|}.

Definition no_network : send_fn unit := λ _ _ w, (inl [], w).

(** A driver's library over a network without servers. *)
Definition sample_driver : plugin → Driver unit :=
  driver (H:=Uri.sample_text) sample_httplib (λ _, 0%Z) (λ _, 0%Z) (λ _, 0%Z) (λ _, 0%Z) (λ _ _, None) (λ _ _, None)
    (λ _ _, None) sample_abi None [] no_options no_network.

Definition sample_library : plugin → Library unit :=
  library (H:=Uri.sample_text) sample_httplib (λ _, 0%Z) (λ _, 0%Z) (λ _, 0%Z) (λ _, 0%Z) (λ _ _, None) (λ _ _, None)
    (λ _ _, None) sample_build sample_abi None [] no_options no_network.

(** A directory with the drivers in another order, a text and a subdirectory. *)
Definition in_opt (name : bytes) : bytes := str "/opt/drivers/" ++ name.
Definition sample_libs : list (bytes * plugin) := (λ p, (in_opt (name_of p ++ str ".so"), p)) <$> rev plugins.
Definition sample_directory (base : bytes) : list (bytes * bool) :=
  (in_opt (str "README"), true) :: ((λ l, (l.1, true)) <$> sample_libs) ++ [(in_opt (str "old.so"), false)].
Definition sample_open (path : bytes) : bytes + Library unit :=
  match snd <$> list_find (λ l, l.1 = path) sample_libs with
  | Some l => inr (sample_library l.2)
  | None => inl (str "no such file")
  end.

Definition opt_config : AppConfig unit := {|
  app_driver := {| driver_dir := Some (str "/opt/drivers"); auto_discover := true; load := [] |};
  app_resolver := {| use_custom_server := false; rc_address := []; rc_port := 53; rc_servers := []; rc_strategy := FALLBACK |};
  app_domains := []
|}.

Lemma sample_open_libs : Forall (λ l, true = true ∧ sample_open l.1 = inr (sample_library l.2)) sample_libs.
Proof.
  assert (Forall (λ l, snd <$> list_find (λ l', l'.1 = l.1) sample_libs = Some l) sample_libs) as Hfind
    by (apply (bool_decide_unpack _); vm_compute; exact I).
  eapply Forall_impl; [exact Hfind|]. intros l Hl. split; [done|]. unfold sample_open. by rewrite Hl.
Defined.

Lemma bundled_drivers_witness :
  ∃ m, load_drivers sample_open (λ _, true) (λ _, true) sample_directory (BuildId.COMPILER_ID_HASH sample_build) sample_abi
         [] opt_config ∅ = Ret m
    ∧ length (get_loaded_drivers m) = 12 ∧ get_driver (str "vultr") m = Ret (sample_driver Vultr).
Proof.
  destruct (bundled_drivers (H:=Uri.sample_text) (H0:=Uri.sample_text_ok) sample_httplib (λ _, 0%Z) (λ _, 0%Z) (λ _, 0%Z)
    (λ _, 0%Z) (λ _ _, None) (λ _ _, None) (λ _ _, None) sample_build sample_abi None [] no_options
    sample_open (λ _, true) (λ _, true) sample_directory sample_abi [] opt_config sample_libs no_network)
    as (m & Hm & Hnames & Hall).
  - reflexivity.
  - discriminate.
  - reflexivity.
  - reflexivity.
  - vm_compute. reflexivity.
  - apply (bool_decide_unpack _). vm_compute. exact I.
  - exact sample_open_libs.
  - reflexivity.
  - exists m. split; [exact Hm|]. split; [rewrite Hnames; reflexivity|exact (proj1 (Hall Vultr))].
Defined.
