(* ===== verification/SignalWatcher.v ===== *)
(** [src/core/signal_watcher.cpp]: the thread that waits for SIGINT and SIGTERM,
    the stop request it makes, its escalation, and the destructor that ends it.
    The thread's steps, the destructor's and the arrival of signals interleave. *)
From S2P Require Import Prelude CppString.

Module SignalWatcher.

Inductive signal := SIGINT | SIGTERM.

#[global] Instance signal_eq_dec : EqDecision signal.
Proof. solve_decision. Defined.

(** * Start-up *)

(** The two static members. *)
(* @src src/src/core/signal_watcher.cpp 15 16 SignalWatcher (static members) *)
Record statics := { signals_blocked_ : bool; instance_created_ : bool }.

Definition initial_statics : statics := {| signals_blocked_ := false; instance_created_ := false |}.

(** [pthread_sigmask] returned [rc]; [None] is [std::terminate]. *)
(* @fn src/src/core/signal_watcher.cpp | void SignalWatcher::install() { | SignalWatcher::install *)
Definition install (rc : Z) (s : statics) : option statics :=
  if negb (rc =? 0)%Z then None
  else Some {| signals_blocked_ := true; instance_created_ := instance_created_ s |}.

(** * The process *)

(** Where the thread is in [signal_loop]. *)
(* @fn src/src/core/signal_watcher.cpp | void SignalWatcher::signal_loop( | SignalWatcher::signal_loop (control points) *)
Inductive loop_pc :=
| Testing
| Waiting
| Received (sig : signal)
| Handling (sig : signal)
| Exited.

(** Where the destructor is: it has not begun, has requested the thread's stop,
    has sent its signal, or has joined the thread. *)
(* @fn src/src/core/signal_watcher.cpp | SignalWatcher::~SignalWatcher() { | SignalWatcher::~SignalWatcher (control points) *)
Inductive dtor_pc := Alive | StopAsked | Woken | Destroyed.

#[global] Instance dtor_pc_eq_dec : EqDecision dtor_pc.
Proof. solve_decision. Defined.

(** [stop]: a stop has been requested of [stop_source_].  Signals that are
    blocked are pending once at most.  [handled]: the signals that the loop has
    acted on, the last first (not read by any step). *)
Record state := {
  pc : loop_pc;
  dtor : dtor_pc;
  sigint_count : Z;
  stop : bool;
  pending : signal → bool;
  killed : bool;
  handled : list signal
}.

(** [st.stop_requested()], the thread's own token. *)
Definition st_requested (s : state) : bool :=
  match dtor s with Alive => false | _ => true end.

Definition at_pc (p : loop_pc) (s : state) : state :=
  {| pc := p; dtor := dtor s; sigint_count := sigint_count s; stop := stop s;
     pending := pending s; killed := killed s; handled := handled s |}.

Definition at_dtor (d : dtor_pc) (s : state) : state :=
  {| pc := pc s; dtor := d; sigint_count := sigint_count s; stop := stop s;
     pending := pending s; killed := killed s; handled := handled s |}.

Definition with_pending (sig : signal) (b : bool) (s : state) : state :=
  {| pc := pc s; dtor := dtor s; sigint_count := sigint_count s; stop := stop s;
     pending := λ sig', if bool_decide (sig' = sig) then b else pending s sig';
     killed := killed s; handled := handled s |}.

(** [kill(getpid(), sig)], which every thread blocks, and its arrival from outside. *)
Definition kill (sig : signal) : state → state := with_pending sig true.

Definition kill_hard (s : state) : state :=
  {| pc := pc s; dtor := dtor s; sigint_count := sigint_count s; stop := stop s;
     pending := pending s; killed := true; handled := handled s |}.

(** A second request changes nothing but is logged. *)
(* @fn src/src/core/signal_watcher.cpp | auto request_stop = [this] | SignalWatcher::signal_loop (request_stop) *)
Definition request_stop (s : state) : state :=
  {| pc := pc s; dtor := dtor s; sigint_count := sigint_count s; stop := true;
     pending := pending s; killed := killed s; handled := handled s |}.

Definition counted (n : Z) (sig : signal) (s : state) : state :=
  {| pc := pc s; dtor := dtor s; sigint_count := n; stop := stop s;
     pending := pending s; killed := killed s; handled := sig :: handled s |}.

(* @src src/src/core/signal_watcher.cpp 92 103 SignalWatcher::signal_loop (SIGINT) *)
Definition on_sigint (s : state) : state :=
  let count := (sigint_count s + 1)%Z in
  let s := counted count SIGINT s in
  if (count =? 1)%Z then request_stop s
  else if (count =? 2)%Z then kill SIGTERM s
  else kill_hard s.

(* @src src/src/core/signal_watcher.cpp 104 114 SignalWatcher::signal_loop (SIGTERM) *)
Definition on_sigterm (s : state) : state :=
  let s := counted (sigint_count s) SIGTERM s in
  if (sigint_count s =? 0)%Z then request_stop s else s.

Definition on_signal (sig : signal) : state → state :=
  match sig with SIGINT => on_sigint | SIGTERM => on_sigterm end.

(** What the next step of the thread makes of the state, if it can go on;
    [choice] is the signal that [sigwait] takes. *)
(* @fn src/src/core/signal_watcher.cpp | while (!st.stop_requested()) { | SignalWatcher::signal_loop *)
Definition loop_step (choice : signal) (s : state) : option state :=
  match pc s with
  | Testing => Some (at_pc (if st_requested s then Exited else Waiting) s)
  | Waiting => if pending s choice then Some (at_pc (Received choice) (with_pending choice false s)) else None
  | Received sig => Some (at_pc (if st_requested s then Exited else Handling sig) s)
  | Handling sig => Some (at_pc Testing (on_signal sig s))
  | Exited => None
  end.

(** The last step is the join in [~jthread]. *)
(* @fn src/src/core/signal_watcher.cpp | SignalWatcher::~SignalWatcher() { | SignalWatcher::~SignalWatcher *)
Definition dtor_step (s : state) : option state :=
  match dtor s with
  | Alive => Some (at_dtor StopAsked s)
  | StopAsked => Some (at_dtor Woken (kill SIGINT s))
  | Woken => match pc s with Exited => Some (at_dtor Destroyed s) | _ => None end
  | Destroyed => None
  end.

Inductive label := LArrival | LLoop | LDtor.

(** A process that has been killed makes no step. *)
(* @src src/src/core/signal_watcher.cpp 45 116 SignalWatcher (interleavings) *)
Inductive step : label → state → state → Prop :=
| step_arrival sig s : killed s = false → step LArrival s (kill sig s)
| step_loop choice s s' : killed s = false → loop_step choice s = Some s' → step LLoop s s'
| step_dtor s s' : killed s = false → dtor_step s = Some s' → step LDtor s s'.

Definition any_step (s s' : state) : Prop := ∃ l, step l s s'.

(** The state after construction; signals may be pending since [install]. *)
Definition started (arrived : signal → bool) : state :=
  {| pc := Testing; dtor := Alive; sigint_count := 0; stop := false; pending := arrived;
     killed := false; handled := [] |}.

(** The constructor starts the thread, or throws a [std::logic_error]. *)
(* @fn src/src/core/signal_watcher.cpp | SignalWatcher::SignalWatcher() { | SignalWatcher::SignalWatcher *)
Definition construct (arrived : signal → bool) (s : statics) : outcome bytes (state * statics) :=
  if negb (signals_blocked_ s) then Throw (str "SignalWatcher: install() must be called before construction")
  else if instance_created_ s then Throw (str "SignalWatcher: only one instance allowed")
  else Ret (started arrived, {| signals_blocked_ := signals_blocked_ s; instance_created_ := true |}).

Definition reachable (arrived : signal → bool) : state → Prop := rtc any_step (started arrived).
End SignalWatcher.
Import SignalWatcher.

(** * What the loop has done *)

Fixpoint sigints (l : list signal) : nat :=
  match l with [] => 0 | SIGINT :: l => S (sigints l) | SIGTERM :: l => sigints l end.

(** What the signals handled so far have led to. *)
Record handled_inv (s : state) : Prop := {
  hi_count : sigint_count s = Z.of_nat (sigints (handled s));
  hi_stop : stop s = match handled s with [] => false | _ => true end;
  hi_killed : killed s = (3 <=? sigints (handled s));
  hi_most : sigints (handled s) ≤ 3
}.

(** The destructor's signal waits for a thread that waits for signals. *)
Definition woken_inv (s : state) : Prop :=
  match dtor s with
  | Woken => pc s = Waiting → pending s SIGINT = true
  | Destroyed => pc s = Exited
  | _ => True
  end.

#[local] Arguments Nat.leb : simpl never.

Lemma handled_inv_signal sig s : handled_inv s → killed s = false → handled_inv (on_signal sig s).
Proof.
  intros [Hc Hs Hk Hm] Hl. rewrite Hl in Hk. symmetry in Hk. apply Nat.leb_gt in Hk.
  assert (sigints (handled s) ≠ 0 → stop s = true) as Hst by (rewrite Hs; by destruct (handled s)).
  destruct sig; simpl; [unfold on_sigint|unfold on_sigterm]; simpl; rewrite Hc;
    split; simpl; repeat (match goal with |- context [if ?b then _ else _] => destruct b eqn:? end);
    prop_of_bool; simpl; try rewrite Hl; try (apply Hst); try lia; try done;
    symmetry; first [apply Nat.leb_gt; lia|apply Nat.leb_le; lia].
Qed.

Ltac signal_step H :=
  unfold loop_step, dtor_step in H; repeat case_match; try done; injection H as <-.

Lemma handled_inv_step l s s' : handled_inv s → step l s s' → handled_inv s'.
Proof.
  intros Hinv Hs. destruct Hs as [sig s Hk|choice s s' Hk Hs|s s' Hk Hs].
  - by destruct Hinv.
  - signal_step Hs; try by destruct Hinv. by destruct (handled_inv_signal sig s Hinv Hk).
  - signal_step Hs; by destruct Hinv.
Qed.

Lemma on_signal_pending sig s : pending s SIGINT = true → pending (on_signal sig s) SIGINT = true.
Proof. intros H. destruct sig; simpl; unfold on_sigint, on_sigterm; repeat case_match; done. Qed.

Lemma on_signal_dtor sig s : dtor (on_signal sig s) = dtor s.
Proof. destruct sig; simpl; unfold on_sigint, on_sigterm; repeat case_match; done. Qed.

Lemma woken_inv_step l s s' : woken_inv s → step l s s' → woken_inv s'.
Proof.
  unfold woken_inv. intros Hinv Hs. destruct Hs as [sig s Hk|choice s s' Hk Hs|s s' Hk Hs]; simpl.
  - destruct (dtor s) eqn:Hd; try done. intros Hw. by case_bool_decide; [|apply Hinv].
  - unfold loop_step, st_requested in Hs.
    destruct (pc s) eqn:Hp, (dtor s) eqn:Hd; simpl in *; try (destruct (pending s choice); [|done]);
      try done; injection Hs as <-; cbn [at_pc with_pending dtor pc]; rewrite ?on_signal_dtor, ?Hd; done.
  - unfold dtor_step in Hs. destruct (dtor s) eqn:Hd; [| |destruct (pc s) eqn:Hp|done]; try done;
      injection Hs as <-; simpl; done.
Qed.

Lemma reachable_inv arrived s : reachable arrived s → handled_inv s ∧ woken_inv s.
Proof.
  intros Hr. apply (rtc_ind_r (λ s, handled_inv s ∧ woken_inv s) (started arrived)) with (3 := Hr).
  - split; [split; simpl; done || lia|done].
  - intros y z _ [l Hl] [Hy Hw]. split; [by eapply handled_inv_step|by eapply woken_inv_step].
Qed.

(** * The end *)

(** How many steps of the thread and of the destructor are left, once the
    destructor has begun. *)
Definition steps_left (s : state) : nat :=
  match dtor s with Alive => 3 | StopAsked => 2 | Woken => 1 | Destroyed => 0 end
  + match pc s with Handling _ => 4 | Waiting => 3 | Received _ => 2 | Testing => 1 | Exited => 0 end.

Lemma loop_step_decreases choice s s' :
  loop_step choice s = Some s' → st_requested s = true → steps_left s' < steps_left s.
Proof.
  unfold loop_step, steps_left. intros Hs Hst. rewrite Hst in Hs.
  destruct (pc s) eqn:Hp; [|destruct (pending s choice); [|done]| | |done]; injection Hs as <-;
    cbn [at_pc with_pending dtor pc]; rewrite ?on_signal_dtor; lia.
Qed.

Lemma dtor_step_decreases s s' : dtor_step s = Some s' → steps_left s' < steps_left s.
Proof.
  unfold dtor_step, steps_left. intros Hs.
  destruct (dtor s) eqn:Hd; [| |destruct (pc s) eqn:Hp; try done|done]; injection Hs as <-;
    cbn [at_dtor kill with_pending dtor pc]; rewrite ?Hp; lia.
Qed.

(** Once the destructor has begun something can be done until it has ended. *)
Lemma watcher_progress s :
  woken_inv s → killed s = false → st_requested s = true → dtor s ≠ Destroyed →
  ∃ l s', l ≠ LArrival ∧ step l s s'.
Proof.
  unfold woken_inv, st_requested. intros Hw Hk Hst Hd.
  destruct (dtor s) eqn:He; try done.
  - exists LDtor. eexists. split; [done|]. apply step_dtor; [done|]. unfold dtor_step. by rewrite He.
  - destruct (pc s) eqn:Hp; [..|exists LDtor; eexists; (split; [done|]); apply step_dtor; [done|];
      unfold dtor_step; by rewrite He, Hp].
    all: exists LLoop; eexists; (split; [done|]); apply (step_loop SIGINT); [done|]; unfold loop_step; rewrite Hp; try done.
    by rewrite Hw.
Qed.

(** * Properties *)

(** C27: Whatever signals arrive and whenever: a stop has been requested exactly
    when the watcher has acted on a signal, and the process is killed exactly at
    the third SIGINT it has acted on.  The SIGTERM of the escalation's second
    stage does nothing: once a SIGINT has been seen, acting on a SIGTERM changes
    neither the stop request, nor the pending signals, nor the process.  And the
    destructor ends: until it has joined the thread one of the two can go on, and
    each of their steps brings the end nearer. *)
Theorem watcher_spec (arrived : signal → bool) (s : state) :
  reachable arrived s →
  (stop s = true ↔ handled s ≠ []) ∧ (killed s = true ↔ sigints (handled s) = 3)
  ∧ (sigints (handled s) ≠ 0 → stop (on_signal SIGTERM s) = stop s
       ∧ killed (on_signal SIGTERM s) = killed s ∧ pending (on_signal SIGTERM s) = pending s)
  ∧ (st_requested s = true → killed s = false →
       (dtor s = Destroyed ∨ ∃ l s', l ≠ LArrival ∧ step l s s')
       ∧ ∀ l s', step l s s' → l = LArrival ∨ steps_left s' < steps_left s).
Proof.
  intros Hr. destruct (reachable_inv arrived s Hr) as [[Hc Hs Hk Hm] Hw]. split_and!.
  - rewrite Hs. by destruct (handled s).
  - rewrite Hk, Nat.leb_le. lia.
  - intros Hn. simpl. unfold on_sigterm. simpl. rewrite Hc. by destruct (sigints (handled s)).
  - intros Hst Hl. split.
    + destruct (decide (dtor s = Destroyed)) as [|Hd]; [by left|right]. by apply watcher_progress.
    + intros l s' Hstep. destruct Hstep as [| |]; [by left|right..];
        [by eapply loop_step_decreases|by eapply dtor_step_decreases].
Qed.

(** * Witness *)

(** A schedule: a signal that arrives, or steps of the thread and what they take. *)
Fixpoint run (schedule : list (signal + signal)) (s : state) : option state :=
  match schedule with
  | [] => Some s
  | inl sig :: schedule => if killed s then None else run schedule (kill sig s)
  | inr choice :: schedule => if killed s then None else loop_step choice s ≫= run schedule
  end.

Lemma run_reaches schedule s s' : run schedule s = Some s' → rtc any_step s s'.
Proof.
  revert s. induction schedule as [|[sig|choice] schedule IH]; intros s Hs; simpl in Hs.
  - injection Hs as <-. apply rtc_refl.
  - destruct (killed s) eqn:Hk; [done|]. eapply rtc_l; [eexists; by apply (step_arrival sig)|by apply IH].
  - destruct (killed s) eqn:Hk; [done|]. destruct (loop_step choice s) as [s1|] eqn:Hl; [|done].
    eapply rtc_l; [eexists; by eapply (step_loop choice)|by apply IH].
Qed.

(** One round of the loop. *)
Definition taking (sig : signal) : list (signal + signal) := [inr sig; inr sig; inr sig; inr sig].

(** Three SIGINTs, each taken before the next arrives; the second one's SIGTERM
    is taken before the third. *)
Definition three_sigints : list (signal + signal) :=
  inl SIGINT :: taking SIGINT ++ inl SIGINT :: taking SIGINT ++ taking SIGTERM ++ inl SIGINT :: taking SIGINT.

Definition no_signal (sig : signal) : bool := false.

Lemma watcher_spec_witness :
  match run three_sigints (started no_signal) with
  | Some s => handled s = [SIGINT; SIGTERM; SIGINT; SIGINT] ∧ killed s = true ∧ stop s = true
  | None => False
  end.
Proof.
  destruct (run three_sigints (started no_signal)) as [s|] eqn:Hs; [|by vm_compute in Hs].
  destruct (watcher_spec no_signal s (run_reaches _ _ _ Hs)) as (Hstop & Hkilled & _).
  assert (handled s = [SIGINT; SIGTERM; SIGINT; SIGINT]) as Hh.
  { apply (f_equal (option_map handled)) in Hs. simpl in Hs. apply (inj Some). rewrite <- Hs. vm_compute. reflexivity. }
  split; [exact Hh|]. split; [apply Hkilled; by rewrite Hh|apply Hstop; by rewrite Hh].
Defined.
